(* ===== verification/_CoqProject ===== *)
-Q . S2P
Prelude.v
Exceptions.v
Text.v
Logging.v
VirtualAddressing.v
FlatMemory.v
MainMemory.v
MainMemoryFacts.v
MainMemoryTheorems.v
PageTableWalker.v
PageTableWalkerFacts.v
PageTableWalkerTheorems.v
MemoryPort.v
MemoryPortTheorems.v
CorePorts.v
CorePortsTheorems.v
DataCachePort.v
DataCacheFacts.v
DataCacheTheorems.v
InstructionCachePort.v
InstructionCacheTheorems.v
ArgumentParser.v
ArgumentParserTheorems.v
BinaryParser.v
BinaryParserFacts.v
BinaryParserTheorems.v
Simulation.v
SimulationTheorems.v
SimulationTraces.v
SimulationLoading.v
Harnesses.v
HarnessTheorems.v
TileLink.v
TlPrinting.v
TlEndpoint.v
TlMessages.v
TlMessagesTheorems.v
TlConfig.v
TlConfigTheorems.v
TlChannels.v
TlHarness.v
TlReceiver.v
TlSender.v
TlSenderTheorems.v
TlQueue.v
TlWorlds.v
TlResponder.v
TlExchange.v
TlProbes.v
TlMain.v
TlAssertions.v
TlTests.v
TlTraffic.v
TlAssertionsTheorems.v
TlWired.v
TlWiredSenders.v
TlWatched.v
TlWiredCycle.v
TlWiredTheorems.v
TlChecked.v
TlMainTheorems.v
TlTestsTheorems.v
