(* ===== verification/Prelude.v ===== *)
(** * Muntjac simulators and TileLink tester: verification library

    Muntjac is a RISC-V core. The repository's own C++ code is (a) the simulators
    under [src/flows/verilator/src], which connect the core or its pipeline,
    compiled to C++ by Verilator, to a model of memory and load RISC-V programs
    into it, and (b) the tester of the TileLink components under
    [src/test/tilelink/src], which generates random legal traffic and answers it.
    This library models both as Rocq functions and proves what they promise.

    ** How the program works

    [main] of a harness parses the command line ([ArgumentParser]), loads the ELF
    file ([BinaryParser]) into [MainMemory], and runs [RISCVSimulation::run]: reset,
    then two half cycles per turn, in which the harness evaluates the device and
    calls [set_outputs] and [get_inputs] of its memory ports. A port takes the
    device's request, performs it on memory (the cache ports after translating the
    address with [PageTableWalkerSv39]), and queues the response, which the base
    class [MemoryPort] releases after a latency. A store to [tohost] or [fromhost]
    is a system call: it prints a character or ends the run.

    [main] of the tester reads a configuration of hosts and devices, resets the network
    under test, and runs directed tests or random traffic. In a cycle every host and
    device sets its flow control, sends beats ([TileLinkSender]) and handles the beats
    that arrive ([TileLinkReceiver]): requests on channels A and C are answered on D,
    acquires also probe the other hosts on B, which answer on C, and grants are
    acknowledged on E.

    ** Conventions

    A [w]-bit unsigned integer is a [Z], with [u8] to [u64] for the conversions and
    [s32], [s64] for the signed ones (this file). Stateful code is in the monad
    [M E S A]: a state is threaded, and the [outcome] is a value, an exception, a
    failed assertion, a call of [exit], undefined behaviour, or exhausted fuel.
    Loops that the code bounds use that bound as fuel and theorems show that it is
    enough; only loops that draw random numbers until they succeed can run out.
    Definitions keep the names of the code. Theorems numbered C1 to C40 are the
    properties of the development; each has a concrete witness where it has
    hypotheses. Every other lemma serves them.

    ** The files, and the code they model

    - [Exceptions]: [types.h], [exceptions.h/.cc]. Exceptions and RISC-V causes.
    - [VirtualAddressing]: [virtual_addressing.h], [page_table_entry.h].
    - [FlatMemory]: the abstract memory, a map from 64-bit addresses to bytes, with
      the equivalence [≡ₘ] up to which memories are compared.
    - [MainMemory]: [main_memory.h/.cc], [data_block.h/.cc], over a typeclass
      [SystemCalls] (what the memory calls back) and [Uninitialised] (the contents
      of memory never written). [MainMemoryFacts], [MainMemoryTheorems]: every
      access refines the flat memory, exactly when it faults, round trips, and the
      invariant of all reachable memories.
    - [PageTableWalker]: [page_table_walker.h/.cc], and the Sv39 algorithm of the
      privileged specification as a relation. [PageTableWalkerFacts],
      [PageTableWalkerTheorems]: the walker refines it, up to the truncation of the
      result to 32 bits.
    - [MemoryPort]: [memory_port.h/.cc]. The virtual methods are the class
      [Methods]; the class [Laws] is what the base class relies on.
      [MemoryPortTheorems]: responses are in order and on time, for every port that
      has the laws.
    - [CorePorts]: the two ports of [core_harness.cc]. [CorePortsTheorems]: what an
      access does, and the laws.
    - [DataCachePort]: [data_cache_port.h]. [DataCacheFacts], [DataCacheTheorems]:
      its requests refine a specification on the flat memory with one reservation;
      extensions, atomic operations, exceptions, and the laws.
    - [InstructionCachePort], [InstructionCacheTheorems]:
      [instruction_cache_port.h], likewise.
    - [ArgumentParser], [ArgumentParserTheorems]: [argument_parser.h/.cc] and the
      grammar it implements.
    - [BinaryParser]: [binary_parser.h/.cc] over streams of bytes; the file system is
      the class [FileSystem]. [BinaryParserFacts], [BinaryParserTheorems]: the
      argument block, loading as writes to the flat memory, symbols.
    - [Simulation]: [simulation.h], over the class [SimulationMethods] of its virtual
      methods. [SimulationTheorems]: the run ends, system calls, reset, against the
      interface [MethodsLaws]. [SimulationLoading]: command line and program.
    - [Harnesses]: the subclasses of [core_harness.cc] and [pipeline_harness.cc]; the
      class that Verilator generates is a parameter ([Device], [CoreWrapper],
      [PipelineWrapper]). [HarnessTheorems]: the contracts of the devices, from which
      both harnesses have [MethodsLaws], and every port of a whole simulation
      answers on time.
    - [SimulationTraces]: the calls on waveform, coverage and CSV files during a run.
      The waveform formats are build parameters (the class [TraceFormats], for the
      macros [VCD_ENABLE] and [FST_ENABLE]).
    - [Text]: the string functions of the C++ library that the programs use ([stoi],
      [atoi], stream output of integers, searching and splitting).
    - [Logging]: [logs.h] and the messages of [exceptions.cc], on a stream with its
      formatting state.

    The TileLink tester, [src/test/tilelink]:

    - [TileLink]: [tilelink.h], [tl_random.h] and the helpers of [tl_messages.cc];
      [rand] is the class [Random]. [TlEndpoint]: routing tables, endpoints and
      transaction identifiers of [tl_channels.h]. [TlMessages]:
      [tl_messages.h/.cc]. [TlMessagesTheorems]: requests are legal, responses match,
      identifiers are unique, masks select the right lanes.
    - [TlConfig], [TlConfigTheorems]: [tl_config.h/.cc]; a printed configuration is read
      back, and what the reader can give for any text.
    - [TlChannels]: the templates [TileLinkSender] and [TileLinkReceiver] of
      [tl_channels.h] and the five senders of [tl_channels.cc]; the class
      [SenderMethods] has the virtual methods. [TlHarness]: hosts, devices and the
      cycle of [tl_harness.h]; the device under test is the class [Wrapper].
    - [TlSender], [TlSenderTheorems]: a sender delivers whole messages in order, and
      drains. [TlReceiver], [TlResponder], [TlExchange]: a request is answered by one
      matching response, which releases its identifier. [TlProbes]: the probes of
      channel B.
    - [TlMain]: the command line, [init], [run_tests] and [main] of [tl_harness.h] and
      [tl_main.cc]. [TlTraffic]: the invariant that all traffic on channel A is legal,
      against the interface [InputsKept] of the device under test. [TlMainTheorems]:
      so it is in every run of the whole program.
    - [TlAssertions]: the checker [rtl/tl_assert.sv], at the port of a host or of a
      device. [TlAssertionsTheorems]: legal requests pass it.
    - [TlQueue]: a sender as a queue of messages, an abstract view that its stages change
      only by delivering, answering and reordering, and with which they cannot fail.
      [TlWorlds]: rules for the code of endpoints and of a simulation of one host and one
      device, channel by channel. [TlWired], [TlWiredSenders], [TlWatched],
      [TlWiredCycle], [TlWiredTheorems]: a host and a device without caches, connected by
      wires (the interface [Wired] of the device under test, or [Watched] if checkers see
      the wires); the invariant that relates their queues, beat counts and identifiers
      and the registers of the checkers, so that runs of the whole simulation cannot fail
      ([wired_run_safe]) and end with every request answered ([wired_run_drains]).
      [TlChecked]: the device under test that has the checker of [TlAssertions] at both
      ports; it implements [Watched], so that no assertion of a checker fails in a run, and
      none at its end ([wired_run_checked]).
    - [TlPrinting]: [tl_printing.h/.cc], the text of beats; it determines the beat.
    - [TlTests]: the directed tests of [tl_tests.cc]. [TlTestsTheorems]: their outcome on
      a crossbar for the default configuration, with the checker at every port.

    ** Bounds

    - The turns of the run are bounded by the timeout ([run_ends]). [cycle] counts
      half cycles; the code's [double] is exact up to 2^52 cycles.
    - The argument parser's loop takes the length of [argv] as fuel, the loops over
      ELF sections and symbols their number, block accesses their size, the page
      table walk its levels; none runs out ([parse_args_grammar],
      [load_elf_refines], [symbol_location_first], [write_block_refines],
      [translate_refines_sv39]).
    - The tester draws random hosts, devices and identifiers until one fits; these
      draws have fuel, and the theorems say when it runs out ([transaction_id_unique]).
      With random traffic a network needs a device for the protocol of each host.
    - A drain of the wired simulation takes at most as many cycles as beats can be on their
      way, which the number of identifiers and the largest message bound ([work_bound]);
      the first cycle may do nothing, and checkers have seen the last beats, and cleared
      the request, two cycles later.
    - ELF images are below 2 GiB in the theorems about loading.
    - Byte masks are for channels of up to 16 bytes, sizes up to 4 KiB, and up to
      eight devices in the address map.

    ** What is not modelled

    The RTL in SystemVerilog (a parameter with a contract) but for the checker; the
    contents of waveform and coverage files, which Verilator writes; the lines that the
    components write to the log, which nothing reads back (the macros of the log and the
    text of beats are modelled); the ports of CoreMark and of bare-metal programs, which
    run on the simulated core; and vendored code.

    ** Further work

    What is proved of whole runs is for a host and a device without caches on wires. With
    caches, the invariant of [TlWiredCycle] needs the probes, releases and
    acknowledgements on channels B, C and E and the identifiers of all channels; with
    several hosts and devices, it needs a network that delivers messages whole. For those,
    the library proves the steps: a request and its response ([request_answered],
    [exchange_completes]), probes ([probes_all_or_none]), senders ([sender_delivers]) and
    the legality of all requests ([traffic_legal]). *)

From stdpp Require Export base option list gmap sets strings numbers.
From Stdlib Require Export ZArith Lia.
From Stdlib Require Import Btauto.

#[export] Set Default Proof Using "Type".
Open Scope Z_scope.

(** ** Machine integers

    An unsigned C++ integer of [w] bits is a [Z]; conversion to the type (and
    every arithmetic operation of the type) reduces modulo [2 ^ w]. *)

Definition wrap (w z : Z) : Z := z mod 2 ^ w.
Definition u8 (z : Z) : Z := wrap 8 z.
Definition u16 (z : Z) : Z := wrap 16 z.
Definition u32 (z : Z) : Z := wrap 32 z.
Definition u64 (z : Z) : Z := wrap 64 z.

(** Conversion to a signed type: two's complement. *)
Definition signed (w z : Z) : Z :=
  if decide (wrap w z < 2 ^ (w - 1)) then wrap w z else wrap w z - 2 ^ w.
Definition s32 (z : Z) : Z := signed 32 z.
Definition s64 (z : Z) : Z := signed 64 z.

(** [z] is a value of the unsigned type of [w] bits. *)
Definition in_width (w z : Z) : Prop := 0 <= z < 2 ^ w.

(** ** Outcomes of C++ code

    A computation ends normally, throws an exception of type [E], fails an
    [assert], calls [exit], reaches behaviour that the C++ standard leaves
    undefined (an access outside an array, [std::string(NULL)]), or exhausts
    the fuel of a loop that the code does not bound. *)
Inductive outcome (E A : Type) : Type :=
  | Ok (a : A)
  | Throw (e : E)
  | AssertFail
  | ExitWith (code : Z)
  | Undefined
  | OutOfFuel.

Arguments Ok {E A} a.
Arguments Throw {E A} e.
Arguments AssertFail {E A}.
Arguments ExitWith {E A} code.
Arguments Undefined {E A}.
Arguments OutOfFuel {E A}.

(** An outcome that is not a value has no value type. *)
Definition outcome_cast {E A B} (o : outcome E A) (b : outcome E B) : outcome E B :=
  match o with
  | Ok _ => b
  | Throw e => Throw e
  | AssertFail => AssertFail
  | ExitWith c => ExitWith c
  | Undefined => Undefined
  | OutOfFuel => OutOfFuel
  end.

(** Stateful code: a throw keeps the effects made before it. *)
Definition M (E S A : Type) : Type := S -> outcome E A * S.

#[export] Instance M_ret {E S} : MRet (M E S) := fun A a s => (Ok a, s).
#[export] Instance M_bind {E S} : MBind (M E S) := fun A B k m s =>
  match m s with
  | (Ok a, s') => k a s'
  | (o, s') => (outcome_cast o Undefined, s')
  end.
#[export] Instance M_fmap {E S} : FMap (M E S) := fun A B f m => a ← m; mret (f a).

Definition fail {E S A} (o : outcome E A) : M E S A := fun s => (o, s).
Definition throw {E S A} (e : E) : M E S A := fail (Throw e).
Definition get {E S} : M E S S := fun s => (Ok s, s).
Definition gets {E S A} (f : S -> A) : M E S A := fun s => (Ok (f s), s).
Definition modify {E S} (f : S -> S) : M E S unit := fun s => (Ok tt, f s).

(** [assert(b)]; the program is built with assertions enabled. *)
Definition assert_that {E S} (b : bool) : M E S unit :=
  if b then mret tt else fail AssertFail.

Definition when {E S} (b : bool) (m : M E S unit) : M E S unit :=
  if b then m else mret tt.

(** [try { m } catch ...]: the handler answers the exceptions it names. *)
Definition try_catch {E S A} (m : M E S A) (h : E -> option (M E S A)) : M E S A :=
  fun s => match m s with
  | (Throw e, s') => match h e with Some k => k s' | None => (Throw e, s') end
  | r => r
  end.

(** Run code on a component [T] of the state. *)
Definition zoom {E S T A} (view : S -> T) (update : T -> S -> S) (m : M E T A) : M E S A :=
  fun s => let '(o, t) := m (view s) in (o, update t s).

Definition is_ok {E A} (o : outcome E A) : bool :=
  match o with Ok _ => true | _ => false end.

(** ** Little-endian byte sequences (the host is little-endian). *)

Fixpoint le_value (bs : list Z) : Z :=
  match bs with
  | [] => 0
  | b :: bs => b + 256 * le_value bs
  end.

Fixpoint le_bytes (n : nat) (z : Z) : list Z :=
  match n with
  | O => []
  | S n => z mod 256 :: le_bytes n (z / 256)
  end.

Definition byte (b : Z) : Prop := 0 <= b < 256.

(** ** Automation *)

Create HintDb muntjac discriminated.
Create Rewrite HintDb muntjac_simpl.

(** Decide a machine-width side condition. *)
Ltac width := unfold in_width, byte in *; lia.

(** Case split on the discriminee of every [match] or [if] of the goal. *)
Ltac split_match :=
  match goal with
  | |- context [match ?x with _ => _ end] => destruct x eqn:?
  end.

(** Prove an equality of integers bit by bit: [i] is the index of a bit. *)
Ltac by_bits i :=
  apply Z.bits_inj'; intros i ?.

(** Normalise [testbit] of the bit operations with decided side conditions. *)
Ltac test_bits :=
  repeat first
    [ rewrite Z.land_spec | rewrite Z.lor_spec | rewrite Z.lxor_spec
    | rewrite Z.shiftr_spec by lia | rewrite Z.shiftl_spec by lia
    | rewrite Z.lnot_spec by lia | rewrite Z.testbit_0_l
    | rewrite Z.mod_pow2_bits_low by lia | rewrite Z.mod_pow2_bits_high by lia
    | rewrite Z.ones_spec_low by lia | rewrite Z.ones_spec_high by lia
    | rewrite Z.bits_m1 by lia | rewrite Z.testbit_neg_r by lia ];
  rewrite ?andb_true_r, ?andb_false_r, ?orb_false_r, ?orb_true_r,
    ?andb_true_l, ?andb_false_l, ?orb_false_l, ?orb_true_l.

(** ** Lemmas on machine integers *)

Section words.

Lemma wrap_bound w z : 0 <= w -> 0 <= wrap w z < 2 ^ w.
Proof. intros. apply Z.mod_pos_bound. lia. Qed.

Lemma wrap_small w z : 0 <= z < 2 ^ w -> wrap w z = z.
Proof. apply Z.mod_small. Qed.

Lemma wrap_wrap w z : wrap w (wrap w z) = wrap w z.
Proof. apply Zmod_mod. Qed.

Lemma wrap_add_l w a b : wrap w (wrap w a + b) = wrap w (a + b).
Proof. apply Zplus_mod_idemp_l. Qed.

Lemma wrap_add_r w a b : wrap w (a + wrap w b) = wrap w (a + b).
Proof. apply Zplus_mod_idemp_r. Qed.

Lemma wrap_sub_l w a b : wrap w (wrap w a - b) = wrap w (a - b).
Proof. apply Zminus_mod_idemp_l. Qed.

Lemma wrap_narrow v w z : 0 <= v <= w -> wrap v (wrap w z) = wrap v z.
Proof.
  intros. unfold wrap.
  replace w with (v + (w - v)) by lia. rewrite Z.pow_add_r by lia.
  rewrite Z.rem_mul_r by (try apply Z.pow_nonzero; lia).
  rewrite Z.mul_comm, Z_mod_plus_full. apply Zmod_mod.
Qed.

Lemma land_ones_wrap w z : 0 <= w -> Z.land z (Z.ones w) = wrap w z.
Proof. apply Z.land_ones. Qed.

Lemma testbit_above w z i : 0 <= z < 2 ^ w -> w <= i -> Z.testbit z i = false.
Proof.
  intros. destruct (decide (0 <= w)).
  - rewrite <- (Z.mod_small z (2 ^ w)) by lia. by apply Z.mod_pow2_bits_high.
  - rewrite Z.pow_neg_r in * by lia. lia.
Qed.

Lemma signed_range w z : 0 < w -> - 2 ^ (w - 1) <= signed w z < 2 ^ (w - 1).
Proof.
  intros. unfold signed. pose proof (wrap_bound w z).
  replace (2 ^ w) with (2 * 2 ^ (w - 1)) in * by
    (rewrite <- Z.pow_succ_r by lia; f_equal; lia).
  case_decide; lia.
Qed.

Lemma wrap_signed w z : wrap w (signed w z) = wrap w z.
Proof.
  unfold signed. case_decide; [apply wrap_wrap|].
  unfold wrap. rewrite <- (Z.mul_1_l (2 ^ w)) at 2.
  rewrite Zminus_mod, Z_mod_mult, Z.sub_0_r. by rewrite !Zmod_mod.
Qed.

Lemma signed_small w z : 0 < w -> 0 <= z < 2 ^ (w - 1) -> signed w z = z.
Proof.
  intros. unfold signed. assert (2 ^ (w - 1) < 2 ^ w) by (apply Z.pow_lt_mono_r; lia).
  rewrite wrap_small by lia. case_decide; lia.
Qed.

Lemma signed_wrap w z : signed w (wrap w z) = signed w z.
Proof. unfold signed. by rewrite wrap_wrap. Qed.

(** A bit field: [n] bits of [z] from bit [lo]. *)
Lemma field_div z lo n :
  0 <= lo -> 0 <= n -> Z.land (Z.shiftr z lo) (Z.ones n) = (z / 2 ^ lo) mod 2 ^ n.
Proof. intros. by rewrite Z.land_ones, Z.shiftr_div_pow2. Qed.

Lemma testbit_field z lo n i :
  0 <= lo -> 0 <= n -> 0 <= i ->
  Z.testbit ((z / 2 ^ lo) mod 2 ^ n) i = (i <? n) && Z.testbit z (lo + i).
Proof.
  intros. rewrite <- field_div, Z.land_spec, Z.shiftr_spec by lia.
  rewrite Z.testbit_ones_nonneg by lia.
  by rewrite (Z.add_comm i), andb_comm.
Qed.

End words.

(** ** Lemmas on little-endian byte sequences *)

Section bytes.

Lemma length_le_bytes n z : length (le_bytes n z) = n.
Proof. revert z. induction n; intros; simpl; auto. Qed.

Lemma le_bytes_byte n z : Forall byte (le_bytes n z).
Proof.
  revert z. induction n; intros; simpl; constructor; auto.
  apply Z.mod_pos_bound. lia.
Qed.

Lemma lookup_le_bytes n z i :
  (i < n)%nat -> le_bytes n z !! i = Some ((z / 2 ^ (8 * Z.of_nat i)) mod 256).
Proof.
  revert z i. induction n as [|n IH]; intros z [|i] Hi; simpl le_bytes; [lia|lia| |].
  - change (2 ^ (8 * Z.of_nat 0)) with 1. by rewrite Z.div_1_r.
  - simpl. rewrite IH by lia. do 2 f_equal. rewrite Z.div_div by lia.
    change 256 with (2 ^ 8). rewrite <- Z.pow_add_r by lia. do 2 f_equal. lia.
Qed.

Lemma le_value_bytes n z : le_value (le_bytes n z) = wrap (8 * Z.of_nat n) z.
Proof.
  revert z. induction n; intros.
  - simpl. unfold wrap. by rewrite Z.mod_1_r.
  - simpl le_bytes. simpl le_value. rewrite IHn. unfold wrap.
    replace (8 * Z.of_nat (S n)) with (8 + 8 * Z.of_nat n) by lia.
    rewrite Z.pow_add_r by lia. rewrite Z.rem_mul_r by lia.
    change (2 ^ 8) with 256. lia.
Qed.

Lemma le_value_bound bs : Forall byte bs -> 0 <= le_value bs < 2 ^ (8 * Z.of_nat (length bs)).
Proof.
  induction 1 as [|b bs Hb _ IH]; simpl le_value.
  - simpl. lia.
  - rewrite length_cons. replace (8 * Z.of_nat (S _)) with (8 + 8 * Z.of_nat (length bs)) by lia.
    rewrite Z.pow_add_r by lia. change (2 ^ 8) with 256. width.
Qed.

Lemma le_bytes_value bs : Forall byte bs -> le_bytes (length bs) (le_value bs) = bs.
Proof.
  induction 1 as [|b bs Hb _ IH]; [done|].
  rewrite length_cons. simpl le_bytes.
  replace (b + 256 * le_value bs) with (b + le_value bs * 256) by lia.
  rewrite Z_mod_plus_full, Z.mod_small, Z.div_add, Z.div_small by width.
  rewrite Z.add_0_l. by f_equal.
Qed.

Lemma le_value_app bs cs :
  le_value (bs ++ cs) = le_value bs + 2 ^ (8 * Z.of_nat (length bs)) * le_value cs.
Proof.
  induction bs as [|b bs IH]; [simpl; lia|].
  simpl app. simpl le_value. rewrite IH, length_cons.
  replace (8 * Z.of_nat (S (length bs))) with (8 + 8 * Z.of_nat (length bs)) by lia.
  rewrite Z.pow_add_r by lia. change (2 ^ 8) with 256. lia.
Qed.

Lemma le_bytes_wrap n z : le_bytes n (wrap (8 * Z.of_nat n) z) = le_bytes n z.
Proof.
  rewrite <- le_value_bytes.
  rewrite <- (length_le_bytes n z) at 1. apply le_bytes_value, le_bytes_byte.
Qed.

End bytes.

#[export] Hint Rewrite length_le_bytes le_value_bytes wrap_wrap wrap_add_l wrap_add_r
  wrap_sub_l : muntjac_simpl.
#[export] Hint Resolve le_bytes_byte : muntjac.

(** ** Running monadic code *)

Section running.

Context {E S : Type}.

Lemma bind_run {A B} (m : M E S A) (k : A -> M E S B) s :
  (m ≫= k) s = match m s with
               | (Ok a, s') => k a s'
               | (o, s') => (outcome_cast o Undefined, s')
               end.
Proof. done. Qed.

Lemma bind_ok {A B} (m : M E S A) (k : A -> M E S B) s a s' :
  m s = (Ok a, s') -> (m ≫= k) s = k a s'.
Proof. intros H. by rewrite bind_run, H. Qed.

Lemma bind_throw {A B} (m : M E S A) (k : A -> M E S B) s e s' :
  m s = (Throw e, s') -> (m ≫= k) s = (Throw e, s').
Proof. intros H. by rewrite bind_run, H. Qed.

Lemma bind_ok_inv {A B} (m : M E S A) (k : A -> M E S B) s b s' :
  (m ≫= k) s = (Ok b, s') -> exists a s1, m s = (Ok a, s1) /\ k a s1 = (Ok b, s').
Proof.
  rewrite bind_run. destruct (m s) as [[] s1]; naive_solver.
Qed.

End running.

(** ** Hoare rules for code that ends normally

    [hoare P k Q]: if [k] ends normally from a state with [P], the result and the
    final state have [Q]. *)

Definition hoare {E S A} (P : S -> Prop) (k : M E S A) (Q : A -> S -> Prop) : Prop :=
  forall s a s', P s -> k s = (Ok a, s') -> Q a s'.

Section hoare_rules.

Context {E S : Type}.

Implicit Types P : S -> Prop.

Lemma hoare_ret {A} P (a : A) (Q : A -> S -> Prop) : (forall s, P s -> Q a s) -> hoare (E := E) P (mret a) Q.
Proof. intros H s b s' HP Hk. injection Hk as <- <-. auto. Qed.

Lemma hoare_bind {A B} P (m : M E S A) (k : A -> M E S B) Q R :
  hoare P m Q -> (forall a, hoare (Q a) (k a) R) -> hoare P (m ≫= k) R.
Proof. intros Hm Hk s b s' HP (a & s1 & H1 & H2)%bind_ok_inv. eapply Hk; [|exact H2]. eauto. Qed.

Lemma hoare_fail {A} P (o : outcome E A) (Q : A -> S -> Prop) :
  (forall a s, o = Ok a -> P s -> Q a s) -> hoare P (fail o) Q.
Proof. intros H s a s' HP Hk. injection Hk as -> <-. eauto. Qed.

Lemma hoare_gets {A} P (f : S -> A) (Q : A -> S -> Prop) :
  (forall s, P s -> Q (f s) s) -> hoare (E := E) P (gets f) Q.
Proof. intros H s a s' HP Hk. injection Hk as <- <-. auto. Qed.

Lemma hoare_modify P (f : S -> S) (Q : unit -> S -> Prop) :
  (forall s, P s -> Q tt (f s)) -> hoare (E := E) P (modify f) Q.
Proof. intros H s a s' HP Hk. injection Hk as <- <-. auto. Qed.

Lemma hoare_when P b (m : M E S unit) (Q : unit -> S -> Prop) :
  (b = true -> hoare P m Q) -> (b = false -> forall s, P s -> Q tt s) -> hoare P (when b m) Q.
Proof. destruct b; cbn; intros Ht Hf; [auto|]. apply hoare_ret. auto. Qed.

Lemma hoare_assert P b (Q : unit -> S -> Prop) :
  (b = true -> forall s, P s -> Q tt s) -> hoare (E := E) P (assert_that b) Q.
Proof. intros H. destruct b; [by apply hoare_ret; auto|]. by intros s a s' _ Hk. Qed.

Lemma hoare_weaken {A} P P' (k : M E S A) (Q Q' : A -> S -> Prop) :
  hoare P' k Q' -> (forall s, P s -> P' s) -> (forall a s, Q' a s -> Q a s) -> hoare P k Q.
Proof. intros H HP HQ s a s' Hs Hk. eauto. Qed.

Lemma hoare_zoom {T A} (view : S -> T) update P (m : M E T A) (R : A -> T -> Prop) Q :
  hoare (fun t => exists s, P s /\ t = view s) m R ->
  (forall a t s, P s -> R a t -> Q a (update t s)) -> hoare P (zoom view update m) Q.
Proof.
  intros Hm HQ s a s' HP Hk. unfold zoom in Hk. destruct (m (view s)) as [o t] eqn:Ho.
  injection Hk as -> <-. eapply HQ; [done|]. eapply Hm; [|exact Ho]. eauto.
Qed.

End hoare_rules.

(** ** Safety

    [safe o P k Q]: from a state with [P], [k] ends normally with [Q], or exhausts the
    fuel of a loop that draws numbers, if [o] allows for that; no exception, failed
    assertion or undefined behaviour. *)
Definition safe {E S A} (o : Prop) (P : S -> Prop) (k : M E S A) (Q : A -> S -> Prop) : Prop :=
  forall s, P s -> match k s with (Ok a, s') => Q a s' | (OutOfFuel, _) => o | _ => False end.

Section safe_rules.

Context {E S : Type}.

Implicit Types (o : Prop) (P : S -> Prop).

Lemma safe_ret {A} o P (a : A) (Q : A -> S -> Prop) : (forall s, P s -> Q a s) -> safe (E := E) o P (mret a) Q.
Proof. intros H s HP. by apply H. Qed.

Lemma safe_run {A} o P (k : M E S A) (Q : A -> S -> Prop) :
  (forall s, P s -> exists a s', k s = (Ok a, s') /\ Q a s') -> safe o P k Q.
Proof. intros H s HP. destruct (H s HP) as (a & s' & -> & Hq). exact Hq. Qed.

Lemma safe_bind {A B} o P (m : M E S A) (k : A -> M E S B) Q R :
  safe o P m Q -> (forall a, safe o (Q a) (k a) R) -> safe o P (m ≫= k) R.
Proof.
  intros Hm Hk s HP. specialize (Hm s HP). rewrite bind_run.
  destruct (m s) as [[a| | | | |] s']; try done. by apply Hk.
Qed.

(** A step whose value does not matter. *)
Lemma safe_then {A B} o P (m : M E S A) (k : A -> M E S B) (Q : S -> Prop) R :
  safe o P m (fun _ => Q) -> (forall a, safe o Q (k a) R) -> safe o P (m ≫= k) R.
Proof. intros Hm Hk. eapply safe_bind; [exact Hm|]. exact Hk. Qed.

Lemma safe_gets {A} o P (f : S -> A) (Q : A -> S -> Prop) :
  (forall s, P s -> Q (f s) s) -> safe (E := E) o P (gets f) Q.
Proof. intros H s HP. by apply H. Qed.

Lemma safe_modify o P (f : S -> S) (Q : unit -> S -> Prop) :
  (forall s, P s -> Q tt (f s)) -> safe (E := E) o P (modify f) Q.
Proof. intros H s HP. by apply H. Qed.

Lemma safe_when o P b (m : M E S unit) (Q : unit -> S -> Prop) :
  (b = true -> safe o P m Q) -> (b = false -> forall s, P s -> Q tt s) -> safe o P (when b m) Q.
Proof. destruct b; cbn; intros Ht Hf; [auto|]. apply safe_ret. auto. Qed.

Lemma safe_assert o P b (Q : unit -> S -> Prop) :
  (forall s, P s -> b = true /\ Q tt s) -> safe (E := E) o P (assert_that b) Q.
Proof. intros H s HP. destruct (H s HP) as [-> Hq]. exact Hq. Qed.

Lemma safe_weaken {A} o P P' (k : M E S A) (Q Q' : A -> S -> Prop) :
  safe o P' k Q' -> (forall s, P s -> P' s) -> (forall a s, Q' a s -> Q a s) -> safe o P k Q.
Proof.
  intros H HP HQ s Hs. specialize (H s (HP s Hs)). destruct (k s) as [[a| | | | |] s']; auto.
Qed.

Lemma safe_fuel {A} (o o' : Prop) P (k : M E S A) (Q : A -> S -> Prop) :
  safe o P k Q -> (o -> o') -> safe o' P k Q.
Proof. intros H Ho s HP. specialize (H s HP). destruct (k s) as [[a| | | | |] s']; auto. Qed.

Lemma safe_exists {A T} o (P : T -> S -> Prop) (k : M E S A) (Q : A -> S -> Prop) :
  (forall t, safe o (P t) k Q) -> safe o (fun s => exists t, P t s) k Q.
Proof. intros Hk s [t Ht]. by apply (Hk t). Qed.

Lemma safe_pure {A} o (F : Prop) P (k : M E S A) (Q : A -> S -> Prop) :
  (F -> safe o P k Q) -> safe o (fun s => F /\ P s) k Q.
Proof. intros Hk s [HF Hs]. by apply (Hk HF). Qed.

Lemma safe_zoom {T A} o (view : S -> T) update P (m : M E T A) (Q : A -> S -> Prop) :
  (forall s, P s -> safe o (fun t => t = view s) m (fun a t => Q a (update t s))) ->
  safe o P (zoom view update m) Q.
Proof.
  intros Hm s HP. specialize (Hm s HP (view s) eq_refl). unfold zoom.
  by destruct (m (view s)) as [[a| | | | |] t].
Qed.

End safe_rules.

(** ** Invariants

    [always P k Q]: [k] keeps [P], however it ends, and its value has [Q] if it
    gives one. *)
Definition always {E S A} (P : S -> Prop) (k : M E S A) (Q : A -> Prop) : Prop :=
  forall s, P s -> P (snd (k s)) /\ forall a, fst (k s) = Ok a -> Q a.

Section always_rules.

Context {E S : Type}.

Implicit Types P : S -> Prop.

Lemma always_ret {A} P (a : A) (Q : A -> Prop) : Q a -> always (E := E) P (mret a) Q.
Proof. intros Ha s Hs. split; [done|]. by intros b [= <-]. Qed.

Lemma always_fail {A} P (o : outcome E A) (Q : A -> Prop) :
  (forall a, o = Ok a -> Q a) -> always P (fail o) Q.
Proof. intros Ho s Hs. split; [done|exact Ho]. Qed.

Lemma always_gets {A} P (f : S -> A) (Q : A -> Prop) :
  (forall s, P s -> Q (f s)) -> always (E := E) P (gets f) Q.
Proof. intros Hf s Hs. split; [done|]. intros a [= <-]. auto. Qed.

Lemma always_modify P (f : S -> S) :
  (forall s, P s -> P (f s)) -> always (E := E) P (modify f) (fun _ => True).
Proof. intros Hf s Hs. split; [by apply Hf|done]. Qed.

Lemma always_bind {A B} P (m : M E S A) (k : A -> M E S B) Q R :
  always P m Q -> (forall a, Q a -> always P (k a) R) -> always P (m ≫= k) R.
Proof.
  intros Hm Hk s Hs. destruct (Hm s Hs) as [Hp Hq]. rewrite bind_run.
  destruct (m s) as [[a| | | | |] s']; cbn in *; try (split; [exact Hp|by intros ? [=]]).
  by apply Hk; [apply Hq|].
Qed.

(** A step whose value does not matter. *)
Lemma always_then {A B} P (m : M E S A) (k : A -> M E S B) R :
  always P m (fun _ => True) -> (forall a, always P (k a) R) -> always P (m ≫= k) R.
Proof. intros Hm Hk. eapply always_bind; [exact Hm|]. intros a _. apply Hk. Qed.

Lemma always_when P b (m : M E S unit) :
  (b = true -> always P m (fun _ => True)) -> always P (when b m) (fun _ => True).
Proof. destruct b; intros Hm; [by apply Hm|by apply always_ret]. Qed.

Lemma always_assert P b : always (E := E) P (assert_that b) (fun _ => True).
Proof. destruct b; [by apply always_ret|by apply always_fail]. Qed.

Lemma always_weaken {A} P (k : M E S A) (Q R : A -> Prop) :
  always P k Q -> (forall a, Q a -> R a) -> always P k R.
Proof. intros Hk HQ s Hs. destruct (Hk s Hs). auto. Qed.

Lemma always_zoom {T A} P (PT : T -> Prop) (view : S -> T) update (m : M E T A) Q :
  (forall s, P s -> PT (view s)) -> (forall s t, P s -> PT t -> P (update t s)) ->
  always PT m Q -> always P (zoom view update m) Q.
Proof.
  intros Hview Hupdate Hm s Hs. destruct (Hm (view s) (Hview s Hs)) as [Ht Hq]. unfold zoom.
  destruct (m (view s)) as [o t]. cbn in *. auto.
Qed.

Lemma always_try P (m : M E S bool) (handler : E -> option (M E S bool)) :
  always P m (fun _ => True) ->
  (forall e k, handler e = Some k -> always P k (fun _ => True)) ->
  always P (try_catch m handler) (fun _ => True).
Proof.
  intros Hm Hh s Hs. split; [|done]. destruct (Hm s Hs) as [Hp _]. unfold try_catch.
  destruct (m s) as [[a|e| | | |] s']; try done. destruct (handler e) as [k|] eqn:Hk; [|done].
  by apply (Hh e k Hk).
Qed.

End always_rules.

(** ** Running an operation on each element of a list *)

Fixpoint each {E S A} (f : A -> M E S unit) (l : list A) : M E S unit :=
  match l with
  | [] => mret tt
  | a :: l => f a;; each f l
  end.

Section each_lemmas.

Context {E S A : Type}.

Implicit Types (f : A -> M E S unit) (l : list A).

Lemma each_app f l1 l2 s s1 :
  each f l1 s = (Ok tt, s1) -> each f (l1 ++ l2) s = each f l2 s1.
Proof.
  revert s. induction l1 as [|a l1 IH]; intros s; cbn [each app]; [by intros [= ->]|].
  rewrite !bind_run. destruct (f a s) as [[[]| | | | |] s2]; try discriminate. apply IH.
Qed.

Lemma each_one f a s : each f [a] s = f a s.
Proof. cbn [each]. rewrite bind_run. by destruct (f a s) as [[[]| | | | |] s2]. Qed.

Lemma each_ext f g l s :
  Forall (fun a => forall s, f a s = g a s) l -> each f l s = each g l s.
Proof.
  intros H. revert s. induction H as [|a l Ha _ IH]; intros s; cbn [each]; [done|].
  rewrite !bind_run, Ha. destruct (g a s) as [[[]| | | | |] s2]; auto.
Qed.

(** An invariant relation between the elements done and the state. *)
Lemma each_run f (after : list A -> S) l :
  (forall l1 a l2, l = l1 ++ a :: l2 -> f a (after l1) = (Ok tt, after (l1 ++ [a]))) ->
  each f l (after []) = (Ok tt, after l).
Proof.
  intros H. enough (forall l2 l1, l = l1 ++ l2 -> each f l2 (after l1) = (Ok tt, after l)) as He
    by (by apply (He l [])).
  induction l2 as [|a l2 IH]; intros l1 Hl; cbn [each].
  - by rewrite Hl, app_nil_r.
  - erewrite bind_ok by (by apply (H l1 a l2)). apply IH. by rewrite <- app_assoc.
Qed.

End each_lemmas.
