(* ===== verification/Exceptions.v ===== *)
(** * Memory operations and exceptions

    The enumerations of [types.h] and the exception classes of
    [exceptions.h]/[exceptions.cc], with the mapping from an exception and the
    operation that raised it to the RISC-V exception cause. *)

From S2P Require Import Prelude.

(** [MemoryOperation]: the named enumerators, and any other value of the
    enumeration's underlying range (the signal it is cast from has 3 bits). *)
Inductive MemoryOperation : Type :=
  | MEM_LOAD | MEM_STORE | MEM_LR | MEM_SC | MEM_AMO | MEM_FETCH
  | MEM_OTHER (op : Z).

#[export] Instance MemoryOperation_eq_dec : EqDecision MemoryOperation.
Proof. solve_decision. Defined.

(** The cast [(MemoryOperation)op]. *)
Definition MemoryOperation_of (op : Z) : MemoryOperation :=
  match op with
  | 1 => MEM_LOAD
  | 2 => MEM_STORE
  | 5 => MEM_LR
  | 6 => MEM_SC
  | 7 => MEM_AMO
  | 100 => MEM_FETCH
  | _ => MEM_OTHER op
  end.

(** [exc_cause_e], by value. *)
Definition EXC_CAUSE_INSTR_ACCESS_FAULT : Z := 1.
Definition EXC_CAUSE_LOAD_MISALIGN : Z := 4.
Definition EXC_CAUSE_LOAD_ACCESS_FAULT : Z := 5.
Definition EXC_CAUSE_STORE_MISALIGN : Z := 6.
Definition EXC_CAUSE_STORE_ACCESS_FAULT : Z := 7.
Definition EXC_CAUSE_INSTR_PAGE_FAULT : Z := 12.
Definition EXC_CAUSE_LOAD_PAGE_FAULT : Z := 13.
Definition EXC_CAUSE_STORE_PAGE_FAULT : Z := 15.
Definition EXC_CAUSE_NONE : Z := 100.

(** The exceptions the code throws: its own classes, and those of the standard
    library that it lets escape. The description strings are only logged. *)
Inductive exn : Type :=
  | AccessFault (address : Z)
  | AlignmentFault (address : Z)
  | PageFault (address : Z)
  | InvalidArgumentException (name : string) (position : Z)
  | NoAvailableIDException
  | runtime_error (description : string)
  | std_invalid_argument
  | std_out_of_range.

#[export] Instance exn_eq_dec : EqDecision exn.
Proof. solve_decision. Defined.

(** The outcome of [get_exception_code]: its [default] case is [assert(false)]. *)
Definition AccessFault_code (operation : MemoryOperation) : outcome exn Z :=
  match operation with
  | MEM_LOAD => Ok EXC_CAUSE_LOAD_ACCESS_FAULT
  | MEM_LR | MEM_STORE | MEM_SC | MEM_AMO => Ok EXC_CAUSE_STORE_ACCESS_FAULT
  | MEM_FETCH => Ok EXC_CAUSE_INSTR_ACCESS_FAULT
  | MEM_OTHER _ => AssertFail
  end.

Definition AlignmentFault_code (operation : MemoryOperation) : outcome exn Z :=
  match operation with
  | MEM_LOAD => Ok EXC_CAUSE_LOAD_MISALIGN
  | MEM_LR | MEM_STORE | MEM_SC | MEM_AMO => Ok EXC_CAUSE_STORE_MISALIGN
  | MEM_FETCH | MEM_OTHER _ => AssertFail
  end.

Definition PageFault_code (operation : MemoryOperation) : outcome exn Z :=
  match operation with
  | MEM_LOAD => Ok EXC_CAUSE_LOAD_PAGE_FAULT
  | MEM_LR | MEM_STORE | MEM_SC | MEM_AMO => Ok EXC_CAUSE_STORE_PAGE_FAULT
  | MEM_FETCH => Ok EXC_CAUSE_INSTR_PAGE_FAULT
  | MEM_OTHER _ => AssertFail
  end.

(** Virtual dispatch of [e.get_exception_code(operation)]: [None] for an
    exception whose class has no such method. *)
Definition get_exception_code (e : exn) (operation : MemoryOperation)
    : option (outcome exn Z) :=
  match e with
  | AccessFault _ => Some (AccessFault_code operation)
  | AlignmentFault _ => Some (AlignmentFault_code operation)
  | PageFault _ => Some (PageFault_code operation)
  | _ => None
  end.

(** [what()] of the exceptions that end the simulator, as the constructors of
    [InvalidArgumentException] and [SimulatorException] set it. *)
Definition what (e : exn) : option string :=
  match e with
  | InvalidArgumentException name _ => Some ("Invalid simulator argument: " +:+ name)
  | runtime_error description => Some description
  | _ => None
  end.

(** [get_name] and [get_position]. *)
Definition get_name (e : exn) : option string :=
  match e with InvalidArgumentException name _ => Some name | _ => None end.
Definition get_position (e : exn) : option Z :=
  match e with InvalidArgumentException _ position => Some position | _ => None end.

(** ** Properties *)

(** Every exception code is a synchronous cause of the RISC-V privileged
    specification, and never the "no exception" marker. *)
Lemma get_exception_code_cause e operation code :
  get_exception_code e operation = Some (Ok code) ->
  0 <= code < 16 /\ code <> EXC_CAUSE_NONE.
Proof.
  intros H. destruct e, operation; simpl in H; simplify_eq;
    (split; [by vm_compute | by vm_compute]).
Qed.

(** The operations whose opcode the core can issue. *)
Definition issued (operation : MemoryOperation) : Prop :=
  match operation with MEM_OTHER _ | MEM_FETCH => False | _ => True end.

Lemma get_exception_code_issued e operation o :
  issued operation -> get_exception_code e operation = Some o ->
  exists code, o = Ok code /\ code <> EXC_CAUSE_NONE.
Proof.
  intros Hi H. destruct e, operation; simpl in H; simplify_eq; try done; eexists; split; done.
Qed.

#[export] Hint Resolve get_exception_code_cause : muntjac.
