(* ===== verification/Text.v ===== *)
(** * Text

    Functions of the C++ standard library that the code uses on strings: reading and
    printing numbers, padding, trimming and splitting; and that printed numbers
    are read back. *)

From S2P Require Import Prelude Exceptions.
From Stdlib Require Import Ascii.

Open Scope Z_scope.

(** ** Numbers *)

Definition is_space (c : ascii) : bool :=
  let n := Z.of_N (N_of_ascii c) in (n =? 32) || ((9 <=? n) && (n <=? 13)).

Fixpoint skip_spaces (s : string) : string :=
  match s with
  | String c s' => if is_space c then skip_spaces s' else s
  | EmptyString => s
  end.

Definition digit (c : ascii) : option Z :=
  let n := Z.of_N (N_of_ascii c) in
  if (48 <=? n) && (n <=? 57) then Some (n - 48) else None.

(** The value of the longest prefix of decimal digits after [acc]. *)
Fixpoint digits (acc : Z) (s : string) : Z :=
  match s with
  | String c s' => match digit c with Some d => digits (10 * acc + d) s' | None => acc end
  | EmptyString => acc
  end.

Definition unsigned_digits (s : string) : option Z :=
  match s with
  | String c s' => match digit c with Some d => Some (digits d s') | None => None end
  | EmptyString => None
  end.

(** The number at the start of a string: white space, a sign, digits. *)
Definition leading_number (s : string) : option Z :=
  match skip_spaces s with
  | String "-" s' => Z.opp <$> unsigned_digits s'
  | String "+" s' => unsigned_digits s'
  | s' => unsigned_digits s'
  end.

Definition is_int (z : Z) : bool := (- 2 ^ 31 <=? z) && (z <? 2 ^ 31).

(** [std::stoi]. *)
Definition stoi (s : string) : outcome exn Z :=
  match leading_number s with
  | None => Throw std_invalid_argument
  | Some v => if is_int v then Ok v else Throw std_out_of_range
  end.

(** [atoi]: 0 without a number; a number that is not an [int] is undefined. *)
Definition atoi (s : string) : outcome exn Z :=
  match leading_number s with
  | None => Ok 0
  | Some v => if is_int v then Ok v else Undefined
  end.

(** Output of an unsigned number under [std::hex], and padding by [std::setw]
    under [std::setfill('0')]. *)
Definition hex_digit (d : Z) : ascii :=
  ascii_of_N (Z.to_N (if d <? 10 then 48 + d else 87 + d)).

Fixpoint hex_digits (fuel : nat) (z : Z) (acc : string) : string :=
  let acc := String (hex_digit (z mod 16)) acc in
  match fuel with
  | O => acc
  | S fuel => if z / 16 =? 0 then acc else hex_digits fuel (z / 16) acc
  end.

Definition hex (z : Z) : string := hex_digits 15 z "".

Fixpoint zeros (n : nat) : string :=
  match n with O => "" | S n => String "0" (zeros n) end.

Definition setw (n : nat) (s : string) : string := zeros (n - String.length s) +:+ s.

(** ** Characters of a string *)

Fixpoint all_chars (P : ascii -> bool) (s : string) : bool :=
  match s with EmptyString => true | String c s => P c && all_chars P s end.

(** [find_first_of] and [substr]: what comes before the first [c], and what comes
    after it, if there is one. *)
Fixpoint before_char (c : ascii) (s : string) : string :=
  match s with
  | EmptyString => EmptyString
  | String a s => if bool_decide (a = c) then EmptyString else String a (before_char c s)
  end.

Fixpoint after_char (c : ascii) (s : string) : option string :=
  match s with
  | EmptyString => None
  | String a s => if bool_decide (a = c) then Some s else after_char c s
  end.

(** The pieces that [getline] with separator [c] gives; the last one ends with the
    string. *)
Fixpoint split_on (c : ascii) (s : string) : list string :=
  match s with
  | EmptyString => [EmptyString]
  | String a s =>
      if bool_decide (a = c) then EmptyString :: split_on c s
      else match split_on c s with
           | p :: ps => String a p :: ps
           | [] => [String a EmptyString]
           end
  end.

(** Erase trailing white space, as [find_last_not_of] and [erase] do. *)
Fixpoint erase_trailing (s : string) : string :=
  match s with
  | EmptyString => EmptyString
  | String c s => let s := erase_trailing s in
                  if is_space c && bool_decide (s = EmptyString) then EmptyString else String c s
  end.

(** ** Decimal printing *)

Definition decimal_digit (d : Z) : ascii := ascii_of_N (Z.to_N (48 + d)).

(** Digits of [z] before [acc]; [fuel] bounds their number. *)
Fixpoint decimal_digits (fuel : nat) (z : Z) (acc : string) : string :=
  let acc := String (decimal_digit (z mod 10)) acc in
  match fuel with
  | O => acc
  | S fuel => if z / 10 =? 0 then acc else decimal_digits fuel (z / 10) acc
  end.

(** An [int]: at most 10 digits. *)
Definition decimal (z : Z) : string :=
  if z <? 0 then String "-" (decimal_digits 9 (- z) "") else decimal_digits 9 z "".

(** ** Properties *)

Lemma digit_of_decimal d : 0 <= d < 10 -> digit (decimal_digit d) = Some d.
Proof.
  intros Hd. unfold digit, decimal_digit. rewrite N_ascii_embedding by lia. rewrite Z2N.id by lia.
  rewrite (proj2 (Z.leb_le 48 (48 + d))), (proj2 (Z.leb_le (48 + d) 57)) by lia. cbn. f_equal. lia.
Qed.

(** The digits before a character that is not one are read back. *)
Lemma digits_decimal fuel z acc a :
  0 <= z < 10 ^ Z.of_nat (S fuel) ->
  exists k, 0 <= k /\ digits a (decimal_digits fuel z acc) = digits (10 ^ k * a + z) acc
    /\ (a = 0 -> unsigned_digits (decimal_digits fuel z acc) = Some (digits z acc)).
Proof.
  revert z acc. induction fuel as [|fuel IH]; intros z acc Hz; cbn [decimal_digits].
  - assert (z mod 10 = z) as -> by (apply Z.mod_small; change (10 ^ Z.of_nat 1) with 10 in Hz; lia).
    exists 1. cbn [digits unsigned_digits]. rewrite digit_of_decimal by (change (10 ^ Z.of_nat 1) with 10 in Hz; lia).
    split; [lia|]. split; [done|]. done.
  - pose proof (Z.div_mod z 10 ltac:(lia)) as Hdiv. pose proof (Z.mod_pos_bound z 10 ltac:(lia)) as Hmod.
    assert (Hq : 0 <= z / 10) by (apply Z.div_pos; lia).
    destruct (Z.eqb_spec (z / 10) 0) as [Hz0|Hz0].
    + exists 1. cbn [digits unsigned_digits]. rewrite digit_of_decimal by lia.
      split; [lia|]. replace (z mod 10) with z by lia. done.
    + assert (Hlt : z / 10 < 10 ^ Z.of_nat (S fuel)).
      { apply Z.div_lt_upper_bound; [lia|]. rewrite <- Z.pow_succ_r by lia.
        replace (Z.succ (Z.of_nat (S fuel))) with (Z.of_nat (S (S fuel))) by lia. lia. }
      destruct (IH (z / 10) (String (decimal_digit (z mod 10)) acc) ltac:(lia)) as (k & Hk & Hd & Hu).
      exists (k + 1). split; [lia|]. split.
      * rewrite Hd. cbn [digits]. rewrite digit_of_decimal by lia. f_equal.
        rewrite Z.pow_add_r by lia. change (10 ^ 1) with 10. lia.
      * intros Ha. rewrite (Hu Ha). cbn [digits]. rewrite digit_of_decimal by lia. do 2 f_equal. lia.
Qed.

Lemma unsigned_digits_decimal z :
  0 <= z < 10 ^ 10 -> unsigned_digits (decimal_digits 9 z "") = Some z.
Proof.
  intros Hz. destruct (digits_decimal 9 z "" 0 Hz) as (k & _ & _ & Hu). by rewrite Hu.
Qed.

(** The first character of a printed number. *)
Lemma decimal_digits_head fuel z acc :
  0 <= z -> exists d s, 0 <= d < 10 /\ decimal_digits fuel z acc = String (decimal_digit d) s.
Proof.
  revert z acc. induction fuel as [|fuel IH]; intros z acc Hz; cbn [decimal_digits];
    pose proof (Z.mod_pos_bound z 10 ltac:(lia)); [by eexists _, _|].
  destruct (_ =? 0); [by eexists _, _|]. apply IH. apply Z.div_pos; lia.
Qed.

Lemma decimal_digit_cases d : 0 <= d < 10 ->
  In (decimal_digit d) ["0"; "1"; "2"; "3"; "4"; "5"; "6"; "7"; "8"; "9"]%char.
Proof.
  intros Hd. assert (d = 0 \/ d = 1 \/ d = 2 \/ d = 3 \/ d = 4 \/ d = 5 \/ d = 6 \/ d = 7 \/ d = 8 \/ d = 9)
    as H by lia. repeat (destruct H as [-> | H]; [cbn; auto 12|]). subst d. cbn. auto 12.
Qed.

(** An [int] that is printed is read back. *)
Lemma leading_number_decimal z : - 2 ^ 31 <= z < 2 ^ 31 -> leading_number (decimal z) = Some z.
Proof.
  intros Hz. unfold leading_number, decimal. destruct (Z.ltb_spec z 0) as [Hneg|Hpos].
  - cbn [skip_spaces is_space]. change (is_space "-") with false. cbv iota.
    rewrite unsigned_digits_decimal by lia. cbn. by rewrite Z.opp_involutive.
  - destruct (decimal_digits_head 9 z "" Hpos) as (d & s & Hd & Hs).
    pose proof (unsigned_digits_decimal z ltac:(lia)) as Hu. rewrite Hs in *.
    assert (Hskip : skip_spaces (String (decimal_digit d) s) = String (decimal_digit d) s).
    { pose proof (decimal_digit_cases d Hd) as Hc. cbn in Hc.
      repeat (destruct Hc as [<- | Hc]; [done|]). done. }
    rewrite Hskip, <- Hu. pose proof (decimal_digit_cases d Hd) as Hc. cbn in Hc.
    repeat (destruct Hc as [<- | Hc]; [done|]). done.
Qed.

Lemma is_int_true z : - 2 ^ 31 <= z < 2 ^ 31 -> is_int z = true.
Proof. intros Hz. unfold is_int. by rewrite (proj2 (Z.leb_le _ _)), (proj2 (Z.ltb_lt _ _)) by lia. Qed.

Lemma stoi_decimal z : - 2 ^ 31 <= z < 2 ^ 31 -> stoi (decimal z) = Ok z.
Proof. intros Hz. unfold stoi. by rewrite leading_number_decimal, is_int_true. Qed.

(** ** Strings without a character *)

Definition not_char (c a : ascii) : bool := negb (bool_decide (a = c)).

Lemma append_empty b : EmptyString +:+ b = b.
Proof. done. Qed.

Lemma append_cons c a b : String c a +:+ b = String c (a +:+ b).
Proof. done. Qed.

Lemma append_assoc (a b c : string) : (a +:+ b) +:+ c = a +:+ (b +:+ c).
Proof. induction a as [|x a IH]; [done|]. by rewrite !append_cons, IH. Qed.

Lemma append_nil_r s : s +:+ EmptyString = s.
Proof. induction s as [|c s IH]; [done|]. by rewrite append_cons, IH. Qed.

Lemma all_chars_app P a b : all_chars P (a +:+ b) = all_chars P a && all_chars P b.
Proof. induction a as [|c a IH]; [done|]. rewrite append_cons. cbn. by rewrite IH, andb_assoc. Qed.

Lemma all_chars_weaken (P Q : ascii -> bool) s :
  (forall c, P c = true -> Q c = true) -> all_chars P s = true -> all_chars Q s = true.
Proof.
  intros HPQ. induction s as [|c s IH]; cbn; [done|]. rewrite !andb_true_iff. intros [? ?]. auto.
Qed.

Lemma not_char_false (c a : ascii) : not_char c a = true -> bool_decide (a = c) = false.
Proof. unfold not_char. by destruct (bool_decide (a = c)). Qed.

Lemma before_char_none c s : all_chars (not_char c) s = true -> before_char c s = s.
Proof.
  induction s as [|a s IH]; cbn; [done|]. rewrite andb_true_iff. intros [->%not_char_false Hs].
  by rewrite IH.
Qed.

Lemma before_char_app c a s : all_chars (not_char c) a = true -> before_char c (a +:+ String c s) = a.
Proof.
  induction a as [|x a IH]; [by intros _; rewrite append_empty; cbn; rewrite bool_decide_true|].
  rewrite append_cons. cbn. rewrite andb_true_iff. intros [->%not_char_false Ha]. by rewrite IH.
Qed.

Lemma after_char_app c a s : all_chars (not_char c) a = true -> after_char c (a +:+ String c s) = Some s.
Proof.
  induction a as [|x a IH]; [by intros _; rewrite append_empty; cbn; rewrite bool_decide_true|].
  rewrite append_cons. cbn. rewrite andb_true_iff. intros [->%not_char_false Ha]. by apply IH.
Qed.

Lemma split_on_none c s : all_chars (not_char c) s = true -> split_on c s = [s].
Proof.
  induction s as [|a s IH]; cbn; [done|]. rewrite andb_true_iff. intros [->%not_char_false Hs].
  by rewrite IH.
Qed.

Lemma split_on_app c a s :
  all_chars (not_char c) a = true -> split_on c (a +:+ String c s) = a :: split_on c s.
Proof.
  induction a as [|x a IH]; [by intros _; rewrite append_empty; cbn; rewrite bool_decide_true|].
  rewrite append_cons. cbn. rewrite andb_true_iff. intros [->%not_char_false Ha]. by rewrite IH.
Qed.

(** ** White space *)

Lemma skip_spaces_head c s : is_space c = false -> skip_spaces (String c s) = String c s.
Proof. cbn. by intros ->. Qed.

Lemma erase_trailing_app a b :
  b <> EmptyString -> erase_trailing b = b -> erase_trailing (a +:+ b) = a +:+ b.
Proof.
  intros Hne Hb. induction a as [|c a IH]; [done|]. rewrite append_cons. cbn. rewrite IH.
  rewrite (bool_decide_false (a +:+ b = EmptyString)); [by rewrite andb_false_r|]. by destruct a.
Qed.

Lemma erase_trailing_solid s : all_chars (fun c => negb (is_space c)) s = true -> erase_trailing s = s.
Proof.
  induction s as [|c s IH]; cbn; [done|]. rewrite andb_true_iff. intros [Hc%negb_true_iff Hs].
  by rewrite IH, Hc.
Qed.

(** ** Characters of a printed number *)

Lemma decimal_digits_chars (P : ascii -> bool) fuel z acc :
  (forall d, 0 <= d < 10 -> P (decimal_digit d) = true) ->
  all_chars P acc = true -> 0 <= z -> all_chars P (decimal_digits fuel z acc) = true.
Proof.
  intros HP. revert z acc. induction fuel as [|fuel IH]; intros z acc Hacc Hz; cbn [decimal_digits];
    pose proof (Z.mod_pos_bound z 10 ltac:(lia));
    assert (Hs : all_chars P (String (decimal_digit (z mod 10)) acc) = true) by (cbn; by rewrite HP).
  - done.
  - destruct (_ =? 0); [done|]. apply IH; [done|]. apply Z.div_pos; lia.
Qed.

Lemma decimal_chars (P : ascii -> bool) z :
  (forall c, In c ["-"; "0"; "1"; "2"; "3"; "4"; "5"; "6"; "7"; "8"; "9"]%char -> P c = true) ->
  all_chars P (decimal z) = true.
Proof.
  intros HP. assert (HPd : forall d, 0 <= d < 10 -> P (decimal_digit d) = true).
  { intros d Hd. apply HP. right. by apply decimal_digit_cases. }
  unfold decimal. destruct (Z.ltb_spec z 0).
  - cbn [all_chars]. rewrite HP by (by left). apply decimal_digits_chars; [done|done|lia].
  - apply decimal_digits_chars; [done|done|lia].
Qed.

Lemma decimal_nonempty z : decimal z <> EmptyString.
Proof.
  unfold decimal. destruct (Z.ltb_spec z 0); [done|].
  destruct (decimal_digits_head 9 z "" ltac:(lia)) as (d & s & _ & ->). done.
Qed.

(** ** Hexadecimal printing *)

Definition hex_digit_value (c : ascii) : Z :=
  let n := Z.of_N (N_of_ascii c) in if n <? 58 then n - 48 else n - 87.

Fixpoint hex_value (acc : Z) (s : string) : Z :=
  match s with EmptyString => acc | String c s => hex_value (16 * acc + hex_digit_value c) s end.

Lemma hex_digit_value_digit d : 0 <= d < 16 -> hex_digit_value (hex_digit d) = d.
Proof.
  intros Hd. unfold hex_digit, hex_digit_value.
  destruct (Z.ltb_spec d 10); rewrite N_ascii_embedding by lia; rewrite Z2N.id by lia;
    [rewrite (proj2 (Z.ltb_lt _ 58)) by lia | rewrite (proj2 (Z.ltb_ge _ 58)) by lia]; lia.
Qed.

Lemma hex_value_digits fuel z acc a :
  0 <= z < 16 ^ Z.of_nat (S fuel) ->
  exists k, 0 <= k /\ hex_value a (hex_digits fuel z acc) = hex_value (16 ^ k * a + z) acc.
Proof.
  revert z acc. induction fuel as [|fuel IH]; intros z acc Hz; cbn [hex_digits].
  - change (16 ^ Z.of_nat 1) with 16 in Hz. exists 1. split; [lia|]. cbn [hex_value].
    rewrite Z.mod_small, hex_digit_value_digit by lia. f_equal; lia.
  - pose proof (Z.div_mod z 16 ltac:(lia)) as Hdiv. pose proof (Z.mod_pos_bound z 16 ltac:(lia)) as Hmod.
    destruct (Z.eqb_spec (z / 16) 0) as [Hz0|Hz0].
    + exists 1. split; [lia|]. cbn [hex_value]. rewrite hex_digit_value_digit by lia. f_equal; lia.
    + assert (Hlt : 0 <= z / 16 < 16 ^ Z.of_nat (S fuel)).
      { split; [apply Z.div_pos; lia|]. apply Z.div_lt_upper_bound; [lia|]. rewrite <- Z.pow_succ_r by lia.
        replace (Z.succ (Z.of_nat (S fuel))) with (Z.of_nat (S (S fuel))) by lia. lia. }
      destruct (IH (z / 16) (String (hex_digit (z mod 16)) acc) Hlt) as (k & Hk & ->).
      exists (k + 1). split; [lia|]. cbn [hex_value]. rewrite hex_digit_value_digit by lia. f_equal.
      rewrite Z.pow_add_r by lia. change (16 ^ 1) with 16. lia.
Qed.

Lemma hex_value_hex z : 0 <= z < 2 ^ 64 -> hex_value 0 (hex z) = z.
Proof. intros Hz. destruct (hex_value_digits 15 z "" 0 Hz) as (k & _ & H). unfold hex. rewrite H. cbn [hex_value]. lia. Qed.

Lemma hex_chars (P : ascii -> bool) z :
  (forall d, 0 <= d < 16 -> P (hex_digit d) = true) -> 0 <= z -> all_chars P (hex z) = true.
Proof.
  intros HP. unfold hex. generalize 15%nat as fuel.
  assert (Hacc : all_chars P "" = true) by done. revert Hacc. generalize EmptyString as acc.
  intros acc Hacc fuel. revert z acc Hacc.
  induction fuel as [|fuel IH]; intros z acc Hacc Hz; cbn [hex_digits];
    pose proof (Z.mod_pos_bound z 16 ltac:(lia));
    assert (Hs : all_chars P (String (hex_digit (z mod 16)) acc) = true) by (cbn; by rewrite HP).
  - done.
  - destruct (_ =? 0); [done|]. apply IH; [done|]. apply Z.div_pos; lia.
Qed.
