(* ===== verification/Logging.v ===== *)
(** * Logging

    The output streams that the log is written to, with the formatting that they
    keep from one insertion to the next, the macros of [logs.h], and the messages that
    the exceptions of [exceptions.cc] put in the log. *)

From S2P Require Import Prelude Exceptions Text.
From Stdlib Require Import Ascii.

Open Scope Z_scope.

(** ** Output streams

    What was written, the base of numbers ([std::dec], [std::hex]), the adjustment
    ([std::left]), and the width of the next insertion, which resets it. The fill
    character is the space and flags are printed as numbers, since nothing changes
    that. *)
Record ostream : Type := OStream {
  written : string;
  in_hex : bool;
  adjust_left : bool;
  width : nat;
}.

Definition cout : ostream := OStream "" false false 0.

(** What is inserted: values and manipulators. [Nothing] is the insertion of an
    enumerator without a name, which writes nothing and so keeps the width. *)
Inductive item : Type :=
  | Str (s : string)
  | Int (z : Z)
  | U64 (z : Z)
  | Flag (b : bool)
  | Nothing
  | std_dec | std_hex | std_left
  | std_setw (n : nat).

Fixpoint spaces (n : nat) : string :=
  match n with O => "" | S n => String " " (spaces n) end.

Definition padded (os : ostream) (s : string) : string :=
  let pad := spaces (width os - String.length s) in
  if adjust_left os then s +:+ pad else pad +:+ s.

Definition put (s : string) (os : ostream) : ostream :=
  OStream (written os +:+ padded os s) (in_hex os) (adjust_left os) 0.

(** A 64-bit number has at most 20 digits. *)
Definition decimal_u64 (z : Z) : string := decimal_digits 19 z "".

(** An [int] in hexadecimal is its 32-bit pattern. *)
Definition number (base16 : bool) (i : item) : string :=
  match i with
  | Str s => s
  | Int z => if base16 then hex (u32 z) else decimal z
  | U64 z => if base16 then hex z else decimal_u64 z
  | Flag b => if b then "1" else "0"
  | _ => ""
  end.

Definition insert (i : item) (os : ostream) : ostream :=
  match i with
  | Nothing => os
  | std_dec => OStream (written os) false (adjust_left os) (width os)
  | std_hex => OStream (written os) true (adjust_left os) (width os)
  | std_left => OStream (written os) (in_hex os) true (width os)
  | std_setw n => OStream (written os) (in_hex os) (adjust_left os) n
  | _ => put (number (in_hex os) i) os
  end.

(** [os << i1 << i2 << ...]. *)
Definition inserts (l : list item) (os : ostream) : ostream :=
  fold_left (fun os i => insert i os) l os.

(** ** The macros *)

Definition endl : item := Str (String (ascii_of_nat 10) EmptyString).

(** [MUNTJAC_LOG(LEVEL) << ...]: [time] is [sc_time_stamp()] as an integer. *)
Definition MUNTJAC_LOG (log_level LEVEL time : Z) (l : list item) (os : ostream) : ostream :=
  if LEVEL <=? log_level
  then inserts ([Str "[sim "; std_dec; U64 time; Str "] "] ++ l) os
  else os.

Definition MUNTJAC_WARN (l : list item) (cerr : ostream) : ostream :=
  inserts (Str "[sim] Warning: " :: l) cerr.
Definition MUNTJAC_ERROR (l : list item) (cerr : ostream) : ostream :=
  inserts (Str "[sim] Error: " :: l) cerr.

(** ** The messages of exceptions *)

Definition AccessFault_message (description : string) : string := "Access fault: " +:+ description.
Definition AlignmentFault_message : string := "Alignment fault".
Definition PageFault_message (description : string) : string := "Page fault: " +:+ description.

(** The constructor of [MuntjacException] logs [what()], which is the message. *)
Definition MuntjacException_what (message : string) : string := message.
Definition MuntjacException (log_level time : Z) (message : string) (os : ostream) : ostream :=
  MUNTJAC_LOG log_level 2 time [Str (MuntjacException_what message); endl] os.

(** ** Properties *)

Lemma inserts_app l1 l2 os : inserts (l1 ++ l2) os = inserts l2 (inserts l1 os).
Proof. apply fold_left_app. Qed.

(** What a list of values writes when the stream has no width pending and numbers are
    decimal: the pieces in their order. *)
Fixpoint plain (l : list item) : string :=
  match l with [] => "" | i :: l => number false i +:+ plain l end.

Definition is_value (i : item) : bool :=
  match i with Str _ | Int _ | U64 _ | Flag _ => true | _ => false end.

Lemma inserts_plain l w b :
  forallb is_value l = true ->
  inserts l (OStream w false b 0) = OStream (w +:+ plain l) false b 0.
Proof.
  revert w. induction l as [|i l IH]; intros w Hl; cbn [forallb plain] in *.
  - by rewrite append_nil_r.
  - apply andb_true_iff in Hl as [Hi Hl]. unfold inserts. cbn [fold_left].
    assert (insert i (OStream w false b 0) = OStream (w +:+ number false i) false b 0) as ->.
    { destruct i; try done; unfold insert, put, padded; cbn; by destruct b; rewrite ?append_nil_r. }
    specialize (IH (w +:+ number false i) Hl). unfold inserts in IH. by rewrite IH, append_assoc.
Qed.

(** A line of the log does not depend on the formatting that the lines before it left
    behind, unless a width is pending. *)
Lemma log_line log_level LEVEL time l w h b :
  LEVEL <= log_level -> forallb is_value l = true ->
  MUNTJAC_LOG log_level LEVEL time l (OStream w h b 0)
  = OStream (w +:+ "[sim " +:+ decimal_u64 time +:+ "] " +:+ plain l) false b 0.
Proof.
  intros Hlevel Hl. unfold MUNTJAC_LOG. rewrite (proj2 (Z.leb_le _ _) Hlevel).
  change ([Str "[sim "; std_dec; U64 time; Str "] "] ++ l)
    with ([Str "[sim "; std_dec] ++ (U64 time :: Str "] " :: l)).
  rewrite inserts_app.
  assert (inserts [Str "[sim "; std_dec] (OStream w h b 0) = OStream (w +:+ "[sim ") false b 0) as ->.
  { unfold inserts. cbn [fold_left]. unfold insert at 2, put, padded. cbn [number written in_hex adjust_left width].
    cbn [Nat.sub spaces]. destruct b; unfold insert; cbn [written adjust_left width]; by rewrite ?append_nil_r. }
  rewrite inserts_plain by done. f_equal. by rewrite !append_assoc.
Qed.

Lemma log_silent log_level LEVEL time l os :
  log_level < LEVEL -> MUNTJAC_LOG log_level LEVEL time l os = os.
Proof. intros Hlevel. unfold MUNTJAC_LOG. by rewrite (proj2 (Z.leb_gt _ _) Hlevel). Qed.
