(* ===== verification/VirtualAddressing.v ===== *)
(** * Sv39 addresses, the [satp] value and page table entries

    [virtual_addressing.h] (classes [AddressTranslationProtection64] and
    [Sv39]) and [page_table_entry.h] (class [PageTableEntrySv39]). A value of
    each class is its single [uint64_t] field. *)

From S2P Require Import Prelude.

Definition ATP_MODE_BARE : Z := 0.
Definition ATP_MODE_SV32 : Z := 1.
Definition ATP_MODE_SV39 : Z := 8.
Definition ATP_MODE_SV48 : Z := 9.

(** ** [AddressTranslationProtection64] *)
Module ATP.

Definition mode (value : Z) : Z := Z.land (Z.shiftr value 60) 0xF.
Definition address_space_id (value : Z) : Z := Z.land (Z.shiftr value 44) 0xFFFF.
Definition physical_page_number (value : Z) : Z := Z.land (Z.shiftr value 0) 0xFFFFFFFFFFF.

End ATP.

(** ** [Sv39] *)
Module Sv39.

Definition MAX_PHYSICAL_ADDRESS : Z := 2 ^ 56 - 1.
Definition VALEN : Z := 39.
Definition PAGESIZE : Z := 4096.
Definition PTESIZE : Z := 8.
Definition LEVELS : nat := 3.
Definition ATP_MODE : Z := ATP_MODE_SV39.

(** The constructor [Sv39(uint offset, uint ppn0, uint ppn1, uint ppn2)]: the
    whole sum is computed in 32-bit unsigned arithmetic and only then converted
    to the 64-bit [value]. *)
Definition make (offset ppn0 ppn1 ppn2 : Z) : Z :=
  u32 (offset
       + u32 (Z.shiftl (Z.land ppn0 0x1FF) 12)
       + u32 (Z.shiftl (Z.land ppn1 0x1FF) 21)
       + u32 (Z.shiftl (Z.land ppn2 0x3FFFFFF) 30)).

Definition offset (value : Z) : Z := Z.land (Z.shiftr value 0) 0xFFF.

Definition virtual_page_number (value : Z) (index : Z) : Z :=
  match index with
  | 0 => Z.land (Z.shiftr value 12) 0x1FF
  | 1 => Z.land (Z.shiftr value 21) 0x1FF
  | 2 => Z.land (Z.shiftr value 30) 0x1FF
  | _ => Z.land (Z.shiftr value 12) 0x7FFFFFF
  end.

End Sv39.

(** ** [PageTableEntrySv39] *)
Module PTE.

(** [(value >> n) & 0x1], converted to [bool]. *)
Definition flag (value n : Z) : bool := negb (Z.land (Z.shiftr value n) 1 =? 0).

Definition valid (value : Z) : bool := flag value 0.
Definition readable (value : Z) : bool := flag value 1.
Definition writable (value : Z) : bool := flag value 2.
Definition executable (value : Z) : bool := flag value 3.
Definition user_mode_accessible (value : Z) : bool := flag value 4.
Definition global (value : Z) : bool := flag value 5.
Definition accessed (value : Z) : bool := flag value 6.
Definition dirty (value : Z) : bool := flag value 7.

Definition physical_page_number (value : Z) (index : Z) : Z :=
  match index with
  | 0 => Z.land (Z.shiftr value 10) 0x1FF
  | 1 => Z.land (Z.shiftr value 19) 0x1FF
  | 2 => Z.land (Z.shiftr value 28) 0x3FFFFFF
  | _ => Z.land (Z.shiftr value 10) 0xFFFFFFFFFFF
  end.

Definition set_accessed (value : Z) : Z := Z.lor value (Z.shiftl 1 6).
Definition set_dirty (value : Z) : Z := Z.lor value (Z.shiftl 1 7).

End PTE.

(** ** The fields as quotients and remainders *)

Create Rewrite HintDb fields.
Create Rewrite HintDb pte_bits.

Lemma ATP_mode_field v : ATP.mode v = (v / 2 ^ 60) mod 2 ^ 4.
Proof. apply (field_div v 60 4); lia. Qed.

Lemma ATP_ppn_field v : ATP.physical_page_number v = v mod 2 ^ 44.
Proof.
  unfold ATP.physical_page_number. rewrite Z.shiftr_0_r.
  apply (Z.land_ones v 44). lia.
Qed.

Lemma Sv39_offset_field v : Sv39.offset v = v mod 2 ^ 12.
Proof. unfold Sv39.offset. rewrite Z.shiftr_0_r. apply (Z.land_ones v 12). lia. Qed.

Lemma Sv39_vpn_field v i :
  0 <= i < 3 -> Sv39.virtual_page_number v i = (v / 2 ^ (12 + 9 * i)) mod 2 ^ 9.
Proof.
  intros. assert (i = 0 \/ i = 1 \/ i = 2) as [->|[->| ->]] by lia.
  - apply (field_div v 12 9); lia.
  - apply (field_div v 21 9); lia.
  - apply (field_div v 30 9); lia.
Qed.

Lemma PTE_ppn_field v :
  PTE.physical_page_number v (-1) = (v / 2 ^ 10) mod 2 ^ 44.
Proof. apply (field_div v 10 44); lia. Qed.

Lemma PTE_ppn0_field v : PTE.physical_page_number v 0 = (v / 2 ^ 10) mod 2 ^ 9.
Proof. apply (field_div v 10 9); lia. Qed.
Lemma PTE_ppn1_field v : PTE.physical_page_number v 1 = (v / 2 ^ 19) mod 2 ^ 9.
Proof. apply (field_div v 19 9); lia. Qed.
Lemma PTE_ppn2_field v : PTE.physical_page_number v 2 = (v / 2 ^ 28) mod 2 ^ 26.
Proof. apply (field_div v 28 26); lia. Qed.

Lemma PTE_flag_testbit v n : 0 <= n -> PTE.flag v n = Z.testbit v n.
Proof.
  intros. unfold PTE.flag. change 1 with (Z.ones 1). rewrite field_div by lia.
  change (2 ^ 1) with 2. rewrite Zmod_odd, <- Z.shiftr_div_pow2 by lia.
  rewrite <- Z.bit0_odd, Z.shiftr_spec, Z.add_0_l by lia.
  by destruct (Z.testbit v n).
Qed.

#[export] Hint Rewrite ATP_mode_field ATP_ppn_field Sv39_offset_field PTE_ppn_field
  PTE_ppn0_field PTE_ppn1_field PTE_ppn2_field : fields.

(** ** Packing and unpacking an address *)

Lemma split_fields x a b c :
  0 <= a -> 0 <= b -> 0 <= c ->
  x mod 2 ^ (a + b + c) =
    x mod 2 ^ a + 2 ^ a * ((x / 2 ^ a) mod 2 ^ b) + 2 ^ (a + b) * ((x / 2 ^ (a + b)) mod 2 ^ c).
Proof.
  intros. rewrite Z.pow_add_r, Z.rem_mul_r by (try apply Z.pow_nonzero; lia).
  f_equal. by rewrite Z.pow_add_r, Z.rem_mul_r by (try apply Z.pow_nonzero; lia).
Qed.

(** The packed address is the sum of the shifted fields, reduced modulo 2^32. *)
Lemma make_sum off p0 p1 p2 :
  Sv39.make off p0 p1 p2 =
    u32 (off + 2 ^ 12 * (p0 mod 2 ^ 9) + 2 ^ 21 * (p1 mod 2 ^ 9) + 2 ^ 30 * (p2 mod 2 ^ 26)).
Proof.
  unfold Sv39.make, u32. rewrite wrap_add_r.
  change 0x1FF with (Z.ones 9). change 0x3FFFFFF with (Z.ones 26).
  rewrite !Z.land_ones by lia. rewrite !Z.shiftl_mul_pow2 by lia.
  rewrite (Z.add_comm (_ + _) (wrap 32 (p1 mod _ * _))), <- Z.add_assoc, wrap_add_l.
  rewrite (Z.add_comm off), (Z.add_assoc (_ * _)), (Z.add_comm (p1 mod _ * _)).
  rewrite <- !Z.add_assoc, wrap_add_l. f_equal. lia.
Qed.

(** The page number of a PTE splits into the three indexed numbers. *)
Lemma PTE_ppn_split v :
  PTE.physical_page_number v (-1) =
    PTE.physical_page_number v 0 + 2 ^ 9 * PTE.physical_page_number v 1
    + 2 ^ 18 * PTE.physical_page_number v 2.
Proof.
  autorewrite with fields. change (2 ^ 44) with (2 ^ (9 + 9 + 26)).
  rewrite split_fields by lia.
  rewrite !Z.div_div by lia. rewrite <- !Z.pow_add_r by lia. done.
Qed.

(** The offset and the three page numbers of a virtual address. *)
Lemma Sv39_split v :
  v mod 2 ^ Sv39.VALEN =
    Sv39.offset v + 2 ^ 12 * Sv39.virtual_page_number v 0
    + 2 ^ 21 * Sv39.virtual_page_number v 1 + 2 ^ 30 * Sv39.virtual_page_number v 2.
Proof.
  rewrite !Sv39_vpn_field, Sv39_offset_field by lia.
  change Sv39.VALEN with (12 + 9 + 18). rewrite split_fields by lia.
  change (2 ^ 18) with (2 ^ (9 + 9 + 0)). rewrite split_fields, !Z.div_div by lia.
  rewrite <- !Z.pow_add_r by lia.
  change (2 ^ 0) with 1. rewrite Z.mod_1_r.
  change (12 + 9 * 0) with 12. change (12 + 9 * 1) with 21. change (12 + 9 * 2) with 30.
  change (12 + 9) with 21. change (21 + 9) with 30. lia.
Qed.

(** ** Accessed and dirty bits *)

Lemma set_accessed_spec v i :
  0 <= i -> Z.testbit (PTE.set_accessed v) i = Z.testbit v i || (i =? 6).
Proof.
  intros. unfold PTE.set_accessed. rewrite Z.lor_spec. f_equal.
  change (Z.shiftl 1 6) with (2 ^ 6). rewrite Z.pow2_bits_eqb by lia. apply Z.eqb_sym.
Qed.

Lemma set_dirty_spec v i :
  0 <= i -> Z.testbit (PTE.set_dirty v) i = Z.testbit v i || (i =? 7).
Proof.
  intros. unfold PTE.set_dirty. rewrite Z.lor_spec. f_equal.
  change (Z.shiftl 1 7) with (2 ^ 7). rewrite Z.pow2_bits_eqb by lia. apply Z.eqb_sym.
Qed.

#[export] Hint Rewrite PTE_flag_testbit set_accessed_spec set_dirty_spec using lia : pte_bits.
