(* ===== verification/FlatMemory.v ===== *)
(** * The abstract memory: a flat array of bytes

    The specification that [MainMemory] implements: a total map from 64-bit
    addresses to bytes, read and written in runs that wrap around at [2 ^ 64].
    Memories are compared on the 64-bit addresses only ([≡ₘ]). *)

From S2P Require Import Prelude.

Definition memory : Type := Z -> Z.

Definition mem_equiv (m1 m2 : memory) : Prop :=
  forall x, in_width 64 x -> m1 x = m2 x.

Infix "≡ₘ" := mem_equiv (at level 70, no associativity).

(** The [n] bytes from address [a]. *)
Definition flat_read (m : memory) (a n : Z) : list Z :=
  (fun i => m (u64 (a + i))) <$> seqZ 0 n.

(** The memory in which the bytes [bs] are stored from address [a]. *)
Definition flat_write (m : memory) (a : Z) (bs : list Z) : memory :=
  fun x => match bs !! Z.to_nat (u64 (x - a)) with
           | Some b => b
           | None => m x
           end.

(** ** Equivalence of memories *)

#[export] Instance mem_equiv_equivalence : Equivalence mem_equiv.
Proof.
  split.
  - by intros m x _.
  - intros m1 m2 H x Hx. symmetry. by apply H.
  - intros m1 m2 m3 H1 H2 x Hx. by rewrite H1, H2.
Qed.

#[export] Instance flat_read_proper : Proper (mem_equiv ==> eq ==> eq ==> eq) flat_read.
Proof.
  intros m1 m2 H a ? <- n ? <-. unfold flat_read.
  apply list_fmap_ext. intros _ i _. apply H. apply wrap_bound. lia.
Qed.

#[export] Instance flat_write_proper : Proper (mem_equiv ==> eq ==> eq ==> mem_equiv) flat_write.
Proof.
  intros m1 m2 H a ? <- bs ? <- x Hx. unfold flat_write. by rewrite (H x).
Qed.

(** ** Laws *)

Section laws.

Implicit Types (m : memory) (a b n : Z) (bs : list Z).

Lemma length_flat_read m a n : 0 <= n -> Z.of_nat (length (flat_read m a n)) = n.
Proof. intros. unfold flat_read. rewrite length_fmap, length_seqZ. lia. Qed.

Lemma lookup_flat_read m a n i :
  0 <= Z.of_nat i < n -> flat_read m a n !! i = Some (m (u64 (a + Z.of_nat i))).
Proof.
  intros. unfold flat_read. rewrite list_lookup_fmap, lookup_seqZ_lt by lia. done.
Qed.

Lemma flat_read_ext m1 m2 a b n :
  (forall i, 0 <= i < n -> m1 (u64 (a + i)) = m2 (u64 (b + i))) ->
  flat_read m1 a n = flat_read m2 b n.
Proof.
  intros H. unfold flat_read. apply list_fmap_ext. intros k i Hk.
  apply H. apply lookup_seqZ in Hk. lia.
Qed.

Lemma flat_read_app m a k n :
  0 <= k <= n -> flat_read m a n = flat_read m a k ++ flat_read m (u64 (a + k)) (n - k).
Proof.
  intros. unfold flat_read. replace n with (k + (n - k)) at 1 by lia.
  rewrite seqZ_app, fmap_app by lia. f_equal.
  rewrite <- (Z.add_0_r (0 + k)), <- (fmap_add_seqZ (0 + k) 0), <- list_fmap_compose.
  apply list_fmap_ext. intros _ i _. simpl. f_equal. unfold u64. rewrite wrap_add_l.
  f_equal. lia.
Qed.

Lemma flat_read_byte m a n :
  (forall x, in_width 64 x -> byte (m x)) -> Forall byte (flat_read m a n).
Proof.
  intros H. unfold flat_read. apply Forall_fmap, Forall_forall. intros i _.
  apply H. apply wrap_bound. lia.
Qed.

(** Offsets from the base address of a run. *)
Lemma offset_of a i : in_width 64 i -> u64 (u64 (a + i) - a) = i.
Proof.
  intros. unfold u64. rewrite wrap_sub_l. replace (a + i - a) with i by lia.
  by apply wrap_small.
Qed.

Lemma address_of a x : in_width 64 x -> u64 (a + u64 (x - a)) = x.
Proof.
  intros. unfold u64. rewrite wrap_add_r. replace (a + (x - a)) with x by lia.
  by apply wrap_small.
Qed.

(** Read after write: the run just written. *)
Lemma flat_read_write m a bs :
  Z.of_nat (length bs) <= 2 ^ 64 ->
  flat_read (flat_write m a bs) a (Z.of_nat (length bs)) = bs.
Proof.
  intros Hlen. apply list_eq. intros i.
  destruct (decide (i < length bs)%nat) as [Hi|Hi].
  - rewrite lookup_flat_read by lia. unfold flat_write.
    rewrite offset_of by width. rewrite Nat2Z.id.
    destruct (lookup_lt_is_Some_2 bs i Hi) as [b Hb]. by rewrite Hb.
  - rewrite !lookup_ge_None_2; [done|lia|].
    apply Nat2Z.inj_le. rewrite length_flat_read; lia.
Qed.

(** Frame: an address outside the run is untouched. *)
Lemma flat_write_outside m a bs x :
  Z.of_nat (length bs) <= u64 (x - a) -> flat_write m a bs x = m x.
Proof.
  intros. unfold flat_write. rewrite lookup_ge_None_2; [done|lia].
Qed.

Lemma flat_write_nil m a : flat_write m a [] = m.
Proof. done. Qed.

(** A run stored in two pieces. *)
Lemma flat_write_app m a bs cs :
  Z.of_nat (length bs) + Z.of_nat (length cs) <= 2 ^ 64 ->
  flat_write m a (bs ++ cs) ≡ₘ
    flat_write (flat_write m a bs) (u64 (a + Z.of_nat (length bs))) cs.
Proof.
  intros Hlen x Hx. unfold flat_write, u64.
  assert (He : wrap 64 (x - wrap 64 (a + Z.of_nat (length bs)))
               = wrap 64 (wrap 64 (x - a) - Z.of_nat (length bs))).
  { unfold wrap. rewrite Zminus_mod_idemp_r, Zminus_mod_idemp_l. f_equal. lia. }
  rewrite He. pose proof (wrap_bound 64 (x - a)) as Hk. set (k := wrap 64 (x - a)) in *.
  destruct (decide (k < Z.of_nat (length bs))) as [Hlt|Hge].
  - rewrite lookup_app_l by lia.
    rewrite (lookup_ge_None_2 cs); [done|].
    unfold wrap. rewrite <- (Z_mod_plus_full _ 1), Z.mod_small by lia. lia.
  - rewrite lookup_app_r by lia. rewrite (wrap_small _ (k - _)) by lia.
    replace (Z.to_nat (k - Z.of_nat (length bs))) with (Z.to_nat k - length bs)%nat by lia.
    destruct (cs !! _); [done|]. rewrite (lookup_ge_None_2 bs); [done|lia].
Qed.

End laws.
