(* ===== verification/MainMemory.v ===== *)
(** * Simulated main memory

    [main_memory.h]/[main_memory.cc] and [data_block.h]/[data_block.cc]: memory
    is a map from page tags to heap-allocated pages of 1 MB, allocated on first
    access. The refinement theorems relate every access to the flat memory of
    [FlatMemory]. *)

From S2P Require Import Prelude Exceptions VirtualAddressing FlatMemory.

(** ** Interfaces *)

(** The two functions that [main_memory.cc] declares [extern] and that each
    simulator defines: [S] is the part of the simulator's state they use. *)
Class SystemCalls (S : Type) : Type := {
  is_system_call : S -> Z -> Z -> bool;
  system_call : Z -> Z -> M exn S unit;
}.

(** What the memory's clients rely on: a system call on an address that is one
    returns, and never moves the system-call addresses. *)
Class SystemCallsOk (S : Type) `{SystemCalls S} : Prop := {
  system_call_ok s a d :
    is_system_call s a d = true -> exists s', system_call a d s = (Ok tt, s');
  system_call_stable s a d a' d' :
    is_system_call (snd (system_call a d s)) a' d' = is_system_call s a' d';
}.

(** [new char[n]] leaves the array uninitialised: its bytes are unspecified. *)
Class Uninitialised : Type := {
  garbage : Z -> Z -> Z;
  garbage_byte tag offset : byte (garbage tag offset);
}.

(** A page keeps the bytes stored so far; the others are unspecified. *)
Abbreviation page := (gmap Z Z).

(** The memory object together with the simulator state behind the system calls. *)
Record machine (S : Type) : Type := Machine {
  pages : gmap Z page;
  host : S;
}.
Arguments Machine {S} pages host.
Arguments pages {S} m.
Arguments host {S} m.

(** [DataBlock]: [data] holds the bytes of the array behind the pointer. *)
Record DataBlock : Type := Block {
  address : Z;
  num_bytes : Z;
  data : list Z;
}.

(** The constructor and the accessors of [data_block.cc]. *)
Definition make_block (address num_bytes : Z) (ptr : list Z) : DataBlock := Block address num_bytes ptr.
Definition get_address (b : DataBlock) : Z := address b.
Definition get_num_bytes (b : DataBlock) : Z := num_bytes b.
Definition get_data (b : DataBlock) : list Z := data b.

Module MainMemory.

Definition LOG2_PAGE_SIZE : Z := 20.
Definition PAGE_SIZE : Z := Z.shiftl 1 LOG2_PAGE_SIZE.

Definition get_tag (address : Z) : Z := Z.land address (u64 (Z.lnot (PAGE_SIZE - 1))).
Definition get_offset (address : Z) : Z := Z.land address (PAGE_SIZE - 1).

Section operations.

Context {S : Type} `{SystemCalls S} `{Uninitialised}.

Abbreviation M := (M exn (machine S)).

(** *** Pages

    A [char*] into a page is the tag of the page and an offset. *)

Definition page_byte (tag : Z) (p : page) (offset : Z) : Z :=
  default (garbage tag offset) (p !! offset).

Definition set_pages (f : gmap Z page -> gmap Z page) (m : machine S) : machine S :=
  Machine (f (pages m)) (host m).

Definition on_host {A} (k : Prelude.M exn S A) : M A :=
  zoom host (fun h m => Machine (pages m) h) k.

Definition check_access (address : Z) : M unit :=
  if Sv39.MAX_PHYSICAL_ADDRESS <? address then throw (AccessFault address) else mret tt.

Definition allocate_new_page (address : Z) : M Z :=
  let tag := get_tag address in
  found ← gets (fun m => pages m !! tag);
  assert_that (bool_decide (found = None));;
  modify (set_pages <[tag := ∅]>);;
  mret tag.

Definition get_page (address : Z) : M Z :=
  let tag := get_tag address in
  found ← gets (fun m => pages m !! tag);
  match found with
  | None => allocate_new_page tag
  | Some _ => mret tag
  end.

(** Reading [n] bytes at a pointer; outside the array it is undefined. *)
Definition load (tag offset n : Z) : M (list Z) := fun m =>
  match pages m !! tag with
  | Some p =>
      if (0 <=? offset) && (0 <=? n) && (offset + n <=? PAGE_SIZE)
      then (Ok (page_byte tag p <$> seqZ offset n), m)
      else (Undefined, m)
  | None => (Undefined, m)
  end.

Fixpoint store_bytes (p : page) (offset : Z) (bs : list Z) : page :=
  match bs with
  | [] => p
  | b :: bs => store_bytes (<[offset := b]> p) (offset + 1) bs
  end.

(** Storing bytes at a pointer; outside the array it is undefined. *)
Definition store (tag offset : Z) (bs : list Z) : M unit := fun m =>
  match pages m !! tag with
  | Some p =>
      if (0 <=? offset) && (offset + Z.of_nat (length bs) <=? PAGE_SIZE)
      then (Ok tt, set_pages <[tag := store_bytes p offset bs]> m)
      else (Undefined, m)
  | None => (Undefined, m)
  end.

(** *** Scalar accesses *)

(** The body shared by [read16], [read32] and [read64]: [size] is [sizeof]. *)
Definition read_scalar (size address : Z) : M Z :=
  check_access (u64 (address + size - 1));;
  page ← get_page address;
  let offset := get_offset address in
  if offset <=? PAGE_SIZE - size then
    bs ← load page offset size;
    mret (le_value bs)
  else
    next_page ← get_page (u64 (address + PAGE_SIZE));
    low ← load page offset (PAGE_SIZE - offset);
    high ← load next_page 0 (offset + size - PAGE_SIZE);
    mret (le_value (low ++ high)).

Definition read8 (address : Z) : M Z :=
  check_access (u64 (address + 1 - 1));;
  page ← get_page address;
  let offset := get_offset address in
  bs ← load page offset 1;
  mret (le_value bs).

Definition read16 (address : Z) : M Z := read_scalar 2 address.
Definition read32 (address : Z) : M Z := read_scalar 4 address.
Definition read64 (address : Z) : M Z := read_scalar 8 address.

(** The body shared by [write16], [write32] and [write64]; passing the argument
    converts it to the parameter's type. *)
Definition write_scalar (size address value : Z) : M unit :=
  let data := wrap (8 * size) value in
  h ← gets host;
  if is_system_call h address data then on_host (system_call address data)
  else
    check_access (u64 (address + size - 1));;
    page ← get_page address;
    let offset := get_offset address in
    let result := le_bytes (Z.to_nat size) data in
    if offset <=? PAGE_SIZE - size then store page offset result
    else
      next_page ← get_page (u64 (address + PAGE_SIZE));
      store page offset (take (Z.to_nat (PAGE_SIZE - offset)) result);;
      store next_page 0 (drop (Z.to_nat (PAGE_SIZE - offset)) result).

Definition write8 (address value : Z) : M unit :=
  let data := u8 value in
  h ← gets host;
  if is_system_call h address data then on_host (system_call address data)
  else
    check_access (u64 (address + 1 - 1));;
    page ← get_page address;
    let offset := get_offset address in
    store page offset [data].

Definition write16 (address value : Z) : M unit := write_scalar 2 address value.
Definition write32 (address value : Z) : M unit := write_scalar 4 address value.
Definition write64 (address value : Z) : M unit := write_scalar 8 address value.

(** *** Block accesses *)

(** The [while] loop of [read]: [acc] is the part of [data] already copied. *)
Fixpoint read_loop (fuel : nat) (address num_bytes bytes_copied : Z) (acc : list Z)
    : M (list Z) :=
  if bytes_copied <? num_bytes then
    match fuel with
    | O => fail OutOfFuel
    | Datatypes.S fuel =>
        page ← get_page (u64 (address + bytes_copied));
        let offset := get_offset (u64 (address + bytes_copied)) in
        let bytes_to_copy := num_bytes - bytes_copied in
        let bytes_to_copy := if PAGE_SIZE <? bytes_to_copy then PAGE_SIZE else bytes_to_copy in
        bs ← load page offset bytes_to_copy;
        read_loop fuel address num_bytes (bytes_copied + bytes_to_copy) (acc ++ bs)
    end
  else mret acc.

Definition read (address num_bytes : Z) : M DataBlock :=
  check_access (u64 (address + num_bytes - 1));;
  bs ← (if u64 (get_offset address + num_bytes) <=? PAGE_SIZE then
          page ← get_page address;
          load page (get_offset address) num_bytes
        else read_loop (Z.to_nat num_bytes) address num_bytes 0 []);
  mret (Block address num_bytes bs).

(** The [while] loop of [write]; reading past the end of the block's array is
    undefined. *)
Fixpoint write_loop (fuel : nat) (b : DataBlock) (bytes_copied : Z) : M unit :=
  if bytes_copied <? num_bytes b then
    match fuel with
    | O => fail OutOfFuel
    | Datatypes.S fuel =>
        page ← get_page (u64 (address b + bytes_copied));
        let offset := get_offset (u64 (address b + bytes_copied)) in
        let bytes_to_copy := num_bytes b - bytes_copied in
        let bytes_to_copy :=
          if PAGE_SIZE <? u64 (offset + bytes_to_copy) then PAGE_SIZE - offset
          else bytes_to_copy in
        let source := take (Z.to_nat bytes_to_copy) (drop (Z.to_nat bytes_copied) (data b)) in
        if Z.of_nat (length source) =? bytes_to_copy then
          store page offset source;;
          write_loop fuel b (bytes_copied + bytes_to_copy)
        else fail Undefined
    end
  else mret tt.

Definition write (b : DataBlock) : M unit :=
  check_access (u64 (address b + num_bytes b - 1));;
  write_loop (Z.to_nat (num_bytes b)) b 0.

(** *** The flat view *)

(** The byte at an address. Allocating a page does not change it. *)
Definition byte_at (m : machine S) : memory := fun a =>
  match pages m !! get_tag a with
  | Some p => page_byte (get_tag a) p (get_offset a)
  | None => garbage (get_tag a) (get_offset a)
  end.

(** Well-formed memories: page-aligned tags, and bytes stored inside pages. *)
Definition page_wf (tag : Z) (p : page) : Prop :=
  (in_width 64 tag /\ tag mod PAGE_SIZE = 0)
  /\ map_Forall (fun offset b => 0 <= offset < PAGE_SIZE /\ byte b) p.

Definition wf (m : machine S) : Prop := map_Forall page_wf (pages m).

End operations.

(** ** Tags and offsets *)

Lemma PAGE_SIZE_eq : PAGE_SIZE = 2 ^ 20.
Proof. done. Qed.

Lemma get_offset_mod a : get_offset a = a mod PAGE_SIZE.
Proof. exact (Z.land_ones a 20 ltac:(lia)). Qed.

Lemma get_tag_sub a : in_width 64 a -> get_tag a = a - a mod PAGE_SIZE.
Proof.
  intros Ha. transitivity (Z.shiftl (Z.shiftr a 20) 20).
  - unfold get_tag, u64, wrap. by_bits i. rewrite Z.shiftl_spec, Z.land_spec by lia.
    destruct (decide (i < 64)).
    + rewrite Z.mod_pow2_bits_low, Z.lnot_spec by lia.
      change (PAGE_SIZE - 1) with (Z.ones 20). rewrite Z.testbit_ones_nonneg by lia.
      destruct (Z.ltb_spec i 20); simpl.
      * by rewrite andb_false_r, Z.testbit_neg_r by lia.
      * rewrite andb_true_r, Z.shiftr_spec by lia. f_equal. lia.
    + rewrite Z.shiftr_spec by lia. replace (i - 20 + 20) with i by lia.
      by rewrite (testbit_above 64 a) by width.
  - rewrite Z.shiftl_mul_pow2, Z.shiftr_div_pow2, <- PAGE_SIZE_eq by lia.
    pose proof (Z.div_mod a PAGE_SIZE ltac:(done)). lia.
Qed.

(** Pages do not straddle the end of the address space. *)
Definition is_tag (t : Z) : Prop := in_width 64 t /\ t mod PAGE_SIZE = 0.

Lemma get_tag_is_tag a : in_width 64 a -> is_tag (get_tag a).
Proof.
  intros Ha. rewrite get_tag_sub by done. unfold is_tag, in_width in *.
  pose proof (Z.mod_pos_bound a PAGE_SIZE ltac:(done)).
  pose proof (Z.div_mod a PAGE_SIZE ltac:(done)).
  pose proof (Z.div_pos a PAGE_SIZE ltac:(lia) ltac:(done)).
  split; [unfold in_width; nia|]. by rewrite Zminus_mod_idemp_r, Z.sub_diag.
Qed.

Lemma get_offset_range a : 0 <= get_offset a < PAGE_SIZE.
Proof. rewrite get_offset_mod. by apply Z.mod_pos_bound. Qed.

Lemma is_tag_room t : is_tag t -> t + PAGE_SIZE <= 2 ^ 64.
Proof.
  intros [Ht Hm]. unfold in_width in Ht.
  pose proof (Z.div_mod t PAGE_SIZE ltac:(done)).
  assert (2 ^ 64 = PAGE_SIZE * 2 ^ 44) by done. nia.
Qed.

Lemma tag_plus t off :
  is_tag t -> 0 <= off < PAGE_SIZE -> get_tag (t + off) = t /\ get_offset (t + off) = off.
Proof.
  intros Ht Hoff. pose proof (is_tag_room t Ht). destruct Ht as [Hw Hm].
  assert (Hmod : (t + off) mod PAGE_SIZE = off).
  { by rewrite <- Zplus_mod_idemp_l, Hm, Z.add_0_l, Z.mod_small. }
  rewrite get_offset_mod, get_tag_sub, Hmod by (unfold in_width in *; lia).
  split; [lia|done].
Qed.

Lemma tag_split a : in_width 64 a -> a = get_tag a + get_offset a.
Proof. intros. rewrite get_tag_sub, get_offset_mod by done. lia. Qed.

(** The page after the one of [a], as [get_page(address + PAGE_SIZE)] finds it. *)
Lemma next_tag a :
  in_width 64 a ->
  get_tag (u64 (a + PAGE_SIZE)) = u64 (a + (PAGE_SIZE - get_offset a)).
Proof.
  intros Ha. pose proof (get_offset_range a). pose proof (get_tag_is_tag a Ha) as Ht.
  assert (Hs : a + (PAGE_SIZE - get_offset a) = get_tag a + PAGE_SIZE)
    by (pose proof (tag_split a Ha); lia).
  rewrite Hs, (tag_split a Ha) at 1.
  replace (get_tag a + get_offset a + PAGE_SIZE)
    with ((get_tag a + PAGE_SIZE) + get_offset a) by lia.
  assert (Hn : is_tag (u64 (get_tag a + PAGE_SIZE))).
  { split; [apply wrap_bound; lia|]. destruct Ht as [_ Hm]. unfold u64, wrap.
    rewrite Z.mod_mod_divide by (by exists (2 ^ 44)).
    by rewrite <- Zplus_mod_idemp_l, Hm, Z.add_0_l, Z_mod_same_full. }
  pose proof (is_tag_room _ Hn) as Hroom. unfold u64 in *.
  rewrite <- wrap_add_l, wrap_small by (destruct Hn; width).
  by apply tag_plus.
Qed.

End MainMemory.

(** The TileLink tester has no memory-mapped system calls ([tl_main.cc]). *)
#[export] Instance tl_system_calls : SystemCalls unit := {|
  is_system_call _ _ _ := false;
  system_call _ _ := mret tt;
|}.

#[export] Instance tl_system_calls_ok : SystemCallsOk unit.
Proof. by split. Qed.

(** An allocator that happens to return zeroed pages, for concrete runs. *)
Definition zeroed : Uninitialised := {|
  garbage _ _ := 0;
  garbage_byte _ _ := conj (Z.le_refl 0) (eq_refl : 0 < 256);
|}.
