(* ===== verification/MainMemoryFacts.v ===== *)
(** * Main memory refines the flat memory

    Every access of [MainMemory] either throws, is undefined, or performs the
    access of the same name on [byte_at], the flat view of the pages. *)

From S2P Require Import Prelude Exceptions VirtualAddressing FlatMemory MainMemory.

Import MainMemory.

Section facts.

Context {S : Type} `{SystemCalls S} `{Uninitialised}.

Implicit Types (m : machine S) (t a x n off : Z) (p : page) (bs : list Z).

(** [m'] is [m] with the bytes [bs] stored at [a], and possibly more pages
    allocated. With [bs = []], nothing visible changed. *)
Record updated (m : machine S) (a : Z) (bs : list Z) (m' : machine S) : Prop := {
  updated_host : host m' = host m;
  updated_bytes : byte_at m' ≡ₘ flat_write (byte_at m) a bs;
  updated_pages t : is_Some (pages m !! t) -> is_Some (pages m' !! t);
  updated_wf : Forall byte bs -> wf m -> wf m';
}.

Abbreviation unchanged m m' := (updated m 0 [] m').

Lemma unchanged_refl m : unchanged m m.
Proof. by split; auto. Qed.

Lemma unchanged_bytes m m' : unchanged m m' -> byte_at m' ≡ₘ byte_at m.
Proof. intros [_ Hb _ _]. by rewrite Hb, flat_write_nil. Qed.

Lemma unchanged_flat_read m m' a n :
  unchanged m m' -> flat_read (byte_at m') a n = flat_read (byte_at m) a n.
Proof. intros H'. apply flat_read_proper; auto using unchanged_bytes. Qed.

Lemma updated_app m a bs cs m1 m2 :
  Z.of_nat (length bs) + Z.of_nat (length cs) <= 2 ^ 64 ->
  updated m a bs m1 -> updated m1 (u64 (a + Z.of_nat (length bs))) cs m2 ->
  updated m a (bs ++ cs) m2.
Proof.
  intros Hlen [Hh1 Hb1 Hp1 Hw1] [Hh2 Hb2 Hp2 Hw2]. split.
  - congruence.
  - by rewrite Hb2, Hb1, flat_write_app.
  - auto.
  - intros [? ?]%Forall_app. auto.
Qed.

Lemma unchanged_updated m m1 a bs m2 :
  unchanged m m1 -> updated m1 a bs m2 -> updated m a bs m2.
Proof.
  intros H1 [Hh2 Hb2 Hp2 Hw2]. pose proof (unchanged_bytes _ _ H1) as Hb.
  destruct H1 as [Hh1 _ Hp1 Hw1]. split; auto; [congruence|by rewrite Hb2, Hb].
Qed.

Lemma updated_unchanged m m1 a bs m2 :
  updated m a bs m1 -> unchanged m1 m2 -> updated m a bs m2.
Proof.
  intros [Hh2 Hb2 Hp2 Hw2] H1. pose proof (unchanged_bytes _ _ H1) as Hb.
  destruct H1 as [Hh1 _ Hp1 Hw1]. split; auto; [congruence|by rewrite Hb].
Qed.

(** *** Pages *)

Lemma byte_at_page m t p off :
  is_tag t -> pages m !! t = Some p -> 0 <= off < PAGE_SIZE ->
  byte_at m (t + off) = page_byte t p off.
Proof.
  intros Ht Hp Hoff. unfold byte_at. destruct (tag_plus t off) as [-> ->]; [done..|].
  by rewrite Hp.
Qed.

Lemma page_byte_byte m t p off : wf m -> pages m !! t = Some p -> byte (page_byte t p off).
Proof.
  intros Hw Hp. destruct (Hw t p Hp) as [_ Hb]. unfold page_byte.
  destruct (p !! off) eqn:E; simpl; [by apply (Hb off)|apply garbage_byte].
Qed.

Lemma byte_at_byte m x : wf m -> byte (byte_at m x).
Proof.
  intros Hw. unfold byte_at. destruct (pages m !! _) eqn:E.
  - by eapply page_byte_byte.
  - apply garbage_byte.
Qed.

Lemma get_page_run m a :
  in_width 64 a ->
  exists m', get_page a m = (Ok (get_tag a), m') /\ unchanged m m'
             /\ is_Some (pages m' !! get_tag a).
Proof.
  intros Ha. pose proof (get_tag_is_tag a Ha) as Ht.
  unfold get_page. rewrite bind_run. unfold gets at 1.
  destruct (pages m !! get_tag a) as [p|] eqn:E.
  { exists m. split; [done|]. split; [apply unchanged_refl|eauto]. }
  assert (Htt : get_tag (get_tag a) = get_tag a).
  { rewrite <- (Z.add_0_r (get_tag a)) at 1. by apply tag_plus. }
  exists (set_pages <[get_tag a := ∅]> m). split; [|split; [split|]].
  - unfold allocate_new_page. rewrite Htt. unfold mbind, M_bind, gets. by rewrite E.
  - done.
  - rewrite flat_write_nil. intros x Hx. unfold byte_at. simpl.
    destruct (decide (get_tag a = get_tag x)) as [<-|Hne].
    + by rewrite lookup_insert_eq, E.
    + by rewrite lookup_insert_ne.
  - intros t [p Hp]. simpl. destruct (decide (get_tag a = t)) as [<-|Hne].
    + by rewrite lookup_insert_eq.
    + rewrite lookup_insert_ne; eauto.
  - intros _ Hw t p. simpl. destruct (decide (get_tag a = t)) as [<-|Hne].
    + rewrite lookup_insert_eq. intros [= <-]. split; [done|apply map_Forall_empty].
    + rewrite lookup_insert_ne by done. apply Hw.
  - simpl. by rewrite lookup_insert_eq.
Qed.

Lemma load_run m t off n :
  is_tag t -> is_Some (pages m !! t) -> 0 <= off -> 0 <= n -> off + n <= PAGE_SIZE ->
  load t off n m = (Ok (flat_read (byte_at m) (t + off) n), m).
Proof.
  intros Ht [p Hp] Hoff Hn Hroom. unfold load. rewrite Hp.
  rewrite !(proj2 (Z.leb_le _ _)) by lia. simpl. do 2 f_equal.
  unfold flat_read. rewrite <- (Z.add_0_r off) at 1. rewrite <- (fmap_add_seqZ off 0).
  rewrite <- list_fmap_compose. apply list_fmap_ext. intros k i Hi%lookup_seqZ. simpl.
  pose proof (is_tag_room t Ht). pose proof (proj1 Ht) as Hw.
  unfold u64. rewrite wrap_small, <- Z.add_assoc by width. symmetry. apply byte_at_page; [done..|lia].
Qed.

Lemma load_undefined m t off n : PAGE_SIZE < off + n -> load t off n m = (Undefined, m).
Proof.
  intros Hn. unfold load. destruct (pages m !! t); [|done].
  by rewrite (proj2 (Z.leb_gt (off + n) _)), andb_false_r by lia.
Qed.

Lemma store_bytes_lookup bs p off i :
  store_bytes p off bs !! i =
    if decide (off <= i < off + Z.of_nat (length bs)) then bs !! Z.to_nat (i - off) else p !! i.
Proof.
  revert p off. induction bs as [|b bs IH]; intros p off; simpl store_bytes.
  - case_decide; [simpl in *; lia|done].
  - rewrite IH, length_cons. repeat case_decide; try lia.
    + by replace (Z.to_nat (i - off)) with (Datatypes.S (Z.to_nat (i - (off + 1)))) by lia.
    + assert (i = off) as -> by lia. by rewrite lookup_insert_eq, Z.sub_diag.
    + rewrite lookup_insert_ne by lia. done.
Qed.

Lemma store_run m t off bs :
  is_tag t -> is_Some (pages m !! t) -> 0 <= off -> off + Z.of_nat (length bs) <= PAGE_SIZE ->
  exists m', store t off bs m = (Ok tt, m') /\ updated m (t + off) bs m'.
Proof.
  intros Ht [p Hp] Hoff Hroom. exists (set_pages <[t := store_bytes p off bs]> m).
  pose proof (is_tag_room t Ht) as Hend. pose proof (proj1 Ht) as Hw.
  split; [unfold store; by rewrite Hp, !(proj2 (Z.leb_le _ _)) by lia|]. split.
  - done.
  - intros x Hx. pose proof (tag_split x Hx) as Hsx. pose proof (get_offset_range x).
    pose proof (is_tag_room _ (get_tag_is_tag x Hx)).
    unfold byte_at, flat_write. simpl. unfold u64.
    destruct (decide (t = get_tag x)) as [->|Hne].
    + rewrite lookup_insert_eq. unfold page_byte at 1. rewrite store_bytes_lookup, Hp.
      case_decide as Hin.
      * rewrite wrap_small by width. replace (x - (get_tag x + off)) with (get_offset x - off) by lia.
        destruct (lookup_lt_is_Some_2 bs (Z.to_nat (get_offset x - off))) as [b ->]; [lia|done].
      * rewrite (lookup_ge_None_2 bs); [done|].
        replace (x - (get_tag x + off)) with (get_offset x - off) by lia.
        destruct (decide (off <= get_offset x)); [rewrite wrap_small by width; lia|].
        unfold wrap. rewrite <- (Z_mod_plus_full _ 1), Z.mod_small by width. width.
    + rewrite lookup_insert_ne by done. rewrite (lookup_ge_None_2 bs); [done|].
      assert (Hfar : PAGE_SIZE <= t - get_tag x \/ PAGE_SIZE <= get_tag x - t).
      { destruct Ht as [_ Ht], (get_tag_is_tag x Hx) as [_ Htx].
        apply Z.mod_divide in Ht, Htx; [|done..]. destruct Ht as [q ->], Htx as [r Hr].
        rewrite Hr in *. assert (q <> r) by congruence. nia. }
      destruct Hfar.
      * unfold wrap. rewrite <- (Z_mod_plus_full _ 1), Z.mod_small by width. width.
      * rewrite wrap_small by width. lia.
  - intros t' Ht'. simpl. destruct (decide (t = t')) as [->|].
    + by rewrite lookup_insert_eq.
    + by rewrite lookup_insert_ne.
  - intros Hbs Hwf t' p'. simpl. destruct (decide (t = t')) as [<-|].
    + rewrite lookup_insert_eq. intros [= <-]. split; [done|].
      intros i b. rewrite store_bytes_lookup. case_decide as Hin.
      * intros Hb. split; [lia|]. by apply (Forall_lookup_1 _ _ _ _ Hbs Hb).
      * by apply (proj2 (Hwf t p Hp)).
    + rewrite lookup_insert_ne by done. apply Hwf.
Qed.

#[local] Hint Resolve get_tag_is_tag unchanged_refl : core.

(** *** Scalars *)

Lemma check_access_ok m a : a <= Sv39.MAX_PHYSICAL_ADDRESS -> check_access a m = (Ok tt, m).
Proof. intros. unfold check_access. by rewrite (proj2 (Z.ltb_ge _ _)). Qed.

Lemma check_access_fault m a :
  Sv39.MAX_PHYSICAL_ADDRESS < a -> check_access a m = (Throw (AccessFault a), m).
Proof. intros. unfold check_access. by rewrite (proj2 (Z.ltb_lt _ _)). Qed.

(** The address of a tag and an offset. *)
Lemma run_at_page a : in_width 64 a -> get_tag a + get_offset a = a.
Proof. intros. by rewrite <- tag_split. Qed.

Lemma wrap_pages a n :
  in_width 64 a -> 0 <= n <= PAGE_SIZE -> PAGE_SIZE < get_offset a + n ->
  is_tag (u64 (a + (PAGE_SIZE - get_offset a))).
Proof.
  intros. rewrite <- next_tag by done. apply get_tag_is_tag, wrap_bound. lia.
Qed.

Lemma read_scalar_ok m a n :
  in_width 64 a -> 1 <= n <= PAGE_SIZE -> u64 (a + n - 1) <= Sv39.MAX_PHYSICAL_ADDRESS ->
  exists m', read_scalar n a m = (Ok (le_value (flat_read (byte_at m) a n)), m')
             /\ unchanged m m'.
Proof.
  intros Ha Hn Hmax. pose proof (get_offset_range a).
  unfold read_scalar. erewrite bind_ok by by apply check_access_ok.
  destruct (get_page_run m a Ha) as (m1 & Hrun1 & Hun1 & Hal1).
  erewrite bind_ok by exact Hrun1. cbv zeta.
  destruct (Z.leb_spec (get_offset a) (PAGE_SIZE - n)).
  - erewrite bind_ok by (apply load_run; [auto|auto|lia..]).
    exists m1. by rewrite run_at_page, (unchanged_flat_read _ _ _ _ Hun1).
  - destruct (get_page_run m1 (u64 (a + PAGE_SIZE)) (wrap_bound 64 _ ltac:(lia)))
      as (m2 & Hrun2 & Hun2 & Hal2).
    erewrite bind_ok by exact Hrun2.
    rewrite next_tag in * by done. set (k := PAGE_SIZE - get_offset a) in *.
    erewrite bind_ok by (apply load_run; [auto|eauto using updated_pages|lia..]).
    erewrite bind_ok by (apply load_run;
      [by apply (wrap_pages a n); [done|lia|lia]|auto|lia..]).
    assert (Hun : unchanged m m2) by eauto using unchanged_updated.
    exists m2. split; [|done]. rewrite run_at_page, !(unchanged_flat_read _ _ _ _ Hun) by done.
    unfold mret, M_ret. do 3 f_equal. rewrite (flat_read_app _ a k n), Z.add_0_r by lia.
    do 2 f_equal. lia.
Qed.

Lemma read_scalar_fault m a n :
  Sv39.MAX_PHYSICAL_ADDRESS < u64 (a + n - 1) ->
  read_scalar n a m = (Throw (AccessFault (u64 (a + n - 1))), m).
Proof. intros. unfold read_scalar. by erewrite bind_throw by by apply check_access_fault. Qed.

Lemma read8_scalar m a : read8 a m = read_scalar 1 a m.
Proof.
  unfold read8, read_scalar, mbind, M_bind. destruct (check_access _ m) as [[] m1]; try done.
  destruct (get_page a m1) as [[] m2]; try done. cbv zeta.
  by rewrite (proj2 (Z.leb_le _ _)) by (pose proof (get_offset_range a); lia).
Qed.

Lemma write_scalar_ok m a n v :
  in_width 64 a -> 1 <= n <= PAGE_SIZE ->
  is_system_call (host m) a (wrap (8 * n) v) = false ->
  u64 (a + n - 1) <= Sv39.MAX_PHYSICAL_ADDRESS ->
  exists m', write_scalar n a v m = (Ok tt, m') /\ updated m a (le_bytes (Z.to_nat n) v) m'.
Proof.
  intros Ha Hn Hsys Hmax. pose proof (get_offset_range a).
  assert (Hle : le_bytes (Z.to_nat n) (wrap (8 * n) v) = le_bytes (Z.to_nat n) v).
  { rewrite <- (le_bytes_wrap (Z.to_nat n) v). by rewrite Z2Nat.id by lia. }
  unfold write_scalar. erewrite bind_ok by done. cbv zeta. rewrite Hsys, Hle.
  erewrite bind_ok by by apply check_access_ok.
  destruct (get_page_run m a Ha) as (m1 & Hrun1 & Hun1 & Hal1).
  erewrite bind_ok by exact Hrun1. set (bs := le_bytes _ v).
  assert (Hlen : length bs = Z.to_nat n) by apply length_le_bytes.
  destruct (Z.leb_spec (get_offset a) (PAGE_SIZE - n)).
  - destruct (store_run m1 (get_tag a) (get_offset a) bs) as (m2 & -> & Hup); [auto|auto|lia..|].
    exists m2. rewrite run_at_page in Hup by done. split; [done|]. eauto using unchanged_updated.
  - destruct (get_page_run m1 (u64 (a + PAGE_SIZE)) (wrap_bound 64 _ ltac:(lia)))
      as (m2 & Hrun2 & Hun2 & Hal2).
    erewrite bind_ok by exact Hrun2. assert (Hun : unchanged m m2) by eauto using unchanged_updated.
    rewrite next_tag in * by done. set (k := PAGE_SIZE - get_offset a) in *.
    destruct (store_run m2 (get_tag a) (get_offset a) (take (Z.to_nat k) bs))
      as (m3 & Hrun3 & Hup3); [auto|eauto using updated_pages|lia|rewrite length_take; lia|].
    erewrite bind_ok by exact Hrun3. rewrite run_at_page in Hup3 by done.
    destruct (store_run m3 (u64 (a + k)) 0 (drop (Z.to_nat k) bs))
      as (m4 & Hrun4 & Hup4);
      [by apply (wrap_pages a n); [done|lia|lia]|eauto using updated_pages|lia|rewrite length_drop; lia|].
    exists m4. split; [done|]. rewrite <- (take_drop (Z.to_nat k) bs).
    eapply unchanged_updated, updated_app; [exact Hun| |exact Hup3|].
    + rewrite length_take, length_drop. pose proof PAGE_SIZE_eq. lia.
    + rewrite Z.add_0_r in Hup4. rewrite length_take.
      replace (Z.of_nat _) with k by lia. done.
Qed.

Lemma write_scalar_fault m a n v :
  is_system_call (host m) a (wrap (8 * n) v) = false ->
  Sv39.MAX_PHYSICAL_ADDRESS < u64 (a + n - 1) ->
  write_scalar n a v m = (Throw (AccessFault (u64 (a + n - 1))), m).
Proof.
  intros Hsys ?. unfold write_scalar. erewrite bind_ok by done. cbv zeta. rewrite Hsys.
  by erewrite bind_throw by by apply check_access_fault.
Qed.

(** A write to a system-call address never touches memory. *)
Lemma write_scalar_system_call m a n v :
  is_system_call (host m) a (wrap (8 * n) v) = true ->
  write_scalar n a v m =
    (let '(o, h) := system_call a (wrap (8 * n) v) (host m) in (o, Machine (pages m) h)).
Proof.
  intros Hsys. unfold write_scalar. erewrite bind_ok by done. cbv zeta. by rewrite Hsys.
Qed.

Lemma write8_scalar m a v : write8 a v m = write_scalar 1 a v m.
Proof.
  unfold write8, write_scalar, mbind, M_bind, gets. cbv zeta. change (8 * 1) with 8.
  unfold u8. destruct (is_system_call _ _ _); [done|].
  destruct (check_access _ m) as [[] m1]; try done.
  destruct (get_page a m1) as [[] m2]; try done.
  rewrite (proj2 (Z.leb_le _ _)) by (pose proof (get_offset_range a); lia).
  simpl. f_equal. unfold wrap. by rewrite Zmod_mod.
Qed.

(** *** Blocks *)

(** The largest block: it must fit in the host's address space. *)
Definition block_size (n : Z) : Prop := 0 <= n < 2 ^ 63.

Lemma write_loop_run fuel b c m :
  block_size (num_bytes b) -> num_bytes b <= Z.of_nat (length (data b)) ->
  0 <= c <= num_bytes b -> num_bytes b - c <= Z.of_nat fuel ->
  exists m', write_loop fuel b c m = (Ok tt, m')
    /\ updated m (u64 (address b + c)) (drop (Z.to_nat c) (take (Z.to_nat (num_bytes b)) (data b))) m'.
Proof.
  intros Hb Hdata. unfold block_size in Hb. revert c m.
  induction fuel as [|fuel IH]; intros c m Hc Hfuel; simpl write_loop.
  - rewrite (proj2 (Z.ltb_ge _ _)) by lia. exists m. split; [done|].
    rewrite drop_ge by (rewrite length_take; lia). by split; auto.
  - destruct (Z.ltb_spec c (num_bytes b)) as [Hlt|Hge].
    2:{ exists m. split; [done|]. rewrite drop_ge by (rewrite length_take; lia). by split; auto. }
    set (a := u64 (address b + c)). assert (Ha : in_width 64 a) by (apply wrap_bound; lia).
    destruct (get_page_run m a Ha) as (m1 & Hrun1 & Hun1 & Hal1).
    erewrite bind_ok by exact Hrun1. cbv zeta.
    pose proof (get_offset_range a) as Hoff. pose proof PAGE_SIZE_eq as HP.
    set (o := get_offset a) in *. 
    assert (Hw : u64 (o + (num_bytes b - c)) = o + (num_bytes b - c)) by (apply wrap_small; lia).
    rewrite Hw. set (k := if PAGE_SIZE <? _ then _ else _).
    assert (Hk : 1 <= k <= num_bytes b - c /\ o + k <= PAGE_SIZE).
    { subst k. destruct (Z.ltb_spec PAGE_SIZE (o + (num_bytes b - c))); lia. }
    set (src := take (Z.to_nat k) (drop (Z.to_nat c) (data b))).
    assert (Hsrc : Z.of_nat (length src) = k) by (subst src; rewrite length_take, length_drop; lia).
    rewrite (proj2 (Z.eqb_eq _ _) Hsrc).
    destruct (store_run m1 (get_tag a) o src) as (m2 & Hrun2 & Hup2); [auto|auto|lia|lia|].
    erewrite bind_ok by exact Hrun2. subst o. rewrite run_at_page in Hup2 by done.
    destruct (IH (c + k) m2) as (m3 & Hrun3 & Hup3); [lia|lia|].
    exists m3. split; [exact Hrun3|].
    replace (drop (Z.to_nat c) _) with
      (src ++ drop (Z.to_nat (c + k)) (take (Z.to_nat (num_bytes b)) (data b))).
    + eapply unchanged_updated, updated_app; [exact Hun1| |exact Hup2|].
      * rewrite Hsrc, length_drop, length_take. lia.
      * rewrite Hsrc. subst a. unfold u64 in *. rewrite wrap_add_l.
        by replace (address b + c + k) with (address b + (c + k)) by lia.
    + rewrite <- (take_drop (Z.to_nat k) (drop (Z.to_nat c) _)). subst src.
      rewrite drop_drop, <- Z2Nat.inj_add by lia. f_equal.
      rewrite !skipn_firstn_comm, !take_take. f_equal. lia.
Qed.

Lemma read_loop_run fuel a n c acc m :
  in_width 64 a -> block_size n -> 0 <= c <= n -> n - c <= Z.of_nat fuel ->
  get_offset (u64 (a + c)) = 0 ->
  exists m', read_loop fuel a n c acc m
               = (Ok (acc ++ flat_read (byte_at m) (u64 (a + c)) (n - c)), m')
             /\ unchanged m m'.
Proof.
  intros Ha Hn. revert c acc m. unfold block_size in Hn. pose proof PAGE_SIZE_eq as HP.
  induction fuel as [|fuel IH]; intros c acc m Hc Hfuel Hoff; simpl read_loop.
  - rewrite (proj2 (Z.ltb_ge _ _)) by lia. exists m. split; [|done].
    replace (n - c) with 0 by lia. by rewrite app_nil_r.
  - destruct (Z.ltb_spec c n) as [Hlt|Hge].
    2:{ exists m. split; [|done]. replace (n - c) with 0 by lia. by rewrite app_nil_r. }
    set (a' := u64 (a + c)) in *. assert (Ha' : in_width 64 a') by (apply wrap_bound; lia).
    destruct (get_page_run m a' Ha') as (m1 & Hrun1 & Hun1 & Hal1).
    erewrite bind_ok by exact Hrun1. cbv zeta. set (k := if PAGE_SIZE <? _ then _ else _).
    assert (Hk : 1 <= k <= n - c /\ k <= PAGE_SIZE /\ (k = PAGE_SIZE \/ c + k = n)).
    { subst k. destruct (Z.ltb_spec PAGE_SIZE (n - c)); lia. }
    erewrite bind_ok by (apply load_run; [auto|auto|lia..]).
    rewrite run_at_page, (unchanged_flat_read _ _ _ _ Hun1) by done.
    rewrite (flat_read_app _ a' k (n - c)), app_assoc by lia.
    assert (Hnext : u64 (a' + k) = u64 (a + (c + k))).
    { subst a'. unfold u64. rewrite wrap_add_l. f_equal. lia. }
    rewrite Hnext. replace (n - c - k) with (n - (c + k)) by lia.
    destruct Hk as (Hk & HkP & [->|Hlast]).
    + destruct (IH (c + PAGE_SIZE) (acc ++ flat_read (byte_at m) a' PAGE_SIZE) m1)
        as (m2 & Hrun2 & Hun2); [lia|lia| |].
      * rewrite <- Hnext. rewrite get_offset_mod in *. unfold u64, wrap.
        rewrite Z.mod_mod_divide by (by exists (2 ^ 44)).
        by rewrite <- Zplus_mod_idemp_l, Hoff.
      * exists m2. rewrite Hrun2, (unchanged_flat_read _ _ _ _ Hun1). eauto using unchanged_updated.
    + replace (n - (c + k)) with 0 by lia. rewrite app_nil_r.
      exists m1. split; [|done]. destruct fuel; simpl; by rewrite (proj2 (Z.ltb_ge _ _)) by lia.
Qed.

End facts.

(** Nothing visible changed: at most, pages were allocated. *)
Abbreviation unchanged m m' := (updated m 0 [] m').
