(* ===== verification/MainMemoryTheorems.v ===== *)
(** * Correctness of the main memory

    The properties of [MainMemory] that the ports and loaders rely on. *)

From S2P Require Import Prelude Exceptions VirtualAddressing FlatMemory MainMemory.
From S2P Require Import MainMemoryFacts.

Import MainMemory.

Section statements.

Context {S : Type} `{SystemCalls S} `{Uninitialised}.

(** What a read of [n] bytes at [a] must do: check the last byte's address, and
    return the bytes of the flat memory as a little-endian number. *)
Definition reads (n a : Z) (m : machine S) (r : outcome exn Z * machine S) : Prop :=
  if decide (u64 (a + n - 1) <= Sv39.MAX_PHYSICAL_ADDRESS) then
    exists m', r = (Ok (le_value (flat_read (byte_at m) a n)), m') /\ updated m 0 [] m'
  else r = (Throw (AccessFault (u64 (a + n - 1))), m).

(** What a write of [n] bytes at [a] must do. *)
Definition writes (n a v : Z) (m : machine S) (r : outcome exn unit * machine S) : Prop :=
  if is_system_call (host m) a (wrap (8 * n) v) then
    r = (let '(o, h) := system_call a (wrap (8 * n) v) (host m) in (o, Machine (pages m) h))
  else if decide (u64 (a + n - 1) <= Sv39.MAX_PHYSICAL_ADDRESS) then
    exists m', r = (Ok tt, m') /\ updated m a (le_bytes (Z.to_nat n) v) m'
  else r = (Throw (AccessFault (u64 (a + n - 1))), m).

(** The scalar accessors by size. *)
Definition read_of_size (n : Z) : option (Z -> M exn (machine S) Z) :=
  match n with
  | 1 => Some read8
  | 2 => Some read16
  | 4 => Some read32
  | 8 => Some read64
  | _ => None
  end.

Definition write_of_size (n : Z) : option (Z -> Z -> M exn (machine S) unit) :=
  match n with
  | 1 => Some write8
  | 2 => Some write16
  | 4 => Some write32
  | 8 => Some write64
  | _ => None
  end.

(** One operation of the memory, as its clients invoke it. *)
Inductive memory_step : machine S -> machine S -> Prop :=
  | step_read n f a m : in_width 64 a -> read_of_size n = Some f -> memory_step m (snd (f a m))
  | step_write n f a v m :
      in_width 64 a -> write_of_size n = Some f -> memory_step m (snd (f a v m))
  | step_write_block b m :
      block_size (num_bytes b) -> num_bytes b <= Z.of_nat (length (data b)) ->
      Forall byte (data b) -> memory_step m (snd (MainMemory.write b m))
  | step_read_block a n m :
      in_width 64 a -> block_size n -> memory_step m (snd (MainMemory.read a n m)).

End statements.

Section theorems.

Context {S : Type} `{SystemCalls S} `{Uninitialised}.

Implicit Types (m : machine S) (a n v : Z).

Lemma read_of_size_scalar n f :
  read_of_size n = Some f ->
  (n = 1 \/ n = 2 \/ n = 4 \/ n = 8) /\ forall a m, f a m = read_scalar n a m.
Proof.
  unfold read_of_size. intros Hf. repeat case_match; simplify_eq; split; auto.
  intros. apply read8_scalar.
Qed.

Lemma write_of_size_scalar n f :
  write_of_size n = Some f ->
  (n = 1 \/ n = 2 \/ n = 4 \/ n = 8) /\ forall a v m, f a v m = write_scalar n a v m.
Proof.
  unfold write_of_size. intros Hf. repeat case_match; simplify_eq; split; auto.
  intros. apply write8_scalar.
Qed.

Lemma reads_scalar n a m :
  in_width 64 a -> 1 <= n <= PAGE_SIZE -> reads n a m (read_scalar n a m).
Proof.
  intros. unfold reads. case_decide; [by apply read_scalar_ok|].
  apply read_scalar_fault. lia.
Qed.

Lemma writes_scalar n a v m :
  in_width 64 a -> 1 <= n <= PAGE_SIZE -> writes n a v m (write_scalar n a v m).
Proof.
  intros. unfold writes. destruct (is_system_call _ _ _) eqn:E.
  - by apply write_scalar_system_call.
  - case_decide; [by apply write_scalar_ok|]. apply write_scalar_fault; [done|lia].
Qed.

Lemma small_sizes n : n = 1 \/ n = 2 \/ n = 4 \/ n = 8 -> 1 <= n <= PAGE_SIZE.
Proof. rewrite PAGE_SIZE_eq. lia. Qed.

Lemma write_block_run b m :
  block_size (num_bytes b) -> num_bytes b <= Z.of_nat (length (data b)) ->
  in_width 64 (address b) ->
  let last := u64 (address b + num_bytes b - 1) in
  if decide (last <= Sv39.MAX_PHYSICAL_ADDRESS) then
    exists m', MainMemory.write b m = (Ok tt, m')
      /\ updated m (address b) (take (Z.to_nat (num_bytes b)) (data b)) m'
  else MainMemory.write b m = (Throw (AccessFault last), m).
Proof.
  intros Hn Hlen Ha. cbv zeta. case_decide; unfold MainMemory.write.
  - erewrite bind_ok by by apply check_access_ok.
    destruct (write_loop_run (Z.to_nat (num_bytes b)) b 0 m)
      as (m' & Hrun & Hup); unfold block_size in *; [done..|lia|lia|].
    exists m'. split; [done|]. rewrite Z.add_0_r, drop_0 in Hup.
    unfold u64 in Hup. by rewrite wrap_small in Hup by done.
  - by erewrite bind_throw by by apply check_access_fault; lia.
Qed.

(** C3: Scalar reads refine the flat memory. For each of [read8], [read16],
    [read32] and [read64], and whether or not the value straddles two pages, a
    read returns the little-endian value of the flat memory's bytes (with no
    visible change: only pages may be allocated), or throws an [AccessFault]
    when the last byte is beyond the physical address limit. *)
Theorem read_refines_flat n f a m :
  in_width 64 a -> read_of_size n = Some f -> reads n a m (f a m).
Proof.
  intros Ha [Hn ->]%read_of_size_scalar. by apply reads_scalar, small_sizes.
Qed.

(** C4: Scalar writes refine the flat memory. For each of [write8] to [write64],
    a write to a system-call address only performs the system call; otherwise it
    stores the little-endian bytes of the converted value, across two pages if
    need be, or throws an [AccessFault]. *)
Theorem write_refines_flat n f a v m :
  in_width 64 a -> write_of_size n = Some f -> writes n a v m (f a v m).
Proof.
  intros Ha [Hn ->]%write_of_size_scalar. by apply writes_scalar, small_sizes.
Qed.

(** Round trip. Reading back a value just written, at the same address and
    size, gives that value converted to the size; no byte outside the written
    range changes. *)
Theorem write_read_roundtrip n f g a v m :
  in_width 64 a -> read_of_size n = Some f -> write_of_size n = Some g ->
  is_system_call (host m) a (wrap (8 * n) v) = false ->
  u64 (a + n - 1) <= Sv39.MAX_PHYSICAL_ADDRESS ->
  exists m1 m2, g a v m = (Ok tt, m1) /\ f a m1 = (Ok (wrap (8 * n) v), m2)
    /\ forall x, in_width 64 x -> n <= u64 (x - a) -> byte_at m2 x = byte_at m x.
Proof.
  intros Ha [Hn Hf]%read_of_size_scalar [_ Hg]%write_of_size_scalar Hsys Hmax.
  pose proof (small_sizes n Hn).
  destruct (write_scalar_ok m a n v) as (m1 & Hrun1 & Hup1); [done..|].
  destruct (read_scalar_ok m1 a n) as (m2 & Hrun2 & Hup2); [done..|].
  assert (Hlen : Z.of_nat (length (le_bytes (Z.to_nat n) v)) = n)
    by (rewrite length_le_bytes; lia).
  exists m1, m2. rewrite Hg, Hf. split; [done|]. split.
  - rewrite Hrun2, (updated_bytes _ _ _ _ Hup1). do 2 f_equal.
    pose proof (flat_read_write (byte_at m) a (le_bytes (Z.to_nat n) v)) as Hfr.
    rewrite Hlen in Hfr. rewrite Hfr, le_value_bytes by (rewrite PAGE_SIZE_eq in *; lia). by rewrite Z2Nat.id by lia.
  - intros x Hx Hout. rewrite (unchanged_bytes _ _ Hup2 x Hx), (updated_bytes _ _ _ _ Hup1 x Hx).
    apply flat_write_outside. lia.
Qed.

(** C32: The physical address check. A scalar access is refused exactly when its
    last byte lies beyond the 56-bit limit; because the address of that byte is
    computed modulo 2^64, the last [n - 1] addresses of the 64-bit space escape
    the check and wrap around to address 0. *)
Theorem access_check_exact n f a m :
  in_width 64 a -> read_of_size n = Some f ->
  (exists e m', f a m = (Throw e, m')) <-> 2 ^ 56 - n < a <= 2 ^ 64 - n.
Proof.
  intros Ha [Hn ->]%read_of_size_scalar. pose proof (small_sizes n Hn) as Hp.
  pose proof (reads_scalar n a m Ha Hp) as Hr. unfold reads in Hr.
  assert (Hthrow : (exists e m', read_scalar n a m = (Throw e, m'))
                   <-> Sv39.MAX_PHYSICAL_ADDRESS < u64 (a + n - 1)).
  { case_decide.
    - destruct Hr as (m'' & -> & _). split; [intros (e & m' & ?); congruence|lia].
    - rewrite Hr. split; [lia|eauto]. }
  rewrite Hthrow. change Sv39.MAX_PHYSICAL_ADDRESS with (2 ^ 56 - 1).
  unfold in_width, u64, wrap in *. destruct (decide (a <= 2 ^ 64 - n)).
  - rewrite Z.mod_small by lia. lia.
  - rewrite <- (Z_mod_plus_full _ (-1)), Z.mod_small by lia. lia.
Qed.

(** C31: Block writes. [write] stores exactly the block's bytes at its address,
    whatever pages it spans, in a loop that always ends; or it throws when the
    last byte is beyond the limit (in particular for an empty block at address
    0, whose "last byte" wraps around). *)
Theorem write_block_refines b m :
  block_size (num_bytes b) -> num_bytes b <= Z.of_nat (length (data b)) ->
  in_width 64 (address b) ->
  let last := u64 (address b + num_bytes b - 1) in
  if decide (last <= Sv39.MAX_PHYSICAL_ADDRESS) then
    exists m', MainMemory.write b m = (Ok tt, m')
      /\ updated m (address b) (take (Z.to_nat (num_bytes b)) (data b)) m'
  else MainMemory.write b m = (Throw (AccessFault last), m).
Proof. apply write_block_run. Qed.

Lemma read_block_run a n m :
  in_width 64 a -> block_size n -> u64 (a + n - 1) <= Sv39.MAX_PHYSICAL_ADDRESS ->
  (if decide (get_offset a + n <= PAGE_SIZE \/ get_offset a = 0) then
     exists m', MainMemory.read a n m = (Ok (Block a n (flat_read (byte_at m) a n)), m')
       /\ updated m 0 [] m'
   else exists m', MainMemory.read a n m = (Undefined, m') /\ updated m 0 [] m').
Proof.
  intros Ha Hn Hmax. pose proof (get_offset_range a). unfold block_size in Hn.
  assert (Hw : u64 (get_offset a + n) = get_offset a + n).
  { apply wrap_small. pose proof PAGE_SIZE_eq. lia. }
  assert (Ha0 : u64 (a + 0) = a) by (unfold u64; rewrite Z.add_0_r; by apply wrap_small).
  unfold MainMemory.read. erewrite bind_ok by by apply check_access_ok. rewrite Hw.
  destruct (get_page_run m a Ha) as (m1 & Hrun1 & Hun1 & Hal1).
  destruct (Z.leb_spec (get_offset a + n) PAGE_SIZE) as [Hin|Hout].
  - rewrite decide_True by by left. exists m1. split; [|done].
    rewrite bind_run. erewrite bind_ok by exact Hrun1.
    rewrite load_run by (try apply get_tag_is_tag; auto with lia; lia).
    by rewrite run_at_page, (unchanged_flat_read _ _ _ _ Hun1).
  - case_decide as Hd.
    + destruct Hd as [|Hz]; [lia|].
      destruct (read_loop_run (Z.to_nat n) a n 0 [] m) as (m2 & Hrun2 & Hun2);
        [done|done|lia|lia|by rewrite Ha0|].
      exists m2. split; [|done]. erewrite bind_ok by exact Hrun2.
      by rewrite Ha0, Z.sub_0_r.
    + exists m1. split; [|done]. destruct (Z.to_nat n) as [|fuel] eqn:Hfuel; [lia|].
      simpl read_loop. rewrite (proj2 (Z.ltb_lt _ _)), Ha0, Z.sub_0_r by lia.
      rewrite bind_run. erewrite bind_ok by exact Hrun1. cbv zeta. rewrite bind_run.
      rewrite load_undefined; [done|].
      destruct (Z.ltb_spec PAGE_SIZE n); lia.
Qed.

(** C33: Block reads. [read] returns the flat memory's bytes when the block lies
    in one page or starts on a page boundary; any other block spanning pages
    makes [memcpy] run past the end of its first page, because the loop bounds a
    chunk by the page size and not by what is left of the page. *)
Theorem read_block_cases a n m :
  in_width 64 a -> block_size n -> u64 (a + n - 1) <= Sv39.MAX_PHYSICAL_ADDRESS ->
  (if decide (get_offset a + n <= PAGE_SIZE \/ get_offset a = 0) then
     exists m', MainMemory.read a n m = (Ok (Block a n (flat_read (byte_at m) a n)), m')
       /\ updated m 0 [] m'
   else exists m', MainMemory.read a n m = (Undefined, m') /\ updated m 0 [] m').
Proof. apply read_block_run. Qed.

Lemma memory_step_wf m m' : memory_step m m' -> wf m -> wf m'.
Proof.
  intros Hstep Hw. destruct Hstep as [n f a m Ha Hf|n f a v m Ha Hf|b m Hn Hlen Hb|a n m Ha Hn].
  - apply read_of_size_scalar in Hf as [Hn ->]. apply small_sizes in Hn.
    pose proof (reads_scalar n a m Ha Hn) as Hr. unfold reads in Hr.
    case_decide; [destruct Hr as (m' & -> & [])|rewrite Hr]; simpl; auto.
  - apply write_of_size_scalar in Hf as [Hn ->]. apply small_sizes in Hn.
    pose proof (writes_scalar n a v m Ha Hn) as Hr. unfold writes in Hr.
    destruct (is_system_call _ _ _); [|case_decide; [destruct Hr as (m' & -> & [])|]].
    + rewrite Hr. by destruct (system_call _ _ _).
    + simpl; auto with muntjac.
    + by rewrite Hr.
  - unfold MainMemory.write. destruct (decide (u64 (address b + num_bytes b - 1) <= Sv39.MAX_PHYSICAL_ADDRESS)).
    + erewrite bind_ok by by apply check_access_ok.
      destruct (write_loop_run (Z.to_nat (num_bytes b)) b 0 m) as (m' & -> & Hup);
        unfold block_size in *; [done..|lia|lia|].
      apply (updated_wf _ _ _ _ Hup); [|done]. by apply Forall_drop, Forall_take.
    + by erewrite bind_throw by by apply check_access_fault; lia.
  - destruct (decide (u64 (a + n - 1) <= Sv39.MAX_PHYSICAL_ADDRESS)).
    + pose proof (read_block_run a n m Ha Hn) as Hr. specialize (Hr l).
      case_decide; destruct Hr as (m' & -> & []); simpl; auto.
    + unfold MainMemory.read. by erewrite bind_throw by by apply check_access_fault; lia.
Qed.


End theorems.

(** ** Witnesses: concrete runs, straddling the page boundary at 0x100000. *)

#[local] Existing Instance zeroed.

Definition straddling : Z := 0xFFFFC.

Lemma read_refines_flat_witness :
  reads 8 straddling (Machine ∅ tt) (read64 straddling (Machine ∅ tt)).
Proof. apply (read_refines_flat 8 read64); [done|reflexivity]. Defined.

Lemma write_refines_flat_witness :
  writes 4 straddling (-1) (Machine ∅ tt) (write32 straddling (-1) (Machine ∅ tt)).
Proof. apply (write_refines_flat 4 write32); [done|reflexivity]. Defined.

Lemma write_read_roundtrip_witness :
  exists m1 m2,
    write64 straddling 0x123456789ABCDEF01 (Machine ∅ tt) = (Ok tt, m1)
    /\ read64 straddling m1 = (Ok 0x23456789ABCDEF01, m2)
    /\ forall x, in_width 64 x -> 8 <= u64 (x - straddling) ->
         byte_at m2 x = byte_at (Machine ∅ tt) x.
Proof.
  apply (write_read_roundtrip 8 read64 write64 straddling 0x123456789ABCDEF01 (Machine ∅ tt));
    [done|reflexivity|reflexivity|reflexivity|done].
Defined.

Lemma access_check_exact_witness :
  (exists e m', read16 (2 ^ 64 - 1) (Machine ∅ tt) = (Throw e, m'))
    <-> 2 ^ 56 - 2 < 2 ^ 64 - 1 <= 2 ^ 64 - 2.
Proof. apply (access_check_exact 2 read16); [done|reflexivity]. Defined.

Definition small_block : DataBlock := Block straddling 6 [1; 2; 3; 4; 5; 6].

Lemma write_block_refines_witness :
  exists m', MainMemory.write small_block (Machine ∅ tt) = (Ok tt, m')
    /\ updated (Machine ∅ tt) straddling [1; 2; 3; 4; 5; 6] m'.
Proof.
  apply (write_block_refines small_block (Machine ∅ tt)); [done..|reflexivity|done].
Defined.

Lemma read_block_cases_witness :
  exists m', MainMemory.read straddling 6 (Machine ∅ tt) = (Undefined, m')
    /\ updated (Machine ∅ tt) 0 [] m'.
Proof. apply (read_block_cases straddling 6 (Machine ∅ tt)); done. Defined.

