(* ===== verification/PageTableWalker.v ===== *)
(** * The Sv39 page table walker

    [page_table_walker.h]/[page_table_walker.cc], and the translation algorithm
    of the RISC-V privileged specification (steps 1 to 9 of the comment above
    [translate]) as a relation on the flat memory. *)

From S2P Require Import Prelude Exceptions VirtualAddressing FlatMemory MainMemory.
From S2P Require Import MainMemoryFacts.

Import MainMemory.

Module PageTableWalkerSv39.

(** Steps 6 of the algorithm: the kind of access an operation makes. *)
Definition is_read (operation : MemoryOperation) : bool :=
  bool_decide (operation = MEM_LOAD) || bool_decide (operation = MEM_LR)
  || bool_decide (operation = MEM_AMO).
Definition is_write (operation : MemoryOperation) : bool :=
  bool_decide (operation = MEM_STORE) || bool_decide (operation = MEM_SC)
  || bool_decide (operation = MEM_AMO).
Definition is_execute (operation : MemoryOperation) : bool :=
  bool_decide (operation = MEM_FETCH).

(** The condition of the "Insufficient permissions" fault. *)
Definition permission_fault (operation : MemoryOperation) (supervisor sum mxr : bool)
    (pte : Z) : bool :=
  let read := is_read operation in
  let write := is_write operation in
  let execute := is_execute operation in
  (read && negb (PTE.readable pte || (mxr && PTE.executable pte)))
  || (write && negb (PTE.writable pte))
  || (execute && negb (PTE.executable pte))
  || (supervisor && PTE.user_mode_accessible pte
      && (negb sum || (execute && PTE.executable pte)))
  || (negb supervisor && negb (PTE.user_mode_accessible pte)).

(** The condition of the "Invalid upper bits" fault. *)
Definition invalid_upper_bits (virtual_address : Z) : bool :=
  let msb := negb (Z.land (Z.shiftr virtual_address (Sv39.VALEN - 1)) 1 =? 0) in
  let upper := Z.shiftr (s64 virtual_address) Sv39.VALEN in
  (msb && negb (upper =? -1)) || (negb msb && negb (upper =? 0)).

(** The loop of the "Misaligned superpage" fault, for a leaf at level [i]. *)
Definition misaligned_superpage (i : nat) (pte : Z) : bool :=
  existsb (fun j => negb (PTE.physical_page_number pte (Z.of_nat j) =? 0)) (seq 0 i).

(** Step 8: the entry with its accessed and dirty bits set. *)
Definition updated_pte (write : bool) (pte : Z) : Z :=
  let pte := if negb (PTE.accessed pte) then PTE.set_accessed pte else pte in
  if write && negb (PTE.dirty pte) then PTE.set_dirty pte else pte.

(** Step 9: the physical address, packed by the [Sv39] constructor. *)
Definition physical_address (va : Z) (i : nat) (pte : Z) : Z :=
  let offset := u32 (Sv39.offset va) in
  let ppn0 := u32 (if (0 <? i)%nat then Sv39.virtual_page_number va 0
                   else PTE.physical_page_number pte 0) in
  let ppn1 := u32 (if (1 <? i)%nat then Sv39.virtual_page_number va 1
                   else PTE.physical_page_number pte 1) in
  let ppn2 := u32 (if (2 <? i)%nat then Sv39.virtual_page_number va 2
                   else PTE.physical_page_number pte 2) in
  Sv39.make offset ppn0 ppn1 ppn2.

Section walker.

Context {S : Type} `{SystemCalls S} `{Uninitialised}.

Abbreviation M := (M exn (machine S)).

(** The [while (true)] loop: it returns the leaf entry, its address and its
    level. [i] decreases at each turn, and the loop throws when it would become
    negative. *)
Fixpoint walk (va : Z) (i : nat) (a : Z) : M (Z * Z * nat) :=
  let pte_address := u64 (a + Sv39.virtual_page_number va (Z.of_nat i) * Sv39.PTESIZE) in
  pte ← read64 pte_address;
  if negb (PTE.valid pte) || (negb (PTE.readable pte) && PTE.writable pte) then
    throw (PageFault va)
  else if PTE.readable pte || PTE.executable pte then
    mret (pte, pte_address, i)
  else match i with
  | O => throw (PageFault va)
  | Datatypes.S i' => walk va i' (u64 (PTE.physical_page_number pte (-1) * Sv39.PAGESIZE))
  end.

Definition translate (virtual_address : Z) (operation : MemoryOperation)
    (supervisor sum mxr : bool) (atp : Z) : M Z :=
  assert_that (ATP.mode atp =? Sv39.ATP_MODE);;
  if invalid_upper_bits virtual_address then throw (PageFault virtual_address)
  else
    let a := u64 (ATP.physical_page_number atp * Sv39.PAGESIZE) in
    leaf ← walk virtual_address (Sv39.LEVELS - 1) a;
    let '(pte, pte_address, i) := leaf in
    let write := is_write operation in
    if permission_fault operation supervisor sum mxr pte then
      throw (PageFault virtual_address)
    else if misaligned_superpage i pte then throw (PageFault virtual_address)
    else
      pte ← (if negb (PTE.accessed pte) || (write && negb (PTE.dirty pte)) then
               write64 pte_address (updated_pte write pte);;
               mret (updated_pte write pte)
             else mret pte);
      mret (physical_address virtual_address i pte).

End walker.

End PageTableWalkerSv39.

(** ** The specification *)
Module Sv39Spec.

(** Step 1: the address is a sign-extended 39-bit address. *)
Definition canonical (va : Z) : Prop := s64 va = signed 39 va.

(** The page table entry at a physical address. *)
Definition entry (m : memory) (a : Z) : Z := le_value (flat_read m a 8).

(** Step 3: its address in the table at [a], for level [i]. *)
Definition entry_address (va a : Z) (i : nat) : Z :=
  a + 8 * ((va / 2 ^ (12 + 9 * Z.of_nat i)) mod 2 ^ 9).

(** Step 4 and 5, as bits of the entry. *)
Definition valid_entry (pte : Z) : Prop :=
  Z.testbit pte 0 = true /\ (Z.testbit pte 2 = true -> Z.testbit pte 1 = true).
Definition leaf_entry (pte : Z) : Prop :=
  Z.testbit pte 1 = true \/ Z.testbit pte 3 = true.

(** The physical page number of an entry. *)
Definition ppn (pte : Z) : Z := (pte / 2 ^ 10) mod 2 ^ 44.

(** Steps 2 to 5: the path from the table at [a], level [i], to a leaf entry. *)
Inductive finds (m : memory) (va : Z) : nat -> Z -> Z -> Z -> nat -> Prop :=
  | finds_leaf i a pte :
      pte = entry m (entry_address va a i) -> valid_entry pte -> leaf_entry pte ->
      finds m va i a pte (entry_address va a i) i
  | finds_pointer i a next pte pte_address level :
      next = entry m (entry_address va a (S i)) -> valid_entry next -> ~ leaf_entry next ->
      finds m va i (4096 * ppn next) pte pte_address level ->
      finds m va (S i) a pte pte_address level.

(** Step 6: R, W, X are bits 1 to 3, U is bit 4. *)
Definition allowed (operation : MemoryOperation) (supervisor sum mxr : bool) (pte : Z) : Prop :=
  (operation = MEM_LOAD \/ operation = MEM_LR \/ operation = MEM_AMO ->
     Z.testbit pte 1 = true \/ (mxr = true /\ Z.testbit pte 3 = true))
  /\ (operation = MEM_STORE \/ operation = MEM_SC \/ operation = MEM_AMO ->
        Z.testbit pte 2 = true)
  /\ (operation = MEM_FETCH -> Z.testbit pte 3 = true)
  /\ (supervisor = true -> Z.testbit pte 4 = true -> sum = true /\ operation <> MEM_FETCH)
  /\ (supervisor = false -> Z.testbit pte 4 = true).

(** Step 7: the low page numbers of a superpage are zero. *)
Definition aligned_superpage (level : nat) (pte : Z) : Prop :=
  ppn pte mod 2 ^ (9 * Z.of_nat level) = 0.

(** Step 9: the offset within the (super)page, and the page it maps to. *)
Definition target (va : Z) (level : nat) (pte : Z) : Z :=
  4096 * ppn pte + va mod 2 ^ (12 + 9 * Z.of_nat level).

(** Step 8: bits 6 (accessed) and, for a store, 7 (dirty) are set. *)
Definition marked (write : bool) (pte : Z) : Z :=
  Z.lor pte (if write then 2 ^ 6 + 2 ^ 7 else 2 ^ 6).

(** The translation of [va]: the physical address, and the entry it came from. *)
Inductive translation (m : memory) (va : Z) (operation : MemoryOperation)
    (supervisor sum mxr : bool) (atp : Z) : Z -> Z -> Z -> Prop :=
  | translation_intro pte pte_address level :
      canonical va ->
      finds m va 2 (4096 * (atp mod 2 ^ 44)) pte pte_address level ->
      allowed operation supervisor sum mxr pte ->
      aligned_superpage level pte ->
      translation m va operation supervisor sum mxr atp
        (target va level pte) pte_address pte.

End Sv39Spec.
