(* ===== verification/PageTableWalkerFacts.v ===== *)
(** * The page table walker implements the Sv39 algorithm: lemmas

    One lemma per step of the algorithm, from the boolean test of the code to
    the proposition of [Sv39Spec]. *)

From S2P Require Import Prelude Exceptions VirtualAddressing FlatMemory MainMemory.
From S2P Require Import MainMemoryFacts PageTableWalker.

Import MainMemory PageTableWalkerSv39 Sv39Spec.

(** ** Step 1 *)

Lemma signed_mod w v z : 0 < v <= w -> wrap v (signed w z) = wrap v z.
Proof.
  intros. rewrite <- (wrap_narrow v w (signed w z)), wrap_signed by lia.
  apply wrap_narrow. lia.
Qed.

Lemma invalid_upper_bits_spec va : invalid_upper_bits va = false <-> canonical va.
Proof.
  unfold invalid_upper_bits, canonical, s64. change Sv39.VALEN with 39.
  change (39 - 1) with 38.
  assert (Z.land (Z.shiftr va 38) 1 = (va / 2 ^ 38) mod 2) as ->
    by (apply (field_div va 38 1); lia).
  rewrite Z.shiftr_div_pow2 by lia.
  set (u := signed 64 va). pose proof (signed_mod 64 39 va ltac:(lia)) as Hu. fold u in Hu.
  unfold signed. pose proof (wrap_bound 39 va ltac:(lia)) as Hb.
  assert (Hmsb : (va / 2 ^ 38) mod 2 = wrap 39 va / 2 ^ 38).
  { unfold wrap. change (2 ^ 39) with (2 ^ 38 * 2). rewrite Z.rem_mul_r by lia.
    apply (Z.div_unique _ _ _ (va mod 2 ^ 38)); [|lia].
    left. apply Z.mod_pos_bound. lia. }
  rewrite Hmsb. unfold wrap in *. set (w := va mod 2 ^ 39) in *.
  pose proof (Z.div_mod u (2 ^ 39) ltac:(lia)) as Hdiv. rewrite Hu in Hdiv.
  set (q := u / 2 ^ 39) in *. clearbody q w u. case_decide as Hw.
  - rewrite Z.div_small by lia. simpl. rewrite negb_false_iff, Z.eqb_eq. lia.
  - assert (w / 2 ^ 38 = 1) as -> by (symmetry; apply (Z.div_unique _ _ _ (w - 2 ^ 38)); lia).
    simpl. rewrite orb_false_r, negb_false_iff, Z.eqb_eq. lia.
Qed.

(** ** Steps 2 to 5 *)

Lemma leaf_entry_bits pte :
  PTE.readable pte || PTE.executable pte = true <-> leaf_entry pte.
Proof.
  unfold PTE.readable, PTE.executable. autorewrite with pte_bits. apply orb_true_iff.
Qed.

Lemma valid_entry_bits pte :
  negb (PTE.valid pte) || (negb (PTE.readable pte) && PTE.writable pte) = false
  <-> valid_entry pte.
Proof.
  unfold PTE.valid, PTE.readable, PTE.writable, valid_entry. autorewrite with pte_bits.
  destruct (Z.testbit pte 0), (Z.testbit pte 1), (Z.testbit pte 2); naive_solver.
Qed.

(** The tables and their entries lie in the physical address space. *)
Definition table (a : Z) : Prop := exists p, a = 4096 * p /\ 0 <= p < 2 ^ 44.

Lemma entry_address_range va a i :
  table a -> 0 <= entry_address va a i <= 2 ^ 56 - 8 /\ entry_address va a i mod 8 = 0.
Proof.
  intros (p & -> & Hp). unfold entry_address.
  pose proof (Z.mod_pos_bound (va / 2 ^ (12 + 9 * Z.of_nat i)) (2 ^ 9) ltac:(lia)) as Hv.
  set (v := _ mod 2 ^ 9) in *. split; [lia|].
  replace (4096 * p + 8 * v) with ((512 * p + v) * 8) by lia. apply Z_mod_mult.
Qed.

Lemma entry_address_code va a (i : nat) :
  table a -> (i < 3)%nat ->
  u64 (a + Sv39.virtual_page_number va (Z.of_nat i) * Sv39.PTESIZE) = entry_address va a i.
Proof.
  intros Ha Hi. pose proof (entry_address_range va a i Ha) as [Hr _].
  rewrite Sv39_vpn_field by lia. change Sv39.PTESIZE with 8. unfold entry_address in *.
  rewrite Z.mul_comm. apply wrap_small. lia.
Qed.

Lemma next_table pte :
  u64 (PTE.physical_page_number pte (-1) * Sv39.PAGESIZE) = 4096 * ppn pte
  /\ table (4096 * ppn pte).
Proof.
  rewrite PTE_ppn_field. change Sv39.PAGESIZE with 4096. unfold ppn.
  pose proof (Z.mod_pos_bound (pte / 2 ^ 10) (2 ^ 44) ltac:(lia)).
  split; [rewrite Z.mul_comm; apply wrap_small; lia|by eexists].
Qed.

Lemma root_table atp :
  u64 (ATP.physical_page_number atp * Sv39.PAGESIZE) = 4096 * (atp mod 2 ^ 44)
  /\ table (4096 * (atp mod 2 ^ 44)).
Proof.
  rewrite ATP_ppn_field. change Sv39.PAGESIZE with 4096.
  pose proof (Z.mod_pos_bound atp (2 ^ 44) ltac:(lia)).
  split; [rewrite Z.mul_comm; apply wrap_small; lia|by eexists].
Qed.

(** Paths are deterministic, end at an entry of the memory, and descend. *)
Lemma finds_inv m va i a pte pte_address level :
  table a -> finds m va i a pte pte_address level ->
  (level <= i)%nat /\ pte = entry m pte_address /\ leaf_entry pte
  /\ 0 <= pte_address <= 2 ^ 56 - 8 /\ pte_address mod 8 = 0.
Proof.
  intros Ha Hf. induction Hf as [i a pte -> Hv Hl|i a next pte pte_address level -> Hv Hl Hf IH].
  - pose proof (entry_address_range va a i Ha). naive_solver.
  - destruct IH as (? & ? & ? & ?); [apply next_table|]. auto.
Qed.

Lemma finds_deterministic m va i a p1 a1 l1 p2 a2 l2 :
  finds m va i a p1 a1 l1 -> finds m va i a p2 a2 l2 -> p1 = p2 /\ a1 = a2 /\ l1 = l2.
Proof.
  intros H1. revert p2 a2 l2.
  induction H1 as [i a pte -> Hv Hl|i a next pte pte_address level -> Hv Hl Hf IH];
    intros p2 a2 l2 H2; inversion H2; subst; try contradiction; auto.
Qed.

(** A path only depends on the entries it visits. *)
Lemma finds_proper m1 m2 va i a pte pte_address level :
  m1 ≡ₘ m2 -> finds m1 va i a pte pte_address level -> finds m2 va i a pte pte_address level.
Proof.
  intros Hm Hf. assert (He : forall x, entry m1 x = entry m2 x)
    by (intros; unfold entry; by rewrite Hm).
  induction Hf; subst; [rewrite He|]; econstructor; rewrite <- ?He; eauto.
Qed.

(** ** Step 6 *)

Lemma is_read_spec operation :
  is_read operation = true <-> operation = MEM_LOAD \/ operation = MEM_LR \/ operation = MEM_AMO.
Proof. unfold is_read, is_write. rewrite !orb_true_iff, !bool_decide_eq_true. tauto. Qed.

Lemma is_write_spec operation :
  is_write operation = true <-> operation = MEM_STORE \/ operation = MEM_SC \/ operation = MEM_AMO.
Proof. unfold is_read, is_write. rewrite !orb_true_iff, !bool_decide_eq_true. tauto. Qed.

Lemma is_execute_spec operation : is_execute operation = true <-> operation = MEM_FETCH.
Proof. apply bool_decide_eq_true. Qed.

Lemma guard_spec (b c : bool) : b && negb c = false <-> (b = true -> c = true).
Proof. destruct b, c; simpl; intuition congruence. Qed.

Lemma permission_fault_spec operation supervisor sum mxr pte :
  permission_fault operation supervisor sum mxr pte = false
  <-> allowed operation supervisor sum mxr pte.
Proof.
  unfold permission_fault, allowed,
    PTE.readable, PTE.writable, PTE.executable, PTE.user_mode_accessible.
  autorewrite with pte_bits. rewrite <- is_read_spec, <- is_write_spec, <- is_execute_spec.
  rewrite !orb_false_iff, !guard_spec, orb_true_iff, andb_true_iff.
  destruct (is_execute operation), (Z.testbit pte 3), (Z.testbit pte 4), supervisor, sum;
    simpl; intuition congruence.
Qed.

(** ** Step 7 *)

Lemma ppn_split pte :
  ppn pte = PTE.physical_page_number pte 0 + 2 ^ 9 * PTE.physical_page_number pte 1
            + 2 ^ 18 * PTE.physical_page_number pte 2.
Proof. rewrite <- PTE_ppn_split. by rewrite PTE_ppn_field. Qed.

Lemma ppn_ranges pte :
  0 <= PTE.physical_page_number pte 0 < 2 ^ 9 /\ 0 <= PTE.physical_page_number pte 1 < 2 ^ 9
  /\ 0 <= PTE.physical_page_number pte 2 < 2 ^ 26.
Proof. autorewrite with fields. repeat split; apply Z.mod_pos_bound; lia. Qed.

Lemma aligned_superpage_1 pte :
  aligned_superpage 1 pte <-> PTE.physical_page_number pte 0 = 0.
Proof.
  unfold aligned_superpage. rewrite ppn_split. pose proof (ppn_ranges pte) as (H0 & H1 & H2).
  set (p0 := PTE.physical_page_number pte 0) in *. set (p1 := PTE.physical_page_number pte 1) in *.
  set (p2 := PTE.physical_page_number pte 2) in *.
  replace (p0 + 2 ^ 9 * p1 + 2 ^ 18 * p2) with (p0 + (p1 + 2 ^ 9 * p2) * 2 ^ (9 * Z.of_nat 1)) by lia.
  rewrite Z_mod_plus_full, Z.mod_small by lia. done.
Qed.

Lemma aligned_superpage_2 pte :
  aligned_superpage 2 pte
  <-> PTE.physical_page_number pte 0 = 0 /\ PTE.physical_page_number pte 1 = 0.
Proof.
  unfold aligned_superpage. rewrite ppn_split. pose proof (ppn_ranges pte) as (H0 & H1 & H2).
  set (p0 := PTE.physical_page_number pte 0) in *. set (p1 := PTE.physical_page_number pte 1) in *.
  set (p2 := PTE.physical_page_number pte 2) in *.
  replace (p0 + 2 ^ 9 * p1 + 2 ^ 18 * p2) with ((p0 + 2 ^ 9 * p1) + p2 * 2 ^ (9 * Z.of_nat 2)) by lia.
  rewrite Z_mod_plus_full, Z.mod_small by lia. lia.
Qed.

Lemma misaligned_superpage_spec i pte :
  (i < 3)%nat -> misaligned_superpage i pte = false <-> aligned_superpage i pte.
Proof.
  intros. assert (i = 0 \/ i = 1 \/ i = 2)%nat as [->|[->| ->]] by lia;
    unfold misaligned_superpage; cbn [seq existsb];
    change (Z.of_nat 0) with 0; change (Z.of_nat 1) with 1.
  - split; [|done]. intros _. unfold aligned_superpage. by rewrite Z.mod_1_r.
  - rewrite aligned_superpage_1, orb_false_r, negb_false_iff. apply Z.eqb_eq.
  - rewrite aligned_superpage_2, orb_false_r, orb_false_iff, !negb_false_iff. by rewrite !Z.eqb_eq.
Qed.

(** ** Step 8 *)

Lemma lor_pow2_set z n : 0 <= n -> Z.testbit z n = true -> Z.lor z (2 ^ n) = z.
Proof.
  intros Hn Hz. by_bits i. rewrite Z.lor_spec, Z.pow2_bits_eqb by lia.
  destruct (Z.eqb_spec n i) as [<-|]; [by rewrite Hz|by rewrite orb_false_r].
Qed.

Lemma set_unless z n :
  0 <= n -> (if negb (Z.testbit z n) then Z.lor z (2 ^ n) else z) = Z.lor z (2 ^ n).
Proof.
  intros. destruct (Z.testbit z n) eqn:E; simpl; [by rewrite lor_pow2_set|done].
Qed.

Lemma marked_lor write pte :
  marked write pte = Z.lor (Z.lor pte (2 ^ 6)) (if write then 2 ^ 7 else 0).
Proof.
  unfold marked. destruct write; rewrite <- Z.lor_assoc; [done|by rewrite Z.lor_0_r].
Qed.

Lemma updated_pte_marked write pte : updated_pte write pte = marked write pte.
Proof.
  unfold updated_pte, PTE.accessed, PTE.dirty. rewrite !PTE_flag_testbit by lia.
  change (PTE.set_accessed pte) with (Z.lor pte (2 ^ 6)). rewrite set_unless by lia.
  rewrite marked_lor. destruct write; [|by rewrite Z.lor_0_r].
  apply (set_unless (Z.lor pte (2 ^ 6)) 7). lia.
Qed.

Lemma marked_testbit write pte i :
  0 <= i -> Z.testbit (marked write pte) i = Z.testbit pte i || (i =? 6) || (write && (i =? 7)).
Proof.
  intros. rewrite marked_lor, !Z.lor_spec, Z.pow2_bits_eqb, (Z.eqb_sym 6) by lia. f_equal.
  destruct write; [|apply Z.testbit_0_l]. by rewrite Z.pow2_bits_eqb, (Z.eqb_sym 7) by lia.
Qed.

Lemma marked_condition write pte :
  negb (PTE.accessed pte) || (write && negb (PTE.dirty pte)) = false <-> marked write pte = pte.
Proof.
  unfold PTE.accessed, PTE.dirty. rewrite !PTE_flag_testbit by lia. split.
  - intros [HA%negb_false_iff HD]%orb_false_iff. rewrite marked_lor, (lor_pow2_set pte 6) by done.
    destruct write; [|apply Z.lor_0_r]. apply lor_pow2_set; [done|]. by apply negb_false_iff.
  - intros Heq. rewrite <- Heq, !marked_testbit by lia. simpl.
    rewrite !orb_true_r. simpl. destruct write; [|done]. by rewrite !orb_true_r.
Qed.

Lemma marked_ppn write pte lo n :
  8 <= lo -> 0 <= n -> (marked write pte / 2 ^ lo) mod 2 ^ n = (pte / 2 ^ lo) mod 2 ^ n.
Proof.
  intros. by_bits i. rewrite !testbit_field, marked_testbit by lia.
  rewrite (proj2 (Z.eqb_neq (lo + i) 6)), (proj2 (Z.eqb_neq (lo + i) 7)) by lia.
  by rewrite andb_false_r, !orb_false_r.
Qed.

Lemma marked_idempotent write pte : marked write (marked write pte) = marked write pte.
Proof. unfold marked. by rewrite <- Z.lor_assoc, Z.lor_diag. Qed.

(** ** Step 9 *)

Lemma physical_address_marked va i write pte :
  physical_address va i (marked write pte) = physical_address va i pte.
Proof.
  unfold physical_address. autorewrite with fields. by rewrite !marked_ppn by lia.
Qed.

Lemma make_fields off p0 p1 p2 :
  0 <= off < 2 ^ 12 -> 0 <= p0 < 2 ^ 9 -> 0 <= p1 < 2 ^ 9 -> 0 <= p2 < 2 ^ 26 ->
  Sv39.make (u32 off) (u32 p0) (u32 p1) (u32 p2)
  = u32 (off + 2 ^ 12 * p0 + 2 ^ 21 * p1 + 2 ^ 30 * p2).
Proof.
  intros. assert (Hu : forall z, 0 <= z < 2 ^ 26 -> u32 z = z) by (intros; apply wrap_small; lia).
  rewrite !Hu by lia. rewrite make_sum. f_equal. by rewrite !Z.mod_small by lia.
Qed.

Lemma physical_address_target va i pte :
  (i < 3)%nat -> aligned_superpage i pte -> physical_address va i pte = u32 (target va i pte).
Proof.
  intros Hi Hal. unfold physical_address, target. rewrite ppn_split.
  pose proof (ppn_ranges pte) as (H0 & H1 & H2).
  assert (Hv : forall j, 0 <= j < 3 -> 0 <= Sv39.virtual_page_number va j < 2 ^ 9)
    by (intros; rewrite Sv39_vpn_field by lia; apply Z.mod_pos_bound; lia).
  pose proof (Hv 0 ltac:(lia)). pose proof (Hv 1 ltac:(lia)).
  assert (Ho : 0 <= Sv39.offset va < 2 ^ 12)
    by (rewrite Sv39_offset_field; apply Z.mod_pos_bound; lia).
  pose proof (Sv39_vpn_field va 0 ltac:(lia)) as Hv0. change (12 + 9 * 0) with 12 in Hv0.
  pose proof (Sv39_vpn_field va 1 ltac:(lia)) as Hv1. change (12 + 9 * 1) with 21 in Hv1.
  assert (i = 0 \/ i = 1 \/ i = 2)%nat as [->|[->| ->]] by lia; cbn [Nat.ltb Nat.leb];
    rewrite make_fields by done; f_equal.
  - change (12 + 9 * Z.of_nat 0) with 12. rewrite <- Sv39_offset_field. lia.
  - apply aligned_superpage_1 in Hal.
    change (2 ^ (12 + 9 * Z.of_nat 1)) with (2 ^ (12 + 9 + 0)). rewrite split_fields by lia.
    change (2 ^ 0) with 1. rewrite Z.mod_1_r, <- Sv39_offset_field, <- Hv0. lia.
  - apply aligned_superpage_2 in Hal as [Hp0 Hp1].
    change (2 ^ (12 + 9 * Z.of_nat 2)) with (2 ^ (12 + 9 + 9)). rewrite split_fields by lia.
    change (12 + 9) with 21. rewrite <- Sv39_offset_field, <- Hv0, <- Hv1. lia.
Qed.
