(* ===== verification/PageTableWalkerTheorems.v ===== *)
(** * The page table walker implements the Sv39 algorithm: theorems *)

From S2P Require Import Prelude Exceptions VirtualAddressing FlatMemory MainMemory.
From S2P Require Import MainMemoryFacts PageTableWalker PageTableWalkerFacts.

Import MainMemory PageTableWalkerSv39 Sv39Spec.

Section statements.

Context {S : Type} `{SystemCalls S} `{Uninitialised}.

(** The outcome that the specification demands of a translation: the address,
    as the 32 bits that the [Sv39] constructor keeps, with the accessed and dirty
    bits of the entry set; or a page fault when there is no translation. *)
Definition translates (m : machine S) (va : Z) (operation : MemoryOperation)
    (supervisor sum mxr : bool) (atp : Z) (r : outcome exn Z * machine S) : Prop :=
  (exists pa pte_address pte m',
     translation (byte_at m) va operation supervisor sum mxr atp pa pte_address pte
     /\ r = (Ok (u32 pa), m')
     /\ if decide (marked (is_write operation) pte = pte) then unchanged m m'
        else updated m pte_address (le_bytes 8 (marked (is_write operation) pte)) m')
  \/ ((forall pa pte_address pte,
         ~ translation (byte_at m) va operation supervisor sum mxr atp pa pte_address pte)
      /\ exists m', r = (Throw (PageFault va), m') /\ unchanged m m').

(** The leaf entry of the translation, if there is one, does not sit on a
    system-call address. *)
Definition no_system_call_entry (m : machine S) (va : Z) (operation : MemoryOperation)
    (supervisor sum mxr : bool) (atp : Z) : Prop :=
  forall pa pte_address pte d,
    translation (byte_at m) va operation supervisor sum mxr atp pa pte_address pte ->
    is_system_call (host m) pte_address d = false.

End statements.

Section theorems.

Context {S : Type} `{SystemCalls S} `{Uninitialised}.

Implicit Types (m : machine S).

(** An entry address is in range, so reading an entry never faults. *)
Lemma read_entry m a :
  0 <= a <= 2 ^ 56 - 8 ->
  exists m', read64 a m = (Ok (entry (byte_at m) a), m') /\ unchanged m m'.
Proof.
  intros Ha. apply read_scalar_ok; [width|rewrite PAGE_SIZE_eq; lia|].
  unfold u64. rewrite wrap_small by lia. change Sv39.MAX_PHYSICAL_ADDRESS with (2 ^ 56 - 1). lia.
Qed.

Lemma walk_run va i a m :
  (i < 3)%nat -> table a ->
  exists r m', walk va i a m = (r, m') /\ unchanged m m'
    /\ ((exists pte pte_address level,
           finds (byte_at m) va i a pte pte_address level /\ r = Ok (pte, pte_address, level))
        \/ ((forall pte pte_address level, ~ finds (byte_at m) va i a pte pte_address level)
            /\ r = Throw (PageFault va))).
Proof.
  revert a m. induction i as [|i IH]; intros a m Hi Ha;
    pose proof (entry_address_range va a) as Hrange;
    cbn [walk]; rewrite entry_address_code by (done || lia).
  all: match goal with |- context [read64 ?x] =>
         destruct (read_entry m x) as (m1 & Hrun1 & Hun1); [apply Hrange; done|] end.
  all: erewrite bind_ok by exact Hrun1.
  all: match goal with |- context [entry _ ?x] => set (pte := entry (byte_at m) x) end.
  all: destruct (negb (PTE.valid pte) || _) eqn:Hv.
  1, 3: exists (Throw (PageFault va)), m1; split; [done|]; split; [done|]; right; split; [|done];
    intros p x l Hf; assert (valid_entry pte) as ?%valid_entry_bits by (inversion Hf; by subst);
    congruence.
  all: apply valid_entry_bits in Hv.
  all: destruct (PTE.readable pte || PTE.executable pte) eqn:Hl.
  1, 3: apply leaf_entry_bits in Hl; eexists _, m1; split; [done|]; split; [done|]; left;
    eexists pte, _, _; split; [|done]; by constructor.
  all: assert (Hnl : ~ leaf_entry pte) by (rewrite <- leaf_entry_bits; congruence).
  - exists (Throw (PageFault va)), m1. split; [done|]. split; [done|]. right. split; [|done].
    intros p x l Hf. inversion Hf; by subst.
  - destruct (next_table pte) as [-> Hnext].
    destruct (IH (4096 * ppn pte) m1) as (r & m2 & Hrun2 & Hun2 & Hr); [lia|done|].
    exists r, m2. split; [done|]. split; [eauto using unchanged_updated|].
    assert (Heq := unchanged_bytes _ _ Hun1).
    destruct Hr as [(p & x & l & Hf & ->)|[Hf ->]].
    + left. exists p, x, l. split; [|done]. eapply finds_pointer; [done..|].
      by eapply finds_proper.
    + right. split; [|done]. intros p x l Hf'. inversion Hf'; subst; [done|].
      eapply Hf, finds_proper; [by symmetry|]. eassumption.
Qed.

Lemma translate_run m va operation supervisor sum mxr atp :
  ATP.mode atp = Sv39.ATP_MODE -> no_system_call_entry m va operation supervisor sum mxr atp ->
  translates m va operation supervisor sum mxr atp
    (translate va operation supervisor sum mxr atp m).
Proof.
  intros Hmode Hsys. unfold translates, translate. rewrite (proj2 (Z.eqb_eq _ _) Hmode).
  erewrite bind_ok by done.
  destruct (invalid_upper_bits va) eqn:Hcanon.
  { right. split; [|exists m; split; [done|apply unchanged_refl]].
    intros pa x pte Ht. inversion Ht; subst. assert (invalid_upper_bits va = false)
      by by apply invalid_upper_bits_spec. congruence. }
  apply invalid_upper_bits_spec in Hcanon.
  destruct (root_table atp) as [-> Htable].
  destruct (walk_run va 2 (4096 * (atp mod 2 ^ 44)) m) as (r & m1 & Hrun1 & Hun1 & Hr); [lia|done|].
  change (Sv39.LEVELS - 1)%nat with 2%nat.
  destruct Hr as [(pte & pte_address & level & Hf & ->)|[Hf ->]].
  2:{ right. split; [intros pa x pte Ht; inversion Ht; subst; by eapply Hf|].
      exists m1. by erewrite bind_throw by exact Hrun1. }
  erewrite bind_ok by exact Hrun1.
  pose proof (finds_inv _ _ _ _ _ _ _ Htable Hf) as (Hlevel & -> & Hleaf & Hpa & Halign).
  set (pte := entry (byte_at m) pte_address) in *.
  assert (Honly : forall pa x p,
    translation (byte_at m) va operation supervisor sum mxr atp pa x p ->
    allowed operation supervisor sum mxr pte /\ aligned_superpage level pte).
  { intros pa x p Ht. inversion Ht as [p' x' l' Hc Hf' Hal Hsup]; subst.
    by destruct (finds_deterministic _ _ _ _ _ _ _ _ _ _ Hf Hf') as (<- & <- & <-). }
  destruct (permission_fault operation supervisor sum mxr pte) eqn:Hperm.
  { right. split; [|by exists m1]. intros pa x p [Hal _]%Honly.
    apply permission_fault_spec in Hal. congruence. }
  destruct (misaligned_superpage level pte) eqn:Hsuper.
  { right. split; [|by exists m1]. intros pa x p [_ Hal]%Honly.
    apply misaligned_superpage_spec in Hal; [congruence|lia]. }
  apply permission_fault_spec in Hperm. apply misaligned_superpage_spec in Hsuper; [|lia].
  assert (Ht : translation (byte_at m) va operation supervisor sum mxr atp
                 (target va level pte) pte_address pte) by by constructor.
  left. exists (target va level pte), pte_address, pte.
  rewrite <- physical_address_target, updated_pte_marked by (done || lia).
  destruct (negb (PTE.accessed pte) || _) eqn:Hmark.
  - destruct (write_scalar_ok m1 pte_address 8 (marked (is_write operation) pte))
      as (m2 & Hrun2 & Hup2); [width|by rewrite PAGE_SIZE_eq| | |].
    + rewrite (updated_host _ _ _ _ Hun1). by eapply Hsys.
    + unfold u64. rewrite wrap_small by lia.
      change Sv39.MAX_PHYSICAL_ADDRESS with (2 ^ 56 - 1). lia.
    + exists m2. split; [done|]. split.
      * rewrite bind_run. unfold write64. erewrite bind_ok by exact Hrun2.
        unfold mret, M_ret. by rewrite physical_address_marked.
      * rewrite decide_False; [eauto using unchanged_updated|].
        rewrite <- marked_condition. congruence.
  - exists m1. split; [done|]. split; [done|].
    rewrite decide_True; [done|]. by apply marked_condition.
Qed.

(** Whatever system calls the entry's address may stand for, the walker returns:
    an address of 32 bits, or a page fault for the virtual address. *)
Lemma translate_completes `{!SystemCallsOk S} m va operation supervisor sum mxr atp :
  ATP.mode atp = Sv39.ATP_MODE ->
  exists r m', translate va operation supervisor sum mxr atp m = (r, m')
    /\ ((exists pa, r = Ok pa /\ in_width 32 pa) \/ r = Throw (PageFault va)).
Proof.
  intros Hmode. unfold translate. rewrite (proj2 (Z.eqb_eq _ _) Hmode). erewrite bind_ok by done.
  destruct (invalid_upper_bits va); [by eexists _, m; split; [done|right]|].
  destruct (root_table atp) as [-> Htable].
  destruct (walk_run va 2 (4096 * (atp mod 2 ^ 44)) m) as (r & m1 & Hrun1 & _ & Hr); [lia|done|].
  change (Sv39.LEVELS - 1)%nat with 2%nat.
  destruct Hr as [(pte & A & level & Hf & ->)|[_ ->]].
  2:{ erewrite bind_throw by exact Hrun1. by eexists _, _; split; [done|right]. }
  erewrite bind_ok by exact Hrun1.
  pose proof (finds_inv _ _ _ _ _ _ _ Htable Hf) as (_ & _ & _ & HA & _).
  destruct (permission_fault operation supervisor sum mxr pte);
    [by eexists _, _; split; [done|right]|].
  destruct (misaligned_superpage level pte); [by eexists _, _; split; [done|right]|].
  destruct (negb (PTE.accessed pte) || _).
  2:{ eexists _, m1. split; [done|]. left. eexists. split; [done|]. apply wrap_bound. lia. }
  set (v := updated_pte _ pte). assert (Hw : exists m2, write64 A v m1 = (Ok tt, m2)).
  { unfold write64. destruct (is_system_call (host m1) A (wrap (8 * 8) v)) eqn:E.
    - rewrite write_scalar_system_call by done. destruct (system_call_ok _ _ _ E) as [h ->]. eauto.
    - destruct (write_scalar_ok m1 A 8 v) as (m2 & Hrun & _);
        [width|rewrite PAGE_SIZE_eq; lia|done| |by eauto].
      unfold u64. rewrite wrap_small by lia. change Sv39.MAX_PHYSICAL_ADDRESS with (2 ^ 56 - 1). lia. }
  destruct Hw as [m2 Hw]. rewrite bind_run. erewrite bind_ok by exact Hw.
  eexists _, m2. split; [done|]. left. eexists. split; [done|]. apply wrap_bound. lia.
Qed.

(** ** After the entry has been marked *)

Lemma entry_after_mark m m' A v x :
  updated m A (le_bytes 8 v) m' -> in_width 64 v ->
  0 <= A <= 2 ^ 56 - 8 -> A mod 8 = 0 -> 0 <= x <= 2 ^ 56 - 8 -> x mod 8 = 0 ->
  entry (byte_at m') x = if decide (x = A) then v else entry (byte_at m) x.
Proof.
  intros Hup Hv HA HA8 Hx Hx8. unfold entry. rewrite (updated_bytes _ _ _ _ Hup).
  case_decide as Heq.
  - subst x. rewrite (flat_read_write (byte_at m) A (le_bytes 8 v)) by done.
    rewrite le_value_bytes. by apply wrap_small.
  - f_equal. apply flat_read_ext. intros i Hi. apply flat_write_outside.
    rewrite length_le_bytes. unfold u64 at 2. rewrite (wrap_small 64 (x + i)) by lia.
    pose proof (Z.div_mod x 8 ltac:(lia)). pose proof (Z.div_mod A 8 ltac:(lia)).
    unfold u64, wrap. destruct (decide (A <= x)).
    + rewrite Z.mod_small by lia. lia.
    + rewrite <- (Z_mod_plus_full _ 1), Z.mod_small by lia. lia.
Qed.

Lemma entry_width m a : wf m -> in_width 64 (entry (byte_at m) a).
Proof.
  intros Hw. apply (le_value_bound (flat_read (byte_at m) a 8)), flat_read_byte.
  intros. by apply byte_at_byte.
Qed.

Lemma marked_width write pte : in_width 64 pte -> in_width 64 (marked write pte).
Proof.
  intros Hp. assert (Hs : marked write pte = wrap 64 (marked write pte)).
  { unfold wrap. by_bits i. destruct (decide (i < 64)); test_bits; [done|].
    rewrite marked_testbit, (testbit_above 64 pte) by (done || lia).
    rewrite (proj2 (Z.eqb_neq i 6)), (proj2 (Z.eqb_neq i 7)) by lia. by destruct write. }
  rewrite Hs. apply wrap_bound. lia.
Qed.

Lemma marked_leaf write pte : leaf_entry (marked write pte) <-> leaf_entry pte.
Proof.
  unfold leaf_entry. rewrite !marked_testbit by lia. simpl.
  by rewrite !andb_false_r, !orb_false_r.
Qed.

Lemma marked_valid write pte : valid_entry (marked write pte) <-> valid_entry pte.
Proof.
  unfold valid_entry. rewrite !marked_testbit by lia. simpl.
  by rewrite !andb_false_r, !orb_false_r.
Qed.

Lemma marked_allowed write operation supervisor sum mxr pte :
  allowed operation supervisor sum mxr (marked write pte)
  <-> allowed operation supervisor sum mxr pte.
Proof.
  unfold allowed. rewrite !marked_testbit by lia. simpl.
  by rewrite !andb_false_r, !orb_false_r.
Qed.

(** The second walk follows the same path to the marked entry. *)
Lemma finds_after_mark m m' write va i a pte A level :
  wf m -> table a -> finds (byte_at m) va i a pte A level ->
  updated m A (le_bytes 8 (marked write pte)) m' ->
  finds (byte_at m') va i a (marked write pte) A level.
Proof.
  intros Hw Ha Hf Hup.
  pose proof (finds_inv _ _ _ _ _ _ _ Ha Hf) as (_ & Hpte & Hleaf & HA & HA8).
  assert (Hv : in_width 64 (marked write pte))
    by (subst pte; by apply marked_width, entry_width).
  induction Hf as [i a pte _ Hval _|i a next pte A level Hnext Hval Hnl Hf IH].
  - apply finds_leaf; [|by apply marked_valid|by apply marked_leaf].
    erewrite entry_after_mark by eauto. by rewrite decide_True.
  - pose proof (entry_address_range va a (Datatypes.S i) Ha) as [Hx Hx8].
    eapply finds_pointer; [|done|done|].
    + erewrite entry_after_mark by eauto. rewrite decide_False; [done|].
      intros Heq. apply Hnl. rewrite Hnext, Heq, <- Hpte. done.
    + apply IH; auto. apply next_table.
Qed.

Lemma translation_after_mark m m' va operation supervisor sum mxr atp pa pte A :
  wf m ->
  translation (byte_at m) va operation supervisor sum mxr atp pa A pte ->
  updated m A (le_bytes 8 (marked (is_write operation) pte)) m' ->
  translation (byte_at m') va operation supervisor sum mxr atp pa A
    (marked (is_write operation) pte).
Proof.
  intros Hw Ht Hup. inversion Ht as [p x level Hc Hf Hal Hsup Hpa]; subst p x.
  assert (Hp : ppn (marked (is_write operation) pte) = ppn pte) by (apply marked_ppn; lia).
  assert (target va level pte = target va level (marked (is_write operation) pte)) as ->
    by (unfold target; by rewrite Hp).
  constructor; [done| |by apply marked_allowed|unfold aligned_superpage; by rewrite Hp].
  eapply finds_after_mark; eauto.
  pose proof (Z.mod_pos_bound atp (2 ^ 44) ltac:(lia)). by eexists.
Qed.

Lemma translation_deterministic (m : memory) va operation supervisor sum mxr atp pa1 A1 p1 pa2 A2 p2 :
  translation m va operation supervisor sum mxr atp pa1 A1 p1 ->
  translation m va operation supervisor sum mxr atp pa2 A2 p2 ->
  pa1 = pa2 /\ A1 = A2 /\ p1 = p2.
Proof.
  intros H1 H2. inversion H1 as [q1 x1 l1 _ Hf1]; inversion H2 as [q2 x2 l2 _ Hf2]; subst.
  by destruct (finds_deterministic _ _ _ _ _ _ _ _ _ _ Hf1 Hf2) as (-> & -> & ->).
Qed.

Lemma translation_proper (m1 m2 : memory) va operation supervisor sum mxr atp pa A p :
  m1 ≡ₘ m2 -> translation m1 va operation supervisor sum mxr atp pa A p ->
  translation m2 va operation supervisor sum mxr atp pa A p.
Proof.
  intros Hm Ht. inversion Ht; subst. constructor; eauto using finds_proper.
Qed.

(** What a translation leaves behind: the entry is marked, whether or not it
    had to be written. *)
Lemma translation_left m m' va operation supervisor sum mxr atp pa A pte :
  wf m ->
  translation (byte_at m) va operation supervisor sum mxr atp pa A pte ->
  (if decide (marked (is_write operation) pte = pte) then unchanged m m'
   else updated m A (le_bytes 8 (marked (is_write operation) pte)) m') ->
  translation (byte_at m') va operation supervisor sum mxr atp pa A
    (marked (is_write operation) pte).
Proof.
  intros Hw Ht Hm. case_decide as Heq; [|by eapply translation_after_mark].
  rewrite Heq. eapply translation_proper; [|exact Ht]. symmetry. by apply unchanged_bytes.
Qed.

(** C1: Refinement of the Sv39 algorithm. For every virtual address, operation,
    privilege and status bit, the walker's loop returns: it yields the address
    of the translation that the privileged specification defines on the flat
    memory (as the 32 bits its [Sv39] constructor keeps) and sets exactly the
    accessed and dirty bits the specification asks for; or it raises a page
    fault, leaving memory as it was, exactly when there is no translation. *)
Theorem translate_refines_sv39 m va operation supervisor sum mxr atp :
  ATP.mode atp = Sv39.ATP_MODE -> no_system_call_entry m va operation supervisor sum mxr atp ->
  translates m va operation supervisor sum mxr atp
    (translate va operation supervisor sum mxr atp m).
Proof. apply translate_run. Qed.

(** The physical address is truncated. A successful translation returns the
    specified physical address if and only if that address lies below 4 GiB:
    above, the walker returns another page's address. *)
Theorem translate_truncates m va operation supervisor sum mxr atp pa pte_address pte :
  ATP.mode atp = Sv39.ATP_MODE -> no_system_call_entry m va operation supervisor sum mxr atp ->
  translation (byte_at m) va operation supervisor sum mxr atp pa pte_address pte ->
  exists r m', translate va operation supervisor sum mxr atp m = (Ok r, m')
    /\ r = pa mod 2 ^ 32 /\ (r = pa <-> pa < 2 ^ 32).
Proof.
  intros Hmode Hsys Ht.
  destruct (translate_run m va operation supervisor sum mxr atp Hmode Hsys)
    as [(pa' & x & p & m' & Ht' & Hrun & _)|[Hno _]]; [|by apply Hno in Ht].
  destruct (translation_deterministic _ _ _ _ _ _ _ _ _ _ _ _ _ Ht Ht') as (<- & _ & _).
  exists (u32 pa), m'. split; [done|]. split; [done|].
  pose proof (wrap_bound 32 pa). split; [unfold u32; lia|]. intros. apply wrap_small.
  inversion Ht as [q y level _ _ _ _]; subst. unfold target in *.
  pose proof (Z.mod_pos_bound (pte / 2 ^ 10) (2 ^ 44) ltac:(lia)). unfold ppn in *.
  pose proof (Z.mod_pos_bound va (2 ^ (12 + 9 * Z.of_nat level)) ltac:(lia)). lia.
Qed.

(** Idempotence. Translating the same address again after a successful
    translation gives the same physical address and finds nothing left to mark:
    setting the accessed and dirty bits of the leaf never disturbs the path to
    it, even when the tables overlap. *)
Theorem translate_idempotent m va operation supervisor sum mxr atp r m1 :
  wf m -> ATP.mode atp = Sv39.ATP_MODE -> no_system_call_entry m va operation supervisor sum mxr atp ->
  translate va operation supervisor sum mxr atp m = (Ok r, m1) ->
  exists m2, translate va operation supervisor sum mxr atp m1 = (Ok r, m2)
    /\ unchanged m1 m2.
Proof.
  intros Hw Hmode Hsys Hrun.
  destruct (translate_run m va operation supervisor sum mxr atp Hmode Hsys)
    as [(pa & A & pte & m1' & Ht & Hrun' & Hm)|[_ (m1' & Hrun' & _)]];
    rewrite Hrun in Hrun'; simplify_eq.
  pose proof (translation_left _ _ _ _ _ _ _ _ _ _ _ Hw Ht Hm) as Ht1.
  assert (Hsys1 : no_system_call_entry m1' va operation supervisor sum mxr atp).
  { intros pa2 A2 p2 d Ht2.
    destruct (translation_deterministic _ _ _ _ _ _ _ _ _ _ _ _ _ Ht1 Ht2) as (<- & <- & <-).
    assert (host m1' = host m) as -> by (case_decide; apply (updated_host _ _ _ _ Hm)).
    by eapply Hsys. }
  destruct (translate_run m1' va operation supervisor sum mxr atp Hmode Hsys1)
    as [(pa2 & A2 & p2 & m2 & Ht2 & Hrun2 & Hm2)|[Hno _]]; [|by apply Hno in Ht1].
  destruct (translation_deterministic _ _ _ _ _ _ _ _ _ _ _ _ _ Ht1 Ht2) as (<- & <- & <-).
  exists m2. split; [done|]. by rewrite marked_idempotent, decide_True in Hm2.
Qed.

End theorems.

(** ** Witnesses

    A page table at 0x1000 whose root entry 4 is a 1 GiB leaf for the physical
    page 0x140000: user accessible, readable and writable, not yet accessed. *)

#[local] Existing Instance zeroed.

Definition giga_leaf : Z := 0x140000 * 2 ^ 10 + 0x17.
Definition giga_atp : Z := 8 * 2 ^ 60 + 1.
Definition giga_machine : machine unit :=
  snd (write64 0x1020 giga_leaf (Machine ∅ tt)).
Definition giga_address : Z := 4 * 2 ^ 30 + 0x1234.

Lemma no_calls (m : machine unit) va operation supervisor sum mxr atp :
  no_system_call_entry m va operation supervisor sum mxr atp.
Proof. by intros pa a pte d. Qed.

Lemma giga_machine_wf : wf giga_machine.
Proof.
  destruct (write_scalar_ok (Machine ∅ tt) 0x1020 8 giga_leaf) as (m' & Hrun & Hup);
    [done|done|done|done|].
  assert (Hg : giga_machine = m') by (unfold giga_machine, write64; by rewrite Hrun).
  rewrite Hg. eapply updated_wf; [exact Hup|apply le_bytes_byte|apply map_Forall_empty].
Qed.

Lemma giga_translation :
  translation (byte_at giga_machine) giga_address MEM_STORE false false false giga_atp
    (0x140000000 + 0x1234) 0x1020 giga_leaf.
Proof.
  assert (He : entry (byte_at giga_machine) 0x1020 = giga_leaf) by by vm_compute.
  assert (Ht : target giga_address 2 giga_leaf = 0x140000000 + 0x1234) by by vm_compute.
  rewrite <- Ht. apply (translation_intro _ _ _ _ _ _ _ giga_leaf 0x1020 2).
  - by vm_compute.
  - change 0x1020 with (entry_address giga_address (4096 * (giga_atp mod 2 ^ 44)) 2).
    apply finds_leaf; [by rewrite <- He at 1|by vm_compute|by left].
  - split; [by intros [?|[?|?]]|]. repeat split; by intros.
  - by vm_compute.
Qed.

Lemma translate_refines_sv39_witness :
  translates giga_machine giga_address MEM_STORE false false false giga_atp
    (translate giga_address MEM_STORE false false false giga_atp giga_machine).
Proof. apply translate_refines_sv39; [reflexivity|apply no_calls]. Defined.

Lemma translate_truncates_witness :
  exists r m', translate giga_address MEM_STORE false false false giga_atp giga_machine = (Ok r, m')
    /\ r = (0x140000000 + 0x1234) mod 2 ^ 32
    /\ (r = 0x140000000 + 0x1234 <-> 0x140000000 + 0x1234 < 2 ^ 32).
Proof.
  eapply translate_truncates; [reflexivity|apply no_calls|exact giga_translation].
Defined.

Lemma translate_idempotent_witness :
  exists m2,
    translate giga_address MEM_STORE false false false giga_atp
      (snd (translate giga_address MEM_STORE false false false giga_atp giga_machine))
    = (Ok 0x40001234, m2)
    /\ unchanged
         (snd (translate giga_address MEM_STORE false false false giga_atp giga_machine)) m2.
Proof.
  eapply translate_idempotent;
    [apply giga_machine_wf|reflexivity|apply no_calls|by vm_compute].
Defined.
