(* ===== verification/MemoryPort.v ===== *)
(** * Memory ports

    [memory_port.h]/[memory_port.cc]: the abstract class [MemoryPort<T>] that
    queues responses and releases them after a latency. Its virtual methods are
    a typeclass; [Laws] states what the base class relies on, and each port of
    the harnesses discharges it. *)

From Stdlib Require Import Sorted.
From S2P Require Import Prelude Exceptions.

Module MemoryPort.

(** [struct MemoryResponse]. *)
Record MemoryResponse (T : Type) : Type := Response {
  time : Z;
  data : T;
  exception : Z;
  all_sent : bool;
}.
Arguments Response {T} time data exception all_sent.
Arguments time {T} m.
Arguments data {T} m.
Arguments exception {T} m.
Arguments all_sent {T} m.

(** The private fields of the base class; the head of the list is the front of
    the queue. *)
Record port (T : Type) : Type := Port {
  current_cycle : Z;
  latency : Z;
  responses : list (MemoryResponse T);
}.
Arguments Port {T} current_cycle latency responses.
Arguments current_cycle {T} p.
Arguments latency {T} p.
Arguments responses {T} p.

(** A port object: the base class part and the subclass part [W], in which we
    count what the subclass refers to (the memory, the device under test). *)
Record state (T W : Type) : Type := State {
  base : port T;
  sub : W;
}.
Arguments State {T W} base sub.
Arguments base {T W} s.
Arguments sub {T W} s.

(** The pure virtual methods. [send_response] takes its argument by reference:
    it returns the modified response. *)
Class Methods (T W : Type) : Type := {
  can_receive_request : W -> bool;
  get_request : M exn (state T W) unit;
  can_send_response : W -> bool;
  send_response : MemoryResponse T -> M exn W (MemoryResponse T);
  clear_response : M exn W unit;
}.

Section operations.

Context {T W : Type}.

Abbreviation M := (M exn (state T W)).

Definition on_base (f : port T -> port T) (s : state T W) : state T W :=
  State (f (base s)) (sub s).
Definition on_sub {A} (k : Prelude.M exn W A) : M A :=
  zoom sub (fun w s => State (base s) w) k.

Definition set_cycle (t : Z) (p : port T) : port T := Port t (latency p) (responses p).
Definition set_responses (q : list (MemoryResponse T)) (p : port T) : port T :=
  Port (current_cycle p) (latency p) q.
Definition push (r : MemoryResponse T) (p : port T) : port T :=
  set_responses (responses p ++ [r]) p.

(** The constructor; [current_cycle] is set before it is first read. *)
Definition make (latency : Z) : port T := Port 0 (u32 latency) [].

Definition queue_response (data : T) (exception : Z) : M unit :=
  p ← gets base;
  modify (on_base (push (Response (u64 (current_cycle p + latency p)) data exception false))).

Context `{Methods T W}.

Definition get_inputs (time : Z) : M unit :=
  modify (on_base (set_cycle time));;
  w ← gets sub;
  when (can_receive_request w) get_request.

Definition set_outputs (t : Z) : M unit :=
  modify (on_base (set_cycle t));;
  on_sub clear_response;;
  s ← get;
  match responses (base s) with
  | front :: rest =>
      when ((time front <=? t) && can_send_response (sub s))
        (front ← on_sub (send_response front);
         modify (on_base (set_responses (if all_sent front then rest else front :: rest))))
  | [] => mret tt
  end.

End operations.

(** ** What a port promises to the base class

    [serviceable] holds of the subclass states whose request the port can
    answer: accepting one then queues exactly one response, due after the
    latency, and nothing else changes in the base class. Sending always
    completes, and so does clearing. *)
Class Laws (T W : Type) `{Methods T W} : Type := {
  serviceable : W -> Prop;
  get_request_queues s :
    can_receive_request (sub s) = true -> serviceable (sub s) ->
    exists d e w, get_request s =
      (Ok tt, State (push (Response (u64 (current_cycle (base s) + latency (base s))) d e false)
                      (base s)) w)
      /\ serviceable w;
  can_send w : can_send_response w = true;
  send_response_completes r w :
    serviceable w ->
    exists w', send_response r w = (Ok (Response (time r) (data r) (exception r) true), w')
      /\ serviceable w';
  clear_response_completes w :
    serviceable w -> exists w', clear_response w = (Ok tt, w') /\ serviceable w';
}.

(** ** Runs of a port *)

Section runs.

Context {T W : Type} `{Methods T W}.

(** What happens to a port during a simulation: the device under test is
    evaluated, or one of the two public methods is called. *)
Inductive event : Type :=
  | Eval (f : W -> W)
  | SetOutputs (t : Z)
  | GetInputs (t : Z).

(** What was sent, with the time of sending, and what was accepted. *)
Record history : Type := History {
  sent : list (Z * MemoryResponse T);
  accepted : list (Z * MemoryResponse T);
}.

(** The response that [set_outputs] sends. *)
Definition outgoing (t : Z) (s : state T W) : list (MemoryResponse T) :=
  match responses (base s) with
  | front :: _ =>
      if (time front <=? t) && can_send_response (snd (clear_response (sub s)))
      then [front] else []
  | [] => []
  end.

Definition step (e : event) (s : state T W) : outcome exn unit * state T W :=
  match e with
  | Eval f => (Ok tt, State (base s) (f (sub s)))
  | SetOutputs t => set_outputs t s
  | GetInputs t => get_inputs t s
  end.

Definition observe (e : event) (s s' : state T W) : history :=
  match e with
  | Eval _ => History [] []
  | SetOutputs t => History (pair t <$> outgoing t s) []
  | GetInputs t =>
      History [] (pair t <$> drop (length (responses (base s))) (responses (base s')))
  end.

Definition history_app (h1 h2 : history) : history :=
  History (sent h1 ++ sent h2) (accepted h1 ++ accepted h2).

Fixpoint run (es : list event) (s : state T W) : outcome exn unit * state T W * history :=
  match es with
  | [] => (Ok tt, s, History [] [])
  | e :: es =>
      match step e s with
      | (Ok _, s1) =>
          let '(r, s2, h) := run es s1 in (r, s2, history_app (observe e s s1) h)
      | (o, s1) => (o, s1, History [] [])
      end
  end.

(** The calls of [run]: one [get_inputs] before the loop, at cycle 0, and then
    two half cycles per turn; [simulation_time()] is converted to an integer, so
    both halves of cycle [k] see time [k]. [f k] and [g k] are the evaluations of
    the device in the two halves. *)
Definition tick (f g : Z -> W -> W) (k : Z) : list event :=
  [Eval (f k); SetOutputs k; Eval (g k); GetInputs k].
Definition schedule (f g : Z -> W -> W) (n : nat) : list event :=
  GetInputs 0 :: concat (tick f g <$> seqZ 0 (Z.of_nat n)).

End runs.

Arguments event W : clear implicits.
Arguments history T : clear implicits.

(** ** Lemmas *)

Section lemmas.

#[local] Set Default Proof Using "Type*".

Context {T W : Type} `{Methods T W} `{!Laws T W}.

Implicit Types (s : state T W) (r : MemoryResponse T).

Lemma set_outputs_run t s :
  serviceable (sub s) ->
  exists w, set_outputs t s =
    (Ok tt, State (Port t (latency (base s)) (drop (length (outgoing t s)) (responses (base s)))) w)
    /\ serviceable w.
Proof.
  intros Hw. destruct s as [[c l q] w]. cbn in Hw.
  destruct (clear_response_completes w Hw) as (w1 & Hc & Hw1).
  unfold set_outputs, outgoing, on_sub, zoom. erewrite bind_ok by done. cbn.
  erewrite bind_ok by (cbn; by rewrite Hc). erewrite bind_ok by done. cbn.
  destruct q as [|front rest]; [by exists w1|]. rewrite !can_send.
  destruct (time front <=? t) eqn:Hdue; cbn; [|by exists w1].
  destruct (send_response_completes front w1 Hw1) as (w2 & Hs & Hw2).
  exists w2. split; [|done]. erewrite bind_ok by (cbn; by rewrite Hs). by rewrite drop_0.
Qed.

Lemma get_inputs_run t s :
  serviceable (sub s) ->
  exists new w, get_inputs t s =
      (Ok tt, State (Port t (latency (base s)) (responses (base s) ++ new)) w)
    /\ serviceable w
    /\ (if can_receive_request (sub s)
         then exists d e, new = [Response (u64 (t + latency (base s))) d e false]
         else new = []).
Proof.
  intros Hs. destruct s as [[c l q] w]. unfold get_inputs. erewrite bind_ok by done.
  erewrite bind_ok by done. cbn in *. destruct (can_receive_request w) eqn:Hr.
  - destruct (get_request_queues (State (Port t l q) w) Hr Hs) as (d & e & w' & Hq & Hw').
    eexists _, w'. split; [exact Hq|]. split; [done|]. by exists d, e.
  - exists [], w. by rewrite app_nil_r.
Qed.

Lemma outgoing_prefix t s :
  exists rest, responses (base s) = outgoing t s ++ rest
    /\ rest = drop (length (outgoing t s)) (responses (base s)).
Proof.
  eexists. split; [|done]. unfold outgoing. destruct (responses (base s)) as [|r q]; [done|].
  by destruct ((time r <=? t) && _).
Qed.

Lemma outgoing_due t s :
  outgoing t s = match responses (base s) with
                 | front :: _ => if time front <=? t then [front] else []
                 | [] => []
                 end.
Proof.
  unfold outgoing. destruct (responses (base s)); [done|]. by rewrite can_send, andb_true_r.
Qed.

(** A device evaluation that leaves a request the port can answer. *)
Definition event_ok (e : event W) : Prop :=
  match e with Eval f => forall w, serviceable w -> serviceable (f w) | _ => True end.

Lemma step_run e s :
  event_ok e -> serviceable (sub s) ->
  exists s', step e s = (Ok tt, s') /\ serviceable (sub s')
    /\ latency (base s') = latency (base s)
    /\ responses (base s) ++ (accepted (observe e s s')).*2
        = (sent (observe e s s')).*2 ++ responses (base s').
Proof.
  intros He Hs. destruct e as [f|t|t]; cbn [step event_ok] in *.
  - eexists. split; [done|]. split; [by apply He|]. split; [done|]. cbn. by rewrite app_nil_r.
  - destruct (set_outputs_run t s Hs) as (w & -> & Hw). eexists. split; [done|].
    split; [done|]. split; [done|]. cbn. rewrite app_nil_r, <- list_fmap_compose.
    destruct (outgoing_prefix t s) as (rest & Hq & Hrest). rewrite Hq at 1. rewrite Hrest.
    f_equal. by rewrite list_fmap_id.
  - destruct (get_inputs_run t s Hs) as (new & w & -> & Hw & _). eexists. split; [done|].
    split; [done|]. split; [done|]. cbn. rewrite drop_app_length, <- list_fmap_compose.
    f_equal. by rewrite list_fmap_id.
Qed.

Lemma run_ok es s :
  Forall event_ok es -> serviceable (sub s) ->
  exists s' h, run es s = (Ok tt, s', h) /\ serviceable (sub s')
    /\ latency (base s') = latency (base s)
    /\ responses (base s) ++ (accepted h).*2 = (sent h).*2 ++ responses (base s').
Proof.
  intros Hes. revert s. induction Hes as [|e es He _ IH]; intros s Hs; cbn [run].
  - exists s, (History [] []). cbn. by rewrite app_nil_r.
  - destruct (step_run e s He Hs) as (s1 & -> & Hs1 & Hl1 & Hq1).
    destruct (IH s1 Hs1) as (s2 & h & -> & Hs2 & Hl2 & Hq2).
    exists s2, (history_app (observe e s s1) h). split; [done|]. split; [done|].
    split; [congruence|]. cbn. by rewrite !fmap_app, app_assoc, Hq1, <- !app_assoc, Hq2.
Qed.

Lemma run_app es1 es2 s s1 h1 :
  run es1 s = (Ok tt, s1, h1) ->
  run (es1 ++ es2) s =
    (let '(r, s2, h2) := run es2 s1 in (r, s2, history_app h1 h2)).
Proof.
  revert s h1. induction es1 as [|e es1 IH]; intros s h1 Hrun; cbn [run app] in *.
  - simplify_eq. destruct (run es2 s1) as [[r s2] [a b]]. done.
  - destruct (step e s) as [[[]| | | | |] s3]; try done.
    destruct (run es1 s3) as [[r s4] h4] eqn:E; simplify_eq.
    rewrite (IH s3 h4 E). destruct (run es2 s1) as [[r s2] h5]. cbn.
    unfold history_app. cbn. by rewrite !app_assoc.
Qed.

End lemmas.

End MemoryPort.
