(* ===== verification/MemoryPortTheorems.v ===== *)
(** * Ordering and timing of memory ports: theorems

    Every theorem is about the base class alone, against the [Laws] that each
    port of the simulators discharges. *)

From Stdlib Require Import Sorted.
From S2P Require Import Prelude Exceptions MemoryPort.

Import MemoryPort.

(** ** Due times in a queue *)

Section due_times.

Implicit Types (q : list Z) (n L : Z).

(** Due times increase, except that the first two may be equal: the two
    requests that the simulation accepts at cycle 0. *)
Definition spaced q : Prop :=
  match q with [] => True | a :: l => StronglySorted Z.lt l /\ Forall (fun b => a <= b) l end.

(** Before tick [n]: the [i]-th response is at most one cycle late if one
    response leaves per cycle, and nothing is due beyond the latency. *)
Definition on_time n L q : Prop :=
  spaced q /\ forall i d, q !! i = Some d -> n + Z.of_nat i <= d + 1 /\ d < n + L.

(** The effect of one tick on the due times; [b]: a request was accepted. *)
Definition tick_times n L (b : bool) q : list Z :=
  match q with
  | d :: rest => if d <=? n then rest else q
  | [] => []
  end ++ if b then [n + L] else [].

Lemma sorted_lookup q a i d :
  StronglySorted Z.lt (a :: q) -> (a :: q) !! i = Some d -> a + Z.of_nat i <= d.
Proof.
  revert a i. induction q as [|b q IH]; intros a [|i] Hs Hi; simpl in *; simplify_eq; try lia.
  inversion Hs as [|? ? Hs' Hf]; subst. inversion Hf; subst.
  specialize (IH b i Hs' Hi). lia.
Qed.

Lemma sorted_snoc q d :
  StronglySorted Z.lt q -> (forall x, x ∈ q -> x < d) -> StronglySorted Z.lt (q ++ [d]).
Proof.
  induction 1 as [|a q Hs IH Hf]; intros Hlt; simpl; [by repeat constructor|].
  constructor; [apply IH; set_solver|].
  apply Forall_app. split; [done|]. constructor; [apply Hlt; set_solver|done].
Qed.

Lemma spaced_lookup q a i d : spaced (a :: q) -> (a :: q) !! i = Some d -> a + Z.of_nat i <= d + 1.
Proof.
  intros [Hs Hf]. destruct i as [|i]; simpl; intros Hi; [simplify_eq; lia|].
  destruct q as [|b q]; [done|]. pose proof (sorted_lookup _ _ _ _ Hs Hi).
  inversion Hf; subst. lia.
Qed.

Lemma spaced_tail a q : spaced (a :: q) -> spaced q.
Proof.
  intros [Hs _]. destruct q as [|b q]; [done|]. inversion Hs as [|? ? Hs' Hf]; subst.
  split; [done|]. eapply Forall_impl; [|exact Hf]. simpl. lia.
Qed.

Lemma spaced_snoc q d : spaced q -> (forall x, x ∈ q -> x < d) -> spaced (q ++ [d]).
Proof.
  destruct q as [|a q]; simpl; [by split; repeat constructor|]. intros [Hs Hf] Hlt. split.
  - apply sorted_snoc; set_solver.
  - apply Forall_app. split; [done|]. constructor; [|done].
    assert (a < d) by (apply Hlt; set_solver). lia.
Qed.

(** After the front has left if it was due. *)
Lemma on_time_pop n L q :
  on_time n L q ->
  let q' := tick_times n L false q in
  spaced q' /\ forall i d, q' !! i = Some d -> n + 1 + Z.of_nat i <= d + 1 /\ d < n + L.
Proof.
  intros [Hs Hd]. unfold tick_times. rewrite app_nil_r. destruct q as [|a q]; [done|].
  destruct (Z.leb_spec a n).
  - split; [by eapply spaced_tail|]. intros i d Hi. specialize (Hd (Datatypes.S i) d Hi). lia.
  - split; [done|]. intros i d Hi. pose proof (spaced_lookup _ _ _ _ Hs Hi).
    specialize (Hd i d Hi). lia.
Qed.

Lemma tick_times_on_time n L b q :
  0 <= L -> on_time n L q -> on_time (n + 1) L (tick_times n L b q).
Proof.
  intros HL Hq. destruct (on_time_pop n L q Hq) as [Hs Hd].
  assert (He : tick_times n L b q = tick_times n L false q ++ if b then [n + L] else [])
    by (unfold tick_times; by rewrite app_nil_r).
  rewrite He. set (q' := tick_times n L false q) in *. clearbody q'. destruct b.
  - split.
    + apply spaced_snoc; [done|]. intros x [i Hi]%list_elem_of_lookup. by apply Hd in Hi as [_ ?].
    + intros i d Hi. apply lookup_snoc_Some in Hi as [[_ Hi]|[-> <-]]; [apply Hd in Hi; lia|].
      split; [|lia]. destruct (length q') as [|k] eqn:Hk; [lia|].
      destruct (lookup_lt_is_Some_2 q' k ltac:(lia)) as [e Hi]. apply Hd in Hi. lia.
  - rewrite app_nil_r. split; [done|]. intros i d Hi. apply Hd in Hi. lia.
Qed.

(** The first tick follows the extra request of cycle 0. *)
Lemma first_tick_on_time L (a b : bool) :
  0 <= L -> on_time 1 L (tick_times 0 L b (if a then [L] else [])).
Proof.
  intros HL. unfold tick_times. destruct a, b; simpl; rewrite ?app_nil_r.
  all: try (destruct (Z.leb_spec L 0); simpl).
  all: split; [by repeat constructor; simpl; auto using Z.le_refl|].
  all: intros i d Hi; repeat (destruct i as [|i]; simpl in Hi; simplify_eq; try lia).
Qed.

End due_times.

Section timing.

Context {T W : Type} `{Methods T W} `{!Laws T W}.

#[local] Set Default Proof Using "Type*".

Implicit Types (s : state T W) (f g : Z -> W -> W).

Definition times s : list Z := time <$> responses (base s).

(** A response sent at [t] is due at [t], or was due one cycle before. *)
Definition sent_on_time (x : Z * MemoryResponse T) : Prop :=
  time (snd x) <= fst x <= time (snd x) + 1.

Definition due_after (L : Z) (x : Z * MemoryResponse T) : Prop :=
  time (snd x) = fst x + L /\ 0 <= fst x.

Lemma run_tick f g n s :
  (forall k w, serviceable w -> serviceable (f k w)) ->
  (forall k w, serviceable w -> serviceable (g k w)) ->
  serviceable (sub s) -> 0 <= n -> in_width 64 (n + latency (base s)) ->
  exists s' h b, run (tick f g n) s = (Ok tt, s', h) /\ serviceable (sub s')
    /\ latency (base s') = latency (base s)
    /\ times s' = tick_times n (latency (base s)) b (times s)
    /\ Forall (fun x => fst x = n /\ head (times s) = Some (time (snd x)) /\ time (snd x) <= n) (sent h)
    /\ Forall (fun x => fst x = n /\ due_after (latency (base s)) x) (accepted h).
Proof.
  intros Hf Hg Hs Hn0 Hn. destruct s as [p w]. cbn in Hs, Hn. unfold tick. cbn [run step].
  set (s1 := State (base (State p w)) _).
  destruct (set_outputs_run n s1 (Hf n w Hs)) as (w1 & -> & Hw1). cbn [base sub].
  set (s2 := State _ (g n w1)).
  destruct (get_inputs_run n s2 (Hg n w1 Hw1)) as (new & w2 & -> & Hw2 & Hnew).
  eexists _, _, (can_receive_request (g n w1)). split; [done|]. split; [done|]. split; [done|].
  cbn [sub base s2 latency responses] in *. unfold times.
  pose proof (outgoing_due n s1) as Hout. cbn in Hout. fold s1. cbn.
  assert (Ht : time <$> new = if can_receive_request (g n w1) then [n + latency p] else []).
  { destruct (can_receive_request _); [|by rewrite Hnew]. destruct Hnew as (d & e & ->). cbn.
    unfold u64. by rewrite wrap_small. }
  rewrite !drop_app_length, !app_nil_r, Hout. split; [|split].
  - rewrite fmap_app, Ht. unfold tick_times. f_equal.
    destruct (responses p) as [|r q]; [done|]. cbn. by destruct (time r <=? n).
  - destruct (responses p) as [|r q]; [constructor|]. cbn.
    destruct (Z.leb_spec (time r) n); by repeat constructor.
  - destruct (can_receive_request _); [|subst new; constructor].
    destruct Hnew as (d & e & ->). constructor; [|constructor]. cbn. unfold due_after. cbn.
    unfold u64. by rewrite wrap_small.
Qed.

Lemma run_ticks f g (k : nat) n s :
  (forall k w, serviceable w -> serviceable (f k w)) ->
  (forall k w, serviceable w -> serviceable (g k w)) ->
  serviceable (sub s) -> 0 <= n -> 0 <= latency (base s) ->
  n + Z.of_nat k + latency (base s) < 2 ^ 64 ->
  on_time n (latency (base s)) (times s) ->
  exists s' h, run (concat (tick f g <$> seqZ n (Z.of_nat k))) s = (Ok tt, s', h)
    /\ serviceable (sub s')
    /\ latency (base s') = latency (base s)
    /\ on_time (n + Z.of_nat k) (latency (base s)) (times s')
    /\ Forall sent_on_time (sent h) /\ Forall (due_after (latency (base s))) (accepted h).
Proof.
  intros Hf Hg. revert n s. induction k as [|k IH]; intros n s Hs Hn HL Hmax Hq.
  - eexists s, _. split; [done|]. rewrite Z.add_0_r.
    split; [done|]. split; [done|]. split; [done|]. by split; apply Forall_nil.
  - rewrite seqZ_cons by lia. rewrite fmap_cons. cbn [concat].
    destruct (run_tick f g n s Hf Hg Hs) as (s1 & h1 & b & Hrun & Hs1 & Hl1 & Ht1 & Hsent & Hacc);
      [done|width|].
    assert (Hq1 : on_time (Z.succ n) (latency (base s1)) (times s1)).
    { rewrite Ht1, Hl1. by apply tick_times_on_time. }
    replace (Z.pred (Z.of_nat (Datatypes.S k))) with (Z.of_nat k) by lia.
    destruct (IH (Z.succ n) s1 Hs1) as (s2 & h2 & Hrun2 & Hs2 & Hl2 & Ht2 & Hsent2 & Hacc2);
      [lia|lia|lia|done|].
    erewrite run_app by exact Hrun. rewrite Hrun2.
    eexists s2, _. split; [done|]. rewrite Hl1 in *. split; [done|]. split; [done|].
    split; [by replace (n + Z.of_nat (Datatypes.S k)) with (Z.succ n + Z.of_nat k) by lia|].
    cbn. split; apply Forall_app; (split; [|done]).
    + eapply Forall_impl; [|exact Hsent]. intros [t r] (Ht & Hh & Hd). unfold sent_on_time.
      cbn in *. subst t. destruct Hq as [_ Hq].
      destruct (times s) as [|d q] eqn:E; [done|]. simplify_eq/=.
      specialize (Hq 0%nat _ eq_refl). lia.
    + eapply Forall_impl; [|exact Hacc]. by intros x [_ ?].
Qed.

(** The extra [get_inputs] and the first tick. *)
Lemma run_start f g s :
  (forall k w, serviceable w -> serviceable (f k w)) ->
  (forall k w, serviceable w -> serviceable (g k w)) ->
  serviceable (sub s) -> responses (base s) = [] -> in_width 64 (latency (base s)) ->
  exists s' h, run (GetInputs 0 :: tick f g 0) s = (Ok tt, s', h)
    /\ serviceable (sub s') /\ latency (base s') = latency (base s)
    /\ on_time 1 (latency (base s)) (times s')
    /\ Forall sent_on_time (sent h) /\ Forall (due_after (latency (base s))) (accepted h).
Proof.
  intros Hf Hg Hs Hq HL. cbn [run]. cbn [step].
  destruct (get_inputs_run 0 s Hs) as (new & w & -> & Hw & Hnew).
  rewrite Hq, Z.add_0_l in *. unfold u64 in Hnew. rewrite wrap_small in Hnew by width.
  set (s1 := State _ w).
  destruct (run_tick f g 0 s1 Hf Hg Hw) as (s2 & h & b & Hrun & Hs2 & Hl2 & Ht2 & Hsent & Hacc);
    [done|cbn; width|]. rewrite Hrun. cbn [s1 base latency] in *.
  assert (Ht1 : times s1 = if can_receive_request (sub s) then [latency (base s)] else []).
  { unfold times. cbn. destruct (can_receive_request _); [|by rewrite Hnew].
    by destruct Hnew as (d & e & ->). }
  eexists s2, _. split; [done|]. split; [done|]. split; [done|].
  split; [rewrite Ht2, Ht1; apply first_tick_on_time; width|]. cbn. split.
  - eapply Forall_impl; [|exact Hsent]. intros [t r] (Ht & Hh & Hd). rewrite Ht1 in Hh.
    destruct (can_receive_request _); simplify_eq/=. unfold sent_on_time. cbn. width.
  - rewrite Hq. apply Forall_app. split.
    + destruct (can_receive_request _); [|by rewrite Hnew].
      destruct Hnew as (d & e & ->). by repeat constructor; cbn; lia.
    + eapply Forall_impl; [|exact Hacc]. by intros x [_ ?].
Qed.

Lemma run_schedule f g (n : nat) s :
  (forall k w, serviceable w -> serviceable (f k w)) ->
  (forall k w, serviceable w -> serviceable (g k w)) ->
  serviceable (sub s) -> responses (base s) = [] -> 0 <= latency (base s) ->
  Z.of_nat n + latency (base s) < 2 ^ 64 ->
  exists s' h, run (schedule f g n) s = (Ok tt, s', h)
    /\ (n <> 0%nat -> on_time (Z.of_nat n) (latency (base s)) (times s'))
    /\ Forall sent_on_time (sent h) /\ Forall (due_after (latency (base s))) (accepted h).
Proof.
  intros Hf Hg Hs Hq HL Hmax. unfold schedule. destruct n as [|n].
  - cbn [run seqZ fmap list_fmap concat step]. destruct (get_inputs_run 0 s Hs) as (new & w & -> & Hw & Hnew).
    eexists _, _. split; [done|]. split; [done|]. cbn. rewrite app_nil_r, Hq. split; [constructor|].
    destruct (can_receive_request _); [|by rewrite Hnew].
    destruct Hnew as (d & e & ->). do 2 constructor; [|done]. cbn. apply wrap_small. lia.
  - rewrite seqZ_cons by lia. rewrite fmap_cons. cbn [concat].
    replace (Z.pred (Z.of_nat (Datatypes.S n))) with (Z.of_nat n) by lia.
    destruct (run_start f g s Hf Hg Hs Hq) as (s1 & h1 & Hrun1 & Hs1 & Hl1 & Ht1 & Hsent1 & Hacc1);
      [width|].
    rewrite app_comm_cons. erewrite run_app by exact Hrun1. rewrite <- Hl1 in *.
    destruct (run_ticks f g n 1 s1 Hf Hg Hs1) as (s2 & h2 & Hrun2 & Hs2 & Hl2 & Ht2 & Hsent2 & Hacc2);
      [lia..|done|]. change (Z.succ 0) with 1. rewrite Hrun2.
    eexists s2, _. split; [done|]. cbn. rewrite !Forall_app.
    split; [|done]. intros _. by replace (Z.of_nat (Datatypes.S n)) with (1 + Z.of_nat n) by lia.
Qed.

Lemma schedule_on_time f g (n : nat) s :
  (forall k w, serviceable w -> serviceable (f k w)) ->
  (forall k w, serviceable w -> serviceable (g k w)) ->
  serviceable (sub s) -> responses (base s) = [] -> 0 <= latency (base s) ->
  Z.of_nat n + latency (base s) < 2 ^ 64 ->
  exists s' h, run (schedule f g n) s = (Ok tt, s', h)
    /\ Forall (fun x => time (snd x) = fst x + latency (base s)) (accepted h)
    /\ Forall (fun x => time (snd x) <= fst x <= time (snd x) + 1) (sent h)
    /\ Forall (fun x => fst x + latency (base s) + 1 < Z.of_nat n -> snd x ∈ (sent h).*2) (accepted h).
Proof.
  intros Hf Hg Hs Hq HL Hmax.
  destruct (run_schedule f g n s Hf Hg Hs Hq HL Hmax) as (s' & h & Hrun & Ht & Hsent & Hacc).
  exists s', h. split; [done|].
  split; [eapply Forall_impl; [|exact Hacc]; by intros x [? _]|]. split; [done|].
  assert (Hok : Forall event_ok (schedule f g n)).
  { unfold schedule. constructor; [done|]. apply Forall_concat, Forall_fmap, Forall_true.
    intros k. repeat constructor; cbn; auto. }
  destruct (run_ok _ s Hok Hs) as (s2 & h2 & Hrun2 & _ & _ & Hfifo).
  rewrite Hrun in Hrun2. simplify_eq. rewrite Hq in Hfifo. simpl in Hfifo.
  apply Forall_lookup_2. intros i x Hi Hlate.
  destruct (Forall_lookup_1 _ _ _ _ Hacc Hi) as [Hdue Hpos].
  assert (Hin : snd x ∈ (sent h2).*2 ++ responses (base s2)).
  { rewrite <- Hfifo. apply list_elem_of_fmap. exists x. split; [done|].
    by eapply list_elem_of_lookup_2. }
  apply elem_of_app in Hin as [|Hin]; [done|].
  apply list_elem_of_lookup in Hin as [j Hj].
  destruct (Ht ltac:(lia)) as [_ Hd].
  specialize (Hd j (time (snd x))). unfold times in Hd. rewrite list_lookup_fmap, Hj in Hd.
  specialize (Hd eq_refl). lia.
Qed.



End timing.
