(* ===== verification/CorePorts.v ===== *)
(** * The ports of the core harness

    [core_harness.cc]: [MainMemoryPort] and [IoMemoryPort] connect the BRAM-like
    interfaces of [core_wrapper.sv] to main memory, with a latency of one cycle.
    The signals are fields of the generated class [Vcore_wrapper]; their widths
    are those of the wrapper's ports. *)

From S2P Require Import Prelude Exceptions VirtualAddressing FlatMemory MainMemory.
From S2P Require Import MainMemoryFacts MemoryPort.

Import MainMemory MemoryPort.

(** ** [MainMemoryPort] *)
Module MainMemoryPort.

(** The signals [mem_*]. *)
Record signals : Type := Signals {
  mem_en_o : bool;
  mem_we_o : bool;
  mem_addr_o : Z;
  mem_wmask_o : Z;
  mem_wdata_o : Z;
  mem_rdata_i : Z;
}.

Definition set_rdata (d : Z) (s : signals) : signals :=
  Signals (mem_en_o s) (mem_we_o s) (mem_addr_o s) (mem_wmask_o s) (mem_wdata_o s) d.

(** What the object refers to: [dut] and [memory]. *)
Record object (S : Type) : Type := Object { dut : signals; memory : machine S }.
Arguments Object {S} dut memory.
Arguments dut {S} o.
Arguments memory {S} o.

Section operations.

Context {S : Type} `{SystemCalls S} `{Uninitialised}.

Abbreviation M := (M exn (state Z (object S))).

Definition on_memory {A} (k : Prelude.M exn (machine S) A) : M A :=
  on_sub (zoom memory (fun m o => Object (dut o) m) k).

Definition latency : Z := 1.

Definition can_receive_request (o : object S) : bool := mem_en_o (dut o).

Definition get_request : M unit :=
  o ← gets sub;
  assert_that (can_receive_request o);;
  let address := u64 (Z.shiftl (mem_addr_o (dut o)) 3) in
  let data_write := mem_wdata_o (dut o) in
  data_read ← on_memory (read64 address);
  when (mem_we_o (dut o))
    (if negb (mem_wmask_o (dut o) =? 0xFF) then fail (ExitWith 1)
     else on_memory (write64 address data_write));;
  queue_response data_read EXC_CAUSE_NONE.

Definition can_send_response (o : object S) : bool := true.

Definition send_response (r : MemoryResponse Z) : Prelude.M exn (object S) (MemoryResponse Z) :=
  modify (fun o => Object (set_rdata (data r) (dut o)) (memory o));;
  mret (Response (time r) (data r) (exception r) true).

Definition clear_response : Prelude.M exn (object S) unit := mret tt.

#[global] Instance methods : Methods Z (object S) := {
  MemoryPort.can_receive_request := can_receive_request;
  MemoryPort.get_request := get_request;
  MemoryPort.can_send_response := can_send_response;
  MemoryPort.send_response := send_response;
  MemoryPort.clear_response := clear_response;
}.

End operations.

End MainMemoryPort.

(** ** [IoMemoryPort] *)
Module IoMemoryPort.

(** The signals [io_*]. *)
Record signals : Type := Signals {
  io_en_o : bool;
  io_we_o : bool;
  io_addr_o : Z;
  io_wmask_o : Z;
  io_wdata_o : Z;
  io_rdata_i : Z;
}.

Definition set_rdata (d : Z) (s : signals) : signals :=
  Signals (io_en_o s) (io_we_o s) (io_addr_o s) (io_wmask_o s) (io_wdata_o s) d.

Record object (S : Type) : Type := Object { dut : signals; memory : machine S }.
Arguments Object {S} dut memory.
Arguments dut {S} o.
Arguments memory {S} o.

Section operations.

Context {S : Type} `{SystemCalls S} `{Uninitialised}.

Abbreviation M := (M exn (state Z (object S))).

Definition on_memory {A} (k : Prelude.M exn (machine S) A) : M A :=
  on_sub (zoom memory (fun m o => Object (dut o) m) k).

Definition latency : Z := 1.

Definition can_receive_request (o : object S) : bool := io_en_o (dut o).

(** The [switch] on the write mask; [None] is its [default] case. *)
Definition masked_store (mask address data_write : Z) : option (Prelude.M exn (machine S) unit) :=
  let at_ n := u64 (address + n) in
  let part n := Z.shiftr data_write n in
  match mask with
  | 1 => Some (write8 (at_ 0) (u8 (part 0)))
  | 2 => Some (write8 (at_ 1) (u8 (part 8)))
  | 4 => Some (write8 (at_ 2) (u8 (part 16)))
  | 8 => Some (write8 (at_ 3) (u8 (part 24)))
  | 16 => Some (write8 (at_ 4) (u8 (part 32)))
  | 32 => Some (write8 (at_ 5) (u8 (part 40)))
  | 64 => Some (write8 (at_ 6) (u8 (part 48)))
  | 128 => Some (write8 (at_ 7) (u8 (part 56)))
  | 3 => Some (write16 (at_ 0) (u16 (part 0)))
  | 12 => Some (write16 (at_ 2) (u16 (part 16)))
  | 48 => Some (write16 (at_ 4) (u16 (part 32)))
  | 192 => Some (write16 (at_ 6) (u16 (part 48)))
  | 15 => Some (write32 (at_ 0) (u16 (part 0)))
  | 240 => Some (write32 (at_ 4) (u16 (part 32)))
  | 255 => Some (write64 address data_write)
  | _ => None
  end.

Definition get_request : M unit :=
  o ← gets sub;
  assert_that (can_receive_request o);;
  let address := u64 (Z.shiftl (io_addr_o (dut o)) 3) in
  let data_write := io_wdata_o (dut o) in
  data_read ← on_memory (read64 address);
  when (io_we_o (dut o))
    (match masked_store (io_wmask_o (dut o)) address data_write with
     | Some k => on_memory k
     | None => fail (ExitWith 1)
     end);;
  queue_response data_read EXC_CAUSE_NONE.

Definition can_send_response (o : object S) : bool := true.

Definition send_response (r : MemoryResponse Z) : Prelude.M exn (object S) (MemoryResponse Z) :=
  modify (fun o => Object (set_rdata (data r) (dut o)) (memory o));;
  mret (Response (time r) (data r) (exception r) true).

Definition clear_response : Prelude.M exn (object S) unit := mret tt.

#[global] Instance methods : Methods Z (object S) := {
  MemoryPort.can_receive_request := can_receive_request;
  MemoryPort.get_request := get_request;
  MemoryPort.can_send_response := can_send_response;
  MemoryPort.send_response := send_response;
  MemoryPort.clear_response := clear_response;
}.

End operations.

End IoMemoryPort.
