(* ===== verification/CorePortsTheorems.v ===== *)
(** * The ports of the core harness: theorems *)

From S2P Require Import Prelude Exceptions VirtualAddressing FlatMemory MainMemory.
From S2P Require Import MainMemoryFacts MemoryPort MemoryPortTheorems CorePorts.

Import MainMemory MemoryPort.

(** ** Specification *)

(** A word-aligned address on the 53-bit address bus. *)
Definition word_address (a : Z) : Z := 8 * a.

(** The lanes of [data] selected by [mask], stored at [address]. *)
Definition masked_write (m : memory) (address mask data : Z) : memory := fun x =>
  let lane := u64 (x - address) in
  if (lane <? 8) && Z.testbit mask lane then (data / 2 ^ (8 * lane)) mod 256 else m x.

(** No address of the word is a system-call address. *)
Definition plain_word {S} `{SystemCalls S} (m : machine S) (address : Z) : Prop :=
  forall i d, 0 <= i < 8 -> is_system_call (host m) (u64 (address + i)) d = false.

Definition supported_masks : list Z :=
  [1; 2; 4; 8; 16; 32; 64; 128; 3; 12; 48; 192; 15; 240; 255].

(** ** Lemmas *)

Section lemmas.

Context {S : Type} `{SystemCalls S} `{Uninitialised}.

Implicit Types (m : machine S) (a n v : Z).

Lemma word_address_shift a : in_width 53 a -> u64 (Z.shiftl a 3) = word_address a.
Proof.
  intros. rewrite Z.shiftl_mul_pow2 by lia. unfold word_address, u64.
  rewrite Z.mul_comm. apply wrap_small. width.
Qed.

Lemma word_address_limit a n :
  in_width 53 a -> 1 <= n <= 8 ->
  u64 (word_address a + n - 1) <= Sv39.MAX_PHYSICAL_ADDRESS /\ in_width 64 (word_address a).
Proof.
  intros. change Sv39.MAX_PHYSICAL_ADDRESS with (2 ^ 56 - 1). unfold word_address, u64.
  rewrite wrap_small by width. width.
Qed.

Lemma read_word m a :
  in_width 53 a ->
  exists m', read64 (word_address a) m
             = (Ok (le_value (flat_read (byte_at m) (word_address a) 8)), m')
    /\ unchanged m m'.
Proof.
  intros. destruct (word_address_limit a 8) as [? ?]; [done|lia|].
  apply read_scalar_ok; [done|rewrite PAGE_SIZE_eq; lia|done].
Qed.

(** Storing [n] bytes of [v] from lane [k] is a masked write of [data], when the
    mask is those lanes and [v] has the bits that [data] has there. *)
Lemma masked_write_run m m' address mask (k n : nat) v data :
  updated m (u64 (address + Z.of_nat k)) (le_bytes n v) m' -> (k + n <= 8)%nat ->
  (forall i, 0 <= i < 8 ->
     Z.testbit mask i = (Z.of_nat k <=? i) && (i <? Z.of_nat k + Z.of_nat n)) ->
  (forall b, 0 <= b < 8 * Z.of_nat n -> Z.testbit v b = Z.testbit data (8 * Z.of_nat k + b)) ->
  byte_at m' ≡ₘ masked_write (byte_at m) address mask data.
Proof.
  intros Hup Hkn Hmask Hbits x Hx. rewrite (updated_bytes _ _ _ _ Hup x Hx).
  unfold masked_write, flat_write. pose proof (wrap_bound 64 (x - address)) as Hl.
  assert (Hj : u64 (x - u64 (address + Z.of_nat k)) = wrap 64 (u64 (x - address) - Z.of_nat k)).
  { unfold u64, wrap. rewrite Zminus_mod_idemp_r, Zminus_mod_idemp_l. f_equal. lia. }
  rewrite Hj. fold u64 in Hl. change (wrap 64 (x - address)) with (u64 (x - address)) in Hl.
  set (lane := u64 (x - address)) in *. destruct (Z.ltb_spec lane 8) as [Hlt|Hge]; simpl.
  - rewrite Hmask by lia. destruct (Z.leb_spec (Z.of_nat k) lane) as [Hk|Hk]; simpl.
    + unfold wrap. rewrite Z.mod_small by lia.
      destruct (Z.ltb_spec lane (Z.of_nat k + Z.of_nat n)) as [Hn|Hn].
      * rewrite lookup_le_bytes by lia. rewrite Z2Nat.id by lia. by_bits b.
        change 256 with (2 ^ 8). rewrite !testbit_field by lia.
        destruct (Z.ltb_spec b 8); simpl; [|done]. rewrite Hbits by lia. f_equal. lia.
      * rewrite lookup_ge_None_2; [done|]. rewrite length_le_bytes. lia.
    + unfold wrap. rewrite <- (Z_mod_plus_full _ 1), Z.mod_small by lia.
      rewrite lookup_ge_None_2; [done|]. rewrite length_le_bytes. lia.
  - unfold wrap. rewrite Z.mod_small by lia.
    rewrite lookup_ge_None_2; [done|]. rewrite length_le_bytes. lia.
Qed.

(** A narrowed shift has the bits of the shifted value. *)
Lemma part_bits w data k b :
  0 <= k -> 0 <= b < w -> Z.testbit (wrap w (Z.shiftr data k)) b = Z.testbit data (k + b).
Proof.
  intros. unfold wrap. rewrite Z.mod_pow2_bits_low, Z.shiftr_spec by lia. f_equal. lia.
Qed.

Lemma store_part m a (k n : nat) mask v data :
  in_width 53 a -> (k + n <= 8)%nat -> (1 <= n)%nat -> plain_word m (word_address a) ->
  (forall i, 0 <= i < 8 ->
     Z.testbit mask i = (Z.of_nat k <=? i) && (i <? Z.of_nat k + Z.of_nat n)) ->
  (forall b, 0 <= b < 8 * Z.of_nat n -> Z.testbit v b = Z.testbit data (8 * Z.of_nat k + b)) ->
  exists m', write_scalar (Z.of_nat n) (u64 (word_address a + Z.of_nat k)) v m = (Ok tt, m')
    /\ byte_at m' ≡ₘ masked_write (byte_at m) (word_address a) mask data
    /\ host m' = host m /\ (wf m -> wf m').
Proof.
  intros Ha Hkn Hn Hplain Hmask Hbits.
  destruct (write_scalar_ok m (u64 (word_address a + Z.of_nat k)) (Z.of_nat n) v) as (m' & Hrun & Hup).
  - apply wrap_bound. lia.
  - rewrite PAGE_SIZE_eq. lia.
  - apply Hplain. lia.
  - unfold u64. rewrite <- Z.add_sub_assoc, wrap_add_l. rewrite wrap_small.
    + change Sv39.MAX_PHYSICAL_ADDRESS with (2 ^ 56 - 1). unfold word_address. width.
    + unfold word_address. width.
  - exists m'. split; [done|]. rewrite Nat2Z.id in Hup.
    split; [by eapply masked_write_run|]. split; [apply Hup|].
    apply (updated_wf _ _ _ _ Hup), le_bytes_byte.
Qed.

End lemmas.

(** The data that the port really stores: a word write of a 32-bit half is cast
    to [uint16_t] first, which clears the upper half of each 32 bits. *)
Definition stored_data (mask data : Z) : Z :=
  if decide (mask = 15 \/ mask = 240) then Z.land data 0x0000FFFF0000FFFF else data.

(** Decide a statement about each lane [i] of a concrete mask. *)
Ltac each_lane :=
  intros i ?;
  assert (i = 0 \/ i = 1 \/ i = 2 \/ i = 3 \/ i = 4 \/ i = 5 \/ i = 6 \/ i = 7)
    as [->|[->|[->|[->|[->|[->|[->| ->]]]]]]] by lia; reflexivity.

(** Solve one case of the [switch], on the lanes [k .. k + n - 1]. *)
Ltac store_case k n bits :=
  eexists _, k, n, _; split; [reflexivity|]; split; [intros m; try apply write8_scalar; reflexivity|];
  split; [lia|]; split; [lia|]; split; [each_lane|];
  intros b ?; bits.

Section masks.

Context {S : Type} `{SystemCalls S} `{Uninitialised}.

Implicit Types (m : machine S).

Lemma halfword_bits data k b :
  k = 0 \/ k = 32 -> 0 <= b < 32 ->
  Z.testbit (u16 (Z.shiftr data k)) b = Z.testbit (Z.land data 0x0000FFFF0000FFFF) (k + b).
Proof.
  intros Hk Hb. rewrite Z.land_spec.
  assert (Z.testbit 0x0000FFFF0000FFFF (k + b) = (b <? 16)) as ->.
  { change 0x0000FFFF0000FFFF with (Z.lor (Z.ones 16) (Z.shiftl (Z.ones 16) 32)).
    rewrite Z.lor_spec, Z.shiftl_spec, !Z.testbit_ones by lia. lia. }
  unfold u16, wrap. destruct (Z.ltb_spec b 16).
  - rewrite Z.mod_pow2_bits_low, Z.shiftr_spec, andb_true_r by lia. f_equal. lia.
  - by rewrite Z.mod_pow2_bits_high, andb_false_r by lia.
Qed.

(** Every case of the [switch] is one scalar store of some lanes of the word. *)
Lemma masked_store_shape a mask data :
  in_width 53 a -> mask ∈ supported_masks ->
  exists st (k n : nat) v,
    IoMemoryPort.masked_store mask (word_address a) data = Some st
    /\ (forall m, st m = write_scalar (Z.of_nat n) (u64 (word_address a + Z.of_nat k)) v m)
    /\ (1 <= n)%nat /\ (k + n <= 8)%nat
    /\ (forall i, 0 <= i < 8 ->
          Z.testbit mask i = (Z.of_nat k <=? i) && (i <? Z.of_nat k + Z.of_nat n))
    /\ (forall b, 0 <= b < 8 * Z.of_nat n ->
          Z.testbit v b = Z.testbit (stored_data mask data) (8 * Z.of_nat k + b)).
Proof.
  intros Ha Hm. unfold supported_masks in Hm.
  repeat (apply elem_of_cons in Hm as [->|Hm]); [..|by apply elem_of_nil in Hm];
    change (stored_data _ data) with data || change (stored_data _ data)
      with (Z.land data 0x0000FFFF0000FFFF).
  - store_case 0%nat 1%nat ltac:(apply part_bits; lia).
  - store_case 1%nat 1%nat ltac:(apply part_bits; lia).
  - store_case 2%nat 1%nat ltac:(apply part_bits; lia).
  - store_case 3%nat 1%nat ltac:(apply part_bits; lia).
  - store_case 4%nat 1%nat ltac:(apply part_bits; lia).
  - store_case 5%nat 1%nat ltac:(apply part_bits; lia).
  - store_case 6%nat 1%nat ltac:(apply part_bits; lia).
  - store_case 7%nat 1%nat ltac:(apply part_bits; lia).
  - store_case 0%nat 2%nat ltac:(apply part_bits; lia).
  - store_case 2%nat 2%nat ltac:(apply part_bits; lia).
  - store_case 4%nat 2%nat ltac:(apply part_bits; lia).
  - store_case 6%nat 2%nat ltac:(apply part_bits; lia).
  - store_case 0%nat 4%nat ltac:(apply halfword_bits; [by left|lia]).
  - store_case 4%nat 4%nat ltac:(apply halfword_bits; [by right|lia]).
  - eexists _, 0%nat, 8%nat, data. split; [reflexivity|].
    assert (Hw : u64 (word_address a + Z.of_nat 0) = word_address a).
    { rewrite Z.add_0_r. apply wrap_small. by apply (word_address_limit a 8). }
    split; [intros m; by rewrite Hw|]. split; [lia|]. split; [lia|]. split; [each_lane|done].
Qed.

Lemma masked_store_run m a mask data :
  in_width 53 a -> mask ∈ supported_masks -> plain_word m (word_address a) ->
  exists st, IoMemoryPort.masked_store mask (word_address a) data = Some st
    /\ exists m', st m = (Ok tt, m')
      /\ byte_at m' ≡ₘ masked_write (byte_at m) (word_address a) mask (stored_data mask data)
      /\ host m' = host m /\ (wf m -> wf m').
Proof.
  intros Ha Hm Hplain.
  destruct (masked_store_shape a mask data Ha Hm) as (st & k & n & v & Hst & Hrun & ? & ? & ? & ?).
  exists st. split; [done|]. rewrite Hrun. by eapply store_part.
Qed.

End masks.

(** ** The ports serve every request *)

Section ports.

Context {S : Type} `{SystemCalls S} `{!SystemCallsOk S} `{Uninitialised}.

#[local] Set Default Proof Using "All".

Implicit Types (m : machine S).

(** A store in a word goes through, system call or not. *)
Lemma write_part_completes m a (k n : nat) v :
  in_width 53 a -> (1 <= n)%nat -> (k + n <= 8)%nat ->
  exists m', write_scalar (Z.of_nat n) (u64 (word_address a + Z.of_nat k)) v m = (Ok tt, m').
Proof.
  intros Ha Hn Hkn. set (x := u64 (word_address a + Z.of_nat k)).
  assert (Hx : x = word_address a + Z.of_nat k) by (apply wrap_small; unfold word_address; width).
  destruct (is_system_call (host m) x (wrap (8 * Z.of_nat n) v)) eqn:E.
  - rewrite write_scalar_system_call by done.
    destruct (system_call_ok _ _ _ E) as [h ->]. eauto.
  - destruct (write_scalar_ok m x (Z.of_nat n) v) as (m' & Hrun & _); [| |done| |by eauto].
    + apply wrap_bound. lia.
    + rewrite PAGE_SIZE_eq. lia.
    + change Sv39.MAX_PHYSICAL_ADDRESS with (2 ^ 56 - 1). rewrite Hx. unfold word_address, u64 in *.
      rewrite wrap_small by width. width.
Qed.

Lemma write_word_completes m a v :
  in_width 53 a -> exists m', write64 (word_address a) v m = (Ok tt, m').
Proof.
  intros Ha. destruct (write_part_completes m a 0 8 v) as [m' Hrun]; [done|lia|lia|].
  exists m'. rewrite <- Hrun. unfold write64. f_equal.
  rewrite Z.add_0_r. symmetry. apply wrap_small. by apply (word_address_limit a 8).
Qed.

Lemma masked_store_completes m a mask data :
  in_width 53 a -> mask ∈ supported_masks ->
  exists st m', IoMemoryPort.masked_store mask (word_address a) data = Some st
    /\ st m = (Ok tt, m').
Proof.
  intros Ha Hm.
  destruct (masked_store_shape a mask data Ha Hm) as (st & k & n & v & Hst & Hrun & ? & ? & _).
  destruct (write_part_completes m a k n v) as [m' Hw]; [done..|].
  exists st, m'. by rewrite Hrun.
Qed.

(** A request of the main memory port that it can answer. *)
Definition main_serviceable (o : MainMemoryPort.object S) : Prop :=
  let d := MainMemoryPort.dut o in
  in_width 53 (MainMemoryPort.mem_addr_o d)
  /\ (MainMemoryPort.mem_we_o d = true -> MainMemoryPort.mem_wmask_o d = 0xFF).

Definition io_serviceable (o : IoMemoryPort.object S) : Prop :=
  let d := IoMemoryPort.dut o in
  in_width 53 (IoMemoryPort.io_addr_o d)
  /\ (IoMemoryPort.io_we_o d = true -> IoMemoryPort.io_wmask_o d ∈ supported_masks).

(** The steps of the two [get_request] functions. *)
Lemma main_get_request_steps (p : port Z) d m m1 m2 v :
  MainMemoryPort.mem_en_o d = true -> main_serviceable (MainMemoryPort.Object d m) ->
  let a := word_address (MainMemoryPort.mem_addr_o d) in
  read64 a m = (Ok v, m1) ->
  (if MainMemoryPort.mem_we_o d then write64 a (MainMemoryPort.mem_wdata_o d) m1 = (Ok tt, m2)
   else m2 = m1) ->
  MainMemoryPort.get_request (State p (MainMemoryPort.Object d m)) =
    (Ok tt, State (push (Response (u64 (current_cycle p + latency p)) v EXC_CAUSE_NONE false) p)
              (MainMemoryPort.Object d m2)).
Proof.
  intros Hen [Ha Hmask] a Hread Hwrite. cbn in Ha, Hmask.
  unfold MainMemoryPort.get_request, MainMemoryPort.on_memory, on_sub, zoom.
  erewrite bind_ok by done. cbn [sub]. unfold MainMemoryPort.can_receive_request.
  cbn [MainMemoryPort.dut]. rewrite Hen, word_address_shift by done. erewrite bind_ok by done.
  erewrite bind_ok by (cbn; fold a; by rewrite Hread). cbn.
  destruct (MainMemoryPort.mem_we_o d); [|by subst m2].
  rewrite Hmask by done. cbn. by erewrite bind_ok by (cbn; fold a; by rewrite Hwrite).
Qed.

Lemma io_get_request_steps (p : port Z) d m m1 m2 v :
  IoMemoryPort.io_en_o d = true -> io_serviceable (IoMemoryPort.Object d m) ->
  let a := word_address (IoMemoryPort.io_addr_o d) in
  read64 a m = (Ok v, m1) ->
  (if IoMemoryPort.io_we_o d then
     exists st, IoMemoryPort.masked_store (IoMemoryPort.io_wmask_o d) a (IoMemoryPort.io_wdata_o d)
                = Some st /\ st m1 = (Ok tt, m2)
   else m2 = m1) ->
  IoMemoryPort.get_request (State p (IoMemoryPort.Object d m)) =
    (Ok tt, State (push (Response (u64 (current_cycle p + latency p)) v EXC_CAUSE_NONE false) p)
              (IoMemoryPort.Object d m2)).
Proof.
  intros Hen [Ha _] a Hread Hwrite. cbn in Ha.
  unfold IoMemoryPort.get_request, IoMemoryPort.on_memory, on_sub, zoom.
  erewrite bind_ok by done. cbn [sub]. unfold IoMemoryPort.can_receive_request.
  cbn [IoMemoryPort.dut]. rewrite Hen, word_address_shift by done. erewrite bind_ok by done.
  erewrite bind_ok by (cbn; fold a; by rewrite Hread). cbn [IoMemoryPort.dut sub].
  destruct (IoMemoryPort.io_we_o d); [|by subst m2]. fold a.
  destruct Hwrite as (st & -> & Hst). by erewrite bind_ok by (cbn; by rewrite Hst).
Qed.

#[export] Instance main_laws : Laws Z (MainMemoryPort.object S).
Proof.
  refine {| serviceable := main_serviceable |}.
  - intros [p [d m]] Hr Hs. cbn in Hr. destruct (read_word m _ (proj1 Hs)) as (m1 & Hread & _).
    destruct (write_word_completes m1 _ (MainMemoryPort.mem_wdata_o d) (proj1 Hs)) as [m2 Hw].
    eexists _, _, (MainMemoryPort.Object d (if MainMemoryPort.mem_we_o d then m2 else m1)).
    split; [|exact Hs]. eapply main_get_request_steps; [done|done|exact Hread|].
    by destruct (MainMemoryPort.mem_we_o d).
  - done.
  - intros r [d m] Hs. eexists. split; [reflexivity|exact Hs].
  - intros o Hs. by exists o.
Defined.

#[export] Instance io_laws : Laws Z (IoMemoryPort.object S).
Proof.
  refine {| serviceable := io_serviceable |}.
  - intros [p [d m]] Hr Hs. cbn in Hr. destruct (read_word m _ (proj1 Hs)) as (m1 & Hread & _).
    destruct (IoMemoryPort.io_we_o d) eqn:Hwe.
    + destruct (masked_store_completes m1 _ _ (IoMemoryPort.io_wdata_o d) (proj1 Hs) (proj2 Hs Hwe))
        as (st & m2 & Hst & Hw).
      eexists _, _, (IoMemoryPort.Object d m2).
      split; [|exact Hs]. eapply io_get_request_steps; [done|done|exact Hread|].
      rewrite Hwe. by exists st.
    + eexists _, _, (IoMemoryPort.Object d m1).
      split; [|exact Hs]. eapply io_get_request_steps; [done|done|exact Hread|]. by rewrite Hwe.
  - done.
  - intros r [d m] Hs. eexists. split; [reflexivity|exact Hs].
  - intros o Hs. by exists o.
Defined.

(** ** Properties *)

(** The main memory port. Every request on the 53-bit bus is answered, never
    with an exception, by the 8 bytes of the word as they were before the
    request; a write (which must select all 8 lanes) then stores the whole
    word, and nothing else changes. *)
Theorem main_port_access (p : port Z) d m :
  MainMemoryPort.mem_en_o d = true -> main_serviceable (MainMemoryPort.Object d m) ->
  plain_word m (word_address (MainMemoryPort.mem_addr_o d)) ->
  let a := word_address (MainMemoryPort.mem_addr_o d) in
  let old := le_value (flat_read (byte_at m) a 8) in
  exists m', MainMemoryPort.get_request (State p (MainMemoryPort.Object d m)) =
      (Ok tt, State (push (Response (u64 (current_cycle p + latency p)) old EXC_CAUSE_NONE false) p)
                (MainMemoryPort.Object d m'))
    /\ byte_at m' ≡ₘ (if MainMemoryPort.mem_we_o d
                     then flat_write (byte_at m) a (le_bytes 8 (MainMemoryPort.mem_wdata_o d))
                     else byte_at m).
Proof.
  intros Hen Hs Hplain a old. destruct (read_word m _ (proj1 Hs)) as (m1 & Hread & Hun).
  destruct (word_address_limit (MainMemoryPort.mem_addr_o d) 8 (proj1 Hs)) as [Hmax Ha64]; [lia|].
  destruct (write_scalar_ok m1 a 8 (MainMemoryPort.mem_wdata_o d)) as (m2 & Hw & Hup);
    [done|rewrite PAGE_SIZE_eq; lia| |done|].
  { rewrite (updated_host _ _ _ _ Hun). specialize (Hplain 0 (wrap (8 * 8) (MainMemoryPort.mem_wdata_o d))).
    rewrite Z.add_0_r in Hplain. unfold u64 in Hplain. rewrite wrap_small in Hplain by done.
    apply Hplain. lia. }
  exists (if MainMemoryPort.mem_we_o d then m2 else m1). split.
  - eapply main_get_request_steps; [done|done|exact Hread|]. by destruct (MainMemoryPort.mem_we_o d).
  - destruct (MainMemoryPort.mem_we_o d); [|by apply unchanged_bytes].
    by rewrite (updated_bytes _ _ _ _ (unchanged_updated _ _ _ _ _ Hun Hup)).
Qed.

(** The IO port. Every request with one of the supported masks is answered,
    without an exception, by the word as it was before; a write stores exactly
    the lanes the mask selects. The lanes receive the data on the bus, except
    that for a 32-bit write the cast to [uint16_t] replaces the upper two bytes
    by zeros. *)
Theorem io_port_access (p : port Z) d m :
  IoMemoryPort.io_en_o d = true -> io_serviceable (IoMemoryPort.Object d m) ->
  plain_word m (word_address (IoMemoryPort.io_addr_o d)) ->
  let a := word_address (IoMemoryPort.io_addr_o d) in
  let mask := IoMemoryPort.io_wmask_o d in
  let old := le_value (flat_read (byte_at m) a 8) in
  exists m', IoMemoryPort.get_request (State p (IoMemoryPort.Object d m)) =
      (Ok tt, State (push (Response (u64 (current_cycle p + latency p)) old EXC_CAUSE_NONE false) p)
                (IoMemoryPort.Object d m'))
    /\ byte_at m' ≡ₘ
         (if IoMemoryPort.io_we_o d
          then masked_write (byte_at m) a mask (stored_data mask (IoMemoryPort.io_wdata_o d))
          else byte_at m).
Proof.
  intros Hen Hs Hplain a mask old. destruct (read_word m _ (proj1 Hs)) as (m1 & Hread & Hun).
  destruct (IoMemoryPort.io_we_o d) eqn:Hwe.
  - destruct (masked_store_run m1 (IoMemoryPort.io_addr_o d) mask (IoMemoryPort.io_wdata_o d))
      as (st & Hst & m2 & Hw & Hb & _); [apply Hs|by apply Hs| |].
    { intros i v Hi. rewrite (updated_host _ _ _ _ Hun). by apply Hplain. }
    exists m2. split.
    + eapply io_get_request_steps; [done|done|exact Hread|]. rewrite Hwe. by exists st.
    + intros x Hx. rewrite (Hb x Hx). unfold masked_write. by rewrite (unchanged_bytes _ _ Hun x Hx).
  - exists m1. split; [|by apply unchanged_bytes].
    eapply io_get_request_steps; [done|done|exact Hread|]. by rewrite Hwe.
Qed.

End ports.

(** ** Witnesses *)

#[local] Existing Instance zeroed.

Lemma plain_unit (m : machine unit) a : plain_word m a.
Proof. by intros i d. Qed.

(** A port whose device keeps requesting a write of the word at 0x1000. *)
Definition busy_signals : MainMemoryPort.signals :=
  MainMemoryPort.Signals true true 0x200 0xFF 0x1122334455667788 0.
Definition busy_port : state Z (MainMemoryPort.object unit) :=
  State (make MainMemoryPort.latency) (MainMemoryPort.Object busy_signals (Machine ∅ tt)).

Lemma busy_serviceable (m : machine unit) : main_serviceable (MainMemoryPort.Object busy_signals m).
Proof. by split. Qed.

Lemma main_port_access_witness :
  let old := le_value (flat_read (byte_at (Machine ∅ tt)) 0x1000 8) in
  exists m', MainMemoryPort.get_request busy_port =
      (Ok tt, State (push (Response 1 old EXC_CAUSE_NONE false) (make 1))
                (MainMemoryPort.Object busy_signals m'))
    /\ byte_at m' ≡ₘ flat_write (byte_at (Machine ∅ tt)) 0x1000 (le_bytes 8 0x1122334455667788).
Proof.
  apply (main_port_access (make 1) busy_signals (Machine ∅ tt));
    [reflexivity|apply busy_serviceable|apply plain_unit].
Defined.

Definition word_signals : IoMemoryPort.signals :=
  IoMemoryPort.Signals true true 0x200 240 0x1122334455667788 0.

Lemma io_port_access_witness :
  let old := le_value (flat_read (byte_at (Machine ∅ tt)) 0x1000 8) in
  exists m', IoMemoryPort.get_request (State (make 1) (IoMemoryPort.Object word_signals (Machine ∅ tt))) =
      (Ok tt, State (push (Response 1 old EXC_CAUSE_NONE false) (make 1))
                (IoMemoryPort.Object word_signals m'))
    /\ byte_at m' ≡ₘ
         masked_write (byte_at (Machine ∅ tt)) 0x1000 240
           (Z.land 0x1122334455667788 0x0000FFFF0000FFFF).
Proof.
  apply (io_port_access (make 1) word_signals (Machine ∅ tt)); [reflexivity| |apply plain_unit].
  split; [done|]. intros _. cbn. unfold supported_masks. set_solver.
Defined.

Definition idle (k : Z) (o : MainMemoryPort.object unit) : MainMemoryPort.object unit := o.


