(* ===== verification/DataCachePort.v ===== *)
(** * The data cache port

    [data_cache_port.h]: the port behind the pipeline's data cache interface. It
    checks alignment, translates the address, performs the access (with
    load-reserved/store-conditional and atomic operations) and queues one
    response, or the exception raised on the way. *)

From S2P Require Import Prelude Exceptions VirtualAddressing FlatMemory MainMemory.
From S2P Require Import PageTableWalker MemoryPort.

Import MainMemory MemoryPort.

Definition SIZE_EXT_ZERO : Z := 0.
Definition SIZE_EXT_ONE : Z := 1.
Definition SIZE_EXT_SIGNED : Z := 2.

Module DataCachePort.

(** The signals [dcache_*] of the device under test, with the widths of
    [pipeline_wrapper.sv]; one-bit signals are booleans. *)
Record signals : Type := Signals {
  dcache_req_valid : bool;
  dcache_req_address : Z;
  dcache_req_value : Z;
  dcache_req_op : Z;
  dcache_req_size : Z;
  dcache_req_size_ext : Z;
  dcache_req_amo : Z;
  dcache_req_prv : bool;
  dcache_req_sum : bool;
  dcache_req_mxr : bool;
  dcache_req_atp : Z;
  dcache_notif_valid : bool;
  dcache_resp_valid : bool;
  dcache_resp_value : Z;
  dcache_ex_valid : bool;
  dcache_ex_exception : Z * Z * Z;
  dcache_notif_ready : bool;
}.

Definition set_response (valid : bool) (value : Z) (ex_valid : bool) (ex : Z * Z * Z)
    (notif_ready : bool) (d : signals) : signals :=
  Signals (dcache_req_valid d) (dcache_req_address d) (dcache_req_value d) (dcache_req_op d)
    (dcache_req_size d) (dcache_req_size_ext d) (dcache_req_amo d) (dcache_req_prv d)
    (dcache_req_sum d) (dcache_req_mxr d) (dcache_req_atp d) (dcache_notif_valid d)
    valid value ex_valid ex notif_ready.

(** The private fields, and the device and memory it refers to. *)
Record object (S : Type) : Type := Object {
  dut : signals;
  memory : machine S;
  reserved : Z;
  reservation_valid : bool;
  delayed_notif_ready : bool;
}.
Arguments Object {S} dut memory reserved reservation_valid delayed_notif_ready.
Arguments dut {S} o.
Arguments memory {S} o.
Arguments reserved {S} o.
Arguments reservation_valid {S} o.
Arguments delayed_notif_ready {S} o.

(** ** Pure helpers *)

(** [None] is the [default] case, which exits. *)
Definition aligned (address alignment : Z) : option bool :=
  match alignment with
  | 0 => Some true
  | 1 => Some (Z.land address 0x1 =? 0)
  | 2 => Some (Z.land address 0x3 =? 0)
  | 3 => Some (Z.land address 0x7 =? 0)
  | _ => None
  end.

Definition zero_extend (original bytes : Z) : Z :=
  let shift := 64 - bytes * 8 in
  s64 (Z.shiftr (u64 (Z.shiftl original shift)) shift).

Definition one_extend (original bytes : Z) : Z :=
  Z.lnot (zero_extend (u64 (Z.lnot original)) bytes).

Definition sign_extend (original bytes : Z) : Z :=
  let shift := 64 - bytes * 8 in
  Z.shiftr (s64 (Z.shiftl (s64 original) shift)) shift.

(** [None] is the [default] case, [assert(false)]. *)
Definition size_extend (original bytes size_ext : Z) : option Z :=
  match size_ext with
  | 0 => Some (zero_extend original bytes)
  | 1 => Some (one_extend original bytes)
  | 2 => Some (sign_extend original bytes)
  | _ => None
  end.

(** [None] is the [default] case, which exits. *)
Definition atomic_update (operation original operand : Z) : option Z :=
  match operation with
  | 0 => Some (u64 (original + operand))
  | 1 => Some operand
  | 4 => Some (Z.lxor original operand)
  | 8 => Some (Z.lor original operand)
  | 12 => Some (Z.land original operand)
  | 16 => Some (if s64 original <? s64 operand then original else operand)
  | 20 => Some (if s64 original <? s64 operand then operand else original)
  | 24 => Some (if original <? operand then original else operand)
  | 28 => Some (if original <? operand then operand else original)
  | _ => None
  end.

Section operations.

Context {S : Type} `{SystemCalls S} `{Uninitialised}.

Abbreviation M := (M exn (state Z (object S))).

Definition on_memory {A} (k : Prelude.M exn (machine S) A) : M A :=
  on_sub (zoom memory
    (fun m o => Object (dut o) m (reserved o) (reservation_valid o) (delayed_notif_ready o)) k).

Definition or_exit {A} (o : option A) : M A :=
  match o with Some a => mret a | None => fail (ExitWith 1) end.
Definition or_assert {A} (o : option A) : M A :=
  match o with Some a => mret a | None => fail AssertFail end.

(** *** Reservations *)

Definition set_reservation (address : Z) (valid : bool) (o : object S) : object S :=
  Object (dut o) (memory o) address valid (delayed_notif_ready o).

Definition make_reservation (address : Z) : Prelude.M exn (object S) unit :=
  modify (set_reservation address true).
Definition check_reservation (address : Z) (o : object S) : bool :=
  reservation_valid o && (reserved o =? address).
Definition clear_all_reservations : Prelude.M exn (object S) unit :=
  modify (fun o => set_reservation (reserved o) false o).
Definition clear_reservation (address : Z) : Prelude.M exn (object S) unit :=
  clear_all_reservations.

(** The constructor. *)
Definition make_object (d : signals) (m : machine S) : object S := Object d m 0 false false.

(** *** Accesses *)

Definition read_memory (operation : MemoryOperation) (log2_size address : Z) : M Z :=
  match operation with
  | MEM_LOAD | MEM_LR | MEM_AMO =>
      match log2_size with
      | 0 => on_memory (read8 address)
      | 1 => on_memory (read16 address)
      | 2 => on_memory (read32 address)
      | 3 => on_memory (read64 address)
      | _ => fail (ExitWith 1)
      end
  | MEM_SC | MEM_STORE => mret 0
  | _ => fail (ExitWith 1)
  end.

(** The part of [write_memory] that [MEM_SC] falls through to. *)
Definition store_memory (log2_size address data : Z) : M unit :=
  match log2_size with
  | 0 => on_memory (write8 address (u8 data))
  | 1 => on_memory (write16 address (u16 data))
  | 2 => on_memory (write32 address (u32 data))
  | 3 => on_memory (write64 address data)
  | _ => fail (ExitWith 1)
  end;;
  on_sub (clear_reservation address).

Definition write_memory (operation : MemoryOperation) (log2_size address data : Z) : M unit :=
  match operation with
  | MEM_LOAD | MEM_LR => mret tt
  | MEM_SC =>
      o ← gets sub;
      if negb (check_reservation address o) then mret tt
      else store_memory log2_size address data
  | MEM_AMO | MEM_STORE => store_memory log2_size address data
  | _ => fail (ExitWith 1)
  end.

(** *** Requests *)

Definition can_receive_request (o : object S) : bool := dcache_req_valid (dut o).

(** The [catch] clauses: the response carries [address], the value of that
    variable when the exception was thrown. *)
Definition handle (address : Z) (operation : MemoryOperation) (k : M unit) : M unit :=
  try_catch k (fun e =>
    match get_exception_code e operation with
    | Some (Ok code) => Some (queue_response address code)
    | Some _ => Some (fail AssertFail)
    | None => None
    end).

(** The [try] block up to the translation. *)
Definition translate_request (address : Z) (operation : MemoryOperation) (d : signals) : M Z :=
  a ← or_exit (aligned address (dcache_req_size d));
  (if negb a then throw (AlignmentFault address) else mret tt);;
  let atp := dcache_req_atp d in
  if ATP.mode atp =? ATP_MODE_BARE then mret address
  else on_memory (PageTableWalkerSv39.translate address operation (dcache_req_prv d)
                    (dcache_req_sum d) (dcache_req_mxr d) atp).

(** Does the operation use extended operands? *)
Definition extends (operation : MemoryOperation) : bool :=
  bool_decide (operation = MEM_LOAD) || bool_decide (operation = MEM_AMO)
  || bool_decide (operation = MEM_LR).

(** The rest of the [try] block, after the translation. *)
Definition perform_request (address : Z) (operation : MemoryOperation) (d : signals) : M unit :=
  let operand := dcache_req_value d in
  data_read ← read_memory operation (dcache_req_size d) address;
  let data_write := operand in
  operands ← (if extends operation then
                let bytes := Z.shiftl 1 (dcache_req_size d) in
                r ← or_assert (size_extend data_read bytes (dcache_req_size_ext d));
                o ← or_assert (size_extend operand bytes (dcache_req_size_ext d));
                mret (u64 r, u64 o)
              else mret (data_read, operand));
  let '(data_read, operand) := operands in
  data_write ← (if bool_decide (operation = MEM_AMO)
                then or_exit (atomic_update (Z.shiftr (dcache_req_amo d) 2) data_read operand)
                else mret data_write);
  when (bool_decide (operation = MEM_LR)) (on_sub (make_reservation address));;
  o ← gets sub;
  let data_read := if bool_decide (operation = MEM_SC)
                   then Z.b2z (negb (check_reservation address o)) else data_read in
  write_memory operation (dcache_req_size d) address data_write;;
  queue_response data_read EXC_CAUSE_NONE.

Definition get_request : M unit :=
  o ← gets sub;
  assert_that (can_receive_request o);;
  let d := dut o in
  let address := dcache_req_address d in
  let operation := MemoryOperation_of (dcache_req_op d) in
  handle address operation
    (physical ← translate_request address operation d;
     handle physical operation (perform_request physical operation d)).

(** *** Responses *)

Definition can_send_response (o : object S) : bool := true.

Definition set_dut (f : signals -> signals) (o : object S) : object S :=
  Object (f (dut o)) (memory o) (reserved o) (reservation_valid o) (delayed_notif_ready o).

(** [ex_valid] invalidates the normal response; the exception is split into 32-bit
    words. *)
Definition send_response (r : MemoryResponse Z) : Prelude.M exn (object S) (MemoryResponse Z) :=
  let ex_valid := negb (exception r =? EXC_CAUSE_NONE) in
  modify (set_dut (fun d =>
    set_response (negb ex_valid) (data r) ex_valid
      (if ex_valid
       then (exception r, u32 (Z.shiftr (data r) 32), Z.land (data r) 0xFFFFFFFF)
       else dcache_ex_exception d)
      (dcache_notif_ready d) d));;
  mret (Response (time r) (data r) (exception r) true).

Definition clear_response : Prelude.M exn (object S) unit :=
  modify (fun o =>
    let d := dut o in
    Object (set_response false (dcache_resp_value d) false (dcache_ex_exception d)
              (delayed_notif_ready o) d)
      (memory o) (reserved o) (reservation_valid o) (dcache_notif_valid d));;
  o ← get;
  when (dcache_notif_valid (dut o)) clear_all_reservations.

#[global] Instance methods : Methods Z (object S) := {
  MemoryPort.can_receive_request := can_receive_request;
  MemoryPort.get_request := get_request;
  MemoryPort.can_send_response := can_send_response;
  MemoryPort.send_response := send_response;
  MemoryPort.clear_response := clear_response;
}.

End operations.

End DataCachePort.
