(* ===== verification/DataCacheFacts.v ===== *)
(** * The data cache port: extensions and atomics

    What the pure helpers compute, in terms of the values of the accessed
    width. *)

From S2P Require Import Prelude Exceptions VirtualAddressing FlatMemory MainMemory MemoryPort.
From S2P Require Import DataCachePort.

Import DataCachePort.

Module DataCacheSpec.

(** The 64-bit register value that extends the low [k] bits of [x]. *)
Definition extend (size_ext k x : Z) : Z :=
  if size_ext =? SIZE_EXT_ZERO then wrap k x
  else if size_ext =? SIZE_EXT_ONE then u64 (wrap k x - 2 ^ k)
  else u64 (signed k x).

(** The atomic operations of the RISC-V specification on [k]-bit values. *)
Definition amo (k operation x y : Z) : Z :=
  match operation with
  | 0 => wrap k (x + y)
  | 1 => y
  | 4 => Z.lxor x y
  | 8 => Z.lor x y
  | 12 => Z.land x y
  | 16 => if signed k x <? signed k y then x else y
  | 20 => if signed k x <? signed k y then y else x
  | 24 => Z.min x y
  | 28 => Z.max x y
  | _ => 0
  end.

Definition amo_operations : list Z := [0; 1; 4; 8; 12; 16; 20; 24; 28].

End DataCacheSpec.

Import DataCacheSpec.

(** ** Extensions *)

Lemma shift_up_down x k :
  0 <= k <= 64 -> Z.shiftr (u64 (Z.shiftl x (64 - k))) (64 - k) = wrap k x.
Proof.
  intros. unfold u64, wrap. by_bits i. destruct (decide (i < k)).
  - rewrite Z.shiftr_spec, !Z.mod_pow2_bits_low, Z.shiftl_spec by lia. f_equal. lia.
  - rewrite Z.shiftr_spec, !Z.mod_pow2_bits_high by lia. done.
Qed.

Lemma zero_extend_spec x b : 0 < b <= 8 -> u64 (zero_extend x b) = wrap (8 * b) x.
Proof.
  intros. unfold zero_extend. replace (b * 8) with (8 * b) by lia.
  rewrite shift_up_down by lia. unfold u64, s64. rewrite wrap_signed. apply wrap_small.
  pose proof (wrap_bound (8 * b) x). assert (2 ^ (8 * b) <= 2 ^ 64) by (apply Z.pow_le_mono_r; lia).
  lia.
Qed.

Lemma lnot_wrap k z : 0 <= k -> wrap k (Z.lnot z) = 2 ^ k - 1 - wrap k z.
Proof.
  intros. unfold wrap, Z.lnot. pose proof (Z.mod_pos_bound z (2 ^ k) ltac:(lia)).
  replace (Z.pred (- z)) with ((2 ^ k - 1 - z mod 2 ^ k) + (- (z / 2 ^ k) - 1) * 2 ^ k)
    by (pose proof (Z.div_mod z (2 ^ k) ltac:(lia)); lia).
  rewrite Z_mod_plus_full. apply Z.mod_small. lia.
Qed.

Lemma one_extend_spec x b : 0 < b <= 8 -> u64 (one_extend x b) = u64 (wrap (8 * b) x - 2 ^ (8 * b)).
Proof.
  intros. unfold one_extend, u64. rewrite lnot_wrap by lia.
  change (wrap 64 (zero_extend ?y b)) with (u64 (zero_extend y b)). rewrite zero_extend_spec by lia.
  rewrite wrap_narrow, lnot_wrap by lia.
  pose proof (wrap_bound (8 * b) x ltac:(lia)).
  assert (2 ^ (8 * b) <= 2 ^ 64) by (apply Z.pow_le_mono_r; lia).
  unfold wrap at 2. rewrite <- (Z_mod_plus_full _ 1), Z.mod_small by lia. lia.
Qed.

Lemma signed_shift x k :
  0 < k <= 64 -> signed 64 (Z.shiftl x (64 - k)) = Z.shiftl (signed k x) (64 - k).
Proof.
  intros. rewrite !Z.shiftl_mul_pow2 by lia.
  assert (Hw : wrap 64 (x * 2 ^ (64 - k)) = wrap k x * 2 ^ (64 - k)).
  { unfold wrap. replace (2 ^ 64) with (2 ^ k * 2 ^ (64 - k))
      by (rewrite <- Z.pow_add_r by lia; f_equal; lia).
    by rewrite Z.mul_mod_distr_r by (apply Z.pow_nonzero; lia). }
  unfold signed. rewrite Hw.
  assert (H64 : 2 ^ 64 = 2 ^ k * 2 ^ (64 - k)) by (rewrite <- Z.pow_add_r by lia; f_equal; lia).
  assert (H63 : 2 ^ (64 - 1) = 2 ^ (k - 1) * 2 ^ (64 - k))
    by (rewrite <- Z.pow_add_r by lia; f_equal; lia).
  rewrite H64, H63. pose proof (Z.pow_pos_nonneg 2 (64 - k) ltac:(lia) ltac:(lia)).
  repeat case_decide; nia.
Qed.

Lemma sign_extend_spec x b : 0 < b <= 8 -> sign_extend x b = signed (8 * b) x.
Proof.
  intros. unfold sign_extend, s64. replace (b * 8) with (8 * b) by lia.
  rewrite signed_shift, Z.shiftr_shiftl_l, Z.sub_diag, Z.shiftl_0_r by lia.
  rewrite <- signed_wrap, <- (wrap_narrow (8 * b) 64), wrap_signed, wrap_narrow by lia.
  apply signed_wrap.
Qed.

Lemma size_extend_spec x b size_ext :
  0 < b <= 8 -> 0 <= size_ext < 3 ->
  exists r, size_extend x b size_ext = Some r /\ u64 r = extend size_ext (8 * b) x.
Proof.
  intros Hb He. assert (size_ext = 0 \/ size_ext = 1 \/ size_ext = 2) as [->|[->| ->]] by lia;
    eexists; (split; [reflexivity|]); unfold extend; simpl.
  - by apply zero_extend_spec.
  - by apply one_extend_spec.
  - by rewrite sign_extend_spec.
Qed.

(** ** Atomic operations *)

Section amo.

Variables k x y : Z.
Hypotheses (Hk : 0 < k <= 64) (Hx : in_width k x) (Hy : in_width k y).

#[local] Set Default Proof Using "All".

(** The operands as the port extends them. *)
Let X := u64 (signed k x).
Let Y := u64 (signed k y).

Lemma extended_bounds v : in_width k v -> in_width 64 v.
Proof. intros. assert (2 ^ k <= 2 ^ 64) by (apply Z.pow_le_mono_r; lia). width. Qed.

Lemma extended_low v : in_width k v -> wrap k (u64 (signed k v)) = v.
Proof.
  intros. unfold u64. rewrite wrap_narrow, wrap_signed by lia. by apply wrap_small.
Qed.

Lemma half_pow : 2 ^ k = 2 * 2 ^ (k - 1).
Proof. rewrite <- Z.pow_succ_r by lia. f_equal. lia. Qed.

Lemma extended_value v :
  in_width k v ->
  u64 (signed k v) = if v <? 2 ^ (k - 1) then v else v + (2 ^ 64 - 2 ^ k).
Proof.
  intros Hv. pose proof half_pow. assert (2 ^ k <= 2 ^ 64) by (apply Z.pow_le_mono_r; lia).
  unfold signed, u64. rewrite (wrap_small k v) by done.
  case_decide; destruct (Z.ltb_spec v (2 ^ (k - 1))); try lia.
  - apply wrap_small. width.
  - unfold wrap. rewrite <- (Z_mod_plus_full _ 1), Z.mod_small by width. lia.
Qed.

Lemma extended_signed v : in_width k v -> s64 (u64 (signed k v)) = signed k v.
Proof.
  intros Hv. unfold s64, u64. rewrite signed_wrap. pose proof (signed_range k v ltac:(lia)).
  assert (2 ^ (k - 1) <= 2 ^ 63) by (apply Z.pow_le_mono_r; lia).
  set (z := signed k v) in *. unfold signed. change (64 - 1) with 63.
  destruct (decide (0 <= z)).
  - rewrite wrap_small by lia. case_decide; lia.
  - assert (wrap 64 z = z + 2 ^ 64) as ->.
    { unfold wrap. rewrite <- (Z_mod_plus_full _ 1), Z.mod_small by lia. lia. }
    case_decide; lia.
Qed.

Lemma wrap_bitwise (f : Z -> Z -> Z) (g : bool -> bool -> bool) a b :
  (forall p q i, 0 <= i -> Z.testbit (f p q) i = g (Z.testbit p i) (Z.testbit q i)) ->
  g false false = false ->
  wrap k (f a b) = f (wrap k a) (wrap k b).
Proof.
  intros Hf Hg. unfold wrap. by_bits i. rewrite Hf by lia. destruct (decide (i < k)).
  - by rewrite !Z.mod_pow2_bits_low, Hf by lia.
  - by rewrite !Z.mod_pow2_bits_high by lia.
Qed.

Lemma atomic_update_spec operation :
  operation ∈ amo_operations ->
  exists r, atomic_update operation X Y = Some r /\ wrap k r = amo k operation x y.
Proof.
  intros Hop. pose proof (extended_low x Hx) as HX. pose proof (extended_low y Hy) as HY.
  fold X in HX. fold Y in HY. unfold amo_operations in Hop.
  assert (Hlt : (X <? Y) = (x <? y)).
  { unfold X, Y. rewrite !extended_value by done. pose proof half_pow.
    assert (2 ^ k <= 2 ^ 64) by (apply Z.pow_le_mono_r; lia). unfold in_width in *.
    destruct (Z.ltb_spec x (2 ^ (k - 1))), (Z.ltb_spec y (2 ^ (k - 1))); lia. }
  assert (Hslt : (s64 X <? s64 Y) = (signed k x <? signed k y))
    by (unfold X, Y; by rewrite !extended_signed).
  repeat (apply elem_of_cons in Hop as [->|Hop]); [..|by apply elem_of_nil in Hop];
    eexists; (split; [reflexivity|]); cbn [amo]; rewrite ?Hslt, ?Hlt.
  - unfold u64. rewrite wrap_narrow by lia.
    rewrite <- wrap_add_l, <- wrap_add_r, HX, HY. done.
  - done.
  - by rewrite (wrap_bitwise Z.lxor xorb), HX, HY by (done || intros; apply Z.lxor_spec).
  - by rewrite (wrap_bitwise Z.lor orb), HX, HY by (done || intros; apply Z.lor_spec).
  - by rewrite (wrap_bitwise Z.land andb), HX, HY by (done || intros; apply Z.land_spec).
  - by destruct (signed k x <? signed k y).
  - by destruct (signed k x <? signed k y).
  - destruct (Z.ltb_spec x y); rewrite ?HX, ?HY; lia.
  - destruct (Z.ltb_spec x y); rewrite ?HX, ?HY; lia.
Qed.

End amo.

Lemma atomic_update_unsupported operation original operand :
  operation ∉ amo_operations -> atomic_update operation original operand = None.
Proof.
  intros Hop. destruct (atomic_update operation original operand) eqn:E; [|done].
  exfalso. apply Hop. unfold amo_operations. unfold atomic_update in E.
  repeat case_match; try done; set_solver.
Qed.
