(* ===== verification/DataCacheTheorems.v ===== *)
(** * The data cache port refines its specification: theorems *)

From S2P Require Import Prelude Exceptions VirtualAddressing FlatMemory MainMemory.
From S2P Require Import MainMemoryFacts PageTableWalker PageTableWalkerFacts.
From S2P Require Import PageTableWalkerTheorems MemoryPort DataCachePort DataCacheFacts.

Import MainMemory MemoryPort DataCachePort DataCacheSpec Sv39Spec.

(** ** Specification of a request *)

Definition operation (d : signals) : MemoryOperation := MemoryOperation_of (dcache_req_op d).
Definition bytes (d : signals) : Z := 2 ^ dcache_req_size d.

(** The requests that the pipeline's decoder can issue: in particular, atomic
    operations always use signed extension. *)
Definition request_ok (d : signals) : Prop :=
  (in_width 64 (dcache_req_address d) /\ in_width 64 (dcache_req_value d))
  /\ issued (operation d)
  /\ 0 <= dcache_req_size d < 4
  /\ 0 <= dcache_req_size_ext d < 3
  /\ (operation d = MEM_AMO ->
        dcache_req_size_ext d = SIZE_EXT_SIGNED
        /\ Z.shiftr (dcache_req_amo d) 2 ∈ amo_operations)
  /\ (ATP.mode (dcache_req_atp d) = ATP_MODE_BARE \/ ATP.mode (dcache_req_atp d) = Sv39.ATP_MODE).

(** The access itself, on the flat memory and the reserved address: the
    response, the memory and the reservation after it. *)
Definition access (d : signals) (pa : Z) (m : FlatMemory.memory) (rsv : option Z)
    : Z * FlatMemory.memory * option Z :=
  let k := 8 * bytes d in
  let old := le_value (flat_read m pa (bytes d)) in
  let store v := flat_write m pa (le_bytes (Z.to_nat (bytes d)) v) in
  let loaded := extend (dcache_req_size_ext d) k old in
  match operation d with
  | MEM_LOAD => (loaded, m, rsv)
  | MEM_LR => (loaded, m, Some pa)
  | MEM_STORE => (0, store (dcache_req_value d), None)
  | MEM_SC =>
      if decide (rsv = Some pa) then (0, store (dcache_req_value d), None) else (1, m, rsv)
  | MEM_AMO =>
      (loaded,
       store (amo k (Z.shiftr (dcache_req_amo d) 2) old (wrap k (dcache_req_value d))), None)
  | _ => (0, m, rsv)
  end.

(** The physical address of a request, and the memory after the translation. *)
Inductive physical (d : signals) (m : FlatMemory.memory) : Z -> FlatMemory.memory -> Prop :=
  | physical_bare :
      ATP.mode (dcache_req_atp d) = ATP_MODE_BARE ->
      physical d m (dcache_req_address d) m
  | physical_sv39 pa pte_address pte m1 :
      ATP.mode (dcache_req_atp d) = Sv39.ATP_MODE ->
      translation m (dcache_req_address d) (operation d) (dcache_req_prv d) (dcache_req_sum d)
        (dcache_req_mxr d) (dcache_req_atp d) pa pte_address pte ->
      let pte' := marked (PageTableWalkerSv39.is_write (operation d)) pte in
      m1 ≡ₘ (if decide (pte' = pte) then m else flat_write m pte_address (le_bytes 8 pte')) ->
      physical d m (u32 pa) m1.

(** A store-conditional without its reservation does not access memory. *)
Definition touches (d : signals) (pa : Z) (rsv : option Z) : Prop :=
  operation d = MEM_SC -> rsv = Some pa.

Definition in_range (d : signals) (pa : Z) : Prop :=
  u64 (pa + bytes d - 1) <= Sv39.MAX_PHYSICAL_ADDRESS.

(** What a request is answered: the data, the exception, and what it leaves. *)
Inductive serves (d : signals) (m : FlatMemory.memory) (rsv : option Z)
    : Z -> Z -> FlatMemory.memory -> option Z -> Prop :=
  | serves_misaligned code :
      dcache_req_address d mod bytes d <> 0 ->
      AlignmentFault_code (operation d) = Ok code ->
      serves d m rsv (dcache_req_address d) code m rsv
  | serves_page_fault code :
      dcache_req_address d mod bytes d = 0 ->
      ATP.mode (dcache_req_atp d) = Sv39.ATP_MODE ->
      (forall pa pte_address pte,
         ~ translation m (dcache_req_address d) (operation d) (dcache_req_prv d) (dcache_req_sum d)
             (dcache_req_mxr d) (dcache_req_atp d) pa pte_address pte) ->
      PageFault_code (operation d) = Ok code ->
      serves d m rsv (dcache_req_address d) code m rsv
  | serves_access_fault code m1 :
      dcache_req_address d mod bytes d = 0 ->
      physical d m (dcache_req_address d) m1 ->
      ~ in_range d (dcache_req_address d) ->
      touches d (dcache_req_address d) rsv ->
      AccessFault_code (operation d) = Ok code ->
      serves d m rsv (dcache_req_address d) code m1 rsv
  | serves_access pa m1 data m2 rsv' :
      dcache_req_address d mod bytes d = 0 ->
      physical d m pa m1 ->
      (touches d pa rsv -> in_range d pa) ->
      access d pa m1 rsv = (data, m2, rsv') ->
      serves d m rsv data EXC_CAUSE_NONE m2 rsv'.

Section implementation.

Context {S : Type} `{SystemCalls S} `{Uninitialised}.

(** The reservation, as the port records it. *)
Definition reservation (o : object S) : option Z :=
  if reservation_valid o then Some (reserved o) else None.

(** The request does not reach a system-call address, and neither does the
    update of its page table entry. *)
Definition plain_request (o : object S) : Prop :=
  let d := dut o in
  no_system_call_entry (memory o) (dcache_req_address d) (operation d) (dcache_req_prv d)
    (dcache_req_sum d) (dcache_req_mxr d) (dcache_req_atp d)
  /\ (forall pa m1 v, physical d (byte_at (memory o)) pa m1 ->
        is_system_call (host (memory o)) pa v = false).

Definition with_memory (m : machine S) (o : object S) : object S :=
  Object (dut o) m (reserved o) (reservation_valid o) (delayed_notif_ready o).

(** The state of the port after a request was answered. *)
Definition answered (p : port Z) (data exception : Z) (o' : object S) : state Z (object S) :=
  State (push (Response (u64 (current_cycle p + latency p)) data exception false) p) o'.

End implementation.

(** ** Lemmas *)

#[local] Arguments store_memory : simpl never.
#[local] Arguments read_memory : simpl never.
#[local] Arguments size_extend : simpl never.
#[local] Arguments atomic_update : simpl never.
#[local] Arguments extend : simpl never.
#[local] Arguments check_reservation : simpl never.

(** Evaluate the comparisons of a known operation, and run the code. *)
Ltac run_operation :=
  unfold perform_request, extends, mbind, M_bind;
  repeat match goal with |- context [bool_decide (?a = ?b :> MemoryOperation)] =>
    let v := eval vm_compute in (bool_decide (a = b)) in
    match v with true => idtac | false => idtac end;
    change (bool_decide (a = b)) with v
  end; cbn.

Section lemmas.

Context {S : Type} `{SystemCalls S} `{Uninitialised}.

Implicit Types (o : object S) (p : port Z) (m : machine S).

Lemma on_memory_run {A} (k : Prelude.M exn (machine S) A) p o r m :
  k (memory o) = (r, m) -> on_memory k (State p o) = (r, State p (with_memory m o)).
Proof. intros Hk. unfold on_memory, on_sub, zoom. cbn. by rewrite Hk. Qed.

Lemma aligned_spec a size :
  0 <= size < 4 -> aligned a size = Some (a mod 2 ^ size =? 0).
Proof.
  intros. assert (size = 0 \/ size = 1 \/ size = 2 \/ size = 3) as [->|[->|[->| ->]]] by lia; cbn.
  - by rewrite Z.mod_1_r.
  - exact (f_equal (fun z => Some (z =? 0)) (Z.land_ones a 1 ltac:(lia))).
  - exact (f_equal (fun z => Some (z =? 0)) (Z.land_ones a 2 ltac:(lia))).
  - exact (f_equal (fun z => Some (z =? 0)) (Z.land_ones a 3 ltac:(lia))).
Qed.

Lemma size_bytes size : 0 <= size < 4 -> 1 <= 2 ^ size <= 8.
Proof.
  intros. assert (size = 0 \/ size = 1 \/ size = 2 \/ size = 3) as [->|[->|[->| ->]]] by lia; cbn; lia.
Qed.

Lemma size_cases size (P : Z -> Prop) :
  0 <= size < 4 -> P 0 -> P 1 -> P 2 -> P 3 -> P size.
Proof.
  intros. assert (size = 0 \/ size = 1 \/ size = 2 \/ size = 3) as [->|[->|[->| ->]]] by lia; done.
Qed.

(** *** Reading *)

Lemma read_memory_scalar op size a p o :
  0 <= size < 4 -> extends op = true ->
  read_memory op size a (State p o) = on_memory (read_scalar (2 ^ size) a) (State p o).
Proof.
  intros Hs He. destruct op; try done; revert Hs; pattern size;
    (intros Hs; apply (size_cases size); try done;
     unfold read_memory, on_memory, on_sub, zoom; by rewrite read8_scalar).
Qed.

Lemma read_memory_run op size a p o :
  0 <= size < 4 -> issued op -> in_width 64 a ->
  (extends op = true -> u64 (a + 2 ^ size - 1) <= Sv39.MAX_PHYSICAL_ADDRESS) ->
  exists m, read_memory op size a (State p o) =
      (Ok (if extends op then le_value (flat_read (byte_at (memory o)) a (2 ^ size)) else 0),
       State p (with_memory m o))
    /\ unchanged (memory o) m.
Proof.
  intros Hs Hi Ha Hmax. destruct (extends op) eqn:He.
  - rewrite read_memory_scalar by done. pose proof (size_bytes size Hs).
    destruct (read_scalar_ok (memory o) a (2 ^ size)) as (m & Hrun & Hun);
      [done|rewrite PAGE_SIZE_eq; lia|by apply Hmax|].
    exists m. split; [|done]. by apply on_memory_run.
  - exists (memory o). split; [|apply unchanged_refl]. destruct o. by destruct op.
Qed.

Lemma read_memory_fault op size a p o :
  0 <= size < 4 -> extends op = true ->
  Sv39.MAX_PHYSICAL_ADDRESS < u64 (a + 2 ^ size - 1) ->
  read_memory op size a (State p o)
    = (Throw (AccessFault (u64 (a + 2 ^ size - 1))), State p o).
Proof.
  intros Hs He Hmax. rewrite read_memory_scalar by done.
  erewrite on_memory_run by by apply read_scalar_fault. by destruct o.
Qed.

(** *** Writing *)

(** The state after a store: the reservation is lost. *)
Definition stored (m : machine S) (o : object S) : object S :=
  set_reservation (reserved o) false (with_memory m o).

Lemma store_memory_scalar size a v p o r m :
  0 <= size < 4 -> write_scalar (2 ^ size) a v (memory o) = (r, m) ->
  store_memory size a v (State p o) =
    (on_memory (write_scalar (2 ^ size) a v);; on_sub (clear_reservation a)) (State p o).
Proof.
  intros Hs Hw. assert (Hnarrow : forall k, write_scalar k a (wrap (8 * k) v) (memory o)
                                            = write_scalar k a v (memory o)).
  { intros k. unfold write_scalar. by rewrite wrap_wrap. }
  unfold store_memory, on_memory, on_sub, zoom, mbind, M_bind. cbn [memory sub].
  revert Hw. pattern size. apply (size_cases size); [done|..]; intros _.
  - rewrite write8_scalar. change (2 ^ 0) with 1. by rewrite <- (Hnarrow 1).
  - change (2 ^ 1) with 2. by rewrite <- (Hnarrow 2).
  - change (2 ^ 2) with 4. by rewrite <- (Hnarrow 4).
  - done.
Qed.

Lemma store_memory_run size a v p o :
  0 <= size < 4 -> in_width 64 a -> is_system_call (host (memory o)) a (wrap (8 * 2 ^ size) v) = false ->
  u64 (a + 2 ^ size - 1) <= Sv39.MAX_PHYSICAL_ADDRESS ->
  exists m, store_memory size a v (State p o) = (Ok tt, State p (stored m o))
    /\ updated (memory o) a (le_bytes (Z.to_nat (2 ^ size)) v) m.
Proof.
  intros Hs Ha Hsys Hmax. pose proof (size_bytes size Hs).
  destruct (write_scalar_ok (memory o) a (2 ^ size) v) as (m & Hrun & Hup);
    [done|rewrite PAGE_SIZE_eq; lia|done..|].
  exists m. split; [|done]. erewrite store_memory_scalar by done.
  by erewrite bind_ok by by apply on_memory_run.
Qed.

Lemma store_memory_fault size a v p o :
  0 <= size < 4 -> is_system_call (host (memory o)) a (wrap (8 * 2 ^ size) v) = false ->
  Sv39.MAX_PHYSICAL_ADDRESS < u64 (a + 2 ^ size - 1) ->
  store_memory size a v (State p o) = (Throw (AccessFault (u64 (a + 2 ^ size - 1))), State p o).
Proof.
  intros Hs Hsys Hmax. pose proof (write_scalar_fault (memory o) a (2 ^ size) v Hsys Hmax) as Hw.
  erewrite store_memory_scalar by done. erewrite bind_throw by by apply on_memory_run.
  by destruct o.
Qed.

(** *** Performing the access *)

(** [s'] is the outcome of answering a request of [o] with the access. *)
Definition performs (d : signals) (pa : Z) (s : state Z (object S))
    (r : outcome exn unit * state Z (object S)) : Prop :=
  exists data (m2 : FlatMemory.memory) rsv' o',
    access d pa (byte_at (memory (sub s))) (reservation (sub s)) = (data, m2, rsv')
    /\ r = (Ok tt, answered (base s) data EXC_CAUSE_NONE o')
    /\ byte_at (memory o') ≡ₘ m2 /\ reservation o' = rsv'
    /\ dut o' = dut (sub s) /\ delayed_notif_ready o' = delayed_notif_ready (sub s)
    /\ host (memory o') = host (memory (sub s)).

Lemma check_reservation_spec a o :
  check_reservation a o = bool_decide (reservation o = Some a).
Proof.
  unfold check_reservation, reservation. destruct (reservation_valid o); [|by case_bool_decide].
  simpl. destruct (Z.eqb_spec (reserved o) a); case_bool_decide; naive_solver.
Qed.

Lemma bytes_shift d : 0 <= dcache_req_size d < 4 -> Z.shiftl 1 (dcache_req_size d) = bytes d.
Proof. intros. unfold bytes. by rewrite Z.shiftl_mul_pow2, Z.mul_1_l by lia. Qed.

(** The extended operands. *)
Lemma extend_run d x (s : state Z (object S)) :
  0 <= dcache_req_size d < 4 -> 0 <= dcache_req_size_ext d < 3 ->
  exists r, or_assert (size_extend x (Z.shiftl 1 (dcache_req_size d)) (dcache_req_size_ext d)) s
            = (Ok r, s)
    /\ u64 r = extend (dcache_req_size_ext d) (8 * bytes d) x.
Proof.
  intros Hs He. rewrite bytes_shift by done. pose proof (size_bytes _ Hs).
  destruct (size_extend_spec x (bytes d) (dcache_req_size_ext d)) as (r & -> & Hr);
    [unfold bytes; lia|done|]. by exists r.
Qed.

Lemma perform_store d pa p o :
  request_ok d -> in_width 64 pa -> in_range d pa ->
  (forall v, is_system_call (host (memory o)) pa v = false) ->
  operation d = MEM_STORE \/ (operation d = MEM_SC /\ reservation o = Some pa) ->
  performs d pa (State p o) (perform_request pa (operation d) d (State p o)).
Proof.
  intros (_ & _ & Hs & _) Hpa Hr Hsys Hop.
  destruct (store_memory_run (dcache_req_size d) pa (dcache_req_value d) p o Hs Hpa)
    as (m & Hrun & Hup); [apply Hsys|done|].
  exists 0, (flat_write (byte_at (memory o)) pa (le_bytes (Z.to_nat (bytes d)) (dcache_req_value d))),
    None, (stored m o).
  split; [|split; [|split; [apply (updated_bytes _ _ _ _ Hup)|]]].
  - unfold access. cbn [sub]. destruct Hop as [->|[-> ->]]; [done|]. by rewrite decide_True.
  - destruct Hop as [->|[-> Hrsv]]; run_operation.
    + unfold read_memory, mret, M_ret. cbn. by rewrite Hrun.
    + unfold read_memory, mret, M_ret. cbn. unfold mbind, M_bind. cbn.
      rewrite !check_reservation_spec, bool_decide_true by done. cbn. by rewrite Hrun.
  - repeat split; try done. apply (updated_host _ _ _ _ Hup).
Qed.

Lemma perform_failed_sc d pa p o :
  operation d = MEM_SC -> reservation o <> Some pa ->
  performs d pa (State p o) (perform_request pa (operation d) d (State p o)).
Proof.
  intros Hop Hrsv. exists 1, (byte_at (memory o)), (reservation o), o.
  split; [unfold access; cbn [sub]; rewrite Hop; by rewrite decide_False|]. split; [|done].
  rewrite Hop. run_operation. unfold read_memory, mret, M_ret. cbn. unfold mbind, M_bind. cbn.
  by rewrite !check_reservation_spec, bool_decide_false by done.
Qed.

Lemma perform_load d pa p o :
  request_ok d -> in_width 64 pa -> in_range d pa ->
  operation d = MEM_LOAD \/ operation d = MEM_LR ->
  performs d pa (State p o) (perform_request pa (operation d) d (State p o)).
Proof.
  intros (_ & Hi & Hs & He & _) Hpa Hr Hop.
  destruct (read_memory_run (operation d) (dcache_req_size d) pa p o Hs Hi Hpa) as (m & Hrun & Hun);
    [done|].
  set (old := le_value (flat_read (byte_at (memory o)) pa (2 ^ dcache_req_size d))) in *.
  set (s1 := State p (with_memory m o)) in *.
  destruct (extend_run d old s1 Hs He) as (r & Hr1 & Hext).
  destruct (extend_run d (dcache_req_value d) s1 Hs He) as (r2 & Hr2 & _).
  exists (extend (dcache_req_size_ext d) (8 * bytes d) old), (byte_at (memory o)),
    (if decide (operation d = MEM_LR) then Some pa else reservation o),
    (if decide (operation d = MEM_LR) then set_reservation pa true (with_memory m o)
     else with_memory m o).
  assert (Hread : read_memory (operation d) (dcache_req_size d) pa (State p o) = (Ok old, s1))
    by (rewrite Hrun; by destruct Hop as [->| ->]).
  assert (Hmem : byte_at m ≡ₘ byte_at (memory o)) by by apply unchanged_bytes.
  pose proof (updated_host _ _ _ _ Hun) as Hhost.
  rewrite <- Hext.
  destruct Hop as [Hop|Hop]; rewrite Hop in *; unfold access; rewrite Hop; cbn [sub];
    (split; [by rewrite Hext|]); (split; [|done]);
    run_operation; rewrite Hread; unfold mbind, M_bind; cbn; by rewrite Hr1, Hr2.
Qed.

Lemma perform_amo d pa p o :
  request_ok d -> in_width 64 pa -> in_range d pa ->
  (forall v, is_system_call (host (memory o)) pa v = false) -> wf (memory o) ->
  operation d = MEM_AMO ->
  performs d pa (State p o) (perform_request pa (operation d) d (State p o)).
Proof.
  intros (_ & Hi & Hs & He & Hamo & _) Hpa Hr Hsys Hwf Hop. destruct (Hamo Hop) as [Hext Hamop].
  destruct (read_memory_run (operation d) (dcache_req_size d) pa p o Hs Hi Hpa) as (m & Hrun & Hun);
    [done|]. pose proof (size_bytes _ Hs) as Hb. fold (bytes d) in *.
  set (old := le_value (flat_read (byte_at (memory o)) pa (bytes d))) in *.
  assert (Hold : in_width (8 * bytes d) old).
  { pose proof (le_value_bound (flat_read (byte_at (memory o)) pa (bytes d))) as Hbound.
    rewrite length_flat_read in Hbound by lia. apply Hbound.
    apply flat_read_byte. intros. by apply byte_at_byte. }
  set (s1 := State p (with_memory m o)) in *.
  destruct (extend_run d old s1 Hs He) as (r & Hr1 & Hx).
  destruct (extend_run d (dcache_req_value d) s1 Hs He) as (r2 & Hr2 & Hy).
  set (v := wrap (8 * bytes d) (dcache_req_value d)).
  assert (Hv : in_width (8 * bytes d) v) by (apply wrap_bound; lia).
  destruct (atomic_update_spec (8 * bytes d) old v) with (operation := Z.shiftr (dcache_req_amo d) 2)
    as (w & Hw & Hwspec); [lia|done..|].
  assert (Hyv : u64 r2 = u64 (signed (8 * bytes d) v))
    by (rewrite Hy, Hext; cbn; unfold v; by rewrite signed_wrap).
  assert (Hxv : u64 r = u64 (signed (8 * bytes d) old)) by (by rewrite Hx, Hext).
  rewrite <- Hxv, <- Hyv in Hw.
  destruct (store_memory_run (dcache_req_size d) pa w p (with_memory m o) Hs Hpa) as (m2 & Hst & Hup).
  { cbn. rewrite (updated_host _ _ _ _ Hun). apply Hsys. } { done. }
  eexists _, _, None, (stored m2 (with_memory m o)). unfold access. rewrite Hop.
  split; [done|]. fold (bytes d) in Hup. fold old v. split; [|split; [|repeat split]].
  - assert (Hread : read_memory MEM_AMO (dcache_req_size d) pa (State p o) = (Ok old, s1))
      by (by rewrite Hop in Hrun).
    run_operation. rewrite Hread. unfold mbind, M_bind. cbn. rewrite Hr1, Hr2. cbn. rewrite Hw. cbn.
    fold s1 in Hst. rewrite Hst. cbn. unfold answered. cbn. by rewrite Hx.
  - cbn. rewrite (updated_bytes _ _ _ _ Hup). cbn.
    rewrite <- (le_bytes_wrap (Z.to_nat (bytes d)) w), Z2Nat.id, Hwspec by lia.
    by rewrite (unchanged_bytes _ _ Hun).
  - cbn. rewrite (updated_host _ _ _ _ Hup). apply (updated_host _ _ _ _ Hun).
Qed.

Lemma perform_request_run d pa p o :
  request_ok d -> in_width 64 pa -> (touches d pa (reservation o) -> in_range d pa) ->
  (forall v, is_system_call (host (memory o)) pa v = false) -> wf (memory o) ->
  performs d pa (State p o) (perform_request pa (operation d) d (State p o)).
Proof.
  intros Hok Hpa Hr Hsys Hwf. pose proof Hok as (_ & Hi & _).
  destruct (operation d) eqn:Hop; try done; rewrite <- Hop.
  all: try (assert (in_range d pa) by (apply Hr; unfold touches; by rewrite Hop)).
  - apply perform_load; auto.
  - apply perform_store; auto.
  - apply perform_load; auto.
  - destruct (decide (reservation o = Some pa)) as [Hrsv|Hrsv].
    + apply perform_store; auto. apply Hr. by intros _.
    + by apply perform_failed_sc.
  - by apply perform_amo.
Qed.

Lemma perform_request_fault d pa p o :
  request_ok d -> touches d pa (reservation o) -> ~ in_range d pa ->
  (forall v, is_system_call (host (memory o)) pa v = false) ->
  perform_request pa (operation d) d (State p o)
    = (Throw (AccessFault (u64 (pa + bytes d - 1))), State p o).
Proof.
  intros (_ & Hi & Hs & _) Ht Hr Hsys. unfold in_range in Hr.
  assert (Hmax : Sv39.MAX_PHYSICAL_ADDRESS < u64 (pa + 2 ^ dcache_req_size d - 1)) by (unfold bytes in Hr; lia).
  destruct (extends (operation d)) eqn:He.
  - unfold perform_request. by erewrite bind_throw by by apply read_memory_fault.
  - pose proof (store_memory_fault (dcache_req_size d) pa (dcache_req_value d) p o Hs (Hsys _) Hmax) as Hst.
    unfold touches in Ht. destruct (operation d) eqn:Hop; try done.
    + run_operation. unfold read_memory, mret, M_ret. cbn. by rewrite Hst.
    + run_operation. unfold read_memory, mret, M_ret. cbn. unfold mbind, M_bind. cbn.
      rewrite !check_reservation_spec, bool_decide_true by auto. cbn. by rewrite Hst.
Qed.

(** *** The [try] statement *)

Lemma handle_ok a op (k : M exn (state Z (object S)) unit) s s' :
  k s = (Ok tt, s') -> handle a op k s = (Ok tt, s').
Proof. intros Hk. unfold handle, try_catch. by rewrite Hk. Qed.

Lemma handle_throw a op (k : M exn (state Z (object S)) unit) s e p o code :
  k s = (Throw e, State p o) -> get_exception_code e op = Some (Ok code) ->
  handle a op k s = (Ok tt, answered p a code o).
Proof. intros Hk He. unfold handle, try_catch. by rewrite Hk, He. Qed.

(** The translation of an aligned request. *)
Lemma translate_request_run p o :
  let d := dut o in
  request_ok d -> plain_request o -> wf (memory o) -> dcache_req_address d mod bytes d = 0 ->
  (exists pa m, translate_request (dcache_req_address d) (operation d) d (State p o)
        = (Ok pa, State p (with_memory m o))
      /\ physical d (byte_at (memory o)) pa (byte_at m) /\ in_width 64 pa
      /\ (~ in_range d pa -> pa = dcache_req_address d)
      /\ host m = host (memory o) /\ wf m)
  \/ (ATP.mode (dcache_req_atp d) = Sv39.ATP_MODE
      /\ (forall pa A pte, ~ translation (byte_at (memory o)) (dcache_req_address d) (operation d)
            (dcache_req_prv d) (dcache_req_sum d) (dcache_req_mxr d) (dcache_req_atp d) pa A pte)
      /\ exists m, translate_request (dcache_req_address d) (operation d) d (State p o)
            = (Throw (PageFault (dcache_req_address d)), State p (with_memory m o))
          /\ unchanged (memory o) m).
Proof.
  intros d ((Ha & _) & _ & Hs & _ & _ & Hmode) [Hpte _] Hwf Hal. unfold translate_request.
  rewrite aligned_spec by done. fold (bytes d). rewrite (proj2 (Z.eqb_eq _ _) Hal).
  erewrite bind_ok by done. cbn [negb]. erewrite bind_ok by done.
  destruct Hmode as [Hmode|Hmode].
  - left. exists (dcache_req_address d), (memory o). rewrite (proj2 (Z.eqb_eq _ _) Hmode).
    split; [by destruct o|]. split; [by constructor|]. done.
  - assert (ATP.mode (dcache_req_atp d) =? ATP_MODE_BARE = false) as -> by (by rewrite Hmode).
    destruct (translate_run (memory o) (dcache_req_address d) (operation d) (dcache_req_prv d)
                (dcache_req_sum d) (dcache_req_mxr d) (dcache_req_atp d) Hmode Hpte)
      as [(pa & A & pte & m & Ht & Hrun & Hm)|[Hno (m & Hrun & Hun)]].
    + left. exists (u32 pa), m. pose proof (wrap_bound 32 pa ltac:(lia)) as Hpa32.
      split; [by apply on_memory_run|].
      split; [eapply physical_sv39; [done|exact Ht|]|split; [|split; [|split]]].
      * case_decide; [by apply unchanged_bytes|by apply (updated_bytes _ _ _ _ Hm)].
      * unfold u32. width.
      * intros Hout. exfalso. apply Hout. unfold in_range, u64, u32 in *.
        pose proof (size_bytes _ Hs). unfold bytes. rewrite wrap_small by lia.
        change Sv39.MAX_PHYSICAL_ADDRESS with (2 ^ 56 - 1). lia.
      * case_decide; apply (updated_host _ _ _ _ Hm).
      * case_decide; apply (updated_wf _ _ _ _ Hm); auto using le_bytes_byte.
    + right. split; [done|]. split; [done|]. exists m. split; [|done]. by apply on_memory_run.
Qed.

Lemma get_request_run p o :
  let d := dut o in
  dcache_req_valid d = true -> request_ok d -> plain_request o -> wf (memory o) ->
  exists data e (m2 : FlatMemory.memory) o', get_request (State p o) = (Ok tt, answered p data e o')
    /\ serves d (byte_at (memory o)) (reservation o) data e m2 (reservation o')
    /\ byte_at (memory o') ≡ₘ m2
    /\ dut o' = d /\ delayed_notif_ready o' = delayed_notif_ready o.
Proof.
  intros d Hvalid Hok Hplain Hwf. pose proof Hok as ((Ha & _) & Hi & Hs & _).
  unfold get_request. erewrite bind_ok by done. cbn [sub]. unfold can_receive_request.
  fold d. rewrite Hvalid. erewrite bind_ok by done. fold (operation d). set (va := dcache_req_address d).
  destruct (decide (va mod bytes d = 0)) as [Hal|Hmis].
  2:{ destruct (get_exception_code_issued (AlignmentFault va) (operation d) _ Hi eq_refl)
        as (code & Hcode & _).
      exists va, code, (byte_at (memory o)), o. split; [|split; [by apply serves_misaligned|done]].
      apply (handle_throw _ _ _ _ (AlignmentFault va)); [|cbn; by rewrite Hcode].
      apply bind_throw. unfold translate_request. rewrite aligned_spec by done. fold (bytes d). fold va.
      rewrite (proj2 (Z.eqb_neq _ _) Hmis). by erewrite bind_ok by done. }
  destruct (translate_request_run p o Hok Hplain Hwf Hal)
    as [(pa & m & Hrun & Hphys & Hpa & Hout & Hhost & Hwfm)|(Hmode & Hno & m & Hrun & Hun)].
  2:{ destruct (get_exception_code_issued (PageFault va) (operation d) _ Hi eq_refl) as (code & Hcode & _).
      exists va, code, (byte_at (memory o)), (with_memory m o).
      split; [|split; [by eapply serves_page_fault|split; [by apply unchanged_bytes|done]]].
      apply (handle_throw _ _ _ _ (PageFault va)); [|cbn; by rewrite Hcode].
      apply bind_throw. exact Hrun. }
  assert (Hsys : forall v, is_system_call (host m) pa v = false)
    by (intros v; rewrite Hhost; by eapply Hplain).
  set (o1 := with_memory m o) in *. fold d in Hrun, Hphys, Hout. fold va in Hrun.
  assert (Hdec : (touches d pa (reservation o) -> in_range d pa)
                 \/ (touches d pa (reservation o) /\ ~ in_range d pa)).
  { unfold touches, in_range.
    destruct (decide (u64 (pa + bytes d - 1) <= Sv39.MAX_PHYSICAL_ADDRESS)); [by left|].
    destruct (decide (operation d = MEM_SC)), (decide (reservation o = Some pa)); intuition congruence. }
  destruct Hdec as [Hin|[Ht Hnr]].
  - destruct (perform_request_run d pa p o1 Hok Hpa Hin Hsys Hwfm)
      as (data & m2 & rsv & o' & Hacc & Hperf & Hm2 & Hrsv & Hdut & Hdel & _).
    exists data, EXC_CAUSE_NONE, m2, o'.
    split; [|split; [|done]].
    + apply handle_ok. erewrite bind_ok by exact Hrun. by apply handle_ok.
    + eapply serves_access; [done|exact Hphys|done|]. by rewrite Hrsv.
  - destruct (get_exception_code_issued (AccessFault (u64 (pa + bytes d - 1))) (operation d) _ Hi eq_refl)
      as (code & Hcode & _).
    pose proof (perform_request_fault d pa p o1 Hok Ht Hnr Hsys) as Hperf.
    assert (Hva := Hout Hnr). fold va in Hva. rewrite Hva in *.
    exists va, code, (byte_at m), o1. split; [|split; [by eapply serves_access_fault|done]].
    apply handle_ok. erewrite bind_ok by exact Hrun.
    eapply handle_throw; [exact Hperf|cbn; by rewrite Hcode].
Qed.

End lemmas.

(** ** The port answers every request, system calls included *)

Section completes.

Context {S : Type} `{SystemCalls S} `{!SystemCallsOk S} `{Uninitialised}.

#[local] Set Default Proof Using "All".

Implicit Types (o : object S) (p : port Z) (m : machine S).

Lemma read_memory_completes op size a p o :
  0 <= size < 4 -> issued op -> in_width 64 a ->
  (exists v m, read_memory op size a (State p o) = (Ok v, State p (with_memory m o)))
  \/ (exists x, read_memory op size a (State p o) = (Throw (AccessFault x), State p o)).
Proof.
  intros Hs Hi Ha. destruct (extends op) eqn:He.
  - destruct (decide (u64 (a + 2 ^ size - 1) <= Sv39.MAX_PHYSICAL_ADDRESS)) as [Hmax|Hmax].
    + destruct (read_memory_run op size a p o Hs Hi Ha) as (m & Hrun & _); [done|]. eauto.
    + right. eexists. apply read_memory_fault; [done|done|lia].
  - left. destruct (read_memory_run op size a p o Hs Hi Ha) as (m & Hrun & _); [congruence|]. eauto.
Qed.

Lemma store_memory_completes size a v p o :
  0 <= size < 4 -> in_width 64 a ->
  (exists m, store_memory size a v (State p o) = (Ok tt, State p (stored m o)))
  \/ (exists x, store_memory size a v (State p o) = (Throw (AccessFault x), State p o)).
Proof.
  intros Hs Ha. destruct (is_system_call (host (memory o)) a (wrap (8 * 2 ^ size) v)) eqn:E.
  - left. destruct (system_call_ok _ _ _ E) as [h Hcall].
    assert (Hw : write_scalar (2 ^ size) a v (memory o) = (Ok tt, Machine (pages (memory o)) h))
      by (by rewrite write_scalar_system_call, Hcall).
    eexists. erewrite store_memory_scalar by done.
    by erewrite bind_ok by by apply on_memory_run.
  - destruct (decide (u64 (a + 2 ^ size - 1) <= Sv39.MAX_PHYSICAL_ADDRESS)) as [Hmax|Hmax].
    + destruct (store_memory_run size a v p o Hs Ha E Hmax) as (m & Hrun & _). eauto.
    + right. eexists. apply store_memory_fault; [done|done|lia].
Qed.

(** The outcome of an access: answered, or an access fault to be handled. *)
Definition completes p (d : signals) (r : outcome exn unit * state Z (object S)) : Prop :=
  (exists data o', r = (Ok tt, answered p data EXC_CAUSE_NONE o') /\ dut o' = d)
  \/ (exists x o', r = (Throw (AccessFault x), State p o') /\ dut o' = d).

Lemma atomic_update_defined operation original operand :
  operation ∈ amo_operations -> is_Some (atomic_update operation original operand).
Proof.
  intros Hop. unfold amo_operations in Hop.
  repeat (apply elem_of_cons in Hop as [->|Hop]); [..|by apply elem_of_nil in Hop]; by eexists.
Qed.

(** The end of a request that stores [v]. *)
Lemma store_answered size a v data p o :
  0 <= size < 4 -> in_width 64 a ->
  completes p (dut o)
    ((store_memory size a v;; queue_response data EXC_CAUSE_NONE) (State p o)).
Proof.
  intros Hs Ha. destruct (store_memory_completes size a v p o Hs Ha) as [[m Hrun]|[x Hrun]].
  - left. erewrite bind_ok by exact Hrun. by eexists data, _.
  - right. erewrite bind_throw by exact Hrun. by eexists x, _.
Qed.

Lemma perform_request_completes d pa p o :
  request_ok d -> in_width 64 pa -> dut o = d ->
  completes p d (perform_request pa (operation d) d (State p o)).
Proof.
  intros (_ & Hi & Hs & He & Hamo & _) Hpa Hd.
  pose proof (read_memory_completes (operation d) (dcache_req_size d) pa p o Hs Hi Hpa)
    as [(v & m & Hrun)|[x Hrun]].
  2:{ unfold perform_request. erewrite bind_throw by exact Hrun. right. by eexists x, _. }
  set (o1 := with_memory m o) in *. assert (Hd1 : dut o1 = d) by done.
  destruct (extend_run d v (State p o1) Hs He) as (r & Hr1 & _).
  destruct (extend_run d (dcache_req_value d) (State p o1) Hs He) as (r2 & Hr2 & _).
  unfold perform_request. erewrite bind_ok by exact Hrun. clear Hrun. clearbody o1.
  destruct (operation d) eqn:Hop; try done.
  - run_operation. unfold mbind, M_bind. cbn. rewrite Hr1, Hr2. left. by eexists _, _.
  - rewrite <- Hd1. run_operation. apply store_answered; [by rewrite Hd1|done].
  - run_operation. unfold mbind, M_bind. cbn. rewrite Hr1, Hr2. left. eexists _, _. split; [done|].
    done.
  - run_operation. unfold mbind, M_bind. cbn.
    destruct (check_reservation pa o1); cbn; [|left; by eexists _, _].
    rewrite <- Hd1. apply store_answered; [by rewrite Hd1|done].
  - run_operation. unfold mbind, M_bind. cbn. rewrite Hr1, Hr2. cbn.
    destruct (Hamo eq_refl) as [_ Hop2].
    destruct (atomic_update_defined _ (u64 r) (u64 r2) Hop2) as [w ->]. cbn.
    rewrite <- Hd1. apply store_answered; [by rewrite Hd1|done].
Qed.

Lemma get_request_completes p o :
  dcache_req_valid (dut o) = true -> request_ok (dut o) ->
  exists data e o', get_request (State p o) = (Ok tt, answered p data e o') /\ dut o' = dut o.
Proof.
  intros Hvalid Hok. pose proof Hok as ((Ha & _) & Hi & Hs & _ & _ & Hmode).
  unfold get_request. erewrite bind_ok by done. cbn [sub]. unfold can_receive_request.
  rewrite Hvalid. erewrite bind_ok by done. set (d := dut o) in *. fold (operation d).
  set (va := dcache_req_address d) in *.
  assert (Htr : (exists pa m, translate_request va (operation d) d (State p o)
                   = (Ok pa, State p (with_memory m o)) /\ in_width 64 pa)
                \/ (exists e m code, translate_request va (operation d) d (State p o)
                     = (Throw e, State p (with_memory m o))
                     /\ get_exception_code e (operation d) = Some (Ok code))).
  { unfold translate_request. rewrite aligned_spec by done. erewrite bind_ok by done.
    destruct (va mod 2 ^ dcache_req_size d =? 0); cbn [negb].
    - erewrite bind_ok by done. destruct (ATP.mode (dcache_req_atp d) =? ATP_MODE_BARE) eqn:Hbare.
      + left. exists va, (memory o). by destruct o.
      + destruct Hmode as [Hmode|Hmode]; [by rewrite Hmode in Hbare|].
        destruct (translate_completes (memory o) va (operation d) (dcache_req_prv d)
          (dcache_req_sum d) (dcache_req_mxr d) (dcache_req_atp d) Hmode)
          as (r & m & Hrun & [(pa & -> & Hpa)| ->]).
        * left. exists pa, m. split; [by apply on_memory_run|]. width.
        * right. destruct (get_exception_code_issued (PageFault va) (operation d) _ Hi eq_refl)
            as (code & Hcode & _).
          exists (PageFault va), m, code. split; [by apply on_memory_run|]. cbn. by rewrite Hcode.
    - right. destruct (get_exception_code_issued (AlignmentFault va) (operation d) _ Hi eq_refl)
        as (code & Hcode & _).
      exists (AlignmentFault va), (memory o), code. split; [by destruct o|]. cbn. by rewrite Hcode. }
  destruct Htr as [(pa & m & Hrun & Hpa)|(e & m & code & Hrun & Hcode)].
  2:{ eexists va, code, (with_memory m o). split; [|done].
      eapply handle_throw; [|exact Hcode]. by apply bind_throw. }
  destruct (perform_request_completes d pa p (with_memory m o) Hok Hpa eq_refl)
    as [(data & o' & Hperf & Hd)|(x & o' & Hperf & Hd)].
  - exists data, EXC_CAUSE_NONE, o'. split; [|done]. apply handle_ok.
    erewrite bind_ok by exact Hrun. by apply handle_ok.
  - destruct (get_exception_code_issued (AccessFault x) (operation d) _ Hi eq_refl)
      as (code & Hcode & _).
    exists pa, code, o'. split; [|done]. apply handle_ok. erewrite bind_ok by exact Hrun.
    eapply handle_throw; [exact Hperf|]. cbn. by rewrite Hcode.
Qed.

#[export] Instance dcache_laws : Laws Z (object S).
Proof.
  refine {| serviceable o := request_ok (dut o) |}.
  - intros [p o] Hr Hs. cbn in Hr.
    destruct (get_request_completes p o Hr Hs) as (data & e & o' & Hrun & Hd).
    exists data, e, o'. split; [exact Hrun|]. by rewrite Hd.
  - done.
  - intros r o Hs. eexists. split; [reflexivity|exact Hs].
  - intros o Hs. unfold MemoryPort.clear_response, methods, clear_response.
    destruct (dcache_notif_valid (dut o)) eqn:E; eexists; split;
      [erewrite bind_ok by done; erewrite bind_ok by done; cbn; by rewrite E|exact Hs
      |erewrite bind_ok by done; erewrite bind_ok by done; cbn; by rewrite E|exact Hs].
Defined.

End completes.

(** ** Properties *)

Section theorems.

Context {S : Type} `{SystemCalls S} `{Uninitialised}.

Implicit Types (o : object S) (p : port Z) (m : machine S).


(** Size extension. For each kind of extension and any width of 1 to 8
    bytes, the port's shifts compute the zero-, one- or sign-extension of the
    low bytes, whatever the upper bytes hold. *)
Theorem size_extend_correct x b size_ext :
  0 < b <= 8 -> 0 <= size_ext < 3 ->
  exists r, size_extend x b size_ext = Some r /\ u64 r = extend size_ext (8 * b) x.
Proof. apply size_extend_spec. Qed.

(** C36: Atomic operations. On operands sign-extended from [k] bits, the low [k]
    bits of the 64-bit result are the RISC-V operation on the [k]-bit operands,
    for each of the nine operations: in particular the unsigned minimum and
    maximum are right although the operands were sign-extended. Any other code
    is rejected. *)
Theorem atomic_update_correct k x y op :
  0 < k <= 64 -> in_width k x -> in_width k y ->
  match atomic_update op (u64 (signed k x)) (u64 (signed k y)) with
  | Some r => op ∈ amo_operations /\ wrap k r = amo k op x y
  | None => op ∉ amo_operations
  end.
Proof.
  intros Hk Hx Hy. destruct (decide (op ∈ amo_operations)) as [Hop|Hop].
  - by destruct (atomic_update_spec k x y Hk Hx Hy op Hop) as (r & -> & ?).
  - by rewrite atomic_update_unsupported.
Qed.

(** *** Load-reserved and store-conditional *)

(** A sequence of requests, each answered by the port: the signals of the
    request, the response's data and exception. *)
Inductive answers : object S -> list (signals * Z * Z) -> object S -> Prop :=
  | answers_nil o : answers o [] o
  | answers_cons d data e p o o1 o2 log :
      dut o = d -> dcache_req_valid d = true -> request_ok d -> plain_request o -> wf (memory o) ->
      get_request (State p o) = (Ok tt, answered p data e o1) ->
      forall d', answers (set_dut (fun _ => d') o1) log o2 ->
      answers o ((d, data, e) :: log) o2.

(** The answers that end every reservation. *)
Definition writes_memory (x : signals * Z * Z) : Prop :=
  let '(d, data, e) := x in
  e = EXC_CAUSE_NONE
  /\ (operation d = MEM_STORE \/ operation d = MEM_AMO \/ (operation d = MEM_SC /\ data = 0)).

Lemma answered_inj p data e o data' e' o' :
  (Ok tt : outcome exn unit, answered p data e o) = (Ok tt, answered p data' e' o') ->
  data = data' /\ e = e' /\ o = o'.
Proof.
  unfold answered, push, set_responses. intros Heq. simplify_eq. auto.
Qed.

Lemma fault_code_real (e : exn) op code :
  get_exception_code e op = Some (Ok code) -> code <> EXC_CAUSE_NONE.
Proof. intros Hc. by apply get_exception_code_cause in Hc as [_ ?]. Qed.

Lemma serves_reservation d (m m2 : FlatMemory.memory) rsv data e rsv' :
  serves d m rsv data e m2 rsv' -> operation d <> MEM_LR ->
  (writes_memory (d, data, e) -> rsv' = None)
  /\ (~ writes_memory (d, data, e) -> rsv' = rsv).
Proof.
  intros Hs Hlr. unfold writes_memory.
  destruct Hs as [code _ Hc|code _ _ _ Hc|code m1 _ _ _ _ Hc|pa m1 data m2 rsv' _ _ _ Hacc].
  - pose proof (fault_code_real (AlignmentFault 0) (operation d) code ltac:(cbn; by rewrite Hc)).
    naive_solver.
  - pose proof (fault_code_real (PageFault 0) (operation d) code ltac:(cbn; by rewrite Hc)).
    naive_solver.
  - pose proof (fault_code_real (AccessFault 0) (operation d) code ltac:(cbn; by rewrite Hc)).
    naive_solver.
  - unfold access in Hacc. destruct (operation d); simplify_eq/=; try naive_solver.
    case_decide; naive_solver.
Qed.

#[local] Instance writes_memory_dec x : Decision (writes_memory x).
Proof. destruct x as [[d data] e]. unfold writes_memory. apply _. Defined.

Lemma answers_reservation o log o' :
  answers o log o' -> Forall (fun x => operation x.1.1 <> MEM_LR) log ->
  reservation o' = if decide (Exists writes_memory log) then None else reservation o.
Proof.
  induction 1 as [o|d data e p o o1 o2 log Hd Hv Hok Hpl Hw Hrun d' Hans IH]; intros Hlr.
  { rewrite decide_False; [done|]. by intros ?%Exists_nil. }
  inversion_clear Hlr as [|? ? Hlr1 Hlr']. subst d.
  destruct (get_request_run p o Hv Hok Hpl Hw) as (data' & e' & m2 & o1' & Hrun' & Hs & _).
  rewrite Hrun in Hrun'. apply answered_inj in Hrun' as (<- & <- & <-).
  destruct (serves_reservation _ _ _ _ _ _ _ Hs Hlr1) as [Hyes Hno]. rewrite (IH Hlr').
  destruct (decide (Exists writes_memory log)) as [He|He]; [by rewrite decide_True by by right|].
  destruct (decide (writes_memory (dut o, data, e))) as [Hwr|Hwr].
  - rewrite decide_True by by left. by apply Hyes.
  - rewrite decide_False; [by apply Hno|]. by intros [?|?]%Exists_cons.
Qed.

(** A bare request: its physical address is its address. *)
Definition bare (d : signals) : Prop := ATP.mode (dcache_req_atp d) = ATP_MODE_BARE.

Lemma serves_bare d (m m2 : FlatMemory.memory) rsv data e rsv' :
  serves d m rsv data e m2 rsv' -> bare d -> e = EXC_CAUSE_NONE ->
  access d (dcache_req_address d) m rsv = (data, m2, rsv').
Proof.
  unfold bare. intros Hs Hbare Hnone.
  destruct Hs as [code _ Hc|code _ _ _ Hc|code m1 _ _ _ _ Hc|pa m1 data m2 rsv' _ Hp _ Hacc].
  - by pose proof (fault_code_real (AlignmentFault 0) (operation d) code ltac:(cbn; by rewrite Hc)).
  - by pose proof (fault_code_real (PageFault 0) (operation d) code ltac:(cbn; by rewrite Hc)).
  - by pose proof (fault_code_real (AccessFault 0) (operation d) code ltac:(cbn; by rewrite Hc)).
  - inversion Hp; subst; [done|by rewrite Hbare in *].
Qed.

(** The first answer of a sequence, to a bare request without a fault. *)
Lemma answers_bare o d data log o2 :
  answers o ((d, data, EXC_CAUSE_NONE) :: log) o2 -> bare d ->
  exists (m2 : FlatMemory.memory) o1, access d (dcache_req_address d) (byte_at (memory o)) (reservation o)
      = (data, m2, reservation o1)
    /\ byte_at (memory o1) ≡ₘ m2 /\ answers o1 log o2.
Proof.
  intros Hans Hbare. inversion Hans as [|d0 x e p o0 o1 o3 log0 Hd Hv Hok Hpl Hw Hrun d' Hans']; subst.
  destruct (get_request_run p o Hv Hok Hpl Hw) as (data' & e' & m2 & o1' & Hrun' & Hs & Hm2 & _).
  rewrite Hrun in Hrun'. apply answered_inj in Hrun' as (<- & <- & <-).
  exists m2, (set_dut (fun _ => d') o1). split; [|done]. by eapply serves_bare.
Qed.


(** The response on the data cache interface. Sending a response raises
    exactly one of the two valid signals; a normal response carries the data,
    and an exception carries its cause and, in two 32-bit words, the whole
    64-bit payload. Memory and reservations are not affected. *)
Theorem dcache_send_response (r : MemoryResponse Z) o :
  in_width 64 (data r) ->
  exists o', send_response r o = (Ok (Response (time r) (data r) (exception r) true), o')
    /\ dcache_ex_valid (dut o') = negb (exception r =? EXC_CAUSE_NONE)
    /\ dcache_resp_valid (dut o') = negb (dcache_ex_valid (dut o'))
    /\ dcache_resp_value (dut o') = data r
    /\ (dcache_ex_valid (dut o') = true ->
          exists hi lo, dcache_ex_exception (dut o') = (exception r, hi, lo)
            /\ in_width 32 hi /\ in_width 32 lo /\ hi * 2 ^ 32 + lo = data r)
    /\ memory o' = memory o /\ reservation o' = reservation o.
Proof.
  intros Hw. eexists. split; [reflexivity|]. cbn. split; [done|]. split; [done|]. split; [done|].
  split; [|done]. intros Hex. rewrite Hex. eexists _, _. split; [reflexivity|].
  change 0xFFFFFFFF with (Z.ones 32). rewrite Z.land_ones, Z.shiftr_div_pow2 by lia.
  pose proof (Z.mod_pos_bound (data r) (2 ^ 32) ltac:(lia)).
  pose proof (Z.div_mod (data r) (2 ^ 32) ltac:(lia)).
  unfold u32. rewrite wrap_small by width. width.
Qed.

End theorems.

(** ** Witnesses *)

#[local] Existing Instance zeroed.

(** A bare request of 8 bytes at 0x1000. *)
Definition word_request (op value : Z) : signals :=
  Signals true 0x1000 value op 3 SIZE_EXT_SIGNED 0 false false false 0
    false false 0 false (0, 0, 0) false.

Definition object_of (d : signals) : object unit := make_object d (Machine ∅ tt).

(** The object after the request that it was handed has been answered. *)
Definition serve (o : object unit) : object unit := sub (snd (get_request (State (make 1) o))).
Definition next (d : signals) (o : object unit) : object unit := set_dut (fun _ => d) (serve o).

Lemma word_request_ok op value :
  op ∈ [1; 2; 5; 6; 7] -> in_width 64 value -> request_ok (word_request op value).
Proof.
  intros Hop Hv. split; [by split|].
  repeat (apply elem_of_cons in Hop as [->|Hop]); [..|by apply elem_of_nil in Hop];
    (split; [done|]); (split; [done|]); (split; [done|]); (split; [|by left]); try done.
  intros _. split; [done|]. change (0 ∈ amo_operations). unfold amo_operations. set_solver.
Qed.

Lemma plain_unit_request (o : object unit) : plain_request o.
Proof. by split; [intros ? ? ? ?|intros ? ? ?]. Qed.

Lemma empty_wf : wf (Machine (S := unit) ∅ tt).
Proof. apply map_Forall_empty. Qed.


Lemma size_extend_correct_witness :
  exists r, size_extend 0xABCD 1 SIZE_EXT_SIGNED = Some r /\ u64 r = 2 ^ 64 - 51.
Proof. apply (size_extend_correct 0xABCD 1 SIZE_EXT_SIGNED); done. Defined.

(** AMOMINU.W of 0xFFFFFFFF and 1. *)
Lemma atomic_update_correct_witness :
  24 ∈ amo_operations /\ wrap 32 1 = Z.min 0xFFFFFFFF 1.
Proof. apply (atomic_update_correct 32 0xFFFFFFFF 1 24); done. Defined.

Definition reserved_object : object unit :=
  next (word_request 6 77) (object_of (word_request 5 0)).

Lemma reserved_object_wf : wf (memory reserved_object).
Proof.
  assert (He : memory reserved_object = Machine {[0 := ∅]} tt) by by vm_compute.
  rewrite He. apply map_Forall_singleton. split; [done|]. apply map_Forall_empty.
Qed.

Lemma load_reserved_answers :
  answers (object_of (word_request 5 0)) [(word_request 5 0, 0, EXC_CAUSE_NONE)] reserved_object.
Proof.
  eapply (answers_cons _ _ _ (make 1) _ (serve (object_of (word_request 5 0))));
    [reflexivity|reflexivity|apply word_request_ok; [set_solver|done]|apply plain_unit_request
    |apply empty_wf|by vm_compute|].
  apply answers_nil.
Qed.

Lemma store_conditional_answers :
  answers reserved_object [(word_request 6 77, 0, EXC_CAUSE_NONE)]
    (next (word_request 6 77) reserved_object).
Proof.
  eapply (answers_cons _ _ _ (make 1) _ (serve reserved_object));
    [reflexivity|reflexivity|apply word_request_ok; [set_solver|done]|apply plain_unit_request
    |apply reserved_object_wf|by vm_compute|].
  apply answers_nil.
Qed.


Lemma dcache_send_response_witness :
  exists o', send_response (Response 0 (2 ^ 64 - 1) EXC_CAUSE_LOAD_PAGE_FAULT false)
        (object_of (word_request 1 0))
      = (Ok (Response 0 (2 ^ 64 - 1) EXC_CAUSE_LOAD_PAGE_FAULT true), o')
    /\ dcache_ex_valid (dut o') = true
    /\ dcache_resp_valid (dut o') = negb (dcache_ex_valid (dut o'))
    /\ dcache_resp_value (dut o') = 2 ^ 64 - 1
    /\ (dcache_ex_valid (dut o') = true ->
          exists hi lo, dcache_ex_exception (dut o') = (EXC_CAUSE_LOAD_PAGE_FAULT, hi, lo)
            /\ in_width 32 hi /\ in_width 32 lo /\ hi * 2 ^ 32 + lo = 2 ^ 64 - 1)
    /\ memory o' = Machine ∅ tt /\ reservation o' = None.
Proof.
  apply (dcache_send_response (Response 0 (2 ^ 64 - 1) EXC_CAUSE_LOAD_PAGE_FAULT false)
           (object_of (word_request 1 0))). done.
Defined.
