(* ===== verification/InstructionCachePort.v ===== *)
(** * The instruction cache port

    [instruction_cache_port.h]: the port behind the pipeline's instruction cache
    interface. It fetches the aligned 4 bytes that contain the program counter. *)

From S2P Require Import Prelude Exceptions VirtualAddressing FlatMemory MainMemory.
From S2P Require Import MainMemoryFacts PageTableWalker PageTableWalkerFacts.
From S2P Require Import PageTableWalkerTheorems MemoryPort.

Import MainMemory MemoryPort.

Module InstructionCachePort.

(** The signals [icache_*]. *)
Record signals : Type := Signals {
  icache_req_valid : bool;
  icache_req_pc : Z;
  icache_req_prv : bool;
  icache_req_sum : bool;
  icache_req_atp : Z;
  icache_resp_valid : bool;
  icache_resp_instr : Z;
  icache_resp_exception : bool;
  icache_resp_ex_code : Z;
}.

Definition set_response (valid : bool) (instr : Z) (ex : bool) (code : Z) (d : signals) : signals :=
  Signals (icache_req_valid d) (icache_req_pc d) (icache_req_prv d) (icache_req_sum d)
    (icache_req_atp d) valid instr ex code.

Record object (S : Type) : Type := Object { dut : signals; memory : machine S }.
Arguments Object {S} dut memory.
Arguments dut {S} o.
Arguments memory {S} o.

Section operations.

Context {S : Type} `{SystemCalls S} `{Uninitialised}.

Abbreviation M := (M exn (state Z (object S))).

Definition on_memory {A} (k : Prelude.M exn (machine S) A) : M A :=
  on_sub (zoom memory (fun m o => Object (dut o) m) k).

Definition can_receive_request (o : object S) : bool := icache_req_valid (dut o).

(** The two [catch] clauses; the response's data is a [uint32_t]. *)
Definition handle (address : Z) (k : M unit) : M unit :=
  try_catch k (fun e =>
    match e with
    | PageFault _ | AccessFault _ =>
        match get_exception_code e MEM_FETCH with
        | Some (Ok code) => Some (queue_response (u32 address) code)
        | _ => Some (fail AssertFail)
        end
    | _ => None
    end).

Definition get_request : M unit :=
  o ← gets sub;
  assert_that (can_receive_request o);;
  let d := dut o in
  let address := Z.land (icache_req_pc d) (u64 (Z.lnot 0x3)) in
  handle address
    (let atp := icache_req_atp d in
     physical ← (if ATP.mode atp =? ATP_MODE_BARE then mret address
                 else on_memory (PageTableWalkerSv39.translate address MEM_FETCH
                        (icache_req_prv d) (icache_req_sum d) false atp));
     handle physical
       (instruction ← on_memory (read32 physical);
        queue_response instruction EXC_CAUSE_NONE)).

Definition can_send_response (o : object S) : bool := true.

(** The response stays valid when there is an exception. *)
Definition send_response (r : MemoryResponse Z) : Prelude.M exn (object S) (MemoryResponse Z) :=
  let ex := negb (exception r =? EXC_CAUSE_NONE) in
  modify (fun o =>
    let d := dut o in
    Object (set_response true (data r) ex (if ex then exception r else icache_resp_ex_code d) d)
      (memory o));;
  mret (Response (time r) (data r) (exception r) true).

Definition clear_response : Prelude.M exn (object S) unit :=
  modify (fun o =>
    let d := dut o in
    Object (set_response false (icache_resp_instr d) false (icache_resp_ex_code d) d) (memory o)).

#[global] Instance methods : Methods Z (object S) := {
  MemoryPort.can_receive_request := can_receive_request;
  MemoryPort.get_request := get_request;
  MemoryPort.can_send_response := can_send_response;
  MemoryPort.send_response := send_response;
  MemoryPort.clear_response := clear_response;
}.

End operations.

End InstructionCachePort.
