(* ===== verification/InstructionCacheTheorems.v ===== *)
(** * The instruction cache port refines its specification: theorems *)

From S2P Require Import Prelude Exceptions VirtualAddressing FlatMemory MainMemory.
From S2P Require Import MainMemoryFacts PageTableWalker PageTableWalkerFacts.
From S2P Require Import PageTableWalkerTheorems MemoryPort InstructionCachePort.

Import MainMemory MemoryPort InstructionCachePort Sv39Spec.

(** ** Specification of a fetch *)

(** The 4-byte block that holds the program counter. *)
Definition fetch_address (d : signals) : Z := icache_req_pc d - icache_req_pc d mod 4.

Definition fetch_ok (d : signals) : Prop :=
  in_width 64 (icache_req_pc d)
  /\ (ATP.mode (icache_req_atp d) = ATP_MODE_BARE \/ ATP.mode (icache_req_atp d) = Sv39.ATP_MODE).

Definition fetch_translation (d : signals) (m : FlatMemory.memory) : Z -> Z -> Z -> Prop :=
  translation m (fetch_address d) MEM_FETCH (icache_req_prv d) (icache_req_sum d) false
    (icache_req_atp d).

(** The word, the exception and the memory that a fetch answers; a fault's data
    are the low 32 bits of the address. *)
Inductive fetches (d : signals) (m : FlatMemory.memory)
    : Z -> Z -> FlatMemory.memory -> Prop :=
  | fetches_bare :
      ATP.mode (icache_req_atp d) = ATP_MODE_BARE ->
      fetch_address d + 3 <= Sv39.MAX_PHYSICAL_ADDRESS ->
      fetches d m (le_value (flat_read m (fetch_address d) 4)) EXC_CAUSE_NONE m
  | fetches_access_fault :
      ATP.mode (icache_req_atp d) = ATP_MODE_BARE ->
      Sv39.MAX_PHYSICAL_ADDRESS < fetch_address d + 3 ->
      fetches d m (u32 (fetch_address d)) EXC_CAUSE_INSTR_ACCESS_FAULT m
  | fetches_sv39 pa pte_address pte m1 :
      ATP.mode (icache_req_atp d) = Sv39.ATP_MODE ->
      fetch_translation d m pa pte_address pte ->
      m1 ≡ₘ (if decide (marked false pte = pte) then m
             else flat_write m pte_address (le_bytes 8 (marked false pte))) ->
      fetches d m (le_value (flat_read m1 (u32 pa) 4)) EXC_CAUSE_NONE m1
  | fetches_page_fault :
      ATP.mode (icache_req_atp d) = Sv39.ATP_MODE ->
      (forall pa pte_address pte, ~ fetch_translation d m pa pte_address pte) ->
      fetches d m (u32 (fetch_address d)) EXC_CAUSE_INSTR_PAGE_FAULT m.

Section implementation.

Context {S : Type} `{SystemCalls S} `{Uninitialised}.

Implicit Types (o : object S) (p : port Z) (m : machine S).

Definition plain_fetch (o : object S) : Prop :=
  forall pa pte_address pte v, fetch_translation (dut o) (byte_at (memory o)) pa pte_address pte ->
    is_system_call (host (memory o)) pte_address v = false.

Definition answered (p : port Z) (data exception : Z) (o' : object S) : state Z (object S) :=
  State (push (Response (u64 (current_cycle p + latency p)) data exception false) p) o'.

(** ** Lemmas *)

Lemma fetch_address_mask d :
  in_width 64 (icache_req_pc d) -> Z.land (icache_req_pc d) (u64 (Z.lnot 3)) = fetch_address d.
Proof.
  intros Hpc. unfold fetch_address. set (pc := icache_req_pc d) in *.
  transitivity (Z.shiftl (Z.shiftr pc 2) 2).
  - by_bits i. rewrite Z.shiftl_spec, Z.land_spec by lia. unfold u64, wrap.
    destruct (decide (i < 64)).
    + rewrite Z.mod_pow2_bits_low, Z.lnot_spec by lia. change 3 with (Z.ones 2).
      rewrite Z.testbit_ones_nonneg by lia. destruct (Z.ltb_spec i 2); simpl.
      * by rewrite andb_false_r, Z.testbit_neg_r by lia.
      * rewrite andb_true_r, Z.shiftr_spec by lia. f_equal. lia.
    + rewrite Z.shiftr_spec by lia. replace (i - 2 + 2) with i by lia.
      by rewrite (testbit_above 64 pc) by width.
  - rewrite Z.shiftl_mul_pow2, Z.shiftr_div_pow2 by lia. change (2 ^ 2) with 4.
    pose proof (Z.div_mod pc 4 ltac:(lia)). lia.
Qed.

Lemma fetch_address_range d :
  in_width 64 (icache_req_pc d) -> 0 <= fetch_address d <= 2 ^ 64 - 4.
Proof.
  intros Hpc. unfold fetch_address. pose proof (Z.mod_pos_bound (icache_req_pc d) 4 ltac:(lia)).
  pose proof (Z.div_mod (icache_req_pc d) 4 ltac:(lia)). width.
Qed.

Lemma on_fetch_memory_run {A} (k : Prelude.M exn (machine S) A) p o r m :
  k (memory o) = (r, m) -> on_memory k (State p o) = (r, State p (Object (dut o) m)).
Proof. intros Hk. unfold on_memory, on_sub, zoom. cbn. by rewrite Hk. Qed.

(** The fetch at a physical address. *)
Lemma fetch_run pa p o :
  in_width 64 pa -> u64 (pa + 4 - 1) <= Sv39.MAX_PHYSICAL_ADDRESS ->
  exists m, (instruction ← on_memory (read32 pa); queue_response instruction EXC_CAUSE_NONE)
        (State p o)
      = (Ok tt, answered p (le_value (flat_read (byte_at (memory o)) pa 4)) EXC_CAUSE_NONE
                  (Object (dut o) m))
    /\ unchanged (memory o) m.
Proof.
  intros Hpa Hmax. destruct (read_scalar_ok (memory o) pa 4) as (m & Hrun & Hun);
    [done|rewrite PAGE_SIZE_eq; lia|done|].
  exists m. split; [|done]. by erewrite bind_ok by by apply on_fetch_memory_run.
Qed.

Lemma fetch_handle_ok a (k : M exn (state Z (object S)) unit) s s' :
  k s = (Ok tt, s') -> handle a k s = (Ok tt, s').
Proof. intros Hk. unfold handle, try_catch. by rewrite Hk. Qed.

(** A translated fetch stays below 4 GiB. *)
Lemma fetch_below pa : in_width 32 pa -> in_width 64 pa /\ u64 (pa + 4 - 1) <= Sv39.MAX_PHYSICAL_ADDRESS.
Proof.
  intros. change Sv39.MAX_PHYSICAL_ADDRESS with (2 ^ 56 - 1). unfold u64.
  rewrite wrap_small by width. width.
Qed.

(** Running [get_request], given the translation. *)
Lemma get_request_bare p o :
  icache_req_valid (dut o) = true -> in_width 64 (icache_req_pc (dut o)) ->
  ATP.mode (icache_req_atp (dut o)) = ATP_MODE_BARE ->
  exists data e m, get_request (State p o) = (Ok tt, answered p data e (Object (dut o) m))
    /\ fetches (dut o) (byte_at (memory o)) data e (byte_at (memory o)) /\ unchanged (memory o) m.
Proof.
  intros Hvalid Hpc Hbare. pose proof (fetch_address_range _ Hpc) as Ha.
  assert (Hlast : u64 (fetch_address (dut o) + 4 - 1) = fetch_address (dut o) + 3).
  { unfold u64. rewrite wrap_small by lia. lia. }
  unfold get_request. erewrite bind_ok by done. cbn [sub]. unfold can_receive_request.
  rewrite Hvalid. erewrite bind_ok by done. rewrite fetch_address_mask by done.
  rewrite Hbare, Z.eqb_refl.
  destruct (decide (fetch_address (dut o) + 3 <= Sv39.MAX_PHYSICAL_ADDRESS)) as [Hin|Hout].
  - destruct (fetch_run (fetch_address (dut o)) p o) as (m & Hrun & Hun); [width|lia|].
    eexists _, _, m. split; [|split; [by apply fetches_bare|done]].
    apply fetch_handle_ok. erewrite bind_ok by done. by apply fetch_handle_ok.
  - eexists _, _, (memory o). split; [|split; [apply fetches_access_fault; [done|lia]|apply unchanged_refl]].
    apply fetch_handle_ok. erewrite bind_ok by done. unfold handle, try_catch.
    erewrite bind_throw by (apply on_fetch_memory_run, read_scalar_fault; lia). by destruct o.
Qed.

Lemma get_request_sv39 p o m pa :
  icache_req_valid (dut o) = true -> in_width 64 (icache_req_pc (dut o)) ->
  ATP.mode (icache_req_atp (dut o)) = Sv39.ATP_MODE -> in_width 32 pa ->
  PageTableWalkerSv39.translate (fetch_address (dut o)) MEM_FETCH (icache_req_prv (dut o))
    (icache_req_sum (dut o)) false (icache_req_atp (dut o)) (memory o) = (Ok pa, m) ->
  exists m', get_request (State p o)
      = (Ok tt, answered p (le_value (flat_read (byte_at m) pa 4)) EXC_CAUSE_NONE (Object (dut o) m'))
    /\ unchanged m m'.
Proof.
  intros Hvalid Hpc Hmode Hpa Htr. destruct (fetch_below pa Hpa) as [Hw Hmax].
  unfold get_request. erewrite bind_ok by done. cbn [sub]. unfold can_receive_request.
  rewrite Hvalid. erewrite bind_ok by done. rewrite fetch_address_mask, Hmode by done.
  destruct (fetch_run pa p (Object (dut o) m) Hw Hmax) as (m' & Hrun & Hun).
  exists m'. split; [|done]. apply fetch_handle_ok.
  erewrite bind_ok by by apply on_fetch_memory_run. by apply fetch_handle_ok.
Qed.

Lemma get_request_page_fault p o m a :
  icache_req_valid (dut o) = true -> in_width 64 (icache_req_pc (dut o)) ->
  ATP.mode (icache_req_atp (dut o)) = Sv39.ATP_MODE ->
  PageTableWalkerSv39.translate (fetch_address (dut o)) MEM_FETCH (icache_req_prv (dut o))
    (icache_req_sum (dut o)) false (icache_req_atp (dut o)) (memory o) = (Throw (PageFault a), m) ->
  get_request (State p o)
    = (Ok tt, answered p (u32 (fetch_address (dut o))) EXC_CAUSE_INSTR_PAGE_FAULT (Object (dut o) m)).
Proof.
  intros Hvalid Hpc Hmode Htr.
  unfold get_request. erewrite bind_ok by done. cbn [sub]. unfold can_receive_request.
  rewrite Hvalid. erewrite bind_ok by done. rewrite fetch_address_mask, Hmode by done.
  unfold handle at 1, try_catch. by erewrite bind_throw by by apply on_fetch_memory_run.
Qed.

(** C25: Refinement of the instruction cache port. Every fetch is answered by one
    response: the little-endian word of the 4-byte block that holds the program
    counter, at the translated address, after setting the accessed bit; or a
    page fault when there is no translation, or an access fault when an
    untranslated block is out of range. *)
Theorem icache_refines_spec p o :
  icache_req_valid (dut o) = true -> fetch_ok (dut o) -> plain_fetch o ->
  exists data e (m2 : FlatMemory.memory) o',
    get_request (State p o) = (Ok tt, answered p data e o')
    /\ fetches (dut o) (byte_at (memory o)) data e m2
    /\ byte_at (memory o') ≡ₘ m2 /\ dut o' = dut o.
Proof.
  intros Hvalid [Hpc [Hmode|Hmode]] Hplain.
  - destruct (get_request_bare p o Hvalid Hpc Hmode) as (data & e & m & Hrun & Hf & Hun).
    exists data, e, (byte_at (memory o)), (Object (dut o) m). split; [done|]. split; [done|].
    split; [by apply unchanged_bytes|done].
  - destruct (translate_run (memory o) (fetch_address (dut o)) MEM_FETCH (icache_req_prv (dut o))
                (icache_req_sum (dut o)) false (icache_req_atp (dut o)) Hmode)
      as [(pa & A & pte & m & Ht & Hrun & Hm)|[Hno (m & Hrun & Hun)]].
    { intros pa A pte v. apply Hplain. }
    + destruct (get_request_sv39 p o m (u32 pa) Hvalid Hpc Hmode) as (m' & Hreq & Hun);
        [by apply wrap_bound|done|].
      eexists _, _, (byte_at m), (Object (dut o) m'). split; [exact Hreq|].
      split; [|split; [by apply unchanged_bytes|done]].
      eapply fetches_sv39; [done|exact Ht|].
      change (PageTableWalkerSv39.is_write MEM_FETCH) with false in Hm.
      case_decide; [by apply unchanged_bytes|by apply (updated_bytes _ _ _ _ Hm)].
    + eexists _, _, (byte_at (memory o)), (Object (dut o) m).
      split; [by eapply get_request_page_fault|].
      split; [by apply fetches_page_fault|]. split; [by apply unchanged_bytes|done].
Qed.

#[export] Instance icache_laws `{!SystemCallsOk S} : Laws Z (object S).
Proof.
  refine {| serviceable o := fetch_ok (dut o) |}.
  - intros [p o] Hr [Hpc [Hmode|Hmode]]; cbn in Hr, Hpc, Hmode.
    + destruct (get_request_bare p o Hr Hpc Hmode) as (data & e & m & Hrun & _).
      exists data, e, (Object (dut o) m). split; [exact Hrun|]. split; [done|by left].
    + destruct (translate_completes (memory o) (fetch_address (dut o)) MEM_FETCH
        (icache_req_prv (dut o)) (icache_req_sum (dut o)) false (icache_req_atp (dut o)) Hmode)
        as (r & m & Hrun & [(pa & -> & Hpa)| ->]).
      * destruct (get_request_sv39 p o m pa Hr Hpc Hmode Hpa Hrun) as (m' & Hreq & _).
        eexists _, _, (Object (dut o) m'). split; [exact Hreq|]. split; [done|by right].
      * eexists _, _, (Object (dut o) m). split; [by eapply get_request_page_fault|].
        split; [done|by right].
  - done.
  - intros r o Hs. eexists. split; [reflexivity|exact Hs].
  - intros o Hs. eexists. split; [reflexivity|exact Hs].
Defined.

End implementation.

(** ** Witness: a fetch at 0x1002 translated through the superpage table of
    the page table walker's witness, which does not allow execution. *)

#[local] Existing Instance zeroed.

Definition fetch_signals (pc : Z) : signals :=
  Signals true pc false false giga_atp false 0 false 0.

Lemma icache_refines_spec_witness :
  exists data e (m2 : FlatMemory.memory) o',
    get_request (State (make 10) (Object (fetch_signals (4 * 2 ^ 30 + 2)) giga_machine))
      = (Ok tt, answered (make 10) data e o')
    /\ fetches (fetch_signals (4 * 2 ^ 30 + 2)) (byte_at giga_machine) data e m2
    /\ byte_at (memory o') ≡ₘ m2 /\ dut o' = fetch_signals (4 * 2 ^ 30 + 2).
Proof.
  apply (icache_refines_spec (make 10) (Object (fetch_signals (4 * 2 ^ 30 + 2)) giga_machine));
    [reflexivity| |by intros ? ? ? ?]. split; [done|by right].
Defined.
