(* ===== verification/ArgumentParser.v ===== *)
(** * Command line arguments

    [argument_parser.h]/[argument_parser.cc]. A [char*] of [argv] is a string;
    [argv[argc]] is the null pointer that ends the array of [main]. *)

From S2P Require Import Prelude Exceptions.
From stdpp Require Import sorting.
From Stdlib Require Import Ascii.
Open Scope string_scope.

Module ArgumentParser.

Inductive NumArgs : Type := ARGS_NONE | ARGS_ONE | ARGS_REMAINING.

#[global] Instance NumArgs_eq_dec : EqDecision NumArgs.
Proof. solve_decision. Defined.

Record ArgInfo : Type := Info { description : string; args : NumArgs }.

(** The private fields; [std::map] is a finite map. *)
Record parser : Type := Parser {
  program_description : string;
  arg_info : gmap string ArgInfo;
  args_found : gmap string string;
  args_parsed : Z;
}.

Abbreviation M := (M exn parser).

(** The constructor. *)
Definition make : parser := Parser "" ∅ ∅ 0.

Definition set_description (description : string) (p : parser) : parser :=
  Parser description (arg_info p) (args_found p) (args_parsed p).

Definition add_argument (name description : string) (args : NumArgs) (p : parser) : parser :=
  Parser (program_description p) (<[name := Info description args]> (arg_info p))
    (args_found p) (args_parsed p).

Definition set_args_parsed (n : Z) (p : parser) : parser :=
  Parser (program_description p) (arg_info p) (args_found p) n.

Definition set_found (name value : string) (p : parser) : parser :=
  Parser (program_description p) (arg_info p) (<[name := value]> (args_found p)) (args_parsed p).

(** [string(argv[i])]: undefined on the null pointer and past the array. *)
Definition argument (argv : list string) (i : Z) : M string :=
  match argv !! Z.to_nat i with
  | Some s => mret s
  | None => fail Undefined
  end.

(** [--arg=X] is split at the first "=". *)
Definition split_argument (arg : string) : string * string :=
  match String.index 0 "=" arg with
  | Some n => (String.substring 0 n arg, String.substring (n + 1) (String.length arg) arg)
  | None => (arg, "")
  end.

(** The inner loop for [ARGS_REMAINING]. *)
Fixpoint collect_remaining (fuel : nat) (argc : Z) (argv : list string) (value : string) : M string :=
  n ← gets args_parsed;
  if (n <? argc)%Z then
    match fuel with
    | O => fail OutOfFuel
    | S fuel =>
        arg ← argument argv n;
        modify (set_args_parsed (n + 1));;
        collect_remaining fuel argc argv (value ++ " " ++ arg)
    end
  else mret value.

(** The loop of [parse_args]. *)
Fixpoint parse_loop (fuel : nat) (argc : Z) (argv : list string) : M unit :=
  n ← gets args_parsed;
  if (n <? argc)%Z then
    match fuel with
    | O => fail OutOfFuel
    | S fuel =>
        arg ← argument argv n;
        let '(name, value) := split_argument arg in
        found ← gets (fun p => arg_info p !! name);
        match found with
        | None => mret tt
        | Some info =>
            modify (set_args_parsed (n + 1));;
            value ← (if bool_decide (args info = ARGS_ONE) && bool_decide (value = "") then
                       v ← argument argv (n + 1);
                       modify (set_args_parsed (n + 2));;
                       mret v
                     else if bool_decide (args info = ARGS_REMAINING) then
                       collect_remaining (length argv) argc argv value
                     else mret value);
            modify (set_found name value);;
            parse_loop fuel argc argv
        end
    end
  else mret tt.

Definition parse_args (argc : Z) (argv : list string) : M unit :=
  modify (set_args_parsed 0);;
  parse_loop (length argv) argc argv.

Definition get_args_parsed (p : parser) : Z := args_parsed p.

Definition found_arg (name : string) (p : parser) : bool :=
  bool_decide (is_Some (args_found p !! name)).

(** [args_found.at(name)]. *)
Definition get_arg (name : string) : M string :=
  found ← gets (fun p => args_found p !! name);
  match found with
  | Some value => mret value
  | None => throw std_out_of_range
  end.

(** [print_help]: what it prints; the map is iterated in the order of its keys. *)
Definition newline : string := String (ascii_of_nat 10) "".

Definition help_entry (x : string * ArgInfo) : string :=
  "  " ++ fst x ++ (if bool_decide (args (snd x) = ARGS_ONE) then " X" else "") ++ newline
  ++ "        " ++ description (snd x) ++ newline.

Definition key_le (x y : string * ArgInfo) : Prop := String.leb (fst x) (fst y) = true.
#[global] Instance key_le_dec : RelDecision key_le.
Proof. intros x y. unfold key_le. apply _. Defined.

Definition print_help (p : parser) : string :=
  program_description p ++ newline ++ newline ++ "Arguments:" ++ newline
  ++ String.concat "" (help_entry <$> merge_sort key_le (map_to_list (arg_info p))).

End ArgumentParser.
