(* ===== verification/ArgumentParserTheorems.v ===== *)
(** * Command line arguments: theorems *)

From Stdlib Require Import Ascii.
From S2P Require Import Prelude Exceptions ArgumentParser.
Open Scope string_scope.

Import ArgumentParser.

(** ** Specification: the grammar of the command line *)

Section grammar.

Variable info : gmap string ArgInfo.

(** The values of [ARGS_REMAINING]: each preceded by a space. *)
Definition join_remaining (value : string) (rest : list string) : string :=
  foldl (fun v a => v ++ " " ++ a) value rest.

(** [parses argv found found' rest]: the arguments [argv] are recorded in
    [found'], up to the first unknown one, which starts [rest]. *)
Inductive parses : list string -> gmap string string -> gmap string string -> list string -> Prop :=
  | parses_end found : parses [] found found []
  | parses_unknown arg argv found :
      info !! fst (split_argument arg) = None -> parses (arg :: argv) found found (arg :: argv)
  | parses_flag arg argv name value i found found' rest :
      split_argument arg = (name, value) -> info !! name = Some i ->
      args i = ARGS_NONE \/ (args i = ARGS_ONE /\ value <> "") ->
      parses argv (<[name := value]> found) found' rest ->
      parses (arg :: argv) found found' rest
  | parses_value arg value argv name i found found' rest :
      split_argument arg = (name, "") -> info !! name = Some i -> args i = ARGS_ONE ->
      parses argv (<[name := value]> found) found' rest ->
      parses (arg :: value :: argv) found found' rest
  | parses_remaining arg argv name value i found :
      split_argument arg = (name, value) -> info !! name = Some i -> args i = ARGS_REMAINING ->
      parses (arg :: argv) found (<[name := join_remaining value argv]> found) [].

(** The command line ends where a value is expected. *)
Inductive lacks_value : list string -> Prop :=
  | lacks_last arg name i :
      split_argument arg = (name, "") -> info !! name = Some i -> args i = ARGS_ONE ->
      lacks_value [arg]
  | lacks_flag arg argv name value i :
      split_argument arg = (name, value) -> info !! name = Some i ->
      args i = ARGS_NONE \/ (args i = ARGS_ONE /\ value <> "") ->
      lacks_value argv -> lacks_value (arg :: argv)
  | lacks_later arg value argv name i :
      split_argument arg = (name, "") -> info !! name = Some i -> args i = ARGS_ONE ->
      lacks_value argv -> lacks_value (arg :: value :: argv).

End grammar.

(** ** Lemmas *)

Section lemmas.

Implicit Types (p : parser) (argv : list string).

Definition at_position (p : parser) (n : nat) : parser := set_args_parsed (Z.of_nat n) p.

Lemma argument_run argv i p :
  argument argv (Z.of_nat i) p = match argv !! i with Some s => (Ok s, p) | None => (Undefined, p) end.
Proof. unfold argument. rewrite Nat2Z.id. by destruct (argv !! i). Qed.

Lemma collect_remaining_run fuel argv value n p :
  (n <= length argv)%nat -> (length argv - n <= fuel)%nat ->
  collect_remaining fuel (Z.of_nat (length argv)) argv value (at_position p n)
    = (Ok (join_remaining value (drop n argv)), at_position p (length argv)).
Proof.
  revert value n. induction fuel as [|fuel IH]; intros value n Hn Hfuel; cbn [collect_remaining];
    erewrite bind_ok by done; cbn [args_parsed at_position set_args_parsed].
  - assert (n = length argv) as -> by lia. by rewrite Z.ltb_irrefl, drop_all.
  - destruct (Z.ltb_spec (Z.of_nat n) (Z.of_nat (length argv))).
    + destruct (lookup_lt_is_Some_2 argv n) as [s Hs]; [lia|].
      erewrite bind_ok by (rewrite argument_run, Hs; done). erewrite bind_ok by done.
      replace (set_args_parsed _ _) with (at_position p (S n))
        by (unfold at_position, set_args_parsed; cbn; f_equal; lia).
      rewrite IH by lia. by rewrite (drop_S argv s n Hs).
    + assert (n = length argv) as -> by lia. by rewrite drop_all.
Qed.

(** What parsing from position [n] must come to. *)
Definition parse_outcome p argv (n : nat) (found : gmap string string)
    (r : outcome exn unit * parser) : Prop :=
  (exists found' rest,
     parses (arg_info p) (drop n argv) found found' rest
     /\ (exists k, rest = drop k argv /\ (k <= length argv)%nat
          /\ r = (Ok tt, Parser (program_description p) (arg_info p) found' (Z.of_nat k))))
  \/ (lacks_value (arg_info p) (drop n argv) /\ exists p', r = (Undefined, p')).

Section outcomes.

Variables (p : parser) (argv : list string) (n : nat) (arg name : string) (i : ArgInfo).
Hypotheses (Harg : argv !! n = Some arg) (Hinfo : arg_info p !! name = Some i).

Lemma outcome_end found :
  parse_outcome p argv (length argv) found
    (Ok tt, Parser (program_description p) (arg_info p) found (Z.of_nat (length argv))).
Proof using Type.
  left. rewrite drop_all. exists found, []. split; [constructor|]. exists (length argv).
  by rewrite drop_all.
Qed.

Lemma outcome_unknown found :
  arg_info p !! fst (split_argument arg) = None ->
  parse_outcome p argv n found
    (Ok tt, Parser (program_description p) (arg_info p) found (Z.of_nat n)).
Proof using Harg.
  intros Hno. left. exists found, (drop n argv). rewrite (drop_S argv arg n Harg).
  split; [by apply parses_unknown|]. exists n. rewrite (drop_S argv arg n Harg).
  apply lookup_lt_Some in Harg. split; [done|]. split; [lia|done].
Qed.

Lemma outcome_flag value found r :
  split_argument arg = (name, value) ->
  args i = ARGS_NONE \/ (args i = ARGS_ONE /\ value <> "") ->
  parse_outcome p argv (S n) (<[name := value]> found) r -> parse_outcome p argv n found r.
Proof using Harg Hinfo.
  intros Hs Ha [(found' & rest & Hp & Hk)|[Hl Hu]]; [left|right]; rewrite (drop_S argv arg n Harg).
  - exists found', rest. split; [|exact Hk]. by eapply parses_flag.
  - split; [|exact Hu]. by eapply lacks_flag.
Qed.

Lemma outcome_value value found r :
  split_argument arg = (name, "") -> args i = ARGS_ONE -> argv !! S n = Some value ->
  parse_outcome p argv (S (S n)) (<[name := value]> found) r -> parse_outcome p argv n found r.
Proof using Harg Hinfo.
  intros Hs Ha Hv [(found' & rest & Hp & Hk)|[Hl Hu]]; [left|right];
    rewrite (drop_S argv arg n Harg), (drop_S argv value (S n) Hv).
  - exists found', rest. split; [|exact Hk]. by eapply parses_value.
  - split; [|exact Hu]. by eapply lacks_later.
Qed.

Lemma outcome_no_value p' found :
  split_argument arg = (name, "") -> args i = ARGS_ONE -> argv !! S n = None ->
  parse_outcome p argv n found (Undefined, p').
Proof using Harg Hinfo.
  intros Hs Ha Hv%lookup_ge_None_1. right. rewrite (drop_S argv arg n Harg), drop_ge by lia.
  split; [by eapply lacks_last|eauto].
Qed.

Lemma outcome_remaining value found r :
  split_argument arg = (name, value) -> args i = ARGS_REMAINING ->
  parse_outcome p argv (length argv) (<[name := join_remaining value (drop (S n) argv)]> found) r ->
  parse_outcome p argv n found r.
Proof using Harg Hinfo.
  intros Hs Ha [(found' & rest & Hp & Hk)|[Hl Hu]]; rewrite drop_all in *; [|by inversion Hl].
  inversion Hp; subst. left. rewrite (drop_S argv arg n Harg).
  eexists _, []. split; [by eapply parses_remaining|exact Hk].
Qed.

End outcomes.

Lemma parse_loop_run fuel argv n p :
  (n <= length argv)%nat -> (length argv - n <= fuel)%nat ->
  parse_outcome p argv n (args_found p)
    (parse_loop fuel (Z.of_nat (length argv)) argv (at_position p n)).
Proof.
  revert n p. induction fuel as [|fuel IH]; intros n p Hn Hfuel; cbn [parse_loop];
    erewrite bind_ok by done; cbn [args_parsed at_position set_args_parsed].
  { assert (n = length argv) as -> by lia. rewrite Z.ltb_irrefl. apply outcome_end. }
  destruct (Z.ltb_spec (Z.of_nat n) (Z.of_nat (length argv))) as [Hlt|Hge];
    [|assert (n = length argv) as -> by lia; apply outcome_end].
  destruct (lookup_lt_is_Some_2 argv n) as [arg Harg]; [lia|].
  erewrite bind_ok by (rewrite argument_run, Harg; done).
  destruct (split_argument arg) as [name value] eqn:Hsplit.
  erewrite bind_ok by done. change (arg_info (at_position p n)) with (arg_info p).
  destruct (arg_info p !! name) as [i|] eqn:Hinfo;
    [|apply (outcome_unknown _ _ _ _ Harg); by rewrite Hsplit].
  erewrite bind_ok by done.
  replace (Z.of_nat n + 1)%Z with (Z.of_nat (S n)) by lia.
  replace (Z.of_nat n + 2)%Z with (Z.of_nat (S (S n))) by lia.
  destruct (args i) eqn:Hargs; cbn [andb].
  - do 2 (erewrite bind_ok by done). eapply outcome_flag; eauto.
    apply (IH (S n) (set_found name value p)); lia.
  - change (bool_decide (ARGS_ONE = ARGS_ONE)) with true. cbn [andb].
    destruct (decide (value = "")) as [->|Hv].
    + change (bool_decide ("" = "")) with true. cbv iota. rewrite bind_run.
      destruct (argv !! S n) as [v|] eqn:Hnext.
      * erewrite bind_ok by (rewrite argument_run, Hnext; done). erewrite bind_ok by done.
        cbn [mret M_ret]. erewrite bind_ok by done.
        pose proof (lookup_lt_Some _ _ _ Hnext). eapply outcome_value; eauto.
        apply (IH (S (S n)) (set_found name v p)); lia.
      * unfold mbind at 1, M_bind at 1. rewrite argument_run, Hnext. by eapply outcome_no_value.
    + rewrite (bool_decide_false (value = "")) by done.
      do 2 (erewrite bind_ok by done). eapply outcome_flag; eauto.
      apply (IH (S n) (set_found name value p)); lia.
  - erewrite bind_ok by (apply (collect_remaining_run _ _ _ (S n)); lia).
    erewrite bind_ok by done. eapply outcome_remaining; eauto.
    apply (IH (length argv) (set_found name _ p)); lia.
Qed.

(** ** Splitting at "=" *)

(** No character of the string is "=". *)
Fixpoint no_equals (s : string) : bool :=
  match s with
  | EmptyString => true
  | String c s => negb (Ascii.eqb c "="%char) && no_equals s
  end.

Lemma index_equals name value :
  no_equals name = true -> String.index 0 "=" (name ++ "=" ++ value) = Some (String.length name).
Proof.
  induction name as [|c name IH]; intros Hno; [by destruct value|].
  simpl in Hno. apply andb_true_iff in Hno as [Hc Hno]. apply negb_true_iff, Ascii.eqb_neq in Hc.
  change (String c name ++ ?t) with (String c (name ++ t)).
  cbn [String.index String.prefix]. destruct (Ascii.ascii_dec "=" c) as [<-|_]; [done|].
  by rewrite (IH Hno).
Qed.

Lemma index_no_equals name : no_equals name = true -> String.index 0 "=" name = None.
Proof.
  induction name as [|c name IH]; intros Hno; [done|].
  simpl in Hno. apply andb_true_iff in Hno as [Hc Hno]. apply negb_true_iff, Ascii.eqb_neq in Hc.
  cbn [String.index String.prefix]. destruct (Ascii.ascii_dec "=" c) as [<-|_]; [done|].
  by rewrite (IH Hno).
Qed.

Lemma substring_prefix s t : String.substring 0 (String.length s) (s ++ t) = s.
Proof.
  induction s as [|c s IH]; [by destruct t|].
  change (String c s ++ t) with (String c (s ++ t)). simpl. by rewrite IH.
Qed.

Lemma substring_whole s k : (String.length s <= k)%nat -> String.substring 0 k s = s.
Proof.
  revert k. induction s as [|c s IH]; intros [|k] Hk; simpl in *; try done; try lia.
  by rewrite IH by lia.
Qed.

Lemma substring_suffix s t k :
  (String.length t <= k)%nat -> String.substring (String.length s) k (s ++ t) = t.
Proof. intros. induction s as [|c s IH]; [by apply substring_whole|exact IH]. Qed.

Lemma length_append s t : String.length (s ++ t) = (String.length s + String.length t)%nat.
Proof. induction s as [|c s IH]; [done|]. exact (f_equal S IH). Qed.

Lemma split_argument_equals name value :
  no_equals name = true -> split_argument (name ++ "=" ++ value) = (name, value).
Proof.
  intros Hno. unfold split_argument. rewrite index_equals by done.
  rewrite substring_prefix. f_equal.
  assert (Ha : name ++ "=" ++ value = (name ++ "=") ++ value)
    by (clear; induction name as [|c name IH]; [done|exact (f_equal (String c) IH)]).
  rewrite Ha. replace (String.length name + 1)%nat with (String.length (name ++ "="))
    by (rewrite length_append; done).
  apply substring_suffix. rewrite length_append. lia.
Qed.

Lemma split_argument_plain name : no_equals name = true -> split_argument name = (name, "").
Proof. intros Hno. unfold split_argument. by rewrite index_no_equals. Qed.

Lemma parses_deterministic info argv found f1 r1 f2 r2 :
  parses info argv found f1 r1 -> parses info argv found f2 r2 -> f1 = f2 /\ r1 = r2.
Proof.
  intros H1. revert f2 r2. induction H1 as [|? ? ? Hn|? ? ? ? ? ? ? ? Hs Hi Ha _ IH
    |? ? ? ? ? ? ? ? Hs Hi Ha _ IH|? ? ? ? ? ? Hs Hi Ha]; intros f2 r2 H2;
    inversion H2; subst; simplify_eq.
  all: repeat match goal with
       | H : split_argument ?a = _, H' : context [split_argument ?a] |- _ =>
           rewrite H in H'; simplify_eq/=
       end; try done; try congruence;
       try match goal with
       | IH : forall f r, parses _ _ _ f r -> _, H : parses _ _ _ _ _ |- _ => exact (IH _ _ H)
       end; intuition congruence.
Qed.

(** The cases of the two spellings of an argument. *)
Ltac split_cases :=
  repeat match goal with
  | H : split_argument ?a = _, H' : context [split_argument ?a] |- _ =>
      rewrite H in H'; simplify_eq/=
  end; try done; try congruence.

Lemma parses_not_lacks info argv found f r : parses info argv found f r -> ~ lacks_value info argv.
Proof.
  induction 1; intros Hl; inversion Hl; subst; split_cases; intuition congruence.
Qed.

Section spellings.

Variables (info : gmap string ArgInfo) (name value : string) (argv : list string) (i : ArgInfo).
Hypotheses (Hi : info !! name = Some i) (Ha : args i = ARGS_ONE)
  (Hno : no_equals name = true) (Hv : value <> "").

#[local] Set Default Proof Using "All".

Lemma equals_parses found f r :
  parses info ((name ++ "=" ++ value) :: argv) found f r <->
  parses info argv (<[name := value]> found) f r.
Proof.
  pose proof (split_argument_equals name value Hno) as Hs. split; intros Hp.
  - inversion Hp; subst; split_cases.
  - eapply parses_flag; eauto.
Qed.

Lemma space_parses found f r :
  parses info (name :: value :: argv) found f r <->
  parses info argv (<[name := value]> found) f r.
Proof.
  pose proof (split_argument_plain name Hno) as Hs. split; intros Hp.
  - inversion Hp; subst; split_cases. intuition congruence.
  - eapply parses_value; eauto.
Qed.

Lemma equals_lacks : lacks_value info ((name ++ "=" ++ value) :: argv) -> lacks_value info argv.
Proof.
  pose proof (split_argument_equals name value Hno) as Hs. intros Hl. inversion Hl; subst; split_cases.
Qed.

Lemma space_lacks : lacks_value info (name :: value :: argv) -> lacks_value info argv.
Proof.
  pose proof (split_argument_plain name Hno) as Hs. intros Hl.
  inversion Hl; subst; split_cases. intuition congruence.
Qed.

End spellings.

End lemmas.

(** ** Properties *)

Section theorems.

Implicit Types (p : parser) (argv : list string).


(** C40: The two spellings of an argument agree. For an argument that takes one
    value, parsing a command line that starts with [--arg=X] or with [--arg X]
    ([X] not empty) records the same values and stops at the same place, one
    position further for the second; or both run into the missing value at the
    end of the line. *)
Theorem equals_or_space p name value argv i :
  arg_info p !! name = Some i -> args i = ARGS_ONE -> no_equals name = true -> value <> "" ->
  let line1 := (name ++ "=" ++ value) :: argv in
  let line2 := name :: value :: argv in
  let r1 := parse_args (Z.of_nat (length line1)) line1 p in
  let r2 := parse_args (Z.of_nat (length line2)) line2 p in
  (exists p1 p2, r1 = (Ok tt, p1) /\ r2 = (Ok tt, p2)
     /\ args_found p1 = args_found p2 /\ args_parsed p2 = (args_parsed p1 + 1)%Z)
  \/ ((exists p1, r1 = (Undefined, p1)) /\ (exists p2, r2 = (Undefined, p2))).
Proof.
  intros Hi Ha Hno Hv line1 line2 r1 r2.
  assert (Hrun : forall l, parse_outcome p l 0 (args_found p) (parse_args (Z.of_nat (length l)) l p)).
  { intros l. unfold parse_args. erewrite bind_ok by done.
    apply (parse_loop_run (length l) l 0 p); lia. }
  destruct (Hrun line1) as [(f1 & t1 & Hp1 & k1 & Ht1 & Hk1 & Hr1)|[Hl1 Hu1]],
    (Hrun line2) as [(f2 & t2 & Hp2 & k2 & Ht2 & Hk2 & Hr2)|[Hl2 Hu2]]; rewrite ?drop_0 in *;
    [left| | |by right].
  - apply (equals_parses (arg_info p) name value argv i Hi Ha Hno Hv) in Hp1.
    apply (space_parses (arg_info p) name value argv i Hi Ha Hno Hv) in Hp2.
    destruct (parses_deterministic _ _ _ _ _ _ _ Hp1 Hp2) as [<- <-].
    eexists _, _. split; [exact Hr1|]. split; [exact Hr2|]. split; [done|]. cbn.
    apply (f_equal length) in Ht1, Ht2. rewrite !length_drop in *. cbn in *. lia.
  - apply (equals_parses (arg_info p) name value argv i Hi Ha Hno Hv) in Hp1.
    apply (space_lacks (arg_info p) name value argv i Hi Ha Hno Hv) in Hl2.
    by apply parses_not_lacks in Hp1.
  - apply (space_parses (arg_info p) name value argv i Hi Ha Hno Hv) in Hp2.
    apply (equals_lacks (arg_info p) name value argv i Hi Ha Hno Hv) in Hl1.
    by apply parses_not_lacks in Hp2.
Qed.

End theorems.

(** ** Witness *)

Definition timeout_parser : parser := add_argument "--timeout" "cycles" ARGS_ONE make.

Lemma equals_or_space_witness :
  let r1 := parse_args 2 ["--timeout=5"; "prog"] timeout_parser in
  let r2 := parse_args 3 ["--timeout"; "5"; "prog"] timeout_parser in
  (exists p1 p2, r1 = (Ok tt, p1) /\ r2 = (Ok tt, p2)
     /\ args_found p1 = args_found p2 /\ args_parsed p2 = (args_parsed p1 + 1)%Z)
  \/ ((exists p1, r1 = (Undefined, p1)) /\ (exists p2, r2 = (Undefined, p2))).
Proof.
  apply (equals_or_space timeout_parser "--timeout" "5" ["prog"] (Info "cycles" ARGS_ONE)); done.
Defined.
