(* ===== verification/BinaryParser.v ===== *)
(** * Loading of ELF binaries

    [binary_parser.h]/[binary_parser.cc]. A file is its list of bytes, given by
    the file system, which is a parameter; the structures of [elf.h] are parsed
    from little-endian fields at their standard offsets. *)

From S2P Require Import Prelude Exceptions VirtualAddressing FlatMemory MainMemory.
From Stdlib Require Import Ascii.

Import MainMemory.

(** What the program finds under a file name: [None] if it cannot be opened. *)
Class FileSystem : Type := {
  file_content : string -> option (list Z);
}.

Module BinaryParser.

(** ** Streams

    [ifstream]: the content of the open file, the position and the fail state. *)
Record ifstream : Type := Stream {
  content : list Z;
  position : Z;
  failed : bool;
}.

(** The constructor: a file that cannot be opened leaves the stream failed. *)
Definition open_file `{FileSystem} (filename : string) : ifstream :=
  match file_content filename with
  | Some bs => Stream bs 0 false
  | None => Stream [] 0 true
  end.

Abbreviation M := (M exn ifstream).

(** [seekg]: no effect on a failed stream; a negative offset fails. The argument
    is converted to the signed [streamoff]. *)
Definition seekg (offset : Z) : M unit :=
  modify (fun s =>
    if failed s then s
    else if s64 offset <? 0 then Stream (content s) (position s) true
    else Stream (content s) (s64 offset) false).

(** [read]: the bytes that there are; the stream fails when they are fewer than
    asked for. *)
Definition read (n : Z) : M (list Z) := fun s =>
  if failed s then (Ok [], s)
  else
    let bs := take (Z.to_nat n) (drop (Z.to_nat (position s)) (content s)) in
    let s' := Stream (content s) (position s + Z.of_nat (length bs))
                (Z.of_nat (length bs) <? n) in
    (Ok bs, s').

(** Reading a structure of [n] bytes: [None] when the stream did not fill it,
    and its fields keep indeterminate values. *)
Definition read_struct (n : Z) : M (option (list Z)) :=
  bs ← read n;
  mret (if Z.of_nat (length bs) =? n then Some bs else None).

(** Using the value of an indeterminate structure. *)
Definition determined {A} (o : option A) : M A :=
  match o with Some a => mret a | None => fail Undefined end.

(** The little-endian field of [n] bytes at offset [off]. *)
Definition field (bs : list Z) (off n : nat) : Z := le_value (take n (drop off bs)).

(** ** The structures of [elf.h] *)

Record Elf64_Ehdr : Type := Ehdr {
  e_machine : Z;
  e_entry : Z;
  e_shoff : Z;
  e_shentsize : Z;
  e_shnum : Z;
}.
Definition parse_Ehdr (bs : list Z) : Elf64_Ehdr :=
  Ehdr (field bs 18 2) (field bs 24 8) (field bs 40 8) (field bs 58 2) (field bs 60 2).

Record Elf64_Shdr : Type := Shdr {
  sh_type : Z;
  sh_flags : Z;
  sh_addr : Z;
  sh_offset : Z;
  sh_size : Z;
  sh_link : Z;
  sh_entsize : Z;
}.
Definition parse_Shdr (bs : list Z) : Elf64_Shdr :=
  Shdr (field bs 4 4) (field bs 8 8) (field bs 16 8) (field bs 24 8) (field bs 32 8)
    (field bs 40 4) (field bs 56 8).

Record Elf64_Sym : Type := Sym { st_name : Z; st_value : Z }.
Definition parse_Sym (bs : list Z) : Elf64_Sym := Sym (field bs 0 4) (field bs 8 8).

Definition EM_RISCV : Z := 0xf3.
Definition SHF_ALLOC : Z := 2.
Definition SHT_SYMTAB : Z := 2.
Definition SHT_NOBITS : Z := 8.

(** ** Reading the structures *)

Definition get_elf_header : M Elf64_Ehdr :=
  seekg 0;;
  bs ← read_struct 64;
  bs ← determined bs;
  let header := parse_Ehdr bs in
  if negb (e_machine header =? EM_RISCV)
  then throw (runtime_error "Received non-RISC-V binary")
  else mret header.

(** The product is an [int], whose overflow is undefined; [uint offset] truncates
    the position to 32 bits. *)
Definition get_section_header (elf_header : Elf64_Ehdr) (section : Z) : M (option Elf64_Shdr) :=
  assert_that (0 <=? section);;
  assert_that (section <? e_shnum elf_header);;
  let product := e_shentsize elf_header * section in
  (if product <? 2 ^ 31 then mret tt else fail Undefined);;
  let offset := u32 (u64 (e_shoff elf_header + product)) in
  seekg offset;;
  bs ← read_struct 64;
  mret (parse_Shdr <$> bs).

(** [int num_symbols = sh_size / sh_entsize]; a division by zero is undefined. *)
Definition num_symbols (section_header : Elf64_Shdr) : M Z :=
  if sh_entsize section_header =? 0 then fail Undefined
  else mret (s32 (sh_size section_header / sh_entsize section_header)).

Definition get_symbol (section_header : Elf64_Shdr) (symbol : Z) : M (option Elf64_Sym) :=
  n ← num_symbols section_header;
  assert_that (0 <=? symbol);;
  assert_that (symbol <? n);;
  let offset := u32 (u64 (sh_offset section_header + u64 (sh_entsize section_header * symbol))) in
  seekg offset;;
  bs ← read_struct 24;
  mret (parse_Sym <$> bs).

Section reading.

Context `{Uninitialised}.

(** The array is not initialised: bytes the file does not hold are unspecified. *)
Definition get_section (header : Elf64_Shdr) : M DataBlock :=
  let size := sh_size header in
  let offset := sh_offset header in
  seekg offset;;
  bs ← read size;
  let rest := garbage offset <$> seqZ (Z.of_nat (length bs)) (size - Z.of_nat (length bs)) in
  mret (Block (sh_addr header) size (bs ++ rest)).

(** The loop of [elf] over the sections from number [i]. *)
Fixpoint elf_sections (fuel : nat) (elf_header : Elf64_Ehdr) (i : Z) (blocks : list DataBlock)
    : M (list DataBlock) :=
  if i <? e_shnum elf_header then
    match fuel with
    | O => fail OutOfFuel
    | S fuel =>
        section_header ← get_section_header elf_header i;
        section_header ← determined section_header;
        if negb (Z.land (sh_flags section_header) SHF_ALLOC =? 0)
           && negb (sh_type section_header =? SHT_NOBITS)
        then
          data ← get_section section_header;
          elf_sections fuel elf_header (i + 1) (blocks ++ [data])
        else elf_sections fuel elf_header (i + 1) blocks
    end
  else mret blocks.

Definition elf_blocks : M (list DataBlock) :=
  elf_header ← get_elf_header;
  elf_sections (Z.to_nat (e_shnum elf_header)) elf_header 0 [].

(** [elf]: the stream is local to the function. *)
Definition elf `{FileSystem} (filename : string) : outcome exn (list DataBlock) :=
  fst (elf_blocks (open_file filename)).

(** ** Program arguments *)

Definition bytes_of_string (s : string) : list Z :=
  (fun c => Z.of_N (N_of_ascii c)) <$> String.list_ascii_of_string s.

(** Storing into the array of [arguments]; outside of it is undefined. *)
Definition store_at (offset : Z) (bs : list Z) : Prelude.M exn (list Z) unit := fun data =>
  if (0 <=? offset) && (offset + Z.of_nat (length bs) <=? Z.of_nat (length data))
  then (Ok tt, take (Z.to_nat offset) data ++ bs
               ++ drop (Z.to_nat offset + length bs) data)
  else (Undefined, data).

(** The loop of [arguments]; [strcpy] also stores the terminating zero. *)
Fixpoint store_arguments (i argv_ptr : Z) (argv : list string) : Prelude.M exn (list Z) Z :=
  match argv with
  | [] => mret argv_ptr
  | arg :: argv =>
      store_at (4 + 4 + i * 8) (le_bytes 8 argv_ptr);;
      store_at argv_ptr (bytes_of_string arg ++ [0]);;
      let argv_ptr := argv_ptr + Z.of_nat (String.length arg) in
      assert_that (argv_ptr <? 1024);;
      store_arguments (i + 1) argv_ptr argv
  end.

Definition arguments (argv : list string) : outcome exn DataBlock :=
  let argc := Z.of_nat (length argv) in
  let argv_ptr := 4 + 4 + argc * 8 + 4 in
  let data := garbage 1024 <$> seqZ 0 1024 in
  match
    (store_at 0 (le_bytes 4 0);;
     store_at 4 (le_bytes 4 argc);;
     store_at (4 + 4 + argc * 8) (le_bytes 4 0);;
     store_arguments 0 argv_ptr argv) data
  with
  | (Ok argv_ptr, data) => Ok (Block 0 argv_ptr data)
  | (o, _) => outcome_cast o Undefined
  end.

(** ** The public functions *)

Section memory.

Context {S : Type} `{SystemCalls S} `{FileSystem}.

Fixpoint write_blocks (blocks : list DataBlock) : Prelude.M exn (machine S) unit :=
  match blocks with
  | [] => mret tt
  | b :: blocks => MainMemory.write b;; write_blocks blocks
  end.

Definition load_elf (argv : list string) : Prelude.M exn (machine S) unit :=
  match argv with
  | [] => throw (runtime_error "No binary file specified")
  | program :: _ =>
      block ← fail (arguments argv);
      MainMemory.write block;;
      blocks ← fail (elf program);
      write_blocks blocks
  end.

Definition entry_point (filename : string) : outcome exn Z :=
  fst ((header ← get_elf_header; mret (e_entry header)) (open_file filename)).

(** ** Symbols *)

(** [std::string(name) == symbol_name] for the [n + 1] bytes read after the
    name's location, [n] the length of [symbol_name]. When none of them is zero
    the constructor reads on past the array: whatever it finds, the string is
    longer than [symbol_name]. [None]: the result depends on bytes that the
    file did not supply. *)
Fixpoint c_string (bs : list Z) : option (list Z) :=
  match bs with
  | [] => None
  | b :: bs => if b =? 0 then Some [] else cons b <$> c_string bs
  end.

Definition name_equals (bs : list Z) (symbol_name : string) : option bool :=
  match c_string bs with
  | Some s => Some (bool_decide (s = bytes_of_string symbol_name))
  | None =>
      if (length bs =? String.length symbol_name + 1)%nat then Some false else None
  end.

(** The result of the loop over the symbols of one table. *)
Inductive search_result : Type := Found (value : Z) | NotFound.

(** The loop over the symbols from number [j]: [break] when the stream failed. *)
Fixpoint find_symbol (fuel : nat) (elf_header : Elf64_Ehdr) (section_header : Elf64_Shdr)
    (symbol_name : string) (n j : Z) : M search_result :=
  if j <? n then
    match fuel with
    | O => fail OutOfFuel
    | Datatypes.S fuel =>
        symbol ← get_symbol section_header j;
        target ← get_section_header elf_header (s32 (sh_link section_header));
        bad ← gets failed;
        if (bad : bool) then mret NotFound
        else
          symbol ← determined symbol;
          target ← determined target;
          let name_location := u64 (sh_offset target + st_name symbol) in
          seekg name_location;;
          name ← read (Z.of_nat (String.length symbol_name) + 1);
          equal ← determined (name_equals name symbol_name);
          if (equal : bool) then mret (Found (st_value symbol))
          else find_symbol fuel elf_header section_header symbol_name n (j + 1)
    end
  else mret NotFound.

(** The loop over the sections from number [i]. *)
Fixpoint find_in_sections (fuel : nat) (elf_header : Elf64_Ehdr) (symbol_name : string) (i : Z)
    : M search_result :=
  if i <? e_shnum elf_header then
    match fuel with
    | O => fail OutOfFuel
    | Datatypes.S fuel =>
        section_header ← get_section_header elf_header i;
        section_header ← determined section_header;
        if negb (sh_type section_header =? SHT_SYMTAB) then
          find_in_sections fuel elf_header symbol_name (i + 1)
        else
          n ← num_symbols section_header;
          r ← find_symbol (Z.to_nat n) elf_header section_header symbol_name n 0;
          match r with
          | Found value => mret (Found value)
          | NotFound => find_in_sections fuel elf_header symbol_name (i + 1)
          end
    end
  else mret NotFound.

Definition search (symbol_name : string) : M search_result :=
  elf_header ← get_elf_header;
  find_in_sections (Z.to_nat (e_shnum elf_header)) elf_header symbol_name 0.

Definition symbol_location (file_name symbol_name : string) : outcome exn Z :=
  match fst (search symbol_name (open_file file_name)) with
  | Ok (Found value) => Ok value
  | Ok NotFound => Ok (u64 (-1))
  | o => outcome_cast o Undefined
  end.

End memory.

End reading.

End BinaryParser.
