(* ===== verification/BinaryParserFacts.v ===== *)
(** * ELF loading: what the stream operations yield

    Runs of the parser on an image whose headers lie inside the file, against a
    description of the image as plain list functions. *)

From S2P Require Import Prelude Exceptions VirtualAddressing FlatMemory MainMemory.
From S2P Require Import MainMemoryFacts BinaryParser.

Import MainMemory BinaryParser.

(** ** The image, as list functions *)
Module ElfSpec.

Definition slice (img : list Z) (off n : Z) : list Z :=
  take (Z.to_nat n) (drop (Z.to_nat off) img).

Definition size (img : list Z) : Z := Z.of_nat (length img).

Definition header (img : list Z) : Elf64_Ehdr := parse_Ehdr (slice img 0 64).

Definition section_offset (img : list Z) (i : Z) : Z :=
  e_shoff (header img) + e_shentsize (header img) * i.
Definition section (img : list Z) (i : Z) : Elf64_Shdr :=
  parse_Shdr (slice img (section_offset img i) 64).
Definition sections (img : list Z) : list Elf64_Shdr :=
  section img <$> seqZ 0 (e_shnum (header img)).

(** Is the section loaded into memory? *)
Definition loaded (s : Elf64_Shdr) : bool :=
  negb (Z.land (sh_flags s) SHF_ALLOC =? 0) && negb (sh_type s =? SHT_NOBITS).

Definition section_block (img : list Z) (s : Elf64_Shdr) : DataBlock :=
  Block (sh_addr s) (sh_size s) (slice img (sh_offset s) (sh_size s)).

Definition loaded_blocks (img : list Z) : list DataBlock :=
  section_block img <$> filter (fun s => loaded s = true) (sections img).

(** A RISC-V image below 2 GiB, whose section headers and loaded sections lie
    inside the file. *)
Record well_formed (img : list Z) : Prop := {
  wf_size : 64 <= size img < 2 ^ 31;
  wf_bytes : Forall byte img;
  wf_machine : e_machine (header img) = EM_RISCV;
  wf_headers i : 0 <= i < e_shnum (header img) -> section_offset img i + 64 <= size img;
  wf_sections i : 0 <= i < e_shnum (header img) -> loaded (section img i) = true ->
    sh_offset (section img i) + sh_size (section img i) <= size img;
}.

(** ** Symbols *)

Definition symbol (img : list Z) (s : Elf64_Shdr) (j : Z) : Elf64_Sym :=
  parse_Sym (slice img (sh_offset s + sh_entsize s * j) 24).
Definition symbol_count (s : Elf64_Shdr) : Z := sh_size s / sh_entsize s.

(** Where the name of a symbol of table [s] is. *)
Definition name_location (img : list Z) (s : Elf64_Shdr) (y : Elf64_Sym) : Z :=
  sh_offset (section img (sh_link s)) + st_name y.

Definition symbol_tables (img : list Z) : list Elf64_Shdr :=
  filter (fun s => sh_type s = SHT_SYMTAB) (sections img).

(** All symbols, with their tables, in the order of the file. *)
Definition symbols (img : list Z) : list (Elf64_Shdr * Elf64_Sym) :=
  s ← symbol_tables img;
  pair s <$> (symbol img s <$> seqZ 0 (symbol_count s)).

(** The zero-terminated name of a symbol is [name]. *)
Definition named (img : list Z) (name : string) (x : Elf64_Shdr * Elf64_Sym) : Prop :=
  slice img (name_location img (fst x) (snd x)) (Z.of_nat (String.length name) + 1)
  = bytes_of_string name ++ [0].

Record tables_well_formed (img : list Z) (name : string) : Prop := {
  wf_tables s : s ∈ symbol_tables img ->
    0 < sh_entsize s /\ symbol_count s < 2 ^ 31
    /\ 0 <= sh_link s < e_shnum (header img) /\ sh_link s < 2 ^ 31
    /\ (forall j, 0 <= j < symbol_count s ->
          sh_offset s + sh_entsize s * j + 24 <= size img
          /\ name_location img s (symbol img s j) + Z.of_nat (String.length name) + 1 <= size img);
}.

End ElfSpec.

Import ElfSpec.

(** ** Fields *)

Lemma field_nonneg bs off n : Forall byte bs -> 0 <= field bs off n.
Proof. intros Hb. unfold field. apply (le_value_bound (take n (drop off bs))), Forall_take, Forall_drop, Hb. Qed.

Lemma field_bound bs off n : Forall byte bs -> field bs off n < 2 ^ (8 * Z.of_nat n).
Proof.
  intros Hb. unfold field.
  pose proof (le_value_bound (take n (drop off bs)) ltac:(by apply Forall_take, Forall_drop)) as [_ Hlt].
  eapply Z.lt_le_trans; [exact Hlt|]. apply Z.pow_le_mono_r; [lia|]. rewrite length_take. lia.
Qed.

Lemma slice_byte img off n : Forall byte img -> Forall byte (slice img off n).
Proof. intros. by apply Forall_take, Forall_drop. Qed.

Lemma length_slice img off n :
  0 <= off -> 0 <= n -> off + n <= size img -> Z.of_nat (length (slice img off n)) = n.
Proof. intros. unfold slice, size in *. rewrite length_take, length_drop. lia. Qed.

(** ** Streams *)

Section streams.

Variable img : list Z.

Implicit Types pos : Z.

(** On the image, and wherever the stream stands, [k] returns [v] and leaves the
    stream good. *)
Definition yields {A} (k : Prelude.M exn ifstream A) (v : A) : Prop :=
  forall pos, exists pos', k (Stream img pos false) = (Ok v, Stream img pos' false).

Lemma yields_ret {A} (v : A) : yields (mret v) v.
Proof. intros pos. by exists pos. Qed.

Lemma yields_bind {A B} (k : Prelude.M exn ifstream A) (f : A -> Prelude.M exn ifstream B) v w :
  yields k v -> yields (f v) w -> yields (k ≫= f) w.
Proof.
  intros Hk Hf pos. destruct (Hk pos) as [pos1 H1]. destruct (Hf pos1) as [pos2 H2].
  exists pos2. by erewrite bind_ok by exact H1.
Qed.

Lemma yields_assert b : b = true -> yields (assert_that b) tt.
Proof. intros -> pos. by exists pos. Qed.

Lemma yields_seek_read {A} off n (f : list Z -> Prelude.M exn ifstream A) w :
  0 <= off -> 0 <= n -> off + n <= size img -> size img < 2 ^ 63 ->
  yields (f (slice img off n)) w -> yields (seekg off;; bs ← read n; f bs) w.
Proof.
  intros Ho Hn Hin Hsz Hf pos. destruct (Hf (off + n)) as [pos' Hrun]. exists pos'.
  assert (Hs : s64 off = off) by (apply signed_small; lia).
  unfold seekg. erewrite bind_ok by done. cbn [failed]. rewrite Hs.
  rewrite (proj2 (Z.ltb_ge _ _)) by lia. unfold read at 1. rewrite bind_run. cbn [failed content position].
  fold (slice img off n). rewrite length_slice by done. rewrite Z.ltb_irrefl. exact Hrun.
Qed.

Lemma yields_struct {A} off n (f : option (list Z) -> Prelude.M exn ifstream A) w :
  0 <= off -> 0 <= n -> off + n <= size img -> size img < 2 ^ 63 ->
  yields (f (Some (slice img off n))) w -> yields (seekg off;; bs ← read_struct n; f bs) w.
Proof.
  intros Ho Hn Hin Hsz Hf. unfold read_struct.
  assert (Ha : yields (seekg off;; bs ← read n; f (if Z.of_nat (length bs) =? n then Some bs else None)) w).
  { apply yields_seek_read; [done..|]. by rewrite length_slice, Z.eqb_refl. }
  intros pos. destruct (Ha pos) as [pos' Hrun]. exists pos'. rewrite <- Hrun.
  unfold mbind, M_bind. destruct (seekg off _) as [[] s]; try done. by destruct (read n s) as [[] s'].
Qed.

(** ** The parser on a well-formed image *)

Hypothesis Hwf : well_formed img.

#[local] Set Default Proof Using "All".

Lemma header_range :
  0 <= e_shoff (header img) /\ 0 <= e_shentsize (header img) /\ 0 <= e_shnum (header img) < 2 ^ 16.
Proof.
  pose proof (slice_byte img 0 64 (wf_bytes _ Hwf)) as Hb. cbn [header parse_Ehdr e_shoff e_shentsize e_shnum].
  split; [by apply field_nonneg|]. split; [by apply field_nonneg|].
  split; [by apply field_nonneg|]. apply (field_bound _ 60 2 Hb).
Qed.

Lemma section_range i :
  0 <= sh_offset (section img i) /\ 0 <= sh_size (section img i) < 2 ^ 64
  /\ 0 <= sh_entsize (section img i) /\ 0 <= sh_link (section img i).
Proof.
  pose proof (slice_byte img (section_offset img i) 64 (wf_bytes _ Hwf)) as Hb.
  cbn [section parse_Shdr sh_offset sh_size sh_entsize sh_link].
  repeat split; try by apply field_nonneg. apply (field_bound _ 32 8 Hb).
Qed.

Lemma section_offset_range i :
  0 <= i < e_shnum (header img) ->
  0 <= section_offset img i /\ section_offset img i + 64 <= size img
  /\ u32 (u64 (section_offset img i)) = section_offset img i.
Proof.
  intros Hi. pose proof header_range as (Ho & He & _). pose proof (wf_headers _ Hwf i Hi).
  pose proof (wf_size _ Hwf). assert (0 <= section_offset img i) by (unfold section_offset; nia).
  split; [done|]. split; [done|]. unfold u32, u64. rewrite wrap_narrow by lia. apply wrap_small. lia.
Qed.

Lemma yields_get_elf_header : yields get_elf_header (header img).
Proof.
  pose proof (wf_size _ Hwf). unfold get_elf_header. apply yields_struct; [lia..|].
  unfold determined. eapply yields_bind; [apply yields_ret|].
  change (parse_Ehdr (slice img 0 64)) with (header img).
  rewrite (wf_machine _ Hwf). apply yields_ret.
Qed.

Lemma yields_get_section_header i :
  0 <= i < e_shnum (header img) ->
  yields (get_section_header (header img) i) (Some (section img i)).
Proof.
  intros Hi. pose proof (section_offset_range i Hi) as (Ho & Hin & Hu). pose proof (wf_size _ Hwf).
  unfold get_section_header. cbv zeta. fold (section_offset img i). rewrite Hu.
  eapply yields_bind; [apply yields_assert; lia|].
  eapply yields_bind; [apply yields_assert; lia|].
  pose proof header_range. rewrite (proj2 (Z.ltb_lt (_ * i) _)) by (unfold section_offset in Hin; lia).
  eapply yields_bind; [apply yields_ret|].
  apply yields_struct; [lia..|]. apply yields_ret.
Qed.

Lemma yields_get_section `{Uninitialised} i :
  0 <= i < e_shnum (header img) -> loaded (section img i) = true ->
  yields (get_section (section img i)) (section_block img (section img i)).
Proof.
  intros Hi Hl. pose proof (wf_sections _ Hwf i Hi Hl). pose proof (wf_size _ Hwf).
  pose proof (section_range i) as (Ho & Hs & _). unfold get_section.
  apply yields_seek_read; [lia..|]. rewrite length_slice by lia. rewrite Z.sub_diag. cbn.
  rewrite app_nil_r. apply yields_ret.
Qed.

Lemma yields_elf_sections `{Uninitialised} fuel i blocks :
  0 <= i <= e_shnum (header img) -> e_shnum (header img) - i <= Z.of_nat fuel ->
  yields (elf_sections fuel (header img) i blocks)
    (blocks ++ (section_block img <$>
       filter (fun s => loaded s = true)
         (section img <$> seqZ i (e_shnum (header img) - i)))).
Proof.
  revert i blocks. induction fuel as [|fuel IH]; intros i blocks Hi Hfuel; cbn [elf_sections].
  - assert (i = e_shnum (header img)) as -> by lia. rewrite Z.ltb_irrefl, Z.sub_diag. cbn.
    rewrite app_nil_r. apply yields_ret.
  - destruct (Z.ltb_spec i (e_shnum (header img))).
    2:{ assert (i = e_shnum (header img)) as -> by lia. rewrite Z.sub_diag. cbn.
        rewrite app_nil_r. apply yields_ret. }
    eapply yields_bind; [apply yields_get_section_header; lia|].
    eapply yields_bind; [apply yields_ret|]. fold (loaded (section img i)).
    rewrite (seqZ_cons i) by lia. cbn [fmap list_fmap].
    replace (Z.pred (e_shnum (header img) - i)) with (e_shnum (header img) - (i + 1)) by lia.
    change (Z.succ i) with (i + 1). destruct (loaded (section img i)) eqn:Hl.
    + rewrite filter_cons_True by done. eapply yields_bind; [apply yields_get_section; [lia|done]|].
      pose proof (IH (i + 1) (blocks ++ [section_block img (section img i)]) ltac:(lia) ltac:(lia)) as Hy.
      by rewrite <- app_assoc in Hy.
    + rewrite filter_cons_False by congruence. apply IH; lia.
Qed.

Lemma yields_elf_blocks `{Uninitialised} : yields elf_blocks (loaded_blocks img).
Proof.
  unfold elf_blocks. eapply yields_bind; [apply yields_get_elf_header|].
  pose proof header_range as (_ & _ & Hn).
  pose proof (yields_elf_sections (Z.to_nat (e_shnum (header img))) 0 [] ltac:(lia) ltac:(lia)) as Hy.
  by rewrite Z.sub_0_r in Hy.
Qed.

End streams.

(** ** Symbol names *)

Lemma c_string_spec bs s :
  c_string bs = Some s <-> exists rest, bs = s ++ 0 :: rest /\ 0 ∉ s.
Proof.
  revert s. induction bs as [|b bs IH]; intros s; simpl.
  { split; [done|]. intros (rest & Heq & _). by destruct s. }
  destruct (Z.eqb_spec b 0) as [->|Hb].
  - split; [intros [= <-]; exists bs; split; [done|set_solver]|].
    intros (rest & Heq & Hno). destruct s as [|c s]; [done|]. simplify_eq/=. set_solver.
  - split.
    + intros Hs. apply fmap_Some in Hs as (t & Ht & ->). apply IH in Ht as (rest & -> & Hno).
      exists rest. split; [done|set_solver].
    + intros (rest & Heq & Hno). destruct s as [|c s]; simplify_eq/=.
      apply fmap_Some. exists s. split; [|done]. apply IH. exists rest. split; [done|set_solver].
Qed.

Lemma length_bytes_of_string s : length (bytes_of_string s) = String.length s.
Proof.
  unfold bytes_of_string. rewrite length_fmap. induction s as [|c s IH]; [done|].
  simpl. by rewrite IH.
Qed.

Lemma name_equals_spec bs name :
  length bs = (String.length name + 1)%nat -> 0 ∉ bytes_of_string name ->
  name_equals bs name = Some (bool_decide (bs = bytes_of_string name ++ [0])).
Proof.
  intros Hlen Hno. unfold name_equals. destruct (c_string bs) as [s|] eqn:Hs.
  - f_equal. apply bool_decide_ext. apply c_string_spec in Hs as (rest & -> & Hz). split.
    + intros ->. rewrite length_app, length_bytes_of_string in Hlen. simpl in Hlen.
      destruct rest; [done|]. simpl in Hlen. lia.
    + intros Heq. assert (Hl : length s = length (bytes_of_string name)).
      { destruct (decide (length s < length (bytes_of_string name))%nat) as [Hlt|Hge].
        - exfalso. apply Hno. apply list_elem_of_lookup_2 with (length s).
          assert (Hi : (s ++ 0 :: rest) !! length s = Some 0) by by apply list_lookup_middle.
          rewrite Heq, lookup_app_l in Hi; done.
        - apply (f_equal length) in Heq. rewrite !length_app in Heq. simpl in Heq. lia. }
      by apply app_inj_1 in Heq as [-> _].
  - rewrite Hlen, Nat.eqb_refl. rewrite bool_decide_false; [done|]. intros ->.
    assert (Hc : c_string (bytes_of_string name ++ [0]) = Some (bytes_of_string name))
      by (apply c_string_spec; by exists []).
    congruence.
Qed.

(** ** Searching the symbol tables *)

#[global] Instance named_dec img name x : Decision (named img name x).
Proof. unfold named. apply _. Defined.

(** The value of the first symbol of that name. *)
Definition first_value (img : list Z) (name : string) (l : list (Elf64_Shdr * Elf64_Sym))
    : search_result :=
  match list_find (named img name) l with
  | Some (_, x) => Found (st_value (snd x))
  | None => NotFound
  end.

Lemma first_value_cons img name x l :
  first_value img name (x :: l) =
    if decide (named img name x) then Found (st_value (snd x)) else first_value img name l.
Proof.
  unfold first_value. simpl. destruct (decide (named img name x)); [done|].
  by destruct (list_find _ l) as [[? ?]|].
Qed.

Lemma first_value_app img name l1 l2 :
  first_value img name (l1 ++ l2) =
    match first_value img name l1 with Found v => Found v | NotFound => first_value img name l2 end.
Proof.
  induction l1 as [|x l1 IH]; [done|]. cbn [app]. rewrite !first_value_cons, IH.
  by destruct (decide (named img name x)).
Qed.

Section search.

Variables (img : list Z) (name : string).
Hypotheses (Hwf : well_formed img) (Htab : tables_well_formed img name)
  (Hname : 0 ∉ bytes_of_string name).

#[local] Set Default Proof Using "All".

Lemma yields_num_symbols s :
  s ∈ symbol_tables img -> yields img (num_symbols s) (symbol_count s).
Proof.
  intros Hs. destruct (wf_tables _ _ Htab s Hs) as (He & Hc & _).
  unfold num_symbols. rewrite (proj2 (Z.eqb_neq _ _)) by lia. fold (symbol_count s).
  assert (Hsz : 0 <= sh_size s).
  { apply list_elem_of_filter in Hs as [_ Hs]. apply list_elem_of_fmap in Hs as (i & -> & _).
    by apply section_range. }
  assert (0 <= symbol_count s) by (apply Z.div_pos; lia).
  unfold s32. rewrite signed_small by lia. apply yields_ret.
Qed.

Lemma yields_get_symbol s j :
  s ∈ symbol_tables img -> 0 <= j < symbol_count s ->
  yields img (get_symbol s j) (Some (symbol img s j)).
Proof.
  intros Hs Hj. destruct (wf_tables _ _ Htab s Hs) as (He & Hc & _ & _ & Hsym).
  destruct (Hsym j Hj) as [Hin _]. pose proof (wf_size _ Hwf).
  assert (Ho : 0 <= sh_offset s).
  { apply list_elem_of_filter in Hs as [_ Hs]. apply list_elem_of_fmap in Hs as (i & -> & _).
    by apply section_range. }
  unfold get_symbol. eapply yields_bind; [by apply yields_num_symbols|].
  eapply yields_bind; [apply yields_assert; lia|]. eapply yields_bind; [apply yields_assert; lia|].
  assert (Hu : u32 (u64 (sh_offset s + u64 (sh_entsize s * j))) = sh_offset s + sh_entsize s * j).
  { unfold u32, u64. rewrite wrap_narrow, (wrap_small 64) by nia. apply wrap_small. nia. }
  rewrite Hu. apply yields_struct; [nia|lia|lia|lia|]. apply yields_ret.
Qed.

Lemma yields_failed : yields img (gets failed) false.
Proof. intros pos. by exists pos. Qed.

Lemma yields_find_symbol fuel s j :
  s ∈ symbol_tables img -> 0 <= j <= symbol_count s -> symbol_count s - j <= Z.of_nat fuel ->
  yields img (find_symbol fuel (header img) s name (symbol_count s) j)
    (first_value img name (pair s <$> (symbol img s <$> seqZ j (symbol_count s - j)))).
Proof.
  intros Hs. revert j. induction fuel as [|fuel IH]; intros j Hj Hfuel; cbn [find_symbol].
  - rewrite (proj2 (Z.ltb_ge _ _)) by lia. replace (symbol_count s - j) with 0 by lia. apply yields_ret.
  - destruct (Z.ltb_spec j (symbol_count s)).
    2:{ replace (symbol_count s - j) with 0 by lia. apply yields_ret. }
    destruct (wf_tables _ _ Htab s Hs) as (He & Hc & Hlink & Hlink31 & Hsym).
    destruct (Hsym j ltac:(lia)) as [Hin Hnm]. pose proof (wf_size _ Hwf).
    eapply yields_bind; [apply yields_get_symbol; [done|lia]|].
    assert (Hl : s32 (sh_link s) = sh_link s) by (apply signed_small; lia). rewrite Hl.
    eapply yields_bind; [by apply yields_get_section_header|].
    eapply yields_bind; [apply yields_failed|]. cbv iota.
    eapply yields_bind; [apply yields_ret|]. eapply yields_bind; [apply yields_ret|].
    fold (name_location img s (symbol img s j)).
    assert (Hloc : 0 <= name_location img s (symbol img s j)).
    { unfold name_location. pose proof (section_range img Hwf (sh_link s)) as (? & _).
      pose proof (field_nonneg (slice img (sh_offset s + sh_entsize s * j) 24) 0 4
        (slice_byte _ _ _ (wf_bytes _ Hwf))) as Hst. cbn [symbol parse_Sym st_name]. lia. }
    unfold u64. rewrite wrap_small by lia.
    rewrite (seqZ_cons j) by lia. cbn [fmap list_fmap]. rewrite first_value_cons.
    replace (Z.pred (symbol_count s - j)) with (symbol_count s - (j + 1)) by lia.
    change (Z.succ j) with (j + 1).
    apply yields_seek_read; [lia..|].
    rewrite name_equals_spec; [|apply Nat2Z.inj; rewrite length_slice; lia|done].
    eapply yields_bind; [apply yields_ret|].
    rewrite bool_decide_decide. change (slice _ _ _ = _) with (named img name (s, symbol img s j)).
    destruct (decide (named img name (s, symbol img s j))); [apply yields_ret|apply IH; lia].
Qed.

Lemma yields_find_in_sections fuel i :
  0 <= i <= e_shnum (header img) -> e_shnum (header img) - i <= Z.of_nat fuel ->
  yields img (find_in_sections fuel (header img) name i)
    (first_value img name
       (s ← filter (fun s => sh_type s = SHT_SYMTAB)
              (section img <$> seqZ i (e_shnum (header img) - i));
        pair s <$> (symbol img s <$> seqZ 0 (symbol_count s)))).
Proof.
  revert i. induction fuel as [|fuel IH]; intros i Hi Hfuel; cbn [find_in_sections].
  - rewrite (proj2 (Z.ltb_ge _ _)) by lia.
    replace (e_shnum (header img) - i) with 0 by lia. apply yields_ret.
  - destruct (Z.ltb_spec i (e_shnum (header img))) as [Hlt|].
    2:{ replace (e_shnum (header img) - i) with 0 by lia. apply yields_ret. }
    eapply yields_bind; [apply yields_get_section_header; [done|lia]|].
    eapply yields_bind; [apply yields_ret|].
    rewrite (seqZ_cons i) by lia. cbn [fmap list_fmap].
    replace (Z.pred (e_shnum (header img) - i)) with (e_shnum (header img) - (i + 1)) by lia.
    change (Z.succ i) with (i + 1).
    destruct (Z.eqb_spec (sh_type (section img i)) SHT_SYMTAB) as [Ht|Ht]; cbn [negb].
    + rewrite filter_cons_True by done. rewrite bind_cons, first_value_app.
      assert (Hs : section img i ∈ symbol_tables img).
      { apply list_elem_of_filter. split; [done|]. apply list_elem_of_fmap. exists i.
        split; [done|]. apply elem_of_seqZ. lia. }
      eapply yields_bind; [by apply yields_num_symbols|].
      assert (0 <= symbol_count (section img i)).
      { destruct (wf_tables _ _ Htab _ Hs) as (? & _). pose proof (section_range img Hwf i).
        apply Z.div_pos; lia. }
      eapply yields_bind; [apply yields_find_symbol; [done|lia|lia]|].
      rewrite Z.sub_0_r. destruct (first_value img name _); [apply yields_ret|apply IH; lia].
    + rewrite filter_cons_False by done. apply IH; lia.
Qed.

Lemma yields_search : yields img (search name) (first_value img name (symbols img)).
Proof.
  unfold search. eapply yields_bind; [by apply yields_get_elf_header|].
  pose proof (header_range img Hwf) as (_ & _ & Hn).
  pose proof (yields_find_in_sections (Z.to_nat (e_shnum (header img))) 0 ltac:(lia) ltac:(lia)) as Hy.
  by rewrite Z.sub_0_r in Hy.
Qed.

End search.
