(* ===== verification/BinaryParserTheorems.v ===== *)
(** * Loading a program: theorems *)

From S2P Require Import Prelude Exceptions VirtualAddressing FlatMemory MainMemory.
From S2P Require Import MainMemoryFacts MainMemoryTheorems BinaryParser BinaryParserFacts.

Import MainMemory BinaryParser ElfSpec.

(** ** The argument block *)

Section arrays.

Implicit Types (data bs : list Z) (off n : nat).

Definition splice off bs data : list Z := take off data ++ bs ++ drop (off + length bs) data.

Lemma store_at_run off bs data :
  (off + length bs <= length data)%nat ->
  store_at (Z.of_nat off) bs data = (Ok tt, splice off bs data).
Proof.
  intros. unfold store_at. rewrite (proj2 (Z.leb_le _ _)), (proj2 (Z.leb_le _ _)) by lia.
  cbn [andb]. unfold splice. by rewrite Nat2Z.id.
Qed.

Lemma length_splice off bs data :
  (off + length bs <= length data)%nat -> length (splice off bs data) = length data.
Proof. intros. unfold splice. rewrite !length_app, length_take, length_drop. lia. Qed.

Lemma lookup_splice off bs data i :
  (off + length bs <= length data)%nat ->
  splice off bs data !! i =
    if decide (off <= i < off + length bs)%nat then bs !! (i - off)%nat else data !! i.
Proof.
  intros. unfold splice. assert (Ht : length (take off data) = off) by (rewrite length_take; lia).
  case_decide.
  - rewrite lookup_app_r, Ht by lia. apply lookup_app_l. lia.
  - destruct (decide (i < off)%nat).
    + rewrite lookup_app_l by lia. by apply lookup_take_lt.
    + rewrite lookup_app_r, Ht, lookup_app_r by lia. rewrite lookup_drop. f_equal. lia.
Qed.

(** [n] bytes from [off]. *)
Definition part data off n : list Z := take n (drop off data).

Lemma lookup_part data off n i :
  part data off n !! i = if decide (i < n)%nat then data !! (off + i)%nat else None.
Proof.
  unfold part. case_decide; [by rewrite lookup_take_lt, lookup_drop|]. by rewrite lookup_take_ge by lia.
Qed.

Lemma part_ext d1 d2 off n :
  (forall i, (off <= i < off + n)%nat -> d1 !! i = d2 !! i) -> part d1 off n = part d2 off n.
Proof.
  intros Heq. apply list_eq. intros i. rewrite !lookup_part. case_decide; [|done]. apply Heq. lia.
Qed.

Lemma part_splice off bs data :
  (off + length bs <= length data)%nat -> part (splice off bs data) off (length bs) = bs.
Proof.
  intros. apply list_eq. intros i. rewrite lookup_part, lookup_splice by done.
  repeat case_decide; try lia; [f_equal; lia|]. symmetry. apply lookup_ge_None_2. lia.
Qed.

Lemma part_app data off n1 n2 : part data off (n1 + n2) = part data off n1 ++ part data (off + n1) n2.
Proof. unfold part. by rewrite <- take_take_drop, drop_drop. Qed.

Lemma part_prefix off bs1 bs2 data :
  (off + length (bs1 ++ bs2) <= length data)%nat ->
  part (splice off (bs1 ++ bs2) data) off (length bs1) = bs1.
Proof.
  intros Hin. pose proof (part_splice off (bs1 ++ bs2) data Hin) as Hp.
  rewrite length_app, part_app in Hp. apply app_inj_1 in Hp as [Hp _]; [done|].
  unfold part. rewrite length_take, length_drop, length_splice by done. rewrite length_app in Hin. lia.
Qed.

End arrays.

(** The total length of strings. *)
Definition total (argv : list string) : nat := length (concat (bytes_of_string <$> argv)).

Lemma total_cons arg argv : total (arg :: argv) = (String.length arg + total argv)%nat.
Proof. unfold total. cbn. by rewrite length_app, length_bytes_of_string. Qed.

(** The loop of [arguments], from argument [i]: it stores the pointers, and the
    strings one directly after the other; nothing else changes. *)
Lemma store_arguments_run argv (i ptr : nat) data :
  length data = 1024%nat -> (8 + 8 * (i + length argv) <= ptr)%nat -> (ptr + total argv < 1024)%nat ->
  exists data', store_arguments (Z.of_nat i) (Z.of_nat ptr) argv data
      = (Ok (Z.of_nat (ptr + total argv)), data')
    /\ length data' = 1024%nat
    /\ (forall x, ~ (8 + 8 * i <= x < 8 + 8 * (i + length argv))%nat -> ~ (ptr <= x <= ptr + total argv)%nat ->
          data' !! x = data !! x)
    /\ (forall j, (j < length argv)%nat ->
          part data' (8 + 8 * (i + j)) 8 = le_bytes 8 (Z.of_nat (ptr + total (take j argv))))
    /\ part data' ptr (total argv) = concat (bytes_of_string <$> argv).
Proof.
  revert i ptr data. induction argv as [|arg argv IH]; intros i ptr data Hlen Hptr Htot.
  { exists data. rewrite Nat.add_0_r. cbn. repeat split; try done. intros; lia. }
  rewrite total_cons in *. rewrite length_cons in Hptr. cbn [store_arguments].
  set (d1 := splice (8 + 8 * i) (le_bytes 8 (Z.of_nat ptr)) data).
  set (bs := bytes_of_string arg ++ [0]). set (d2 := splice ptr bs d1).
  assert (Hbs : length bs = (String.length arg + 1)%nat)
    by (unfold bs; rewrite length_app, length_bytes_of_string; done).
  assert (Hl1 : length d1 = 1024%nat) by (unfold d1; rewrite length_splice; rewrite ?length_le_bytes; lia).
  assert (Hl2 : length d2 = 1024%nat) by (unfold d2; rewrite length_splice; lia).
  destruct (IH (S i) (ptr + String.length arg)%nat d2) as (d' & Hrun & Hl' & Hout & Hptrs & Hstr);
    [done|lia|lia|].
  exists d'. split; [|split; [done|split; [|split]]].
  - replace (4 + 4 + Z.of_nat i * 8) with (Z.of_nat (8 + 8 * i)) by lia.
    erewrite bind_ok by (apply store_at_run; rewrite length_le_bytes; lia). fold d1.
    erewrite bind_ok by (apply store_at_run; lia). fold bs d2. cbv zeta.
    rewrite (proj2 (Z.ltb_lt _ _)) by lia. erewrite bind_ok by done.
    replace (Z.of_nat i + 1) with (Z.of_nat (S i)) by lia.
    replace (Z.of_nat ptr + Z.of_nat (String.length arg))
      with (Z.of_nat (ptr + String.length arg)) by lia.
    rewrite Hrun. do 2 f_equal. lia.
  - intros x Hx1 Hx2. cbn [length] in Hx1. rewrite Hout by lia.
    unfold d2, d1. rewrite !lookup_splice; rewrite ?length_le_bytes; [|lia|fold d1; lia].
    rewrite !decide_False by lia. done.
  - intros [|j] Hj; cbn [take].
    + rewrite Nat.add_0_r. transitivity (part d1 (8 + 8 * i) 8).
      * apply part_ext. intros x Hx. rewrite Hout by lia. unfold d2.
        rewrite lookup_splice, decide_False by lia. done.
      * pose proof (part_splice (8 + 8 * i) (le_bytes 8 (Z.of_nat ptr)) data) as Hp.
        rewrite length_le_bytes in Hp. unfold d1. rewrite Hp by lia.
        do 2 f_equal. unfold total. cbn. lia.
    + rewrite total_cons. cbn [length] in Hj. rewrite Nat.add_assoc.
      replace (i + S j)%nat with (S i + j)%nat by lia. apply Hptrs. lia.
  - rewrite part_app. cbn [fmap list_fmap concat]. f_equal; [|exact Hstr].
    transitivity (part d2 ptr (String.length arg)).
    + apply part_ext. intros x Hx. apply Hout; lia.
    + unfold d2, bs. rewrite <- length_bytes_of_string. apply part_prefix.
      fold bs. lia.
Qed.

Lemma store_arguments_inv argv i ptr data r data' :
  store_arguments i ptr argv data = (Ok r, data') ->
  r = ptr + Z.of_nat (total argv) /\ (argv = [] \/ r < 1024).
Proof.
  revert i ptr data. induction argv as [|arg argv IH]; intros i ptr data Hrun.
  { injection Hrun as <- <-. cbn. split; [lia|by left]. }
  cbn [store_arguments] in Hrun. apply bind_ok_inv in Hrun as ([] & d1 & _ & Hrun).
  apply bind_ok_inv in Hrun as ([] & d2 & _ & Hrun). cbv zeta in Hrun.
  apply bind_ok_inv in Hrun as ([] & d3 & Ha & Hrun).
  destruct (Z.ltb_spec (ptr + Z.of_nat (String.length arg)) 1024); [|done].
  apply IH in Hrun as [Hr Hlt]. rewrite total_cons. split; [lia|]. right.
  destruct Hlt as [->|]; [|done]. cbn in Hr. lia.
Qed.

(** The arguments fit in the array of 1024 bytes. *)
Definition arguments_fit (argv : list string) : Prop :=
  (12 + 8 * length argv + total argv < 1024)%nat.

(** The layout of the argument block: a zero word, [argc], the 64-bit pointers, a
    zero word, and the strings directly one after the other. *)
Record laid_out (argv : list string) (b : DataBlock) : Prop := {
  layout_address : address b = 0;
  layout_size : num_bytes b = Z.of_nat (12 + 8 * length argv + total argv);
  layout_array : length (data b) = 1024%nat;
  layout_zero : part (data b) 0 4 = [0; 0; 0; 0];
  layout_argc : part (data b) 4 4 = le_bytes 4 (Z.of_nat (length argv));
  layout_argv j : (j < length argv)%nat ->
    part (data b) (8 + 8 * j) 8
    = le_bytes 8 (Z.of_nat (12 + 8 * length argv + total (take j argv)));
  layout_end : part (data b) (8 + 8 * length argv) 4 = [0; 0; 0; 0];
  layout_strings :
    part (data b) (12 + 8 * length argv) (total argv) = concat (bytes_of_string <$> argv);
}.

Lemma splice_other off bs data i :
  (off + length bs <= length data)%nat -> (i < off \/ off + length bs <= i)%nat ->
  splice off bs data !! i = data !! i.
Proof. intros. rewrite lookup_splice, decide_False by lia. done. Qed.

Lemma arguments_run `{Uninitialised} argv :
  arguments_fit argv -> exists b, arguments argv = Ok b /\ laid_out argv b.
Proof.
  unfold arguments_fit. intros Hfit. unfold arguments. cbv zeta.
  set (data := garbage 1024 <$> seqZ 0 1024). set (n := length argv).
  assert (Hl : length data = 1024%nat) by (unfold data; by rewrite length_fmap, length_seqZ).
  set (d1 := splice 0 (le_bytes 4 0) data).
  set (d2 := splice 4 (le_bytes 4 (Z.of_nat n)) d1).
  set (d3 := splice (8 + 8 * n) (le_bytes 4 0) d2).
  assert (Hl1 : length d1 = 1024%nat) by (unfold d1; rewrite length_splice; rewrite ?length_le_bytes; lia).
  assert (Hl2 : length d2 = 1024%nat) by (unfold d2; rewrite length_splice; rewrite ?length_le_bytes; lia).
  assert (Hl3 : length d3 = 1024%nat) by (unfold d3; rewrite length_splice; rewrite ?length_le_bytes; lia).
  destruct (store_arguments_run argv 0 (12 + 8 * n) d3) as (d & Hrun & Hld & Hout & Hptrs & Hstr);
    [done|fold n; lia|fold n in Hfit; lia|].
  erewrite bind_ok by (apply (store_at_run 0); rewrite length_le_bytes; lia). fold d1.
  erewrite bind_ok by (apply (store_at_run 4); rewrite length_le_bytes; lia). fold d2.
  replace (4 + 4 + Z.of_nat n * 8) with (Z.of_nat (8 + 8 * n)) by lia.
  erewrite bind_ok by (apply store_at_run; rewrite length_le_bytes; lia). fold d3.
  replace (Z.of_nat (8 + 8 * n) + 4) with (Z.of_nat (12 + 8 * n)) by lia.
  change 0 with (Z.of_nat 0) at 1. rewrite Hrun. eexists; split; [reflexivity|].
  fold n in Hout, Hptrs, Hfit.
  split; cbn [address num_bytes MainMemory.data]; fold n; try done.
  - transitivity (part d1 0 4); [|apply (part_splice 0 (le_bytes 4 0)); rewrite length_le_bytes; lia].
    apply part_ext. intros i Hi. rewrite Hout by lia. unfold d3.
    rewrite splice_other by (rewrite length_le_bytes; lia).
    apply splice_other; rewrite length_le_bytes; lia.
  - transitivity (part d2 4 4); [|apply (part_splice 4 (le_bytes 4 (Z.of_nat n))); rewrite length_le_bytes; lia].
    apply part_ext. intros i Hi. rewrite Hout by lia.
    apply splice_other; rewrite length_le_bytes; lia.
  - transitivity (part d3 (8 + 8 * n) 4); [|apply (part_splice (8 + 8 * n) (le_bytes 4 0)); rewrite length_le_bytes; lia].
    apply part_ext. intros i Hi. apply Hout; lia.
Qed.

Lemma arguments_cases `{Uninitialised} argv :
  match arguments argv with
  | Ok b => arguments_fit argv /\ laid_out argv b
  | _ => ~ arguments_fit argv
  end.
Proof.
  assert (Hex : arguments_fit argv -> exists b, arguments argv = Ok b /\ laid_out argv b)
    by apply arguments_run.
  assert (Hfit : forall b, arguments argv = Ok b -> arguments_fit argv).
  { intros b. unfold arguments. cbv zeta.
    match goal with |- context [match ?x with _ => _ end] =>
      destruct x as [[ptr| | | | |] d] eqn:E; try done end.
    intros _. apply bind_ok_inv in E as ([] & d1 & _ & E). apply bind_ok_inv in E as ([] & d2 & _ & E).
    apply bind_ok_inv in E as ([] & d3 & _ & E). apply store_arguments_inv in E as [Hr Hlt].
    unfold arguments_fit. destruct Hlt as [->|Hlt]; [cbn; lia|lia]. }
  destruct (arguments argv) as [b| | | | |].
  1:{ pose proof (Hfit b eq_refl) as Hf. split; [done|]. destruct (Hex Hf) as (b' & [= <-] & Hl). exact Hl. }
  all: intros Hf; destruct (Hex Hf) as (b & Hb & _); discriminate.
Qed.

(** ** Loading *)

Section loading.

Context {S : Type} `{SystemCalls S} `{FileSystem} `{Uninitialised}.

Implicit Types (m : machine S) (b : DataBlock).

(** A block that [MainMemory::write] stores. *)
Record storable b : Prop := {
  storable_size : block_size (num_bytes b);
  storable_data : num_bytes b <= Z.of_nat (length (data b));
  storable_address : in_width 64 (address b);
  storable_physical : u64 (address b + num_bytes b - 1) <= Sv39.MAX_PHYSICAL_ADDRESS;
}.

(** The flat memory after storing a block. *)
Definition place (mem : FlatMemory.memory) b : FlatMemory.memory :=
  flat_write mem (address b) (take (Z.to_nat (num_bytes b)) (data b)).

Lemma write_storable b m :
  storable b -> exists m', MainMemory.write b m = (Ok tt, m')
    /\ host m' = host m /\ byte_at m' ≡ₘ place (byte_at m) b.
Proof.
  intros [Hn Hl Ha Hp]. pose proof (write_block_run b m Hn Hl Ha) as Hw. cbv zeta in Hw.
  rewrite decide_True in Hw by done. destruct Hw as (m' & Hrun & [Hh Hb _ _]). by exists m'.
Qed.

Lemma place_proper mem1 mem2 b : mem1 ≡ₘ mem2 -> place mem1 b ≡ₘ place mem2 b.
Proof. intros Heq. unfold place. by rewrite Heq. Qed.

Lemma places_proper bs mem1 mem2 :
  mem1 ≡ₘ mem2 -> foldl place mem1 bs ≡ₘ foldl place mem2 bs.
Proof.
  revert mem1 mem2. induction bs as [|b bs IH]; intros; [done|]. cbn. by apply IH, place_proper.
Qed.

Lemma write_blocks_run bs m :
  Forall storable bs -> exists m', write_blocks bs m = (Ok tt, m')
    /\ host m' = host m /\ byte_at m' ≡ₘ foldl place (byte_at m) bs.
Proof.
  intros Hbs. revert m. induction Hbs as [|b bs Hb _ IH]; intros m; [by exists m|].
  destruct (write_storable b m Hb) as (m1 & Hrun1 & Hh1 & Hb1).
  destruct (IH m1) as (m2 & Hrun2 & Hh2 & Hb2). exists m2. cbn [write_blocks foldl].
  erewrite bind_ok by exact Hrun1. split; [done|]. split; [congruence|].
  rewrite Hb2. by apply places_proper.
Qed.

Lemma arguments_storable argv b : arguments_fit argv -> laid_out argv b -> storable b.
Proof.
  intros Hfit [Ha Hn Hl _ _ _ _ _]. unfold arguments_fit in Hfit.
  assert (12 <= num_bytes b < 1024) by lia. split.
  - unfold block_size. lia.
  - lia.
  - rewrite Ha. width.
  - rewrite Ha. unfold u64. rewrite wrap_small by lia. change Sv39.MAX_PHYSICAL_ADDRESS with (2 ^ 56 - 1). lia.
Qed.

Lemma elf_run filename img :
  file_content filename = Some img -> well_formed img -> elf filename = Ok (loaded_blocks img).
Proof.
  intros Hf Hwf. unfold elf, open_file. rewrite Hf.
  by destruct (yields_elf_blocks img Hwf 0) as [pos ->].
Qed.

Lemma load_elf_run program argv img m :
  file_content program = Some img -> well_formed img -> arguments_fit (program :: argv) ->
  Forall storable (loaded_blocks img) ->
  exists b m', laid_out (program :: argv) b
    /\ load_elf (program :: argv) m = (Ok tt, m') /\ host m' = host m
    /\ byte_at m' ≡ₘ foldl place (byte_at m) (b :: loaded_blocks img).
Proof.
  intros Hf Hwf Hfit Hst. destruct (arguments_run _ Hfit) as (b & Hb & Hl).
  destruct (write_storable b m) as (m1 & Hrun1 & Hh1 & Hb1); [by eapply arguments_storable|].
  destruct (write_blocks_run (loaded_blocks img) m1 Hst) as (m2 & Hrun2 & Hh2 & Hb2).
  exists b, m2. split; [done|]. unfold load_elf. rewrite Hb, (elf_run _ _ Hf Hwf).
  erewrite bind_ok by done. erewrite bind_ok by exact Hrun1. erewrite bind_ok by done.
  split; [done|]. split; [congruence|]. rewrite Hb2. cbn [foldl]. by apply places_proper.
Qed.

Lemma header_rejected img :
  64 <= size img < 2 ^ 63 -> e_machine (header img) <> EM_RISCV ->
  exists s, get_elf_header (Stream img 0 false)
    = (Throw (runtime_error "Received non-RISC-V binary"), s).
Proof.
  intros Hs Hm. unfold get_elf_header, read_struct.
  pose proof (length_slice img 0 64 ltac:(lia) ltac:(lia) ltac:(lia)) as Hl.
  set (s := Stream img (0 + Z.of_nat (length (slice img 0 64))) (Z.of_nat (length (slice img 0 64)) <? 64)).
  exists s. erewrite bind_ok by done. erewrite bind_ok.
  2:{ erewrite bind_ok by (change (read 64 _) with (@Ok exn _ (slice img 0 64), s); reflexivity).
      rewrite Hl. reflexivity. }
  erewrite bind_ok by done. cbv zeta. fold (header img).
  by rewrite (proj2 (Z.eqb_neq _ _)).
Qed.

(** The value of the first symbol of that name, or -1. *)
Definition symbol_value (img : list Z) (name : string) : Z :=
  match list_find (named img name) (symbols img) with
  | Some (_, x) => st_value (snd x)
  | None => 2 ^ 64 - 1
  end.

Lemma entry_point_run filename img :
  file_content filename = Some img -> well_formed img ->
  entry_point filename = Ok (e_entry (header img)).
Proof.
  intros Hf Hwf. unfold entry_point, open_file. rewrite Hf.
  destruct (yields_get_elf_header img Hwf 0) as [pos Hrun]. by erewrite bind_ok by exact Hrun.
Qed.

Lemma symbol_location_run filename img name :
  file_content filename = Some img -> well_formed img -> tables_well_formed img name ->
  0 ∉ bytes_of_string name -> symbol_location filename name = Ok (symbol_value img name).
Proof.
  intros Hf Hwf Htab Hname. unfold symbol_location, open_file. rewrite Hf.
  destruct (yields_search img name Hwf Htab Hname 0) as [pos ->]. unfold first_value, symbol_value.
  by destruct (list_find _ _) as [[? ?]|].
Qed.

(** ** The claims *)

(** C30: The argument block. [arguments] succeeds exactly when pointers and
    strings fit in its 1024 bytes; then the block starts with a zero word and
    [argc], holds one 64-bit pointer per argument, the pointer of an argument
    being the start of the strings plus the total length of the strings before
    it, and the strings follow each other without terminators, the terminator of
    the last one being outside of the block. *)
Theorem arguments_layout argv :
  match arguments argv with
  | Ok b => arguments_fit argv /\ laid_out argv b
  | _ => ~ arguments_fit argv
  end.
Proof. apply arguments_cases. Qed.

(** The sections loaded from a well-formed RISC-V image are, in order, exactly
    those with [SHF_ALLOC] that are not [SHT_NOBITS], each with its address, its
    size and the bytes of the file at its offset. *)
Theorem elf_loads_sections filename img :
  file_content filename = Some img -> well_formed img -> elf filename = Ok (loaded_blocks img).
Proof. apply elf_run. Qed.

(** C7: [load_elf] on a well-formed image makes no system call, and the memory
    becomes the previous one overwritten with the argument block and then with the
    loaded sections in file order. *)
Theorem load_elf_refines program argv img m :
  file_content program = Some img -> well_formed img -> arguments_fit (program :: argv) ->
  Forall storable (loaded_blocks img) ->
  exists b m', laid_out (program :: argv) b
    /\ load_elf (program :: argv) m = (Ok tt, m') /\ host m' = host m
    /\ byte_at m' ≡ₘ foldl place (byte_at m) (b :: loaded_blocks img).
Proof. apply load_elf_run. Qed.

(** A file that is not a RISC-V binary is rejected with a runtime error by
    [elf] and [entry_point], and by [load_elf] after the arguments were written;
    without a file name [load_elf] fails before touching the memory. *)
Theorem load_elf_rejects program argv img m :
  file_content program = Some img -> 64 <= size img < 2 ^ 63 ->
  e_machine (header img) <> EM_RISCV -> arguments_fit (program :: argv) ->
  let error := runtime_error "Received non-RISC-V binary" in
  elf program = Throw error /\ entry_point program = Throw error
  /\ (exists b m', laid_out (program :: argv) b
        /\ load_elf (program :: argv) m = (Throw error, m')
        /\ byte_at m' ≡ₘ place (byte_at m) b)
  /\ load_elf [] m = (Throw (runtime_error "No binary file specified"), m).
Proof.
  intros Hf Hs Hm Hfit error. destruct (header_rejected img Hs Hm) as [s Hr].
  assert (He : elf program = Throw error).
  { unfold elf, elf_blocks, open_file. by rewrite Hf, bind_run, Hr. }
  split; [done|]. split; [unfold entry_point, open_file; by rewrite Hf, bind_run, Hr|].
  split; [|done]. destruct (arguments_run _ Hfit) as (b & Hb & Hl).
  destruct (write_storable b m) as (m1 & Hrun1 & Hh1 & Hb1); [by eapply arguments_storable|].
  exists b, m1. split; [done|]. split; [|done]. unfold load_elf. rewrite Hb, He.
  erewrite bind_ok by done. by erewrite bind_ok by exact Hrun1.
Qed.

(** [entry_point] gives the entry field of the header, and [symbol_location]
    the value of the first symbol with the searched name, in the order of the
    file, or [2 ^ 64 - 1] if no symbol table has one. *)
Theorem symbol_location_first filename img name :
  file_content filename = Some img -> well_formed img -> tables_well_formed img name ->
  0 ∉ bytes_of_string name ->
  entry_point filename = Ok (e_entry (header img))
  /\ symbol_location filename name = Ok (symbol_value img name).
Proof. split; [by apply entry_point_run|by apply symbol_location_run]. Qed.

End loading.

(** ** Witnesses: a small image with one loaded section and one symbol table *)

Module ElfExample.

Definition shdr (type flags addr off size link entsize : Z) : list Z :=
  le_bytes 4 0 ++ le_bytes 4 type ++ le_bytes 8 flags ++ le_bytes 8 addr ++ le_bytes 8 off
    ++ le_bytes 8 size ++ le_bytes 4 link ++ le_bytes 4 0 ++ le_bytes 8 0 ++ le_bytes 8 entsize.

Definition sym (name value : Z) : list Z := le_bytes 4 name ++ le_bytes 4 0 ++ le_bytes 8 value ++ le_bytes 8 0.

Definition ehdr (machine entry shnum : Z) : list Z :=
  replicate 18 0 ++ le_bytes 2 machine ++ le_bytes 4 1 ++ le_bytes 8 entry ++ le_bytes 8 0
    ++ le_bytes 8 64 ++ replicate 10 0 ++ le_bytes 2 64 ++ le_bytes 2 shnum ++ le_bytes 2 0.

Definition image : list Z :=
  ehdr 0xf3 0x80000000 3
    ++ shdr 1 2 0x80000000 256 8 0 0
    ++ shdr SHT_SYMTAB 0 0 264 48 2 24
    ++ shdr 3 0 0 312 8 0 0
    ++ le_bytes 8 0x8502010535030000
    ++ sym 0 0 ++ sym 1 0x80001000
    ++ [0] ++ bytes_of_string "tohost" ++ replicate 8 0.

Definition other_image : list Z := ehdr 0x3e 0 0.

#[local] Existing Instance zeroed.

#[local] Instance files : FileSystem := {|
  file_content s :=
    if bool_decide (s = "program"%string) then Some image
    else if bool_decide (s = "other"%string) then Some other_image else None
|}.

Lemma index_cases (P : Z -> Prop) : P 0 -> P 1 -> P 2 -> forall i, 0 <= i < 3 -> P i.
Proof. intros ? ? ? i Hi. assert (i = 0 \/ i = 1 \/ i = 2) as [->|[->| ->]] by lia; done. Qed.

Lemma image_well_formed : well_formed image.
Proof.
  assert (Hn : e_shnum (header image) = 3) by reflexivity.
  split.
  - vm_compute. by split.
  - apply (bool_decide_eq_true_1 (Forall (fun b => 0 <= b < 256) image)). by vm_compute.
  - reflexivity.
  - intros i. rewrite Hn. revert i. refine (index_cases (fun i => _) _ _ _); by vm_compute.
  - intros i. rewrite Hn. revert i. refine (index_cases (fun i => _) _ _ _); by vm_compute.
Qed.

Lemma image_tables : tables_well_formed image "tohost".
Proof.
  assert (Ht : symbol_tables image = [section image 1]) by by vm_compute.
  split. intros s. rewrite Ht. intros ->%list_elem_of_singleton.
  split; [by vm_compute|]. split; [by vm_compute|]. split; [by vm_compute|]. split; [by vm_compute|].
  assert (Hc : symbol_count (section image 1) = 2) by by vm_compute.
  rewrite Hc. intros j Hj. assert (j = 0 \/ j = 1) as [-> | ->] by lia; split; by vm_compute.
Qed.

Lemma image_tables_fromhost : tables_well_formed image "fromhost".
Proof.
  assert (Ht : symbol_tables image = [section image 1]) by by vm_compute.
  split. intros s. rewrite Ht. intros ->%list_elem_of_singleton.
  split; [by vm_compute|]. split; [by vm_compute|]. split; [by vm_compute|]. split; [by vm_compute|].
  assert (Hc : symbol_count (section image 1) = 2) by by vm_compute.
  rewrite Hc. intros j Hj. assert (j = 0 \/ j = 1) as [-> | ->] by lia; split; by vm_compute.
Qed.

Lemma image_storable : Forall storable (loaded_blocks image).
Proof.
  assert (Hb : loaded_blocks image = [Block 0x80000000 8 (le_bytes 8 0x8502010535030000)])
    by by vm_compute.
  rewrite Hb. repeat constructor; by vm_compute.
Qed.

Lemma elf_loads_sections_witness : elf "program" = Ok (loaded_blocks image).
Proof. apply (elf_loads_sections "program" image); [done|apply image_well_formed]. Defined.

Lemma load_elf_refines_witness :
  exists b m', laid_out ["program"%string] b
    /\ load_elf ["program"%string] (Machine ∅ tt) = (Ok tt, m') /\ host m' = tt
    /\ byte_at m' ≡ₘ foldl place (byte_at (Machine ∅ tt)) (b :: loaded_blocks image).
Proof.
  apply (load_elf_refines "program" [] image (Machine ∅ tt));
    [done|apply image_well_formed|unfold arguments_fit; vm_compute; lia|apply image_storable].
Defined.

Lemma load_elf_rejects_witness :
  elf "other" = Throw (runtime_error "Received non-RISC-V binary").
Proof.
  apply (load_elf_rejects "other" [] other_image (Machine ∅ tt));
    [done|vm_compute; by split|by vm_compute|unfold arguments_fit; vm_compute; lia].
Defined.

Lemma symbol_location_first_witness :
  entry_point "program" = Ok 0x80000000 /\ symbol_location "program" "tohost" = Ok 0x80001000.
Proof.
  apply (symbol_location_first "program" image "tohost");
    [done|apply image_well_formed|apply image_tables|].
  apply (bool_decide_eq_false_1 (0 ∈ bytes_of_string "tohost")). by vm_compute.
Defined.

End ElfExample.
