(* ===== verification/Simulation.v ===== *)
(** * The simulation

    [simulation.h]: the templates [Simulation] and [RISCVSimulation], over the
    virtual methods that the two harnesses implement. The device (generated from
    the RTL) and its evaluation are part of the harness's state. *)

From S2P Require Import Prelude Exceptions Text VirtualAddressing FlatMemory MainMemory.
From S2P Require Import ArgumentParser BinaryParser.
From Stdlib Require Import Ascii.

Import MainMemory.
Open Scope Z_scope.

(** ** System calls

    The fields that [is_system_call] and [system_call] use, the finish flag of
    Verilator's context, and the characters written by [putchar]. *)
Record simulation_host : Type := Host {
  tohost : Z;
  fromhost : Z;
  exit_code : Z;
  got_finish : bool;
  console : list Z;
}.

Module SystemCall.

Definition is_system_call (h : simulation_host) (address write_data : Z) : bool :=
  (address =? tohost h) || (address =? fromhost h).

Definition putchar (c : Z) (h : simulation_host) : simulation_host :=
  Host (tohost h) (fromhost h) (exit_code h) (got_finish h) (console h ++ [c]).

(** [exit_code] is an [int]. *)
Definition finish (write_data : Z) (h : simulation_host) : simulation_host :=
  Host (tohost h) (fromhost h) (s32 write_data) true (console h).

Definition system_call (address write_data : Z) : M exn simulation_host unit :=
  h ← get;
  assert_that (is_system_call h address write_data);;
  if Z.land write_data 0xffffffffffffff00 =? 0x101000000000000
  then modify (putchar (Z.land write_data 0xff))
  else modify (finish write_data).

End SystemCall.

#[export] Instance simulation_calls : SystemCalls simulation_host := {
  is_system_call := SystemCall.is_system_call;
  system_call := SystemCall.system_call;
}.

(** ** Traces *)

(** [instr_trace_t] of [types.h]. *)
Record instr_trace_t : Type := InstrTrace {
  trace_pc : Z;
  instr_word : Z;
  mode : Z;
  gpr_written : bool;
  gpr : Z;
  gpr_data : Z;
  csr_written : bool;
  csr : Z;
  csr_data : Z;
}.

Definition csv_header : string := "pc,gpr,csr,binary,mode" +:+ ArgumentParser.newline.

(** [csv_output_line]; an [int] is printed as its 32-bit pattern. *)
Definition csv_output_line (trace : instr_trace_t) : string :=
  setw 16 (hex (trace_pc trace)) +:+ ","
  +:+ (if gpr_written trace && negb (gpr trace =? 0)
       then hex (u32 (gpr trace)) +:+ ":" +:+ setw 16 (hex (gpr_data trace)) else "")
  +:+ ","
  +:+ (if csr_written trace
       then hex (u32 (csr trace)) +:+ ":" +:+ setw 16 (hex (csr_data trace)) else "")
  +:+ "," +:+ setw 8 (hex (instr_word trace)) +:+ "," +:+ hex (u32 (mode trace))
  +:+ ArgumentParser.newline.

(** The waveform formats of Verilator. Which of them are compiled in is a parameter
    of the build: the macros [VCD_ENABLE] and [FST_ENABLE]. *)
Inductive trace_format : Type := VCD | FST.

Class TraceFormats : Type := {
  VCD_ENABLE : bool;
  FST_ENABLE : bool;
}.

Definition compiled_in `{TraceFormats} (f : trace_format) : bool :=
  match f with VCD => VCD_ENABLE | FST => FST_ENABLE end.

(** The calls on Verilator's context, waveform and coverage objects, and on the
    stream of the CSV file apart from what is written to it. *)
Inductive trace_call : Type :=
  | traceEverOn (flag : bool)
  | trace_device (f : trace_format) (levels : Z)
  | trace_open (f : trace_format) (filename : string)
  | trace_dump (f : trace_format) (time : Z)
  | trace_flush (f : trace_format)
  | trace_close_file (f : trace_format)
  | coverage_write (filename : string)
  | csv_open (filename : string)
  | csv_flush
  | csv_close.

(** ** The virtual methods

    [X] is the state of the subclass: the device and the memory ports. The two
    halves of a cycle also work on the memory; they get [simulation_time()],
    converted to an integer. *)
Class SimulationMethods (X : Type) : Type := {
  set_clock : Z -> X -> X;
  set_reset : Z -> X -> X;
  init : X -> X;
  eval : X -> X;
  final : X -> X;
  get_program_counter : X -> Z;
  get_trace_info : X -> instr_trace_t;
  cycle_first_half : Z -> M exn (X * machine simulation_host) unit;
  cycle_second_half : Z -> M exn (X * machine simulation_host) unit;
}.

Module Simulation.

(** The parameters that arguments set; a [bool] with a file name is an option. *)
Record settings : Type := Settings {
  timeout : Z;
  coverage_file : option string;
  log_level : Z;
  main_memory_latency : Z;
  csv_filename : option string;
  vcd_filename : option string;
  fst_filename : option string;
}.

(** The state of a [RISCVSimulation]. [cycle] counts half cycles (the code adds
    0.5 to a [double]); [binary_position] is not initialised; [csv_trace] is the
    content of the CSV file, [trace_calls] the calls on trace files so far, and
    [printed] the help text. *)
Record simulation (X : Type) : Type := Sim {
  args : ArgumentParser.parser;
  params : settings;
  cycle : Z;
  pc : Z;
  csv_trace : string;
  trace_calls : list trace_call;
  printed : string;
  binary_position : option Z;
  entry_point : Z;
  harness : X;
  memory : machine simulation_host;
}.
Arguments Sim {X} args params cycle pc csv_trace trace_calls printed binary_position entry_point harness memory.
Arguments args {X} s.
Arguments params {X} s.
Arguments cycle {X} s.
Arguments pc {X} s.
Arguments csv_trace {X} s.
Arguments trace_calls {X} s.
Arguments printed {X} s.
Arguments binary_position {X} s.
Arguments entry_point {X} s.
Arguments harness {X} s.
Arguments memory {X} s.

Section operations.

Context {X : Type} `{TraceFormats}.

Implicit Types s : simulation X.

Definition set_args (a : ArgumentParser.parser) s : simulation X :=
  Sim a (params s) (cycle s) (pc s) (csv_trace s) (trace_calls s) (printed s)
    (binary_position s) (entry_point s) (harness s) (memory s).
Definition on_params (f : settings -> settings) s : simulation X :=
  Sim (args s) (f (params s)) (cycle s) (pc s) (csv_trace s) (trace_calls s) (printed s)
    (binary_position s) (entry_point s) (harness s) (memory s).
Definition set_cycle (c : Z) s : simulation X :=
  Sim (args s) (params s) c (pc s) (csv_trace s) (trace_calls s) (printed s)
    (binary_position s) (entry_point s) (harness s) (memory s).
Definition set_pc (p : Z) s : simulation X :=
  Sim (args s) (params s) (cycle s) p (csv_trace s) (trace_calls s) (printed s)
    (binary_position s) (entry_point s) (harness s) (memory s).
Definition write_csv (line : string) s : simulation X :=
  Sim (args s) (params s) (cycle s) (pc s) (csv_trace s +:+ line) (trace_calls s) (printed s)
    (binary_position s) (entry_point s) (harness s) (memory s).
Definition print (text : string) s : simulation X :=
  Sim (args s) (params s) (cycle s) (pc s) (csv_trace s) (trace_calls s) (printed s +:+ text)
    (binary_position s) (entry_point s) (harness s) (memory s).
Definition set_binary (pos : Z) s : simulation X :=
  Sim (args s) (params s) (cycle s) (pc s) (csv_trace s) (trace_calls s) (printed s) (Some pos)
    (entry_point s) (harness s) (memory s).
Definition set_entry (e : Z) s : simulation X :=
  Sim (args s) (params s) (cycle s) (pc s) (csv_trace s) (trace_calls s) (printed s)
    (binary_position s) e (harness s) (memory s).
Definition set_harness (x : X) s : simulation X :=
  Sim (args s) (params s) (cycle s) (pc s) (csv_trace s) (trace_calls s) (printed s)
    (binary_position s) (entry_point s) x (memory s).
Definition set_memory (m : machine simulation_host) s : simulation X :=
  Sim (args s) (params s) (cycle s) (pc s) (csv_trace s) (trace_calls s) (printed s)
    (binary_position s) (entry_point s) (harness s) m.

Definition record_calls (calls : list trace_call) s : simulation X :=
  Sim (args s) (params s) (cycle s) (pc s) (csv_trace s) (trace_calls s ++ calls) (printed s)
    (binary_position s) (entry_point s) (harness s) (memory s).

Definition on_harness (f : X -> X) s : simulation X := set_harness (f (harness s)) s.
Definition on_host (f : simulation_host -> simulation_host) s : simulation X :=
  set_memory (Machine (pages (memory s)) (f (host (memory s)))) s.

Abbreviation M := (M exn (simulation X)).

Definition on_args {A} (k : ArgumentParser.M A) : M A := zoom args set_args k.
Definition on_memory {A} (k : Prelude.M exn (machine simulation_host) A) : M A :=
  zoom memory set_memory k.
(** A half cycle: a method of the harness, which also works on the memory. *)
Definition on_both (k : Prelude.M exn (X * machine simulation_host) unit) : M unit :=
  zoom (fun s => (harness s, memory s)) (fun xm s => set_memory (snd xm) (set_harness (fst xm) s)) k.

(** *** Construction

    The constructors of [Simulation] and [RISCVSimulation]. [x] is the subclass's
    part; the fields that they leave uninitialised are given: [e], [p] and the
    system call addresses of [h]. *)
Definition common_arguments : ArgumentParser.parser :=
  let add := ArgumentParser.add_argument in
  let a := ArgumentParser.make in
  let a := add "--timeout" "Force end of simulation after fixed number of cycles" ArgumentParser.ARGS_ONE a in
  let a := add "--coverage" "Dump coverage information to a file" ArgumentParser.ARGS_ONE a in
  let a := add "-v" "Display basic logging information as simulation proceeds" ArgumentParser.ARGS_NONE a in
  let a := add "-vv" "Display detailed logging information as simulation proceeds" ArgumentParser.ARGS_NONE a in
  let a := add "--help" "Display this information and exit" ArgumentParser.ARGS_NONE a in
  let a := if FST_ENABLE
           then add "--fst" "Dump FST output to a file (enable VCD in *_tb.core)" ArgumentParser.ARGS_ONE a
           else a in
  if VCD_ENABLE
  then add "--vcd" "Dump VCD output to a file (enable FST in *_tb.core)" ArgumentParser.ARGS_ONE a
  else a.

Definition declared_arguments (name : string) : ArgumentParser.parser :=
  let add := ArgumentParser.add_argument in
  let a := ArgumentParser.set_description ("Usage: " +:+ name +:+ " [simulator args] <program> [program args]")
             common_arguments in
  let a := add "--memory-latency" "Set main memory latency to a given number of cycles" ArgumentParser.ARGS_ONE a in
  add "--csv" "Dump a CSV trace to a file (mainly for riscv-dv)" ArgumentParser.ARGS_ONE a.

Definition initial_settings : settings := Settings 1000000 None 0 10 None None None.

Definition make (name : string) (x : X) (e p th fh : Z) : simulation X :=
  Sim (declared_arguments name) initial_settings 0 p "" [] "" None e x
    (Machine ∅ (Host th fh 0 false [])).

(** *** Arguments *)

Definition set_timeout (n : Z) (c : settings) : settings :=
  Settings n (coverage_file c) (log_level c) (main_memory_latency c)
    (csv_filename c) (vcd_filename c) (fst_filename c).
Definition set_coverage (f : string) (c : settings) : settings :=
  Settings (timeout c) (Some f) (log_level c) (main_memory_latency c)
    (csv_filename c) (vcd_filename c) (fst_filename c).
Definition set_log_level (n : Z) (c : settings) : settings :=
  Settings (timeout c) (coverage_file c) n (main_memory_latency c)
    (csv_filename c) (vcd_filename c) (fst_filename c).
Definition set_latency (n : Z) (c : settings) : settings :=
  Settings (timeout c) (coverage_file c) (log_level c) n
    (csv_filename c) (vcd_filename c) (fst_filename c).
Definition set_csv (f : string) (c : settings) : settings :=
  Settings (timeout c) (coverage_file c) (log_level c) (main_memory_latency c)
    (Some f) (vcd_filename c) (fst_filename c).
Definition set_vcd (f : string) (c : settings) : settings :=
  Settings (timeout c) (coverage_file c) (log_level c) (main_memory_latency c)
    (csv_filename c) (Some f) (fst_filename c).
Definition set_fst (f : string) (c : settings) : settings :=
  Settings (timeout c) (coverage_file c) (log_level c) (main_memory_latency c)
    (csv_filename c) (vcd_filename c) (Some f).

(** [if (args.found_arg(name)) ...]. *)
Definition if_found (name : string) (k : M unit) : M unit :=
  a ← gets args;
  when (ArgumentParser.found_arg name a) k.

Definition show_help : M unit :=
  a ← gets args;
  modify (print (ArgumentParser.print_help a));;
  fail (ExitWith 0).

(** [Simulation::parse_args]. *)
Definition parse_common (argc : Z) (argv : list string) : M unit :=
  on_args (ArgumentParser.parse_args argc argv);;
  if_found "--timeout"
    (v ← on_args (ArgumentParser.get_arg "--timeout");
     n ← fail (stoi v);
     modify (on_params (set_timeout (u64 n))));;
  if_found "--coverage"
    (v ← on_args (ArgumentParser.get_arg "--coverage"); modify (on_params (set_coverage v)));;
  when FST_ENABLE (if_found "--fst"
    (v ← on_args (ArgumentParser.get_arg "--fst"); modify (on_params (set_fst v))));;
  when VCD_ENABLE (if_found "--vcd"
    (v ← on_args (ArgumentParser.get_arg "--vcd"); modify (on_params (set_vcd v))));;
  if_found "-v" (modify (on_params (set_log_level 1)));;
  if_found "-vv" (modify (on_params (set_log_level 2)));;
  if_found "--help" show_help.

End operations.

Section riscv.

Context {X : Type} `{TraceFormats} `{Uninitialised} `{FileSystem} `{SimulationMethods X}.

Abbreviation M := (M exn (simulation X)).

(** *** Loading the program *)

(** [argv + binary_position]. *)
Definition read_binary (argv : list string) : M unit :=
  on_memory (BinaryParser.load_elf argv);;
  program ← fail (match argv with p :: _ => Ok p | [] => Undefined end);
  e ← fail (BinaryParser.entry_point program);
  modify (set_entry e);;
  th ← fail (BinaryParser.symbol_location program "tohost");
  modify (on_host (fun h => Host th (fromhost h) (exit_code h) (got_finish h) (console h)));;
  fh ← fail (BinaryParser.symbol_location program "fromhost");
  modify (on_host (fun h => Host (tohost h) fh (exit_code h) (got_finish h) (console h))).

(** [name[0] == '-']; an empty string has a terminator at that place. *)
Definition looks_like_flag (name : string) : bool :=
  match name with String c _ => bool_decide (c = "-"%char) | EmptyString => false end.

(** [RISCVSimulation::parse_args]. *)
Definition parse_args (argc : Z) (argv : list string) : M unit :=
  (if argc =? 0 then show_help else mret tt);;
  parse_common argc argv;;
  a ← gets args;
  let pos := ArgumentParser.get_args_parsed a in
  (if pos <? argc then
     name ← on_args (ArgumentParser.argument argv pos);
     if looks_like_flag name then throw (InvalidArgumentException name pos)
     else modify (set_binary pos)
   else mret tt);;
  if_found "--memory-latency"
    (v ← on_args (ArgumentParser.get_arg "--memory-latency");
     n ← fail (stoi v);
     modify (on_params (set_latency n)));;
  if_found "--csv"
    (v ← on_args (ArgumentParser.get_arg "--csv"); modify (on_params (set_csv v)));;
  binary ← gets binary_position;
  pos ← fail (match binary with Some pos => Ok pos | None => Undefined end);
  read_binary (drop (Z.to_nat pos) (take (Z.to_nat argc) argv)).

(** *** Reset *)

(** The loop of [Simulation::reset]. *)
Fixpoint toggle_clock (n : nat) (x : X) : X :=
  match n with
  | O => x
  | S n => toggle_clock n (eval (set_clock 0 (eval (set_clock 1 x))))
  end.

Definition reset_device (x : X) : X := set_reset 0 (toggle_clock 10 (set_reset 1 x)).

(** Instructions that jump to [pc], at the address where the core starts. *)
Definition set_entry_point (pc : Z) : M unit :=
  on_memory (write64 0x00 0x0105350300000517);;
  on_memory (write64 0x08 0x0000000000008502);;
  on_memory (write64 0x10 pc).

(** [RISCVSimulation::reset]. *)
Definition reset : M unit :=
  modify (on_harness reset_device);;
  e ← gets entry_point;
  set_entry_point e.

(** *** Traces *)

Definition wave_filename (f : trace_format) (c : settings) : option string :=
  match f with VCD => vcd_filename c | FST => fst_filename c end.

(** [if (vcd_on) ...], where the format is compiled in. *)
Definition if_waves (f : trace_format) (calls : simulation X -> string -> list trace_call) : M unit :=
  s ← get;
  match compiled_in f, wave_filename f (params s) with
  | true, Some filename => modify (record_calls (calls s filename))
  | _, _ => mret tt
  end.

(** [if (csv_on) ...]. *)
Definition if_csv (k : string -> M unit) : M unit :=
  s ← get;
  match csv_filename (params s) with Some filename => k filename | None => mret tt end.

(** [Simulation::trace_init], [trace_state_change] and [trace_close]. *)
Definition open_waves (f : trace_format) : M unit :=
  if_waves f (fun _ filename => [traceEverOn true; trace_device f 100; trace_open f filename]).
Definition dump_waves (f : trace_format) : M unit :=
  if_waves f (fun s _ => [trace_dump f (5 * cycle s)]).
Definition close_waves (f : trace_format) : M unit :=
  if_waves f (fun _ _ => [trace_flush f; trace_close_file f]).

Definition base_trace_init : M unit := open_waves VCD;; open_waves FST.
Definition base_trace_state_change : M unit := dump_waves VCD;; dump_waves FST.
Definition base_trace_close : M unit :=
  close_waves VCD;;
  close_waves FST;;
  s ← get;
  match coverage_file (params s) with
  | Some filename => modify (record_calls [coverage_write filename])
  | None => mret tt
  end.

(** Those of [RISCVSimulation]. *)
Definition trace_init : M unit :=
  base_trace_init;;
  if_csv (fun filename => modify (record_calls [csv_open filename]);; modify (write_csv csv_header)).

Definition trace_state_change : M unit :=
  base_trace_state_change;;
  s ← get;
  when (negb (get_program_counter (harness s) =? pc s))
    (modify (set_pc (get_program_counter (harness s)));;
     if_csv (fun _ => modify (write_csv (csv_output_line (get_trace_info (harness s)))))).

Definition trace_close : M unit :=
  base_trace_close;;
  if_csv (fun _ => modify (record_calls [csv_flush; csv_close])).

(** *** The run *)

(** [simulation_time()], converted to the [uint64_t] that the ports take. *)
Definition simulation_time (s : simulation X) : Z := cycle s / 2.

Definition first_half : M unit :=
  modify (on_harness (set_clock 1));;
  t ← gets simulation_time;
  on_both (cycle_first_half t);;
  trace_state_change;;
  modify (fun s => set_cycle (cycle s + 1) s).

Definition second_half : M unit :=
  modify (on_harness (set_clock 0));;
  t ← gets simulation_time;
  on_both (cycle_second_half t);;
  trace_state_change;;
  modify (fun s => set_cycle (cycle s + 1) s).

(** The condition of the loop. *)
Definition running (s : simulation X) : bool :=
  negb (got_finish (host (memory s))) && (cycle s <? 2 * timeout (params s)).

Definition tick : M unit := first_half;; second_half.

Fixpoint run_loop (fuel : nat) : M unit :=
  s ← get;
  if running s then
    match fuel with
    | O => fail OutOfFuel
    | S fuel => tick;; run_loop fuel
    end
  else mret tt.

(** [run] up to its loop. *)
Definition start : M unit :=
  modify (set_pc 0);;
  trace_init;;
  modify (on_harness init);;
  reset;;
  t ← gets simulation_time;
  on_both (cycle_second_half t).

Definition end_simulation : M unit := modify (on_harness final).

(** [run] after its loop. *)
Definition stop : M unit :=
  end_simulation;;
  trace_close;;
  s ← get;
  when (2 * timeout (params s) <=? cycle s) (fail (ExitWith 1)).

(** Every turn of the loop adds a cycle, so the timeout bounds the turns. *)
Definition run : M unit :=
  start;;
  s ← get;
  run_loop (Z.to_nat (timeout (params s)));;
  stop.

Definition return_code (s : simulation X) : Z := exit_code (host (memory s)).

(** [main], on the arguments after the simulator's name. *)
Definition main (argc : Z) (argv : list string) : M Z :=
  parse_args argc argv;;
  run;;
  gets return_code.

End riscv.

End Simulation.
