(* ===== verification/SimulationTheorems.v ===== *)
(** * The simulation: theorems *)

From S2P Require Import Prelude Exceptions Text VirtualAddressing FlatMemory MainMemory.
From S2P Require Import MainMemoryFacts MainMemoryTheorems CorePortsTheorems Simulation.

Import MainMemory Simulation.

(** ** System calls *)

#[export] Instance simulation_calls_ok : SystemCallsOk simulation_host.
Proof.
  split.
  - intros h a d Hc. cbn in *. unfold SystemCall.system_call. erewrite bind_ok by done.
    rewrite Hc. erewrite bind_ok by done. case_match; by eexists.
  - intros h a d a' d'. cbn. unfold SystemCall.system_call. erewrite bind_ok by done.
    destruct (SystemCall.is_system_call h a d); [|done]. erewrite bind_ok by done. by case_match.
Qed.

(** The effect of storing [d] at a system call address. *)
Definition called (d : Z) (h : simulation_host) : simulation_host :=
  if decide (d / 256 = 0x1010000000000) then SystemCall.putchar (d mod 256) h
  else SystemCall.finish d h.

Lemma character_call d :
  in_width 64 d ->
  (Z.land d 0xffffffffffffff00 =? 0x101000000000000) = bool_decide (d / 256 = 0x1010000000000).
Proof.
  intros Hd. assert (Hl : Z.land d 0xffffffffffffff00 = d / 256 * 256).
  { change 0xffffffffffffff00 with (Z.shiftl (Z.ones 56) 8). change 256 with (2 ^ 8).
    rewrite <- Z.shiftr_div_pow2, <- Z.shiftl_mul_pow2 by lia. by_bits i. rewrite Z.land_spec.
    destruct (Z.ltb_spec i 8).
    - rewrite !Z.shiftl_spec_low by done. apply andb_false_r.
    - rewrite !Z.shiftl_spec_high, Z.shiftr_spec by lia. replace (i - 8 + 8) with i by lia.
      destruct (Z.ltb_spec i 64).
      + rewrite Z.ones_spec_low by lia. apply andb_true_r.
      + rewrite (testbit_above 64) by (unfold in_width in Hd; lia). done. }
  rewrite Hl. destruct (Z.eqb_spec (d / 256 * 256) 0x101000000000000); symmetry.
  - apply bool_decide_true. lia.
  - apply bool_decide_false. lia.
Qed.

Lemma system_call_run a d h :
  in_width 64 d -> SystemCall.is_system_call h a d = true ->
  SystemCall.system_call a d h = (Ok tt, called d h).
Proof.
  intros Hd Hc. unfold SystemCall.system_call. erewrite bind_ok by done. rewrite Hc.
  erewrite bind_ok by done. rewrite character_call by done. unfold called.
  change 0xff with (Z.ones 8). rewrite Z.land_ones by lia. change (2 ^ 8) with 256.
  rewrite bool_decide_decide. by case_decide.
Qed.

(** ** Interfaces of the virtual methods

    What the harnesses promise to the run: in the states [completes], which every
    [init] reaches, the two half cycles go through and stay in them. *)
Class MethodsLaws (X : Type) `{SimulationMethods X} : Type := {
  completes : X -> Prop;
  completes_init x : completes (init x);
  completes_clock v x : completes x -> completes (set_clock v x);
  completes_reset v x : completes x -> completes (set_reset v x);
  completes_eval x : completes x -> completes (eval x);
  first_half_completes t x m :
    completes x -> exists x' m', cycle_first_half t (x, m) = (Ok tt, (x', m')) /\ completes x';
  second_half_completes t x m :
    completes x -> exists x' m', cycle_second_half t (x, m) = (Ok tt, (x', m')) /\ completes x';
}.

(** ** Running *)

Section running.

Context {X : Type} `{TraceFormats} `{Uninitialised} `{MethodsLaws X}.

#[local] Set Default Proof Using "All".

Implicit Types (s : simulation X) (m : machine simulation_host).

Abbreviation finished s := (got_finish (host (memory s))).

(** The fields that [run] never changes. *)
Record same_settings s s' : Prop := {
  same_args : args s' = args s;
  same_params : params s' = params s;
  same_binary : binary_position s' = binary_position s;
  same_entry : entry_point s' = entry_point s;
  same_printed : printed s' = printed s;
}.

#[export] Instance same_settings_trans : Transitive same_settings.
Proof. intros s1 s2 s3 [] []. split; congruence. Qed.

(** What the trace methods do, as functions. *)
Definition waves (f : trace_format) (calls : string -> list trace_call) (c : settings) : list trace_call :=
  match compiled_in f, wave_filename f c with true, Some filename => calls filename | _, _ => [] end.

Definition opening (c : settings) : list trace_call :=
  waves VCD (fun filename => [traceEverOn true; trace_device VCD 100; trace_open VCD filename]) c
  ++ waves FST (fun filename => [traceEverOn true; trace_device FST 100; trace_open FST filename]) c
  ++ match csv_filename c with Some filename => [csv_open filename] | None => [] end.

Definition dumps (c : settings) (time : Z) : list trace_call :=
  waves VCD (fun _ => [trace_dump VCD time]) c ++ waves FST (fun _ => [trace_dump FST time]) c.

Definition closing (c : settings) : list trace_call :=
  waves VCD (fun _ => [trace_flush VCD; trace_close_file VCD]) c
  ++ waves FST (fun _ => [trace_flush FST; trace_close_file FST]) c
  ++ match coverage_file c with Some filename => [coverage_write filename] | None => [] end
  ++ match csv_filename c with Some _ => [csv_flush; csv_close] | None => [] end.

(** The line of the CSV file when the program counter moves from [p]. *)
Definition csv_change (c : settings) (p : Z) (x : X) : string :=
  if get_program_counter x =? p then ""
  else match csv_filename c with Some _ => csv_output_line (get_trace_info x) | None => "" end.

Definition traced s : simulation X :=
  write_csv (csv_change (params s) (pc s) (harness s))
    (set_pc (get_program_counter (harness s)) (record_calls (dumps (params s) (5 * cycle s)) s)).

Definition closed s : simulation X := record_calls (closing (params s)) s.

Lemma write_csv_nothing s : write_csv "" s = s.
Proof. destruct s. unfold write_csv. cbn. by rewrite append_nil_r. Qed.

Lemma record_nothing s : record_calls [] s = s.
Proof. destruct s. unfold record_calls. cbn. by rewrite app_nil_r. Qed.

Lemma record_record l1 l2 s : record_calls l2 (record_calls l1 s) = record_calls (l1 ++ l2) s.
Proof. destruct s. unfold record_calls. cbn. by rewrite app_assoc. Qed.

Lemma if_waves_run f calls s :
  if_waves f calls s = (Ok tt, record_calls (waves f (calls s) (params s)) s).
Proof.
  unfold if_waves, waves. erewrite bind_ok by done.
  destruct (compiled_in f), (wave_filename f (params s)); by rewrite ?record_nothing.
Qed.

Lemma base_trace_state_change_run s :
  base_trace_state_change s = (Ok tt, record_calls (dumps (params s) (5 * cycle s)) s).
Proof.
  unfold base_trace_state_change, dump_waves. erewrite bind_ok by apply if_waves_run.
  rewrite if_waves_run, record_record. done.
Qed.

Lemma trace_state_change_run s : trace_state_change s = (Ok tt, traced s).
Proof.
  unfold trace_state_change. erewrite bind_ok by apply base_trace_state_change_run.
  erewrite bind_ok by done. unfold traced, csv_change. cbn [harness pc record_calls].
  destruct (Z.eqb_spec (get_program_counter (harness s)) (pc s)) as [Hpc|Hpc]; cbn [negb when].
  - rewrite write_csv_nothing, Hpc. by destruct s.
  - erewrite bind_ok by done. unfold if_csv. erewrite bind_ok by done. cbn [params set_pc record_calls].
    destruct (csv_filename (params s)); [done|]. by rewrite write_csv_nothing.
Qed.

Definition coverage_calls (c : settings) : list trace_call :=
  match coverage_file c with Some filename => [coverage_write filename] | None => [] end.

Lemma base_trace_close_run s :
  base_trace_close s
  = (Ok tt, record_calls ((waves VCD (fun _ => [trace_flush VCD; trace_close_file VCD]) (params s)
                           ++ waves FST (fun _ => [trace_flush FST; trace_close_file FST]) (params s))
                          ++ coverage_calls (params s)) s).
Proof.
  unfold base_trace_close, close_waves, coverage_calls. erewrite bind_ok by apply if_waves_run.
  erewrite bind_ok by apply if_waves_run. erewrite bind_ok by done. rewrite record_record.
  cbn [params record_calls]. destruct (coverage_file (params s)).
  - unfold modify. by rewrite record_record.
  - by rewrite app_nil_r.
Qed.

Lemma trace_close_run s : trace_close s = (Ok tt, closed s).
Proof.
  unfold trace_close. erewrite bind_ok by apply base_trace_close_run. unfold if_csv, closed, closing.
  erewrite bind_ok by done. cbn [params record_calls]. fold (coverage_calls (params s)).
  destruct (csv_filename (params s)).
  - unfold modify. by rewrite record_record, <- !app_assoc.
  - by rewrite app_nil_r, <- app_assoc.
Qed.

(** A half cycle of the loop, for either method. *)
Lemma half_run v (method : Z -> M exn (X * machine simulation_host) unit) s x m :
  method (simulation_time s) (set_clock v (harness s), memory s) = (Ok tt, (x, m)) ->
  exists s', (modify (on_harness (set_clock v));;
              t ← gets simulation_time;
              on_both (method t);;
              trace_state_change;;
              modify (fun s => set_cycle (cycle s + 1) s)) s = (Ok tt, s')
    /\ same_settings s s' /\ cycle s' = cycle s + 1 /\ harness s' = x /\ memory s' = m
    /\ s' = set_cycle (cycle s + 1) (traced (set_memory m (set_harness x s))).
Proof.
  intros Hm. set (s1 := on_harness (set_clock v) s).
  assert (Hb : on_both (method (simulation_time s1)) s1
               = (Ok tt, set_memory m (set_harness x s1))).
  { unfold on_both, zoom. change (simulation_time s1) with (simulation_time s). cbn. by rewrite Hm. }
  erewrite bind_ok by done. erewrite bind_ok by done. erewrite bind_ok by exact Hb.
  erewrite bind_ok by apply trace_state_change_run. eexists. split; [reflexivity|]. by repeat split.
Qed.

(** The two halves of a turn. *)
Lemma tick_halves s :
  completes (harness s) ->
  exists s1 s2, first_half s = (Ok tt, s1) /\ tick s = (Ok tt, s2)
    /\ same_settings s s2 /\ cycle s1 = cycle s + 1 /\ cycle s2 = cycle s + 2
    /\ completes (harness s1) /\ completes (harness s2)
    /\ (harness s1, memory s1)
       = snd (cycle_first_half (simulation_time s) (set_clock 1 (harness s), memory s))
    /\ (harness s2, memory s2)
       = snd (cycle_second_half (simulation_time s1) (set_clock 0 (harness s1), memory s1)).
Proof.
  intros Hc. unfold tick.
  destruct (first_half_completes (simulation_time s) (set_clock 1 (harness s)) (memory s))
    as (x1 & m1 & Hm1 & Hc1); [by apply completes_clock|].
  destruct (half_run 1 cycle_first_half s x1 m1 Hm1) as (s1 & Hrun1 & Hs1 & Hcy1 & Hh1 & Hmem1 & _).
  destruct (second_half_completes (simulation_time s1) (set_clock 0 (harness s1)) (memory s1))
    as (x2 & m2 & Hm2 & Hc2); [apply completes_clock; by rewrite Hh1|].
  destruct (half_run 0 cycle_second_half s1 x2 m2 Hm2) as (s2 & Hrun2 & Hs2 & Hcy2 & Hh2 & Hmem2 & _).
  exists s1, s2. split; [exact Hrun1|]. erewrite bind_ok by exact Hrun1. split; [exact Hrun2|].
  split; [by etrans|]. split; [done|]. split; [lia|].
  by rewrite Hm1, Hm2, Hh1, Hh2, Hmem1, Hmem2.
Qed.

Lemma tick_run s :
  completes (harness s) ->
  exists s', tick s = (Ok tt, s') /\ same_settings s s' /\ cycle s' = cycle s + 2
    /\ completes (harness s').
Proof. intros Hc. destruct (tick_halves s Hc) as (s1 & s2 & ? & ? & ? & ? & ? & ? & ? & _). eauto 6. Qed.

(** [n] turns of the loop. *)
Fixpoint ticks (n : nat) : M exn (simulation X) unit :=
  match n with O => mret tt | S n => tick;; ticks n end.

Lemma ticks_run n s :
  completes (harness s) ->
  exists s', ticks n s = (Ok tt, s') /\ same_settings s s' /\ cycle s' = cycle s + 2 * Z.of_nat n
    /\ completes (harness s').
Proof.
  revert s. induction n as [|n IH]; intros s Hc; cbn [ticks].
  - exists s. split; [done|]. split; [by split|]. split; [lia|done].
  - destruct (tick_run s Hc) as (s1 & Hrun & Hs1 & Hcy & Hc1). erewrite bind_ok by exact Hrun.
    destruct (IH s1 Hc1) as (s2 & Hrun2 & Hs2 & Hcy2 & Hc2). exists s2.
    split; [done|]. split; [by etrans|]. split; [lia|done].
Qed.

(** The loop makes the turns until the program has finished or the time is up. *)
Lemma run_loop_run fuel s :
  completes (harness s) -> 0 <= cycle s -> 2 * timeout (params s) <= cycle s + 2 * Z.of_nat fuel ->
  exists n s', run_loop fuel s = (Ok tt, s') /\ ticks n s = (Ok tt, s')
    /\ running s' = false
    /\ (forall k, (k < n)%nat -> exists sk, ticks k s = (Ok tt, sk) /\ running sk = true).
Proof.
  revert s. induction fuel as [|fuel IH]; intros s Hc Hcy0 Hfuel; cbn [run_loop].
  - assert (Hr : running s = false).
    { unfold running. rewrite (proj2 (Z.ltb_ge _ _)) by lia. apply andb_false_r. }
    exists 0%nat, s. erewrite bind_ok by done. rewrite Hr. repeat split; try done. lia.
  - erewrite bind_ok by done. destruct (running s) eqn:Hr.
    2:{ exists 0%nat, s. repeat split; try done. lia. }
    destruct (tick_run s Hc) as (s1 & Hrun & Hs1 & Hcy & Hc1). erewrite bind_ok by exact Hrun.
    destruct (IH s1) as (n & s2 & Hloop & Hticks & Hstop & Hbefore);
      [done|lia|rewrite (same_params _ _ Hs1); lia|].
    exists (S n), s2. cbn [ticks]. erewrite bind_ok by exact Hrun. repeat split; try done.
    intros [|k] Hk; [by exists s|]. cbn [ticks]. erewrite bind_ok by exact Hrun. apply Hbefore. lia.
Qed.

(** *** Before the loop *)

Lemma completes_toggle n x : completes x -> completes (toggle_clock n x).
Proof.
  revert x. induction n as [|n IH]; intros x Hc; cbn; [done|].
  apply IH. eauto using completes_eval, completes_clock.
Qed.

Lemma completes_reset_device x : completes x -> completes (reset_device x).
Proof. intros. unfold reset_device. by apply completes_reset, completes_toggle, completes_reset. Qed.

Lemma set_entry_point_run e s :
  exists m, set_entry_point e s = (Ok tt, set_memory m s).
Proof.
  unfold set_entry_point, on_memory, zoom.
  destruct (write_word_completes (memory s) 0 0x0105350300000517) as [m1 Hm1]; [done|].
  destruct (write_word_completes m1 1 0x8502) as [m2 Hm2]; [done|].
  destruct (write_word_completes m2 2 e) as [m3 Hm3]; [done|].
  change (word_address 0) with 0 in Hm1. change (word_address 1) with 8 in Hm2.
  change (word_address 2) with 16 in Hm3.
  exists m3. erewrite bind_ok by (cbn; by rewrite Hm1). cbn [memory set_memory].
  erewrite bind_ok by (cbn; by rewrite Hm2). cbn. by rewrite Hm3.
Qed.

Definition opened s : simulation X :=
  write_csv (match csv_filename (params s) with Some _ => csv_header | None => "" end)
    (record_calls (opening (params s)) s).

Lemma trace_init_run s : trace_init s = (Ok tt, opened s).
Proof.
  unfold trace_init, base_trace_init, open_waves. erewrite bind_ok.
  2:{ erewrite bind_ok by apply if_waves_run. rewrite if_waves_run, record_record. reflexivity. }
  unfold if_csv, opened, opening. erewrite bind_ok by done. cbn [params record_calls].
  destruct (csv_filename (params s)).
  - erewrite bind_ok by done. rewrite record_record, <- app_assoc. done.
  - by rewrite write_csv_nothing, app_nil_r.
Qed.

Lemma start_run s :
  exists s', start s = (Ok tt, s') /\ same_settings s s' /\ cycle s' = cycle s
    /\ completes (harness s')
    /\ exists m, (harness s', memory s')
         = snd (cycle_second_half (simulation_time s) (reset_device (init (harness s)), m)).
Proof.
  unfold start. erewrite bind_ok by done.
  erewrite bind_ok by apply trace_init_run. set (s1 := opened (set_pc 0 s)).
  erewrite bind_ok by done. unfold reset. rewrite bind_run. erewrite bind_ok by done.
  erewrite bind_ok by done.
  match goal with |- context [set_entry_point ?e ?s1] =>
    destruct (set_entry_point_run e s1) as [m ->] end.
  erewrite bind_ok by done. unfold on_both, zoom.
  edestruct (second_half_completes (cycle s1 / 2) (reset_device (init (harness s1))) m)
    as (x2 & m2 & Hm & Hc2); [apply completes_reset_device, completes_init|].
  unfold simulation_time. cbn in *. rewrite Hm. eexists. split; [reflexivity|].
  split; [by split|]. split; [done|]. split; [done|].
  exists m. by rewrite Hm.
Qed.

Lemma run_run s :
  cycle s = 0 -> 0 <= timeout (params s) ->
  exists s0 n sn, start s = (Ok tt, s0) /\ ticks n s0 = (Ok tt, sn)
    /\ Z.of_nat n <= timeout (params s)
    /\ (forall k, (k < n)%nat -> exists sk, ticks k s0 = (Ok tt, sk) /\ finished sk = false)
    /\ (finished sn = true \/ Z.of_nat n = timeout (params s))
    /\ run s = (if decide (Z.of_nat n < timeout (params s)) then Ok tt else ExitWith 1,
                closed (on_harness final sn)).
Proof.
  intros Hcy Ht. destruct (start_run s) as (s0 & Hstart & Hs0 & Hc0 & Hcomp & _).
  destruct (run_loop_run (Z.to_nat (timeout (params s))) s0)
    as (n & sn & Hloop & Hticks & Hstop & Hbefore);
    [done|lia|rewrite (same_params _ _ Hs0); lia|].
  assert (Hat : forall k sk, ticks k s0 = (Ok tt, sk) ->
      params sk = params s /\ cycle sk = 2 * Z.of_nat k).
  { intros k sk Hk. destruct (ticks_run k s0 Hcomp) as (s' & Hk' & Hset & Hck & _).
    rewrite Hk in Hk'. simplify_eq. split; [|lia].
    by rewrite (same_params _ _ Hset), (same_params _ _ Hs0). }
  destruct (Hat n sn Hticks) as [Hpn Hcn].
  assert (Hle : Z.of_nat n <= timeout (params s)).
  { destruct n as [|k]; [lia|]. destruct (Hbefore k ltac:(lia)) as (sk & Hk & Hr).
    destruct (Hat k sk Hk) as [Hpk Hck]. unfold running in Hr.
    apply andb_true_iff in Hr as [_ Hr%Z.ltb_lt]. rewrite Hpk in Hr. lia. }
  exists s0, n, sn. split; [done|]. split; [done|]. split; [done|]. split; [|split].
  - intros k Hk. destruct (Hbefore k Hk) as (sk & Hrun & Hr). exists sk. split; [done|].
    unfold running in Hr. apply andb_true_iff in Hr as [Hr _]. by apply negb_true_iff in Hr.
  - unfold running in Hstop. rewrite Hpn, Hcn in Hstop. apply andb_false_iff in Hstop as [Hf|Hf].
    + left. by apply negb_false_iff in Hf.
    + right. apply Z.ltb_ge in Hf. lia.
  - unfold run. erewrite bind_ok by exact Hstart. erewrite bind_ok by done.
    rewrite <- (same_params _ _ Hs0) in Hloop. erewrite bind_ok by exact Hloop.
    unfold stop. erewrite bind_ok by done. erewrite bind_ok by apply trace_close_run.
    erewrite bind_ok by done. cbn. rewrite Hpn, Hcn.
    case_decide.
    + by rewrite (proj2 (Z.leb_gt _ _)) by lia.
    + by rewrite (proj2 (Z.leb_le _ _)) by lia.
Qed.

End running.

(** ** The claims *)

(** C28: System calls. A store of any width exactly at [tohost] or [fromhost] never
    reaches memory: a value [0x0101000000000000 + c] with [c < 256] prints the
    character [c], and every other value ends the simulation with the value,
    converted to [int], as the exit code. *)
Theorem system_call_store n f a v (m : machine simulation_host) `{Uninitialised} :
  write_of_size n = Some f -> a = tohost (host m) \/ a = fromhost (host m) ->
  f a v m = (Ok tt, Machine (pages m) (called (wrap (8 * n) v) (host m))).
Proof.
  intros [Hn Hf]%write_of_size_scalar Ha. rewrite Hf.
  assert (Hc : is_system_call (host m) a (wrap (8 * n) v) = true).
  { cbn. unfold SystemCall.is_system_call. destruct Ha as [->| ->]; rewrite Z.eqb_refl; [done|].
    apply orb_true_r. }
  rewrite write_scalar_system_call by done. cbn [system_call simulation_calls].
  rewrite system_call_run; [done| |done].
  pose proof (wrap_bound (8 * n) v ltac:(lia)) as Hb. unfold in_width.
  assert (2 ^ (8 * n) <= 2 ^ 64) by (apply Z.pow_le_mono_r; lia). lia.
Qed.

(** C11: Termination of [run]. The loop makes [n] turns, [n] at most the timeout:
    the first number of turns after which the program has finished, or the
    timeout. The run always ends; it ends normally exactly when fewer turns than
    the timeout were made, and with exit status 1 otherwise. *)
Theorem run_ends {X} `{TraceFormats} `{Uninitialised} `{MethodsLaws X} (s : simulation X) :
  cycle s = 0 -> 0 <= timeout (params s) ->
  exists s0 n sn, start s = (Ok tt, s0) /\ ticks n s0 = (Ok tt, sn)
    /\ Z.of_nat n <= timeout (params s)
    /\ (forall k, (k < n)%nat ->
          exists sk, ticks k s0 = (Ok tt, sk) /\ got_finish (host (memory sk)) = false)
    /\ (got_finish (host (memory sn)) = true \/ Z.of_nat n = timeout (params s))
    /\ run s = (if decide (Z.of_nat n < timeout (params s)) then Ok tt else ExitWith 1,
                closed (on_harness final sn)).
Proof. apply run_run. Qed.

(** The code at the address where the core starts: [auipc a0, 0; ld a0, 16(a0)],
    [jr a0], and the target. *)
Definition entry_code (e : Z) : list Z :=
  le_bytes 8 0x0105350300000517 ++ le_bytes 8 0x8502 ++ le_bytes 8 e.

(** Reset toggles the clock ten times under reset and then stores the jump to
    the entry point in bytes 0 to 23, over whatever was there (the start of the
    argument block), and nothing else, if no system call address is there. *)
Theorem reset_stores_entry_code {X} `{Uninitialised} `{SimulationMethods X} (s : simulation X) :
  (forall a d, a = 0 \/ a = 8 \/ a = 16 -> is_system_call (host (memory s)) a d = false) ->
  exists m, reset s = (Ok tt, set_memory m (on_harness reset_device s))
    /\ host m = host (memory s)
    /\ byte_at m ≡ₘ flat_write (byte_at (memory s)) 0 (entry_code (entry_point s)).
Proof.
  intros Hsys. unfold reset. erewrite bind_ok by done. erewrite bind_ok by done.
  unfold set_entry_point, on_memory, zoom, write64.
  assert (Hstore : forall m a v, host m = host (memory s) -> a = 0 \/ a = 8 \/ a = 16 ->
    exists m', write_scalar 8 a v m = (Ok tt, m') /\ updated m a (le_bytes 8 v) m').
  { intros m a v Hh Ha. apply (write_scalar_ok m a 8 v).
    - width.
    - rewrite PAGE_SIZE_eq. lia.
    - rewrite Hh. by apply Hsys.
    - change Sv39.MAX_PHYSICAL_ADDRESS with (2 ^ 56 - 1). unfold u64. rewrite wrap_small by lia. lia. }
  destruct (Hstore (memory s) 0 0x0105350300000517) as (m1 & Hr1 & Hu1); [done|by left|].
  destruct (Hstore m1 8 0x8502) as (m2 & Hr2 & Hu2); [apply Hu1|lia|].
  destruct (Hstore m2 16 (entry_point s)) as (m3 & Hr3 & Hu3);
    [by rewrite (updated_host _ _ _ _ Hu2), (updated_host _ _ _ _ Hu1)|lia|].
  assert (Hall : updated (memory s) 0 (entry_code (entry_point s)) m3).
  { unfold entry_code. apply (updated_app _ _ _ _ m1); [done|done|].
    by apply (updated_app _ _ _ _ m2). }
  exists m3. split; [|split; apply Hall].
  erewrite bind_ok by (cbn; by rewrite Hr1). cbn [memory set_memory].
  erewrite bind_ok by (cbn; by rewrite Hr2). cbn. by rewrite Hr3.
Qed.

(** ** Witnesses: a harness that does nothing *)

Module SimulationExample.

#[local] Existing Instance zeroed.

(** A build with VCD traces. *)
#[global] Instance vcd_build : TraceFormats := { VCD_ENABLE := true; FST_ENABLE := false }.

#[global] Instance idle : SimulationMethods unit := {
  set_clock _ x := x;
  set_reset _ x := x;
  init x := x;
  eval x := x;
  final x := x;
  get_program_counter _ := 0;
  get_trace_info _ := InstrTrace 0 0 0 false 0 0 false 0 0;
  cycle_first_half _ := mret tt;
  cycle_second_half _ := mret tt;
}.

#[global] Instance idle_laws : MethodsLaws unit.
Proof. refine {| completes _ := True |}; try done; intros t x m _; by exists x, m. Defined.

Definition idle_simulation : simulation unit := make "core" tt 0 0 0x1000 0x2000.
Definition short_simulation : simulation unit := on_params (set_timeout 3) idle_simulation.

Lemma system_call_store_witness :
  write64 0x1000 0x101000000000041 (memory idle_simulation)
  = (Ok tt, Machine ∅ (Host 0x1000 0x2000 0 false [0x41])).
Proof.
  apply (system_call_store 8 write64 0x1000 0x101000000000041 (memory idle_simulation));
    [reflexivity|by left].
Defined.

Lemma run_ends_witness :
  exists s0 n sn, start short_simulation = (Ok tt, s0) /\ ticks n s0 = (Ok tt, sn)
    /\ Z.of_nat n <= 3
    /\ (forall k, (k < n)%nat ->
          exists sk, ticks k s0 = (Ok tt, sk) /\ got_finish (host (memory sk)) = false)
    /\ (got_finish (host (memory sn)) = true \/ Z.of_nat n = 3)
    /\ run short_simulation = (if decide (Z.of_nat n < 3) then Ok tt else ExitWith 1,
                               closed (on_harness final sn)).
Proof. apply (run_ends short_simulation); done. Defined.

Lemma reset_stores_entry_code_witness :
  exists m, reset idle_simulation = (Ok tt, set_memory m (on_harness reset_device idle_simulation))
    /\ host m = Host 0x1000 0x2000 0 false []
    /\ byte_at m ≡ₘ flat_write (byte_at (memory idle_simulation)) 0 (entry_code 0).
Proof.
  apply (reset_stores_entry_code idle_simulation). by intros a d [->|[->| ->]].
Defined.

End SimulationExample.
