(* ===== verification/SimulationTraces.v ===== *)
(** * The traces of a run

    What a run leaves in the waveform, coverage and CSV files. *)

From S2P Require Import Prelude Exceptions Text VirtualAddressing FlatMemory MainMemory.
From S2P Require Import ArgumentParser Simulation SimulationTheorems.

Import MainMemory Simulation.
Open Scope Z_scope.
Open Scope list_scope.

Section traces.

Context {X : Type} `{TraceFormats} `{Uninitialised} `{MethodsLaws X}.

#[local] Set Default Proof Using "All".

Implicit Types (s : simulation X).

(** The halves of the turns, one after the other. *)
Fixpoint halves (first : bool) (n : nat) : M exn (simulation X) unit :=
  match n with
  | O => mret tt
  | S n => (if first then first_half else second_half);; halves (negb first) n
  end.

(** The lines of the CSV file for the devices seen after each half: one for each
    change of the program counter, which was [p]. *)
Fixpoint csv_changes (c : settings) (p : Z) (xs : list X) : string :=
  match xs with
  | [] => ""
  | x :: xs => csv_change c p x +:+ csv_changes c (get_program_counter x) xs
  end.

(** A dump for every half, five time units apart. *)
Fixpoint dumps_from (c : settings) (cycle : Z) (n : nat) : list trace_call :=
  match n with O => [] | S n => dumps c (5 * cycle) ++ dumps_from c (cycle + 1) n end.

Record half_done s s' : Prop := {
  half_settings : same_settings s s';
  half_cycle : cycle s' = cycle s + 1;
  half_completes : completes (harness s');
  half_calls : trace_calls s' = trace_calls s ++ dumps (params s) (5 * cycle s);
  half_csv : csv_trace s' = csv_trace s +:+ csv_change (params s) (pc s) (harness s');
  half_pc : pc s' = get_program_counter (harness s');
}.

Lemma half_done_run (first : bool) s :
  completes (harness s) ->
  exists s', (if first then first_half else second_half) s = (Ok tt, s') /\ half_done s s'.
Proof.
  intros Hc. destruct first.
  - destruct (first_half_completes (simulation_time s) (set_clock 1 (harness s)) (memory s))
      as (x & m & Hm & Hx); [by apply completes_clock|].
    destruct (half_run 1 cycle_first_half s x m Hm) as (s' & Hrun & Hs & Hcy & Hh & _ & He).
    exists s'. split; [exact Hrun|]. by split; rewrite ?Hh; try done; rewrite He.
  - destruct (second_half_completes (simulation_time s) (set_clock 0 (harness s)) (memory s))
      as (x & m & Hm & Hx); [by apply completes_clock|].
    destruct (half_run 0 cycle_second_half s x m Hm) as (s' & Hrun & Hs & Hcy & Hh & _ & He).
    exists s'. split; [exact Hrun|]. by split; rewrite ?Hh; try done; rewrite He.
Qed.

(** The devices that a number of halves shows. *)
Definition seen (first : bool) s (n : nat) (xs : list X) : Prop :=
  length xs = n /\ forall k x, xs !! k = Some x ->
    exists sk, halves first (S k) s = (Ok tt, sk) /\ harness sk = x.

Lemma halves_run first n s :
  completes (harness s) ->
  exists s' xs, halves first n s = (Ok tt, s') /\ seen first s n xs /\ same_settings s s'
    /\ trace_calls s' = trace_calls s ++ dumps_from (params s) (cycle s) n
    /\ csv_trace s' = csv_trace s +:+ csv_changes (params s) (pc s) xs.
Proof.
  revert first s. induction n as [|n IH]; intros first s Hc.
  - exists s, []. cbn [dumps_from csv_changes]. rewrite app_nil_r, append_nil_r.
    split; [done|]. split; [by split|]. split; [by split|done].
  - destruct (half_done_run first s Hc) as (s1 & Hrun & [Hset Hcy Hc1 Hcalls Hcsv Hpc]).
    destruct (IH (negb first) s1 Hc1) as (s2 & xs & Hrun2 & [Hlen Hseen] & Hset2 & Hcalls2 & Hcsv2).
    exists s2, (harness s1 :: xs). cbn [halves]. erewrite bind_ok by exact Hrun.
    split; [done|]. split; [split|split; [by etrans|split]].
    + cbn. by rewrite Hlen.
    + intros [|k] x Hx.
      * injection Hx as <-. exists s1. cbn [halves]. by erewrite bind_ok by exact Hrun.
      * destruct (Hseen k x Hx) as (sk & Hk & Hxk). exists sk. split; [|done].
        change (halves first (S (S k)) s) with
          (((if first then first_half else second_half);; halves (negb first) (S k)) s).
        by erewrite bind_ok by exact Hrun.
    + cbn [dumps_from]. by rewrite Hcalls2, Hcalls, (same_params _ _ Hset), Hcy, app_assoc.
    + cbn [csv_changes]. by rewrite Hcsv2, Hcsv, (same_params _ _ Hset), Hpc, append_assoc.
Qed.

Lemma bind_assoc_run {A B C} (m : M exn (simulation X) A) (f : A -> M exn (simulation X) B)
    (g : B -> M exn (simulation X) C) s :
  ((m ≫= f) ≫= g) s = (m ≫= fun a => f a ≫= g) s.
Proof. rewrite !bind_run. destruct (m s) as [[] s1]; by rewrite ?bind_run. Qed.

Lemma bind_cong {A B} (m : M exn (simulation X) A) (f g : A -> M exn (simulation X) B) s :
  (forall a s1, f a s1 = g a s1) -> (m ≫= f) s = (m ≫= g) s.
Proof. intros Hfg. rewrite !bind_run. destruct (m s) as [[] s1]; by rewrite ?Hfg. Qed.

Lemma ticks_halves n s : ticks n s = halves true (2 * n) s.
Proof.
  revert s. induction n as [|n IH]; intros s; [done|].
  replace (2 * S n)%nat with (S (S (2 * n))) by lia. cbn [ticks halves negb]. unfold tick.
  rewrite bind_assoc_run. apply bind_cong. intros _ s1. apply bind_cong. intros _. exact IH.
Qed.

Lemma csv_changes_off c p xs : csv_filename c = None -> csv_changes c p xs = "".
Proof.
  intros Hc. revert p. induction xs as [|x xs IH]; intros p; [done|]. cbn [csv_changes].
  unfold csv_change. rewrite Hc, IH. by case_match.
Qed.

(** What the beginning of a run writes. *)
Lemma start_opened s :
  exists s0, start s = (Ok tt, s0) /\ same_settings s s0 /\ cycle s0 = cycle s /\ completes (harness s0)
    /\ pc s0 = 0 /\ trace_calls s0 = trace_calls s ++ opening (params s)
    /\ csv_trace s0 = csv_trace s +:+ match csv_filename (params s) with Some _ => csv_header | None => "" end.
Proof.
  destruct (start_run s) as (s0 & Hstart & Hset & Hcy & Hc & _). exists s0.
  do 4 (split; [done|]). revert Hstart. unfold start. erewrite bind_ok by done.
  erewrite bind_ok by apply trace_init_run. set (s1 := opened (set_pc 0 s)).
  erewrite bind_ok by done. unfold reset. rewrite bind_run. erewrite bind_ok by done.
  erewrite bind_ok by done.
  match goal with |- context [set_entry_point ?e ?s1] =>
    destruct (set_entry_point_run e s1) as [m ->] end.
  erewrite bind_ok by done. unfold on_both, zoom. intros Hrun.
  case_match. simplify_eq/=. done.
Qed.

Lemma run_traces s :
  cycle s = 0 -> 0 <= timeout (params s) ->
  let c := params s in
  exists s0 n xs s', start s = (Ok tt, s0) /\ seen true s0 (2 * n) xs
    /\ run s = (if decide (Z.of_nat n < timeout c) then Ok tt else ExitWith 1, s')
    /\ trace_calls s' = trace_calls s ++ opening c ++ dumps_from c 0 (2 * n) ++ closing c
    /\ csv_trace s' = csv_trace s +:+ match csv_filename c with
                                      | Some _ => csv_header +:+ csv_changes c 0 xs
                                      | None => "" end.
Proof.
  intros Hcy Ht c. destruct (run_run s Hcy Ht) as (s0 & n & sn & Hstart & Hticks & _ & _ & _ & Hrun).
  destruct (start_opened s) as (s0' & Hstart' & Hset & Hcy0 & Hc & Hpc & Hcalls & Hcsv).
  rewrite Hstart in Hstart'. injection Hstart' as <-. rewrite ticks_halves in Hticks.
  destruct (halves_run true (2 * n) s0 Hc) as (sn' & xs & Hruns & Hseen & Hset2 & Hcalls2 & Hcsv2).
  rewrite Hticks in Hruns. injection Hruns as <-.
  exists s0, n, xs. eexists. split; [done|]. split; [done|]. split; [exact Hrun|].
  unfold closed. cbn [trace_calls csv_trace params record_calls on_harness set_harness].
  rewrite (same_params _ _ Hset2), (same_params _ _ Hset), Hcalls2, Hcsv2, Hcalls, Hcsv,
    (same_params _ _ Hset), Hpc, Hcy0, Hcy. fold c. split; [by rewrite <- !app_assoc|].
  rewrite append_assoc. f_equal. destruct (csv_filename c) eqn:Ec; [done|]. by rewrite csv_changes_off.
Qed.

End traces.

(** C37: the trace files of a run. A run makes [n] turns, and [xs] are the devices it
    shows after the [2 n] half cycles. Each waveform that is on is opened once,
    dumped once per half cycle at times 0, 5, 10 and so on, then flushed and closed,
    also when the run times out, and the coverage is written last but for the CSV
    file. That file has the header and one line for each change of the program
    counter between half cycles, in order, with the trace signals of that time. *)
Theorem run_writes_traces {X} `{TraceFormats} `{Uninitialised} `{MethodsLaws X} (s : simulation X) :
  cycle s = 0 -> 0 <= timeout (params s) ->
  let c := params s in
  exists s0 n xs s', start s = (Ok tt, s0) /\ seen true s0 (2 * n) xs
    /\ run s = (if decide (Z.of_nat n < timeout c) then Ok tt else ExitWith 1, s')
    /\ trace_calls s' = trace_calls s ++ opening c ++ dumps_from c 0 (2 * n) ++ closing c
    /\ csv_trace s' = csv_trace s +:+ match csv_filename c with
                                      | Some _ => csv_header +:+ csv_changes c 0 xs
                                      | None => "" end.
Proof. apply run_traces. Qed.

(** ** Witness: a device whose program counter moves *)

Module TracesExample.

#[local] Existing Instance zeroed.
#[local] Existing Instance SimulationExample.vcd_build.

(** The state is the number of evaluations. *)
#[local] Instance counter : SimulationMethods Z := {
  set_clock _ x := x;
  set_reset _ x := x;
  init x := x;
  eval x := x;
  final x := x;
  get_program_counter x := 4 * (x / 3);
  get_trace_info x := InstrTrace (4 * (x / 3)) 0x13 3 true 1 x false 0 0;
  cycle_first_half _ := modify (fun xm => (fst xm + 1, snd xm));
  cycle_second_half _ := modify (fun xm => (fst xm + 1, snd xm));
}.

#[local] Instance counter_laws : MethodsLaws Z.
Proof. refine {| completes _ := True |}; try done; intros t x m _; by eexists _, _. Defined.

Definition traced_run : simulation Z :=
  on_params (fun c => set_vcd "out.vcd" (set_csv "out.csv" (set_timeout 3 c)))
    (make "core" 0 0 0 0x1000 0x2000).

Lemma run_writes_traces_witness :
  exists s0 n xs s', start traced_run = (Ok tt, s0) /\ seen true s0 (2 * n) xs
    /\ run traced_run = (if decide (Z.of_nat n < 3) then Ok tt else ExitWith 1, s')
    /\ trace_calls s' = [] ++ opening (params traced_run) ++ dumps_from (params traced_run) 0 (2 * n)
                            ++ closing (params traced_run)
    /\ csv_trace s' = "" +:+ (csv_header +:+ csv_changes (params traced_run) 0 xs).
Proof. apply (run_writes_traces traced_run); done. Defined.

(** The files of that run. *)
Example traced_files :
  let s' := snd (run traced_run) in
  trace_calls s' = [ traceEverOn true; trace_device VCD 100; trace_open VCD "out.vcd"; csv_open "out.csv";
                     trace_dump VCD 0; trace_dump VCD 5; trace_dump VCD 10; trace_dump VCD 15;
                     trace_dump VCD 20; trace_dump VCD 25; trace_flush VCD; trace_close_file VCD;
                     csv_flush; csv_close ]
  /\ csv_trace s' = csv_header
       +:+ "0000000000000004,1:0000000000000003,,00000013,3" +:+ ArgumentParser.newline
       +:+ "0000000000000008,1:0000000000000006,,00000013,3" +:+ ArgumentParser.newline.
Proof. split; vm_compute; reflexivity. Qed.

End TracesExample.
