(* ===== verification/SimulationLoading.v ===== *)
(** * Starting a simulation: theorems

    From the command line to the loaded program. *)

From S2P Require Import Prelude Exceptions Text VirtualAddressing FlatMemory MainMemory.
From S2P Require Import MainMemoryFacts ArgumentParser ArgumentParserTheorems.
From S2P Require Import BinaryParser BinaryParserFacts BinaryParserTheorems.
From S2P Require Import Simulation SimulationTheorems.

Import MainMemory ArgumentParser Simulation.
Open Scope Z_scope.

(** ** Loading the program *)

Section loading.

Context {X : Type} `{TraceFormats} `{Uninitialised} `{FileSystem} `{SimulationMethods X}.

#[local] Set Default Proof Using "All".

Implicit Types (s : simulation X) (m : machine simulation_host).

(** An option with a numeric value. *)
Definition numeric (found : gmap string string) (name : string) : Prop :=
  forall v, found !! name = Some v -> exists n, stoi v = Ok n.

(** The effect of an option on the settings. *)
Definition option_effect (found : gmap string string) (name : string)
    (f : string -> settings -> settings) (c : settings) : settings :=
  match found !! name with Some v => f v c | None => c end.
Definition number (v : string) : Z := match stoi v with Ok n => n | _ => 0 end.

(** The settings after the command line was parsed. *)
Definition command_settings (found : gmap string string) (c : settings) : settings :=
  let c := option_effect found "--timeout" (fun v => set_timeout (u64 (number v))) c in
  let c := option_effect found "--coverage" set_coverage c in
  let c := if FST_ENABLE then option_effect found "--fst" set_fst c else c in
  let c := if VCD_ENABLE then option_effect found "--vcd" set_vcd c else c in
  let c := option_effect found "-v" (fun _ => set_log_level 1) c in
  let c := option_effect found "-vv" (fun _ => set_log_level 2) c in
  let c := option_effect found "--memory-latency" (fun v => set_latency (number v)) c in
  option_effect found "--csv" set_csv c.

(** A state in which only arguments and settings were set. *)
Definition configured (p : parser) (c : settings) s : simulation X :=
  Sim p c (cycle s) (pc s) (csv_trace s) (trace_calls s) (printed s) (binary_position s) (entry_point s)
    (harness s) (memory s).

Lemma option_run p c s name (f : string -> settings -> settings)
    (k : string -> Prelude.M exn (simulation X) unit) :
  (forall v, args_found p !! name = Some v -> k v (configured p c s) = (Ok tt, configured p (f v c) s)) ->
  if_found name (v ← on_args (get_arg name); k v) (configured p c s)
    = (Ok tt, configured p (option_effect (args_found p) name f c) s).
Proof.
  intros Hk. unfold if_found. erewrite bind_ok by done. unfold found_arg, option_effect.
  cbn [args configured]. destruct (args_found p !! name) as [v|] eqn:E; [|done].
  rewrite bool_decide_true by done. cbn [when].
  erewrite bind_ok; [by apply Hk|]. unfold on_args, zoom, get_arg. erewrite bind_ok by done.
  cbn [args configured]. by rewrite E.
Qed.

(** An option of a trace format, where it is compiled in. *)
Lemma when_option_run (b : bool) p c s (f : string -> settings -> settings) name :
  when b (if_found name (v ← on_args (get_arg name); modify (on_params (f v)))) (configured p c s)
    = (Ok tt, configured p (if b then option_effect (args_found p) name f c else c) s).
Proof. destruct b; [|done]. by apply option_run. Qed.

Lemma flag_run p c s name (f : settings -> settings) :
  if_found name (modify (on_params f)) (configured p c s)
    = (Ok tt, configured p (option_effect (args_found p) name (fun _ => f) c) s).
Proof.
  unfold if_found. erewrite bind_ok by done. unfold found_arg, option_effect.
  cbn [args configured]. by destruct (args_found p !! name).
Qed.

Lemma numeric_run p c s name (f : Z -> settings -> settings) :
  numeric (args_found p) name ->
  if_found name (v ← on_args (get_arg name); n ← fail (stoi v); modify (on_params (f n))) (configured p c s)
    = (Ok tt, configured p (option_effect (args_found p) name (fun v => f (number v)) c) s).
Proof.
  intros Hn. apply option_run. intros v Hv. destruct (Hn v Hv) as [n Hv']. unfold number.
  rewrite Hv'. by erewrite bind_ok by done.
Qed.

(** The outcome of [parse_args] by what is left after the known arguments. *)
Lemma parse_args_run s argv p :
  argv <> [] ->
  ArgumentParser.parse_args (Z.of_nat (length argv)) argv (args s) = (Ok tt, p) ->
  numeric (args_found p) "--timeout" -> numeric (args_found p) "--memory-latency" ->
  args_found p !! "--help" = None ->
  forall k, args_parsed p = Z.of_nat k -> (k <= length argv)%nat ->
  let s' := configured p (command_settings (args_found p) (params s)) s in
  match drop k argv with
  | [] => binary_position s = None ->
          fst (Simulation.parse_args (Z.of_nat (length argv)) argv s) = Undefined
  | name :: rest =>
      if looks_like_flag name
      then fst (Simulation.parse_args (Z.of_nat (length argv)) argv s)
             = Throw (InvalidArgumentException name (Z.of_nat k))
      else Simulation.parse_args (Z.of_nat (length argv)) argv s
             = read_binary (name :: rest) (set_binary (Z.of_nat k) s')
  end.
Proof.
  intros Hne Hp Ht Hl Hh k Hk Hkl. cbv zeta. unfold Simulation.parse_args.
  rewrite (proj2 (Z.eqb_neq _ _)) by (destruct argv; cbn; [done|lia]). erewrite bind_ok by done.
  assert (Hcommon : exists c, parse_common (Z.of_nat (length argv)) argv s = (Ok tt, configured p c s)
    /\ option_effect (args_found p) "--csv" set_csv
         (option_effect (args_found p) "--memory-latency" (fun v => set_latency (number v)) c)
       = command_settings (args_found p) (params s)).
  { unfold parse_common. erewrite bind_ok.
    2:{ unfold on_args, zoom. rewrite Hp. change (set_args p s) with (configured p (params s) s). reflexivity. }
    erewrite bind_ok by (apply (numeric_run _ _ _ _ (fun n => set_timeout (u64 n))); done).
    erewrite bind_ok by by apply option_run.
    erewrite bind_ok by by apply (when_option_run _ _ _ _ set_fst).
    erewrite bind_ok by by apply (when_option_run _ _ _ _ set_vcd).
    erewrite bind_ok by apply flag_run. erewrite bind_ok by apply flag_run.
    unfold if_found at 1. erewrite bind_ok by done. unfold found_arg. cbn [args configured].
    rewrite Hh. rewrite bool_decide_false by (by intros []). eexists. split; reflexivity. }
  destruct Hcommon as (c & Hrun & Hc). erewrite bind_ok by exact Hrun. erewrite bind_ok by done.
  cbn [args configured]. unfold get_args_parsed. rewrite Hk. cbv zeta. rewrite <- Hc.
  destruct (drop k argv) as [|name rest] eqn:Hd.
  - intros Hb. assert (k = length argv) as -> by (apply (f_equal length) in Hd; rewrite length_drop in Hd; cbn in Hd; lia).
    rewrite Z.ltb_irrefl. erewrite bind_ok by done.
    erewrite bind_ok by (apply (numeric_run _ _ _ _ (fun n => set_latency n)); done).
    erewrite bind_ok by by apply option_run.
    erewrite bind_ok by done. cbn [binary_position configured]. by rewrite Hb.
  - assert (Hlt : (k < length argv)%nat) by (apply (f_equal length) in Hd; rewrite length_drop in Hd; cbn in Hd; lia).
    assert (Hname : argv !! k = Some name) by (rewrite <- (Nat.add_0_r k), <- lookup_drop, Hd; done).
    rewrite (proj2 (Z.ltb_lt _ _)) by lia. rewrite bind_run. erewrite bind_ok.
    2:{ unfold on_args, zoom. rewrite argument_run, Hname. reflexivity. }
    destruct (looks_like_flag name); [done|].
    change (modify (set_binary (Z.of_nat k)) (set_args _ _))
      with (@Ok exn unit tt, configured p c (set_binary (Z.of_nat k) s)).
    cbv iota beta.
    erewrite bind_ok by (apply (numeric_run _ _ _ _ (fun n => set_latency n)); done).
    erewrite bind_ok by by apply option_run.
    erewrite bind_ok by done. cbn [binary_position configured set_binary].
    erewrite bind_ok by done. rewrite !Nat2Z.id, firstn_all, Hd. done.
Qed.

Import BinaryParser ElfSpec.

(** A program file that [read_binary] can load. *)
Record loadable (img : list Z) : Prop := {
  loadable_image : well_formed img;
  loadable_sections : Forall storable (loaded_blocks img);
  loadable_tohost : tables_well_formed img "tohost";
  loadable_fromhost : tables_well_formed img "fromhost";
}.

Lemma read_binary_run program rest img s :
  file_content program = Some img -> loadable img -> arguments_fit (program :: rest) ->
  exists b m', laid_out (program :: rest) b
    /\ read_binary (program :: rest) s = (Ok tt, set_memory m' (set_entry (e_entry (header img)) s))
    /\ host m' = Host (symbol_value img "tohost") (symbol_value img "fromhost")
         (exit_code (host (memory s))) (got_finish (host (memory s))) (console (host (memory s)))
    /\ byte_at m' ≡ₘ foldl place (byte_at (memory s)) (b :: loaded_blocks img).
Proof.
  intros Hf [Hwf Hst Hto Hfrom] Hfit.
  destruct (load_elf_run program rest img (memory s) Hf Hwf Hfit Hst) as (b & m & Hl & Hrun & Hh & Hb).
  exists b. eexists. split; [done|]. unfold read_binary. split; [|split].
  - erewrite bind_ok by (unfold on_memory, zoom; by rewrite Hrun). erewrite bind_ok by done.
    rewrite (entry_point_run program img Hf Hwf). erewrite bind_ok by done. erewrite bind_ok by done.
    rewrite (symbol_location_run program img _ Hf Hwf Hto) by (by vm_compute; apply not_elem_of_nil || set_solver).
    erewrite bind_ok by done. erewrite bind_ok by done.
    rewrite (symbol_location_run program img _ Hf Hwf Hfrom) by (by vm_compute; set_solver).
    erewrite bind_ok by done. reflexivity.
  - cbn. by rewrite Hh.
  - exact Hb.
Qed.

(** ** The claims *)

(** C27: The command line. When the options have numeric values where they must and
    [--help] is not among them, [parse_args] applies each option to the settings
    and treats the first unknown argument as the program, with the arguments
    after it as the program's; it rejects one that starts with a dash, and reads
    its uninitialised [binary_position] if there is none. *)
Theorem command_line s argv found rest :
  argv <> [] -> parses (arg_info (args s)) argv (args_found (args s)) found rest ->
  numeric found "--timeout" -> numeric found "--memory-latency" -> found !! "--help" = None ->
  let r := Simulation.parse_args (Z.of_nat (length argv)) argv s in
  let pos := Z.of_nat (length argv - length rest) in
  match rest with
  | [] => binary_position s = None -> fst r = Undefined
  | program :: _ =>
      if looks_like_flag program then fst r = Throw (InvalidArgumentException program pos)
      else exists p, args_found p = found /\ args_parsed p = pos
             /\ r = read_binary rest (set_binary pos
                       (configured p (command_settings found (params s)) s))
  end.
Proof.
  intros Hne Hp Ht Hl Hh. cbv zeta.
  assert (Hrun : ArgumentParser.parse_args (Z.of_nat (length argv)) argv (args s)
    = (Ok tt, Parser (program_description (args s)) (arg_info (args s)) found
                (Z.of_nat (length argv - length rest)))
    /\ rest = drop (length argv - length rest) argv).
  { unfold ArgumentParser.parse_args. erewrite bind_ok by done.
    destruct (parse_loop_run (length argv) argv 0 (args s))
      as [(f & r & Hp' & k & Hr & Hk & Hrun)|[Hlacks _]]; [lia|lia| |].
    - rewrite drop_0 in Hp'. destruct (parses_deterministic _ _ _ _ _ _ _ Hp Hp') as [<- <-].
      assert (Hkr : (length argv - length rest)%nat = k) by (rewrite Hr, length_drop; lia).
      rewrite Hkr. split; [exact Hrun|done].
    - rewrite drop_0 in Hlacks. by apply parses_not_lacks in Hp. }
  destruct Hrun as [Hrun Hrest].
  pose proof (parse_args_run s argv _ Hne Hrun Ht Hl Hh (length argv - length rest) eq_refl
    ltac:(lia)) as Hcases.
  cbv zeta in Hcases. rewrite <- Hrest in Hcases. destruct rest as [|program rest]; [done|].
  destruct (looks_like_flag program); [done|].
  eexists. split; [|split; [|exact Hcases]]; done.
Qed.

(** C26: Loading the program. For a well-formed image whose sections are in the
    physical address range, [read_binary] leaves the simulation with the argument
    block and the sections in memory, the entry point of the header, and the
    values of the symbols [tohost] and [fromhost] as system call addresses. *)
Theorem read_binary_loads program rest img s :
  file_content program = Some img -> loadable img -> arguments_fit (program :: rest) ->
  exists b m', laid_out (program :: rest) b
    /\ read_binary (program :: rest) s = (Ok tt, set_memory m' (set_entry (e_entry (header img)) s))
    /\ host m' = Host (symbol_value img "tohost") (symbol_value img "fromhost")
         (exit_code (host (memory s))) (got_finish (host (memory s))) (console (host (memory s)))
    /\ byte_at m' ≡ₘ foldl place (byte_at (memory s)) (b :: loaded_blocks img).
Proof. apply read_binary_run. Qed.

End loading.

(** ** Witnesses *)

Module LoadingExample.

Import SimulationExample ElfExample BinaryParser.
#[local] Existing Instance zeroed.
#[local] Existing Instance files.

Definition line : list string := ["--timeout=500"; "-v"; "--csv"; "out.csv"; "--vcd=out.vcd"; "program"; "x"]%string.
Definition found : gmap string string :=
  <["--vcd" := "out.vcd"]> (<["--csv" := "out.csv"]> (<["-v" := ""]> (<["--timeout" := "500"]> ∅))).

Lemma line_parses : parses (arg_info (declared_arguments "core")) line ∅ found ["program"; "x"]%string.
Proof.
  eapply parses_flag; [reflexivity|reflexivity|by right|].
  eapply parses_flag; [reflexivity|reflexivity|by left|].
  eapply parses_value; [reflexivity|reflexivity|reflexivity|].
  eapply parses_flag; [reflexivity|reflexivity|by right|].
  by apply parses_unknown.
Qed.

Lemma command_line_witness :
  exists p, args_found p = found /\ args_parsed p = 5
    /\ Simulation.parse_args 7 line idle_simulation
       = read_binary ["program"; "x"]%string
           (set_binary 5 (configured p (Settings 500 None 1 10 (Some "out.csv"%string) (Some "out.vcd"%string) None) idle_simulation)).
Proof.
  assert (Hset : command_settings found (params idle_simulation)
    = Settings 500 None 1 10 (Some "out.csv"%string) (Some "out.vcd"%string) None)
    by (vm_compute; reflexivity).
  destruct (command_line idle_simulation line found ["program"; "x"]%string) as (p & Hf & Hp & Hr).
  - done.
  - apply line_parses.
  - intros v Hv. exists 500. vm_compute in Hv. by injection Hv as <-.
  - intros v Hv. vm_compute in Hv. discriminate.
  - by vm_compute.
  - exists p. rewrite <- Hset. split; [exact Hf|]. split; [exact Hp|exact Hr].
Defined.

Lemma read_binary_loads_witness :
  exists b m', laid_out ["program"%string] b
    /\ read_binary ["program"%string] idle_simulation
       = (Ok tt, set_memory m' (set_entry 0x80000000 idle_simulation))
    /\ host m' = Host 0x80001000 (2 ^ 64 - 1) 0 false []
    /\ byte_at m' ≡ₘ foldl place (byte_at (memory idle_simulation))
                      (b :: BinaryParserFacts.ElfSpec.loaded_blocks image).
Proof.
  apply (read_binary_loads "program" [] image idle_simulation);
    [done| |unfold arguments_fit; vm_compute; lia].
  split; [apply image_well_formed|apply image_storable|apply image_tables|apply image_tables_fromhost].
Defined.

End LoadingExample.
