(* ===== verification/Harnesses.v ===== *)
(** * The two simulators

    [core_harness.cc] and [pipeline_harness.cc]: the subclasses of
    [RISCVSimulation]. The class that Verilator generates from the RTL is a
    parameter: its signals and its methods [eval] and [final]. *)

From S2P Require Import Prelude Exceptions VirtualAddressing FlatMemory MainMemory.
From S2P Require Import MemoryPort CorePorts DataCachePort InstructionCachePort Simulation BinaryParser.

Import MainMemory.

(** The signals that both devices have, besides their memory interfaces. *)
Class Device (D : Type) : Type := {
  device_eval : D -> D;
  device_final : D -> D;
  set_clk_i : Z -> D -> D;
  set_rst_ni : Z -> D -> D;
  set_irq_timer_m_i : Z -> D -> D;
  set_irq_software_m_i : Z -> D -> D;
  set_irq_external_m_i : Z -> D -> D;
  set_irq_external_s_i : Z -> D -> D;
  set_hart_id_i : Z -> D -> D;
  dbg_pc_o : D -> Z;
  dbg_instr_word_o : D -> Z;
  dbg_mode_o : D -> Z;
  dbg_gpr_written_o : D -> bool;
  dbg_gpr_o : D -> Z;
  dbg_gpr_data_o : D -> Z;
  dbg_csr_written_o : D -> bool;
  dbg_csr_o : D -> Z;
  dbg_csr_data_o : D -> Z;
}.

(** [get_trace_info] of both harnesses. *)
Definition trace_info `{Device D} (d : D) : instr_trace_t :=
  InstrTrace (dbg_pc_o d) (dbg_instr_word_o d) (dbg_mode_o d) (dbg_gpr_written_o d)
    (dbg_gpr_o d) (dbg_gpr_data_o d) (dbg_csr_written_o d) (dbg_csr_o d) (dbg_csr_data_o d).

(** Interrupts and hart number, set by both [init]s. *)
Definition init_common `{Device D} (d : D) : D :=
  set_hart_id_i 0 (set_irq_external_s_i 0 (set_irq_external_m_i 0
    (set_irq_software_m_i 0 (set_irq_timer_m_i 0 d)))).

(** ** [core_harness.cc] *)

(** The generated class [Vcore_wrapper]. *)
Class CoreWrapper (D : Type) `{Device D} : Type := {
  mem_signals : D -> MainMemoryPort.signals;
  set_mem_rdata_i : Z -> D -> D;
  io_signals : D -> IoMemoryPort.signals;
  set_io_rdata_i : Z -> D -> D;
}.

Module CoreSimulation.

(** The device and the base class parts of the two ports; what the ports refer to
    are the device and the simulation's memory. *)
Record core (D : Type) : Type := Core {
  dut : D;
  main_memory_port : MemoryPort.port Z;
  io_memory_port : MemoryPort.port Z;
}.
Arguments Core {D} dut main_memory_port io_memory_port.
Arguments dut {D} c.
Arguments main_memory_port {D} c.
Arguments io_memory_port {D} c.

Section operations.

Context {D : Type} `{CoreWrapper D} `{Uninitialised}.

Abbreviation machine := (machine simulation_host).
Abbreviation world := (core D * machine)%type.
Abbreviation M := (M exn world).

Definition on_dut (f : D -> D) (c : core D) : core D :=
  Core (f (dut c)) (main_memory_port c) (io_memory_port c).

(** The port objects, with references to the device and the memory. *)
Definition main_view (w : world) : MemoryPort.state Z (MainMemoryPort.object simulation_host) :=
  MemoryPort.State (main_memory_port (fst w))
    (MainMemoryPort.Object (mem_signals (dut (fst w))) (snd w)).
Definition main_update (s : MemoryPort.state Z (MainMemoryPort.object simulation_host)) (w : world)
    : world :=
  let o := MemoryPort.sub s in
  (Core (set_mem_rdata_i (MainMemoryPort.mem_rdata_i (MainMemoryPort.dut o)) (dut (fst w)))
     (MemoryPort.base s) (io_memory_port (fst w)),
   MainMemoryPort.memory o).

Definition io_view (w : world) : MemoryPort.state Z (IoMemoryPort.object simulation_host) :=
  MemoryPort.State (io_memory_port (fst w))
    (IoMemoryPort.Object (io_signals (dut (fst w))) (snd w)).
Definition io_update (s : MemoryPort.state Z (IoMemoryPort.object simulation_host)) (w : world)
    : world :=
  let o := MemoryPort.sub s in
  (Core (set_io_rdata_i (IoMemoryPort.io_rdata_i (IoMemoryPort.dut o)) (dut (fst w)))
     (main_memory_port (fst w)) (MemoryPort.base s),
   IoMemoryPort.memory o).

(** The constructor. *)
Definition make (d : D) : core D :=
  Core d (MemoryPort.make MainMemoryPort.latency) (MemoryPort.make IoMemoryPort.latency).

Definition init (c : core D) : core D :=
  on_dut (fun d =>
    init_common (set_io_rdata_i 0xDEADBEEF (set_mem_rdata_i 0xDEADBEEF
      (set_rst_ni 1 (set_clk_i 1 d))))) c.

Definition eval_dut : M unit := modify (fun w => (on_dut device_eval (fst w), snd w)).

Definition cycle_first_half (time : Z) : M unit :=
  eval_dut;;
  zoom main_view main_update (MemoryPort.set_outputs time);;
  zoom io_view io_update (MemoryPort.set_outputs time).

Definition cycle_second_half (time : Z) : M unit :=
  eval_dut;;
  zoom main_view main_update (MemoryPort.get_inputs time);;
  zoom io_view io_update (MemoryPort.get_inputs time).

#[global] Instance methods : SimulationMethods (core D) := {
  set_clock value := on_dut (set_clk_i value);
  set_reset value := on_dut (set_rst_ni (if value =? 0 then 1 else 0));
  Simulation.init := init;
  eval := on_dut device_eval;
  final := on_dut device_final;
  get_program_counter c := dbg_pc_o (dut c);
  get_trace_info c := trace_info (dut c);
  Simulation.cycle_first_half := cycle_first_half;
  Simulation.cycle_second_half := cycle_second_half;
}.

(** What the log and the memory call back through the global [the_sim]. *)
Definition sc_time_stamp (the_sim : Simulation.simulation (core D)) : Z := Simulation.simulation_time the_sim.

(** [main], without the simulator's own name among the arguments. The device [d]
    and the members that the constructors leave uninitialised are given. *)
Definition main `{TraceFormats} `{FileSystem} (argc : Z) (argv : list string)
    (d : D) (e p th fh : Z) : outcome exn Z * Simulation.simulation (core D) :=
  Simulation.main (argc - 1) (drop 1 argv) (Simulation.make "muntjac_core" (make d) e p th fh).

End operations.

End CoreSimulation.

(** ** [pipeline_harness.cc] *)

(** The generated class [Vpipeline_wrapper]. The outputs of a cache port are
    written back together; the wrapper has no other signal among them. *)
Class PipelineWrapper (D : Type) `{Device D} : Type := {
  icache_signals : D -> InstructionCachePort.signals;
  set_icache_resp : bool -> Z -> bool -> Z -> D -> D;
  dcache_signals : D -> DataCachePort.signals;
  set_dcache_resp : bool -> Z -> bool -> Z * Z * Z -> bool -> D -> D;
  set_dcache_req_ready : Z -> D -> D;
}.

Module PipelineSimulation.

(** The device, the base class parts of the ports and the private fields of the
    data cache port. *)
Record pipeline (D : Type) : Type := Pipeline {
  dut : D;
  instruction_port : MemoryPort.port Z;
  data_port : MemoryPort.port Z;
  reserved : Z;
  reservation_valid : bool;
  delayed_notif_ready : bool;
}.
Arguments Pipeline {D} dut instruction_port data_port reserved reservation_valid delayed_notif_ready.
Arguments dut {D} p.
Arguments instruction_port {D} p.
Arguments data_port {D} p.
Arguments reserved {D} p.
Arguments reservation_valid {D} p.
Arguments delayed_notif_ready {D} p.

Section operations.

Context {D : Type} `{PipelineWrapper D} `{Uninitialised}.

Abbreviation machine := (machine simulation_host).
Abbreviation world := (pipeline D * machine)%type.
Abbreviation M := (M exn world).

Definition on_dut (f : D -> D) (c : pipeline D) : pipeline D :=
  Pipeline (f (dut c)) (instruction_port c) (data_port c) (reserved c) (reservation_valid c)
    (delayed_notif_ready c).

Definition instruction_view (w : world)
    : MemoryPort.state Z (InstructionCachePort.object simulation_host) :=
  MemoryPort.State (instruction_port (fst w))
    (InstructionCachePort.Object (icache_signals (dut (fst w))) (snd w)).
Definition instruction_update (s : MemoryPort.state Z (InstructionCachePort.object simulation_host))
    (w : world) : world :=
  let c := fst w in
  let o := MemoryPort.sub s in
  let d := InstructionCachePort.dut o in
  (Pipeline
     (set_icache_resp (InstructionCachePort.icache_resp_valid d)
        (InstructionCachePort.icache_resp_instr d) (InstructionCachePort.icache_resp_exception d)
        (InstructionCachePort.icache_resp_ex_code d) (dut c))
     (MemoryPort.base s) (data_port c) (reserved c) (reservation_valid c) (delayed_notif_ready c),
   InstructionCachePort.memory o).

Definition data_view (w : world) : MemoryPort.state Z (DataCachePort.object simulation_host) :=
  let c := fst w in
  MemoryPort.State (data_port c)
    (DataCachePort.Object (dcache_signals (dut c)) (snd w) (reserved c) (reservation_valid c)
       (delayed_notif_ready c)).
Definition data_update (s : MemoryPort.state Z (DataCachePort.object simulation_host)) (w : world)
    : world :=
  let c := fst w in
  let o := MemoryPort.sub s in
  let d := DataCachePort.dut o in
  (Pipeline
     (set_dcache_resp (DataCachePort.dcache_resp_valid d) (DataCachePort.dcache_resp_value d)
        (DataCachePort.dcache_ex_valid d) (DataCachePort.dcache_ex_exception d)
        (DataCachePort.dcache_notif_ready d) (dut c))
     (instruction_port c) (MemoryPort.base s) (DataCachePort.reserved o)
     (DataCachePort.reservation_valid o) (DataCachePort.delayed_notif_ready o),
   DataCachePort.memory o).

(** The constructor: the ports copy the latency that [RISCVSimulation]'s
    constructor has set, before any argument is parsed. *)
Definition make (d : D) : pipeline D :=
  let latency := Simulation.main_memory_latency Simulation.initial_settings in
  Pipeline d (MemoryPort.make latency) (MemoryPort.make latency) 0 false false.

(** The exception signals keep their values. *)
Definition init (c : pipeline D) : pipeline D :=
  on_dut (fun d =>
    let d := set_rst_ni 1 (set_clk_i 1 d) in
    let d := set_icache_resp false 0xDEADBEEF false
               (InstructionCachePort.icache_resp_ex_code (icache_signals d)) d in
    let d := set_dcache_req_ready 1 d in
    let d := set_dcache_resp false 0xDEADBEEF false
               (DataCachePort.dcache_ex_exception (dcache_signals d)) false d in
    init_common d) c.

Definition eval_dut : M unit := modify (fun w => (on_dut device_eval (fst w), snd w)).

Definition cycle_first_half (time : Z) : M unit :=
  eval_dut;;
  zoom instruction_view instruction_update (MemoryPort.set_outputs time);;
  zoom data_view data_update (MemoryPort.set_outputs time).

Definition cycle_second_half (time : Z) : M unit :=
  eval_dut;;
  zoom instruction_view instruction_update (MemoryPort.get_inputs time);;
  zoom data_view data_update (MemoryPort.get_inputs time).

#[global] Instance methods : SimulationMethods (pipeline D) := {
  set_clock value := on_dut (set_clk_i value);
  set_reset value := on_dut (set_rst_ni (if value =? 0 then 1 else 0));
  Simulation.init := init;
  eval := on_dut device_eval;
  final := on_dut device_final;
  get_program_counter c := dbg_pc_o (dut c);
  get_trace_info c := trace_info (dut c);
  Simulation.cycle_first_half := cycle_first_half;
  Simulation.cycle_second_half := cycle_second_half;
}.

(** What the log and the memory call back through the global [the_sim]. *)
Definition sc_time_stamp (the_sim : Simulation.simulation (pipeline D)) : Z := Simulation.simulation_time the_sim.
Definition calls : SystemCalls simulation_host := Simulation.simulation_calls.

(** [main], without the simulator's own name among the arguments. The device [d]
    and the members that the constructors leave uninitialised are given. *)
Definition main `{TraceFormats} `{FileSystem} (argc : Z) (argv : list string)
    (d : D) (e p th fh : Z) : outcome exn Z * Simulation.simulation (pipeline D) :=
  Simulation.main (argc - 1) (drop 1 argv) (Simulation.make "muntjac_pipeline" (make d) e p th fh).

End operations.

End PipelineSimulation.
