(* ===== verification/HarnessTheorems.v ===== *)
(** * The simulators: theorems

    What the device has to keep to ([CoreContract], [PipelineContract]); then both
    harnesses discharge [MethodsLaws], and each of their ports sees the schedule
    that [MemoryPortTheorems] is about. *)

From S2P Require Import Prelude Exceptions VirtualAddressing FlatMemory MainMemory.
From S2P Require Import MemoryPort MemoryPortTheorems CorePorts CorePortsTheorems.
From S2P Require Import DataCachePort DataCacheTheorems.
From S2P Require Import InstructionCachePort InstructionCacheTheorems.
From S2P Require Import Simulation SimulationTheorems Harnesses.

Import MainMemory Simulation.

(** ** A port in a simulation *)

Section ports.

Context {X T W : Type} `{TraceFormats} `{Uninitialised} `{MethodsLaws X}
  `{MemoryPort.Methods T W} `{!MemoryPort.Laws T W}.

Abbreviation world := (X * machine simulation_host)%type.

(** [port_of] is the base class part of the port. In the half cycle of time [t],
    started from a world, the port's method is called once, with the object's
    part and what it refers to as in [set_view t] and [get_view t]. Nothing else
    touches the port. *)
Class SimulationPort (port_of : X -> MemoryPort.port T) : Type := {
  set_view : Z -> world -> W;
  get_view : Z -> world -> W;
  port_init x : port_of (init x) = port_of x;
  port_clock v x : port_of (set_clock v x) = port_of x;
  port_reset v x : port_of (set_reset v x) = port_of x;
  port_eval x : port_of (eval x) = port_of x;
  set_view_serviceable t x m : completes x -> MemoryPort.serviceable (set_view t (x, m));
  get_view_serviceable t x m : completes x -> MemoryPort.serviceable (get_view t (x, m));
  port_first_half t x m :
    completes x ->
    port_of (fst (snd (cycle_first_half t (x, m))))
    = MemoryPort.base (snd (MemoryPort.set_outputs t (MemoryPort.State (port_of x) (set_view t (x, m)))));
  port_second_half t x m :
    completes x ->
    port_of (fst (snd (cycle_second_half t (x, m))))
    = MemoryPort.base (snd (MemoryPort.get_inputs t (MemoryPort.State (port_of x) (get_view t (x, m)))));
}.

Context {port_of : X -> MemoryPort.port T} `{!SimulationPort port_of}.

#[local] Set Default Proof Using "All".

Implicit Types (s : simulation X) (w : W).

(** What the port sees in turn [k] of a simulation started in [s0]. *)
Definition turn s0 (k : Z) : simulation X := snd (ticks (Z.to_nat k) s0).
Definition outputs_seen s0 (k : Z) (_ : W) : W :=
  let s := turn s0 k in
  set_view (simulation_time s) (set_clock 1 (harness s), memory s).
Definition inputs_seen s0 (k : Z) (_ : W) : W :=
  let s1 := snd (first_half (turn s0 k)) in
  get_view (simulation_time s1) (set_clock 0 (harness s1), memory s1).

Lemma turn_completes s0 k : completes (harness s0) -> completes (harness (turn s0 k)).
Proof.
  intros Hc. unfold turn. by destruct (ticks_run (Z.to_nat k) s0 Hc) as (s & -> & _ & _ & ?).
Qed.

Lemma outputs_seen_serviceable s0 k w :
  completes (harness s0) -> MemoryPort.serviceable (outputs_seen s0 k w).
Proof. intros Hc. by apply set_view_serviceable, completes_clock, turn_completes. Qed.

Lemma inputs_seen_serviceable s0 k w :
  completes (harness s0) -> MemoryPort.serviceable (inputs_seen s0 k w).
Proof.
  intros Hc. apply get_view_serviceable, completes_clock.
  destruct (tick_halves (turn s0 k)) as (s1 & s2 & Hf & _ & _ & _ & _ & Hc1 & _);
    [by apply turn_completes|]. by rewrite Hf.
Qed.

Lemma ticks_snoc n s s1 s2 :
  ticks n s = (Ok tt, s1) -> tick s1 = (Ok tt, s2) -> ticks (S n) s = (Ok tt, s2).
Proof.
  revert s. induction n as [|n IH]; intros s Hn Ht; cbn [ticks] in *.
  - injection Hn as ->. by erewrite bind_ok by exact Ht.
  - apply bind_ok_inv in Hn as ([] & s3 & Hs3 & Hn). erewrite bind_ok by exact Hs3. by apply IH.
Qed.

(** One turn is one tick of the port's schedule. *)
Lemma turn_port s0 (k : nat) w :
  completes (harness s0) -> cycle s0 = 0 ->
  exists w' h,
    MemoryPort.run (MemoryPort.tick (outputs_seen s0) (inputs_seen s0) (Z.of_nat k))
      (MemoryPort.State (port_of (harness (turn s0 (Z.of_nat k)))) w)
    = (Ok tt, MemoryPort.State (port_of (harness (turn s0 (Z.of_nat (S k))))) w', h).
Proof.
  intros Hc Hz. remember (Z.of_nat k) as t eqn:Et. remember (turn s0 t) as s eqn:Es.
  destruct (ticks_run k s0 Hc) as (s' & Hk & _ & Hcy & Hcs).
  assert (Hs : s' = s) by (rewrite Es; unfold turn; by rewrite Et, Nat2Z.id, Hk). subst s'.
  destruct (tick_halves s Hcs) as (s1 & s2 & Hf & Ht & _ & Hcy1 & Hcy2 & Hc1 & Hc2 & Hw1 & Hw2).
  assert (Hs2 : turn s0 (Z.of_nat (S k)) = s2)
    by (unfold turn; rewrite Nat2Z.id; by rewrite (ticks_snoc k s0 s s2 Hk Ht)).
  assert (Ht1 : simulation_time s = t) by (symmetry; apply (Z.div_unique _ _ _ 0); lia).
  assert (Ht2 : simulation_time s1 = t) by (symmetry; apply (Z.div_unique _ _ _ 1); lia).
  rewrite Ht1 in Hw1. rewrite Ht2 in Hw2. rewrite Hs2.
  pose proof (port_first_half t (set_clock 1 (harness s)) (memory s) (completes_clock _ _ Hcs)) as Hp1.
  pose proof (port_second_half t (set_clock 0 (harness s1)) (memory s1) (completes_clock _ _ Hc1)) as Hp2.
  rewrite <- Hw1, port_clock in Hp1. rewrite <- Hw2, port_clock in Hp2. cbn [fst] in Hp1, Hp2.
  unfold MemoryPort.tick. cbn [MemoryPort.run MemoryPort.step MemoryPort.base MemoryPort.sub].
  assert (Hv1 : outputs_seen s0 t w = set_view t (set_clock 1 (harness s), memory s))
    by (unfold outputs_seen; rewrite <- Es; by rewrite Ht1).
  rewrite Hv1.
  destruct (MemoryPort.set_outputs_run t
    (MemoryPort.State (port_of (harness s)) (set_view t (set_clock 1 (harness s), memory s))))
    as (w1 & Ho & _); [by apply set_view_serviceable, completes_clock|].
  rewrite Ho in Hp1 |- *. cbn [snd MemoryPort.base MemoryPort.sub] in *. rewrite <- Hp1.
  assert (Hv2 : inputs_seen s0 t w1 = get_view t (set_clock 0 (harness s1), memory s1))
    by (unfold inputs_seen; rewrite <- Es, Hf; cbn [snd]; by rewrite Ht2).
  rewrite Hv2.
  destruct (MemoryPort.get_inputs_run t
    (MemoryPort.State (port_of (harness s1)) (get_view t (set_clock 0 (harness s1), memory s1))))
    as (new & w2 & Hi & _ & _); [by apply get_view_serviceable, completes_clock|].
  rewrite Hi in Hp2 |- *. rewrite Hp2. by eexists _, _.
Qed.

Lemma turns_port s0 (n k : nat) w :
  completes (harness s0) -> cycle s0 = 0 ->
  exists w' h,
    MemoryPort.run
      (concat (MemoryPort.tick (outputs_seen s0) (inputs_seen s0) <$> seqZ (Z.of_nat k) (Z.of_nat n)))
      (MemoryPort.State (port_of (harness (turn s0 (Z.of_nat k)))) w)
    = (Ok tt, MemoryPort.State (port_of (harness (turn s0 (Z.of_nat (k + n))))) w', h).
Proof.
  intros Hc Hz. revert k w. induction n as [|n IH]; intros k w.
  - rewrite Nat.add_0_r. by eexists _, _.
  - rewrite seqZ_cons by lia. rewrite fmap_cons. cbn [concat].
    destruct (turn_port s0 k w Hc Hz) as (w1 & h1 & Hr1). erewrite MemoryPort.run_app by exact Hr1.
    replace (Z.succ (Z.of_nat k)) with (Z.of_nat (S k)) by lia.
    replace (Z.pred (Z.of_nat (S n))) with (Z.of_nat n) by lia.
    destruct (IH (S k) w1) as (w2 & h2 & Hr2). rewrite Hr2.
    replace (k + S n)%nat with (S k + n)%nat by lia. by eexists _, _.
Qed.

Lemma port_reset_device x : port_of (reset_device x) = port_of x.
Proof.
  unfold reset_device. rewrite port_reset. transitivity (port_of (set_reset 1 x)); [|apply port_reset].
  generalize (set_reset 1 x). generalize 10%nat.
  intros n. induction n as [|n IH]; intros y; cbn; [done|].
  by rewrite IH, port_eval, port_clock, port_eval, port_clock.
Qed.

(** The whole run of a port in a simulation that makes [n] turns. *)
Lemma simulation_port s n :
  cycle s = 0 ->
  exists s0 sn w0 w h, start s = (Ok tt, s0) /\ ticks n s0 = (Ok tt, sn)
    /\ completes (harness s0) /\ MemoryPort.serviceable w0
    /\ MemoryPort.run (MemoryPort.schedule (outputs_seen s0) (inputs_seen s0) n)
         (MemoryPort.State (port_of (harness s)) w0)
       = (Ok tt, MemoryPort.State (port_of (harness sn)) w, h).
Proof.
  intros Hz. destruct (start_run s) as (s0 & Hstart & Hs0 & Hcy & Hc & m & Hw).
  destruct (ticks_run n s0 Hc) as (sn & Hn & _). exists s0, sn.
  assert (Ht : simulation_time s = 0) by (unfold simulation_time; by rewrite Hz).
  rewrite Ht in Hw. set (x := reset_device (init (harness s))) in *.
  assert (Hx : completes x) by apply completes_reset_device, completes_init.
  pose proof (port_second_half 0 x m Hx) as Hp. rewrite <- Hw in Hp. cbn [fst] in Hp.
  assert (Hpx : port_of x = port_of (harness s))
    by (unfold x; by rewrite port_reset_device, port_init).
  rewrite Hpx in Hp. exists (get_view 0 (x, m)).
  assert (Hv : MemoryPort.serviceable (get_view 0 (x, m))) by by apply get_view_serviceable.
  unfold MemoryPort.schedule. cbn [MemoryPort.run MemoryPort.step].
  destruct (MemoryPort.get_inputs_run 0 (MemoryPort.State (port_of (harness s)) (get_view 0 (x, m))))
    as (new & w1 & Hi & _ & _); [done|].
  rewrite Hi in Hp |- *. cbn [snd MemoryPort.base] in *. rewrite <- Hp.
  destruct (turns_port s0 n 0 w1 Hc ltac:(lia)) as (w2 & h2 & Hrun).
  assert (Ht0 : turn s0 (Z.of_nat 0) = s0) by done. rewrite Ht0 in Hrun. change (Z.of_nat 0) with 0 in Hrun. rewrite Hrun.
  assert (Hsn : turn s0 (Z.of_nat (0 + n)) = sn) by (unfold turn; rewrite Nat2Z.id; cbn [Nat.add]; by rewrite Hn).
  rewrite Hsn. by eexists _, _.
Qed.

End ports.

(** A call of a port's method on the object it is part of. *)
Lemma zoom_run {E S T A} (view : S -> T) (update : T -> S -> S) (k : M E T A) s a t :
  k (view s) = (Ok a, t) -> zoom view update k s = (Ok a, update t s).
Proof. intros Hk. unfold zoom. by rewrite Hk. Qed.

(** ** Harnesses with two ports

    Both harnesses have this shape: a half cycle evaluates the device and calls one
    method of the first port and then of the second, on objects that share the
    device and the memory. *)
Class TwoPorts (X W1 W2 : Type) `{SimulationMethods X}
    `{MemoryPort.Laws Z W1} `{MemoryPort.Laws Z W2} : Type := {
  ok : X -> Prop;
  port1 : X -> MemoryPort.port Z;
  port2 : X -> MemoryPort.port Z;
  view1 : X * machine simulation_host -> MemoryPort.state Z W1;
  view2 : X * machine simulation_host -> MemoryPort.state Z W2;
  update1 : MemoryPort.state Z W1 -> X * machine simulation_host -> X * machine simulation_host;
  update2 : MemoryPort.state Z W2 -> X * machine simulation_host -> X * machine simulation_host;
  first_half_calls t :
    cycle_first_half t = (modify (fun w => (eval (fst w), snd w));;
                          zoom view1 update1 (MemoryPort.set_outputs t);;
                          zoom view2 update2 (MemoryPort.set_outputs t));
  second_half_calls t :
    cycle_second_half t = (modify (fun w => (eval (fst w), snd w));;
                           zoom view1 update1 (MemoryPort.get_inputs t);;
                           zoom view2 update2 (MemoryPort.get_inputs t));
  ok_init x : ok (init x) /\ port1 (init x) = port1 x /\ port2 (init x) = port2 x;
  ok_clock v x : ok x -> ok (set_clock v x);
  ok_reset v x : ok x -> ok (set_reset v x);
  ok_eval x : ok x -> ok (eval x);
  ok_update1 s w : ok (fst w) -> ok (fst (update1 s w));
  ok_update2 s w : ok (fst w) -> ok (fst (update2 s w));
  serves1 w : ok (fst w) -> MemoryPort.serviceable (MemoryPort.sub (view1 w));
  serves2 w : ok (fst w) -> MemoryPort.serviceable (MemoryPort.sub (view2 w));
  base1 w : MemoryPort.base (view1 w) = port1 (fst w);
  base2 w : MemoryPort.base (view2 w) = port2 (fst w);
  clock_ports v x : port1 (set_clock v x) = port1 x /\ port2 (set_clock v x) = port2 x;
  reset_ports v x : port1 (set_reset v x) = port1 x /\ port2 (set_reset v x) = port2 x;
  eval_ports x : port1 (eval x) = port1 x /\ port2 (eval x) = port2 x;
  update1_ports s w :
    port1 (fst (update1 s w)) = MemoryPort.base s /\ port2 (fst (update1 s w)) = port2 (fst w);
  update2_ports s w :
    port1 (fst (update2 s w)) = port1 (fst w) /\ port2 (fst (update2 s w)) = MemoryPort.base s;
}.

Section two_ports.

Context {X W1 W2 : Type} `{TwoPorts X W1 W2}.

#[local] Set Default Proof Using "All".

Abbreviation world := (X * machine simulation_host)%type.
Implicit Types (x : X) (m : machine simulation_host) (w : world).

Definition evaluated w : world := (eval (fst w), snd w).
Definition after_first (k : M exn (MemoryPort.state Z W1) unit) w : world :=
  update1 (snd (k (view1 (evaluated w)))) (evaluated w).

(** The two calls go through, and each port's part changes by its own call. *)
Definition half_completes (half : M exn world unit) (k1 : M exn (MemoryPort.state Z W1) unit)
    (k2 : M exn (MemoryPort.state Z W2) unit) w : Prop :=
  exists w', half w = (Ok tt, w') /\ ok (fst w')
    /\ port1 (fst w') = MemoryPort.base (snd (k1 (view1 (evaluated w))))
    /\ port2 (fst w') = MemoryPort.base (snd (k2 (view2 (after_first k1 w)))).

Lemma half_completes_intro k1 k2 w :
  ok (fst w) ->
  (forall s, MemoryPort.serviceable (MemoryPort.sub s) -> exists s', k1 s = (Ok tt, s')) ->
  (forall s, MemoryPort.serviceable (MemoryPort.sub s) -> exists s', k2 s = (Ok tt, s')) ->
  half_completes (modify (fun w => (eval (fst w), snd w));; zoom view1 update1 k1;; zoom view2 update2 k2)
    k1 k2 w.
Proof.
  intros Hw Hk1 Hk2. assert (He : ok (fst (evaluated w))) by by apply ok_eval.
  destruct (Hk1 (view1 (evaluated w))) as [s1 Hs1]; [by apply serves1|].
  assert (Hw1 : ok (fst (update1 s1 (evaluated w)))) by by apply ok_update1.
  destruct (Hk2 (view2 (update1 s1 (evaluated w)))) as [s2 Hs2]; [by apply serves2|].
  exists (update2 s2 (update1 s1 (evaluated w))). split; [|split; [by apply ok_update2|]].
  - erewrite bind_ok by done. erewrite bind_ok by by apply zoom_run. by apply zoom_run.
  - unfold after_first. rewrite Hs1. cbn [snd]. rewrite Hs2. cbn [snd].
    destruct (update2_ports s2 (update1 s1 (evaluated w))) as [-> ->].
    by destruct (update1_ports s1 (evaluated w)) as [-> _].
Qed.

Lemma first_half_run t w :
  ok (fst w) ->
  half_completes (cycle_first_half t) (MemoryPort.set_outputs t) (MemoryPort.set_outputs t) w.
Proof.
  intros Hw. rewrite first_half_calls. apply half_completes_intro; [done|..]; intros s Hs.
  all: destruct (MemoryPort.set_outputs_run t s Hs) as (w' & -> & _); by eexists.
Qed.

Lemma second_half_run t w :
  ok (fst w) ->
  half_completes (cycle_second_half t) (MemoryPort.get_inputs t) (MemoryPort.get_inputs t) w.
Proof.
  intros Hw. rewrite second_half_calls. apply half_completes_intro; [done|..]; intros s Hs.
  all: destruct (MemoryPort.get_inputs_run t s Hs) as (new & w' & -> & _); by eexists.
Qed.

#[export] Instance two_ports_laws : MethodsLaws X.
Proof.
  refine {| completes := ok |}.
  - intros x. apply ok_init.
  - apply ok_clock.
  - apply ok_reset.
  - apply ok_eval.
  - intros t x m Hx. destruct (first_half_run t (x, m) Hx) as ([x' m'] & Hrun & Hx' & _). eauto.
  - intros t x m Hx. destruct (second_half_run t (x, m) Hx) as ([x' m'] & Hrun & Hx' & _). eauto.
Defined.

(** The argument of a call, as the object's own parts. *)
Lemma view1_parts x m :
  MemoryPort.State (port1 x) (MemoryPort.sub (view1 (evaluated (x, m)))) = view1 (evaluated (x, m)).
Proof.
  destruct (eval_ports x) as [<- _]. rewrite <- (base1 (evaluated (x, m))). by destruct (view1 _).
Qed.

Lemma view2_parts k x m :
  MemoryPort.State (port2 x) (MemoryPort.sub (view2 (after_first k (x, m))))
  = view2 (after_first k (x, m)).
Proof.
  destruct (eval_ports x) as [_ <-].
  assert (Hp : port2 (fst (after_first k (x, m))) = port2 (eval x)) by apply update1_ports.
  rewrite <- Hp, <- base2. by destruct (view2 _).
Qed.

#[export] Instance first_port : SimulationPort (W := W1) port1.
Proof.
  refine {| set_view t w := MemoryPort.sub (view1 (evaluated w));
            get_view t w := MemoryPort.sub (view1 (evaluated w)) |}.
  - intros x. apply ok_init.
  - intros v x. apply clock_ports.
  - intros v x. apply reset_ports.
  - intros x. apply eval_ports.
  - intros t x m Hx. by apply serves1, ok_eval.
  - intros t x m Hx. by apply serves1, ok_eval.
  - intros t x m Hx. destruct (first_half_run t (x, m) Hx) as (w & Hw & _ & Hp & _).
    by rewrite Hw, view1_parts.
  - intros t x m Hx. destruct (second_half_run t (x, m) Hx) as (w & Hw & _ & Hp & _).
    by rewrite Hw, view1_parts.
Defined.

#[export] Instance second_port : SimulationPort (W := W2) port2.
Proof.
  refine {| set_view t w := MemoryPort.sub (view2 (after_first (MemoryPort.set_outputs t) w));
            get_view t w := MemoryPort.sub (view2 (after_first (MemoryPort.get_inputs t) w)) |}.
  - intros x. apply ok_init.
  - intros v x. apply clock_ports.
  - intros v x. apply reset_ports.
  - intros x. apply eval_ports.
  - intros t x m Hx. by apply serves2, ok_update1, ok_eval.
  - intros t x m Hx. by apply serves2, ok_update1, ok_eval.
  - intros t x m Hx. destruct (first_half_run t (x, m) Hx) as (w & Hw & _ & _ & Hp).
    by rewrite Hw, view2_parts.
  - intros t x m Hx. destruct (second_half_run t (x, m) Hx) as (w & Hw & _ & _ & Hp).
    by rewrite Hw, view2_parts.
Defined.

End two_ports.

(** ** What a port answers in a simulation

    [answers_on_time L p n s0 f g port q]: in the first [n] turns, the port, seen
    through [f] and [g], runs from [p] to [q], and every accepted request is due
    after [L] cycles, is answered neither before nor more than one cycle after
    that, and is answered if there was time for it. *)
Definition answers_on_time {T W} `{MemoryPort.Methods T W} (L : Z) (n : nat)
    (f g : Z -> W -> W) (p q : MemoryPort.port T) : Prop :=
  exists w0 w h,
    MemoryPort.run (MemoryPort.schedule f g n) (MemoryPort.State p w0)
      = (Ok tt, MemoryPort.State q w, h)
    /\ Forall (fun x => MemoryPort.time (snd x) = fst x + L) (MemoryPort.accepted h)
    /\ Forall (fun x => MemoryPort.time (snd x) <= fst x <= MemoryPort.time (snd x) + 1) (MemoryPort.sent h)
    /\ Forall (fun x => fst x + L + 1 < Z.of_nat n -> snd x ∈ (MemoryPort.sent h).*2)
         (MemoryPort.accepted h).

Lemma port_on_time {X T W} `{TraceFormats} `{Uninitialised} `{MethodsLaws X} `{MemoryPort.Methods T W}
    `{!MemoryPort.Laws T W} (port_of : X -> MemoryPort.port T) `{!SimulationPort (W := W) port_of}
    (s : simulation X) (n : nat) L :
  cycle s = 0 -> port_of (harness s) = MemoryPort.Port (MemoryPort.current_cycle (port_of (harness s))) L [] ->
  0 <= L -> Z.of_nat n + L < 2 ^ 64 ->
  exists s0 sn, start s = (Ok tt, s0) /\ ticks n s0 = (Ok tt, sn)
    /\ answers_on_time L n (outputs_seen (port_of := port_of) s0) (inputs_seen (port_of := port_of) s0)
         (port_of (harness s)) (port_of (harness sn)).
Proof.
  intros Hz Hp HL Hmax.
  destruct (simulation_port (port_of := port_of) s n Hz)
    as (s0 & sn & w0 & w & h & Hstart & Hn & Hc & Hw0 & Hrun).
  exists s0, sn. split; [done|]. split; [done|]. exists w0, w, h. split; [done|].
  assert (Hl : MemoryPort.latency (port_of (harness s)) = L) by by rewrite Hp.
  destruct (schedule_on_time (outputs_seen (port_of := port_of) s0) (inputs_seen (port_of := port_of) s0)
    n (MemoryPort.State (port_of (harness s)) w0)) as (s' & h' & Hrun' & Hsched).
  - intros k v _. by apply outputs_seen_serviceable.
  - intros k v _. by apply inputs_seen_serviceable.
  - done.
  - cbn. by rewrite Hp.
  - cbn. lia.
  - cbn. lia.
  - rewrite Hrun in Hrun'. injection Hrun' as <- <-. cbn [MemoryPort.base] in Hsched.
    by rewrite Hl in Hsched.
Qed.

(** ** The core simulator *)

(** What the core and its wrapper keep to: 53-bit addresses of words, stores of
    whole words on the memory interface, and of aligned parts on the IO interface. *)
Class CoreContract (D : Type) `{CoreWrapper D} : Type := {
  core_ok : D -> Prop;
  core_ok_init c : core_ok (CoreSimulation.dut (CoreSimulation.init c));
  core_ok_eval d : core_ok d -> core_ok (device_eval d);
  core_ok_clk v d : core_ok d -> core_ok (set_clk_i v d);
  core_ok_rst v d : core_ok d -> core_ok (set_rst_ni v d);
  core_ok_mem_rdata v d : core_ok d -> core_ok (set_mem_rdata_i v d);
  core_ok_io_rdata v d : core_ok d -> core_ok (set_io_rdata_i v d);
  core_ok_mem d :
    core_ok d ->
    in_width 53 (MainMemoryPort.mem_addr_o (mem_signals d))
    /\ (MainMemoryPort.mem_we_o (mem_signals d) = true ->
        MainMemoryPort.mem_wmask_o (mem_signals d) = 0xFF);
  core_ok_io d :
    core_ok d ->
    in_width 53 (IoMemoryPort.io_addr_o (io_signals d))
    /\ (IoMemoryPort.io_we_o (io_signals d) = true ->
        IoMemoryPort.io_wmask_o (io_signals d) ∈ supported_masks);
}.

#[export] Instance core_two_ports {D} `{CoreContract D} `{Uninitialised} :
  TwoPorts (CoreSimulation.core D) (MainMemoryPort.object simulation_host)
    (IoMemoryPort.object simulation_host).
Proof.
  refine {|
    ok c := core_ok (CoreSimulation.dut c);
    port1 := CoreSimulation.main_memory_port;
    port2 := CoreSimulation.io_memory_port;
    view1 := CoreSimulation.main_view;
    view2 := CoreSimulation.io_view;
    update1 := CoreSimulation.main_update;
    update2 := CoreSimulation.io_update;
  |}; try done.
  - intros c. split; [apply core_ok_init|done].
  - intros v c. apply core_ok_clk.
  - intros v c. apply core_ok_rst.
  - intros c. apply core_ok_eval.
  - intros s w. apply core_ok_mem_rdata.
  - intros s w. apply core_ok_io_rdata.
  - intros w Hw. apply (core_ok_mem _ Hw).
  - intros w Hw. apply (core_ok_io _ Hw).
Defined.

(** ** The pipeline simulator *)

(** What the pipeline keeps to: the requests that its interfaces can issue. *)
Class PipelineContract (D : Type) `{PipelineWrapper D} : Type := {
  pipeline_ok : D -> Prop;
  pipeline_ok_init c : pipeline_ok (PipelineSimulation.dut (PipelineSimulation.init c));
  pipeline_ok_eval d : pipeline_ok d -> pipeline_ok (device_eval d);
  pipeline_ok_clk v d : pipeline_ok d -> pipeline_ok (set_clk_i v d);
  pipeline_ok_rst v d : pipeline_ok d -> pipeline_ok (set_rst_ni v d);
  pipeline_ok_icache_resp v i e c d : pipeline_ok d -> pipeline_ok (set_icache_resp v i e c d);
  pipeline_ok_dcache_resp v i e x n d : pipeline_ok d -> pipeline_ok (set_dcache_resp v i e x n d);
  pipeline_ok_fetch d : pipeline_ok d -> fetch_ok (icache_signals d);
  pipeline_ok_request d : pipeline_ok d -> request_ok (dcache_signals d);
}.

#[export] Instance pipeline_two_ports {D} `{PipelineContract D} `{Uninitialised} :
  TwoPorts (PipelineSimulation.pipeline D) (InstructionCachePort.object simulation_host)
    (DataCachePort.object simulation_host).
Proof.
  refine {|
    ok c := pipeline_ok (PipelineSimulation.dut c);
    port1 := PipelineSimulation.instruction_port;
    port2 := PipelineSimulation.data_port;
    view1 := PipelineSimulation.instruction_view;
    view2 := PipelineSimulation.data_view;
    update1 := PipelineSimulation.instruction_update;
    update2 := PipelineSimulation.data_update;
  |}; try done.
  - intros c. split; [apply pipeline_ok_init|done].
  - intros v c. apply pipeline_ok_clk.
  - intros v c. apply pipeline_ok_rst.
  - intros c. apply pipeline_ok_eval.
  - intros s w. apply pipeline_ok_icache_resp.
  - intros s w. apply pipeline_ok_dcache_resp.
  - intros w Hw. apply (pipeline_ok_fetch _ Hw).
  - intros w Hw. apply (pipeline_ok_request _ Hw).
Defined.

(** ** The claims *)

Section claims.

#[local] Set Default Proof Using "All".




End claims.

(** ** Witnesses: a device that repeats its requests *)

Module HarnessExample.

#[local] Existing Instance zeroed.
#[local] Existing Instance SimulationExample.vcd_build.

#[global] Instance idle_device : Device unit := {
  device_eval d := d;
  device_final d := d;
  set_clk_i _ d := d;
  set_rst_ni _ d := d;
  set_irq_timer_m_i _ d := d;
  set_irq_software_m_i _ d := d;
  set_irq_external_m_i _ d := d;
  set_irq_external_s_i _ d := d;
  set_hart_id_i _ d := d;
  dbg_pc_o _ := 0;
  dbg_instr_word_o _ := 0;
  dbg_mode_o _ := 0;
  dbg_gpr_written_o _ := false;
  dbg_gpr_o _ := 0;
  dbg_gpr_data_o _ := 0;
  dbg_csr_written_o _ := false;
  dbg_csr_o _ := 0;
  dbg_csr_data_o _ := 0;
}.

#[global] Instance busy_core : CoreWrapper unit := {
  mem_signals _ := MainMemoryPort.Signals true true 0x200 0xFF 0x1122334455667788 0;
  set_mem_rdata_i _ d := d;
  io_signals _ := IoMemoryPort.Signals true true 0x300 0x0F 0x55667788 0;
  set_io_rdata_i _ d := d;
}.

#[global] Instance busy_core_contract : CoreContract unit.
Proof.
  refine {| core_ok _ := True |}; try done; intros d _; (split; [done|]); intros _; try done.
  apply (bool_decide_eq_true_1 (0x0F ∈ supported_masks)). reflexivity.
Defined.

#[global] Instance busy_pipeline : PipelineWrapper unit := {
  icache_signals _ := InstructionCachePort.Signals true 0x1000 true false 0 false 0 false 0;
  set_icache_resp _ _ _ _ d := d;
  dcache_signals _ :=
    DataCachePort.Signals true 0x2000 7 2 3 0 0 true false false 0 false false 0 false (0, 0, 0) false;
  set_dcache_resp _ _ _ _ _ d := d;
  set_dcache_req_ready _ d := d;
}.

#[global] Instance busy_pipeline_contract : PipelineContract unit.
Proof.
  refine {| pipeline_ok _ := True |}; try done; intros d _.
  - split; [done|by left].
  - repeat split; try done; by left.
Defined.

Definition core_simulation : simulation (CoreSimulation.core unit) :=
  on_params (set_timeout 50) (make "core" (CoreSimulation.make tt) 0 0 0x4000 0x4008).
Definition pipeline_simulation : simulation (PipelineSimulation.pipeline unit) :=
  on_params (set_latency 3) (make "pipeline" (PipelineSimulation.make tt) 0 0 0x4000 0x4008).




End HarnessExample.
