(* ===== verification/TileLink.v ===== *)
(** * TileLink: data and random choices

    [tilelink.h] and [tl_random.h] of the TileLink tester, and the arithmetic
    helpers of [tl_messages.cc]. An enumerator that the code does not name is
    kept as its value, since opcodes are cast from signals and integers. *)

From S2P Require Import Prelude Exceptions.

(** ** Protocols *)

Inductive tl_protocol_e : Type := TL_UL | TL_UH | TL_C_IO_TERM | TL_C_ROM_TERM | TL_C.

#[export] Instance tl_protocol_eq_dec : EqDecision tl_protocol_e.
Proof. solve_decision. Defined.

Definition protocol_value (p : tl_protocol_e) : Z :=
  match p with TL_UL => 0 | TL_UH => 1 | TL_C_IO_TERM => 2 | TL_C_ROM_TERM => 3 | TL_C => 4 end.

Definition max_common_protocol (p1 p2 : tl_protocol_e) : tl_protocol_e :=
  if protocol_value p1 >? protocol_value p2 then p2 else p1.

(** ** Opcodes *)

Inductive tl_a_op_e : Type :=
  | PutFullData | PutPartialData | ArithmeticData | LogicalData | Get | Intent
  | AcquireBlock | AcquirePerm
  | A_OTHER (op : Z).
Inductive tl_b_op_e : Type := ProbeBlock | ProbePerm | B_OTHER (op : Z).
Inductive tl_c_op_e : Type := ProbeAck | ProbeAckData | Release | ReleaseData | C_OTHER (op : Z).
Inductive tl_d_op_e : Type :=
  | AccessAck | AccessAckData | HintAck | Grant | GrantData | ReleaseAck
  | D_OTHER (op : Z).

#[export] Instance tl_a_op_eq_dec : EqDecision tl_a_op_e.
Proof. solve_decision. Defined.
#[export] Instance tl_b_op_eq_dec : EqDecision tl_b_op_e.
Proof. solve_decision. Defined.
#[export] Instance tl_c_op_eq_dec : EqDecision tl_c_op_e.
Proof. solve_decision. Defined.
#[export] Instance tl_d_op_eq_dec : EqDecision tl_d_op_e.
Proof. solve_decision. Defined.

(** The casts from integers. *)
Definition tl_a_op (op : Z) : tl_a_op_e :=
  match op with
  | 0 => PutFullData | 1 => PutPartialData | 2 => ArithmeticData | 3 => LogicalData
  | 4 => Get | 5 => Intent | 6 => AcquireBlock | 7 => AcquirePerm
  | _ => A_OTHER op
  end.
Definition tl_b_op (op : Z) : tl_b_op_e :=
  match op with 6 => ProbeBlock | 7 => ProbePerm | _ => B_OTHER op end.
Definition tl_c_op (op : Z) : tl_c_op_e :=
  match op with
  | 4 => ProbeAck | 5 => ProbeAckData | 6 => Release | 7 => ReleaseData
  | _ => C_OTHER op
  end.
Definition tl_d_op (op : Z) : tl_d_op_e :=
  match op with
  | 0 => AccessAck | 1 => AccessAckData | 2 => HintAck | 4 => Grant | 5 => GrantData
  | 6 => ReleaseAck
  | _ => D_OTHER op
  end.

(** ** Beats *)

Record tl_a : Type := BeatA {
  a_opcode : tl_a_op_e; a_param : Z; a_size : Z; a_source : Z; a_address : Z;
  a_mask : Z; a_corrupt : bool; a_data : Z;
}.
Record tl_b : Type := BeatB {
  b_opcode : tl_b_op_e; b_param : Z; b_size : Z; b_source : Z; b_address : Z;
}.
Record tl_c : Type := BeatC {
  c_opcode : tl_c_op_e; c_param : Z; c_size : Z; c_source : Z; c_address : Z;
  c_corrupt : bool; c_data : Z;
}.
Record tl_d : Type := BeatD {
  d_opcode : tl_d_op_e; d_param : Z; d_size : Z; d_source : Z; d_sink : Z;
  d_denied : bool; d_corrupt : bool; d_data : Z;
}.
Record tl_e : Type := BeatE { e_sink : Z }.

(** ** Addresses, sizes and masks *)

(** [1 << n] as an [int]; shift counts of 32 and more do not occur. *)
Definition int_shl (n : Z) : Z := s32 (Z.shiftl 1 n).

(** This needs to match the routing of the device under test; the product is an
    [int]. *)
Definition get_address (address device : Z) : Z := u64 (address + u64 (s32 (device * 0x10000000))).

Definition align (address unit : Z) : Z := u64 (address - address mod unit).

Definition complete_mask (address size_bytes channel_bytes : Z) : Z :=
  if channel_bytes <=? size_bytes then u64 (int_shl channel_bytes - 1)
  else
    let mask := u64 (int_shl size_bytes - 1) in
    u64 (Z.shiftl mask (address mod channel_bytes)).

Definition full_mask (size : Z) : Z := s32 (int_shl (int_shl size) - 1).

Definition size_to_bytes (size : Z) : Z := int_shl size.
Definition size_to_bits (size : Z) : Z := 8 * size_to_bytes size.
(** [(int)log2(bits / 8)], for at least one byte. *)
Definition bits_to_size (bits : Z) : Z := Z.log2 (bits / 8).

(** ** Which messages carry data and which are answered *)

Definition a_has_payload (opcode : tl_a_op_e) : bool :=
  match opcode with
  | PutFullData | PutPartialData | ArithmeticData | LogicalData => true
  | _ => false
  end.
Definition b_has_payload (opcode : tl_b_op_e) : bool := false.
Definition c_has_payload (opcode : tl_c_op_e) : bool :=
  match opcode with ProbeAckData | ReleaseData => true | _ => false end.
Definition d_has_payload (opcode : tl_d_op_e) : bool :=
  match opcode with AccessAckData | GrantData => true | _ => false end.

Definition a_requires_response (opcode : tl_a_op_e) : bool := true.
Definition b_requires_response (opcode : tl_b_op_e) : bool := true.
Definition c_requires_response (opcode : tl_c_op_e) : bool :=
  match opcode with Release | ReleaseData => true | _ => false end.
Definition d_requires_response (opcode : tl_d_op_e) : bool :=
  match opcode with Grant | GrantData => true | _ => false end.

(** The body that the overloads of [num_beats] share. *)
Definition num_beats (payload : bool) (size channel_width_bytes : Z) : Z :=
  if payload then Z.max 1 (Z.quot (int_shl size) channel_width_bytes) else 1.

(** ** Random choices

    [rand] is a library function: a generator with state [G] whose numbers lie
    between 0 and [RAND_MAX]. *)
Class Random (G : Type) : Type := {
  next_rand : G -> Z * G;
  next_rand_range g : 0 <= fst (next_rand g) < 2 ^ 31;
}.

Section random.

Context {G : Type} `{Random G}.

Abbreviation M := (M exn G).

Definition rand : M Z := fun g => let '(r, g) := next_rand g in (Ok r, g).

Definition random_sample (min max : Z) : M Z :=
  r ← rand;
  mret (min + r mod (max - min + 1)).

(** The probability is a literal with at most two decimals, in thousandths. *)
Definition random_bool (permille : Z) : M bool :=
  r ← rand;
  mret (r mod 1000 <? permille).

(** Indexing a [vector]: undefined outside of it. *)
Definition element {A} (l : list A) (i : Z) : M A :=
  match l !! Z.to_nat i with Some a => mret a | None => fail Undefined end.

(** [v[random_sample(0, v.size() - 1)]]. *)
Definition random_element {A} (l : list A) : M A :=
  i ← random_sample 0 (Z.of_nat (length l) - 1);
  element l i.

Definition tl_ul : list tl_a_op_e := [PutFullData; PutPartialData; Get].
Definition tl_uh : list tl_a_op_e :=
  [PutFullData; PutPartialData; Get; ArithmeticData; LogicalData; Intent].
Definition tl_c_ops : list tl_a_op_e :=
  [PutFullData; PutPartialData; Get; ArithmeticData; LogicalData; Intent; AcquireBlock; AcquirePerm].

Definition random_a_opcode (protocol : tl_protocol_e) : M tl_a_op_e :=
  match protocol with
  | TL_UL => random_element tl_ul
  | TL_UH => random_element tl_uh
  | TL_C_IO_TERM | TL_C_ROM_TERM | TL_C => random_element tl_c_ops
  end.

Definition random_b_opcode (protocol : tl_protocol_e) : M tl_b_op_e :=
  assert_that (bool_decide (protocol = TL_C));;
  tl_b_op <$> random_sample 6 7.

Definition random_c_opcode (protocol : tl_protocol_e) : M tl_c_op_e :=
  match protocol with
  | TL_C_ROM_TERM => random_element [Release]
  | TL_C => random_element [Release; ReleaseData]
  | _ => fail AssertFail
  end.

Definition random_arithmetic_data_param : M Z := random_sample 0 4.
Definition random_logical_data_param : M Z := random_sample 0 3.
Definition random_intent_param : M Z := random_sample 0 1.
Definition random_cap_permission : M Z := random_sample 0 2.
Definition random_grow_permission : M Z := random_sample 0 2.
Definition random_prune_permission : M Z := random_sample 0 2.
Definition random_report_permission : M Z := random_sample 3 5.

(** A round number in both hex and dec; the code leaves open which of the two
    calls of [rand] is made first. *)
Definition random_data : M Z :=
  high ← rand;
  low ← rand;
  mret (Z.lor (u64 (Z.shiftl high 32)) (align low 160)).

End random.
