(* ===== verification/TlPrinting.v ===== *)
(** * Printing of TileLink beats

    [tl_printing.cc]: the text of a beat in the log of the tester, and that this text
    determines the beat. *)

From S2P Require Import Prelude Exceptions Text Logging TileLink.
From Stdlib Require Import Ascii.

Open Scope Z_scope.

(** ** Opcodes

    [operator<<] of the opcodes: a value that has no enumerator is not printed. *)
Definition print_a_op (op : tl_a_op_e) : item :=
  match op with
  | PutFullData => Str "PutFullData"
  | PutPartialData => Str "PutPartialData"
  | ArithmeticData => Str "ArithmeticData"
  | LogicalData => Str "LogicalData"
  | Get => Str "Get"
  | Intent => Str "Intent"
  | AcquireBlock => Str "AcquireBlock"
  | AcquirePerm => Str "AcquirePerm"
  | A_OTHER _ => Nothing
  end.

Definition print_b_op (op : tl_b_op_e) : item :=
  match op with
  | ProbeBlock => Str "ProbeBlock"
  | ProbePerm => Str "ProbePerm"
  | B_OTHER _ => Nothing
  end.

Definition print_c_op (op : tl_c_op_e) : item :=
  match op with
  | ProbeAck => Str "ProbeAck"
  | ProbeAckData => Str "ProbeAckData"
  | Release => Str "Release"
  | ReleaseData => Str "ReleaseData"
  | C_OTHER _ => Nothing
  end.

Definition print_d_op (op : tl_d_op_e) : item :=
  match op with
  | AccessAck => Str "AccessAck"
  | AccessAckData => Str "AccessAckData"
  | HintAck => Str "HintAck"
  | Grant => Str "Grant"
  | GrantData => Str "GrantData"
  | ReleaseAck => Str "ReleaseAck"
  | D_OTHER _ => Nothing
  end.

(** ** Beats *)

Definition print_a (b : tl_a) : list item :=
  [ Str "op:"; std_setw 14; std_left; print_a_op (a_opcode b);
    Str " param:"; Int (a_param b);
    Str " size:"; Int (a_size b);
    Str " src:"; Int (a_source b);
    Str " addr:0x"; std_setw 8; std_hex; U64 (a_address b); std_dec;
    Str " mask:0x"; std_setw 2; std_hex; Int (a_mask b); std_dec;
    Str " corrupt:"; Flag (a_corrupt b);
    Str " data:0x"; std_setw 16; std_hex; U64 (a_data b); std_dec ].

Definition print_b (b : tl_b) : list item :=
  [ Str "op:"; std_setw 14; std_left; print_b_op (b_opcode b);
    Str " param:"; Int (b_param b);
    Str " size:"; Int (b_size b);
    Str " src:"; Int (b_source b);
    Str " addr:0x"; std_setw 8; std_hex; U64 (b_address b); std_dec ].

Definition print_c (b : tl_c) : list item :=
  [ Str "op:"; std_setw 14; std_left; print_c_op (c_opcode b);
    Str " param:"; Int (c_param b);
    Str " size:"; Int (c_size b);
    Str " src:"; Int (c_source b);
    Str " addr:0x"; std_setw 8; std_hex; U64 (c_address b); std_dec;
    Str " corrupt:"; Flag (c_corrupt b);
    Str " data:0x"; std_setw 16; std_hex; U64 (c_data b); std_dec ].

Definition print_d (b : tl_d) : list item :=
  [ Str "op:"; std_setw 14; std_left; print_d_op (d_opcode b);
    Str " param:"; Int (d_param b);
    Str " size:"; Int (d_size b);
    Str " src:"; Int (d_source b);
    Str " sink:"; Int (d_sink b);
    Str " denied:"; Flag (d_denied b);
    Str " corrupt:"; Flag (d_corrupt b);
    Str " data:0x"; std_setw 16; std_hex; U64 (d_data b); std_dec ].

Definition print_e (b : tl_e) : list item := [ Str " sink:"; Int (e_sink b) ].

(** [channel_name]: the specialisations of the template, by the type of the beats. *)
Inductive channel : Type := Channel_A | Channel_B | Channel_C | Channel_D | Channel_E.

Definition channel_name (c : channel) : string :=
  match c with
  | Channel_A => "A" | Channel_B => "B" | Channel_C => "C" | Channel_D => "D" | Channel_E => "E"
  end.

Example printed_get :
  written (inserts (print_a (BeatA Get 0 3 5 0x80000010 255 false 0)) cout)
  = "op:Get            param:0 size:3 src:5 addr:0x80000010 mask:0xff corrupt:0 data:0x0               ".
Proof. by vm_compute. Qed.

(** An opcode without a name leaves its width to what follows. *)
Example printed_unnamed :
  written (inserts (print_b (BeatB (B_OTHER 3) 0 3 5 16)) cout)
  = "op: param:       0 size:3 src:5 addr:0x10      ".
Proof. by vm_compute. Qed.

(** ** The fields of a line

    A line is a sequence of labels and values, each value a token without spaces or
    colons and some padding. *)

Definition solid (c : ascii) : bool := not_char " " c && not_char ":" c.

Definition field : Type := string * string * nat.

Fixpoint line (l : list field) : string :=
  match l with
  | [] => ""
  | (label, token, pad) :: l => " " +:+ label +:+ ":" +:+ token +:+ spaces pad +:+ line l
  end.

Definition token (f : field) : string := f.1.2.
Definition clean (f : field) : bool := all_chars (not_char ":") (f.1.1) && all_chars solid (token f).

(** What is between a colon and the next space. *)
Definition tokens (s : string) : list string := before_char " " <$> tail (split_on ":" s).

Lemma spaces_no_colon n : all_chars (not_char ":") (spaces n) = true.
Proof. by induction n. Qed.

Lemma solid_no_colon s : all_chars solid s = true -> all_chars (not_char ":") s = true.
Proof. apply all_chars_weaken. intros c. unfold solid. by intros [? ?]%andb_true_iff. Qed.

Lemma solid_no_space s : all_chars solid s = true -> all_chars (not_char " ") s = true.
Proof. apply all_chars_weaken. intros c. unfold solid. by intros [? ?]%andb_true_iff. Qed.

(** A token ends at the first space. *)
Lemma token_ends t n s :
  all_chars solid t = true -> s = "" \/ (exists s', s = String " " s') ->
  before_char " " (t +:+ spaces n +:+ s) = t.
Proof.
  intros Ht%solid_no_space Hs. destruct n as [|n].
  - rewrite append_empty. destruct Hs as [-> | [s' ->]].
    + by rewrite append_nil_r, before_char_none.
    + by apply before_char_app.
  - cbn [spaces]. rewrite append_cons. by apply before_char_app.
Qed.

Lemma split_line t n l :
  all_chars solid t = true -> forallb clean l = true ->
  before_char " " <$> split_on ":" (t +:+ spaces n +:+ line l) = t :: map token l.
Proof.
  revert t n. induction l as [|[[label t'] n'] l IH]; intros t n Ht Hl; cbn [line map].
  - rewrite append_nil_r, split_on_none.
    + cbn. f_equal. rewrite <- (append_nil_r (spaces n)). apply token_ends; auto.
    + by rewrite all_chars_app, solid_no_colon, spaces_no_colon.
  - cbn [forallb] in Hl. apply andb_true_iff in Hl as [Hf Hl].
    unfold clean, token in Hf. cbn in Hf. apply andb_true_iff in Hf as [Hlabel Ht'].
    assert (t +:+ spaces n +:+ " " +:+ label +:+ ":" +:+ t' +:+ spaces n' +:+ line l
            = (t +:+ spaces n +:+ " " +:+ label) +:+ String ":" (t' +:+ spaces n' +:+ line l)) as ->
      by (rewrite !append_assoc; done).
    rewrite split_on_app.
    + rewrite fmap_cons, (IH t' n' Ht' Hl). f_equal. apply token_ends; [done|]. right. by eexists.
    + rewrite !all_chars_app, solid_no_colon, spaces_no_colon, Hlabel by done. done.
Qed.

Lemma tokens_line s t n l :
  all_chars (not_char ":") s = true -> all_chars solid t = true -> forallb clean l = true ->
  tokens (s +:+ ":" +:+ t +:+ spaces n +:+ line l) = t :: map token l.
Proof.
  intros Hs Ht Hl. unfold tokens. rewrite append_cons, append_empty, split_on_app by done. cbn [tail].
  by apply split_line.
Qed.

(** ** Tokens of values *)

Lemma decimal_solid z : all_chars solid (decimal z) = true.
Proof.
  apply decimal_chars. intros c Hc. cbn in Hc. repeat (destruct Hc as [<- | Hc]; [done|]). done.
Qed.

Lemma hex_solid z : 0 <= z -> all_chars solid (hex z) = true.
Proof.
  apply hex_chars. intros d Hd.
  assert (Hall : forallb (fun d => solid (hex_digit d)) (seqZ 0 16) = true) by by vm_compute.
  rewrite forallb_forall in Hall. apply Hall, list_elem_of_In, elem_of_seqZ. lia.
Qed.

Definition is_int32 (z : Z) : Prop := - 2 ^ 31 <= z < 2 ^ 31.
Definition is_u64 (z : Z) : Prop := 0 <= z < 2 ^ 64.

Lemma decimal_inj z1 z2 : is_int32 z1 -> is_int32 z2 -> decimal z1 = decimal z2 -> z1 = z2.
Proof.
  intros H1 H2 Heq. pose proof (leading_number_decimal z1 H1) as E1.
  pose proof (leading_number_decimal z2 H2) as E2. rewrite Heq in E1. congruence.
Qed.

Lemma hex_inj z1 z2 : is_u64 z1 -> is_u64 z2 -> hex z1 = hex z2 -> z1 = z2.
Proof. intros H1 H2 Heq. rewrite <- (hex_value_hex z1 H1), <- (hex_value_hex z2 H2). by rewrite Heq. Qed.

Lemma u32_inj z1 z2 : is_int32 z1 -> is_int32 z2 -> u32 z1 = u32 z2 -> z1 = z2.
Proof. unfold is_int32, u32, wrap. intros H1 H2 Heq. Z.to_euclidean_division_equations. lia. Qed.

Lemma u32_u64 z : is_u64 (u32 z).
Proof. unfold is_u64, u32, wrap. pose proof (Z.mod_pos_bound z (2 ^ 32) ltac:(lia)). lia. Qed.

Lemma hex32_inj z1 z2 : is_int32 z1 -> is_int32 z2 -> hex (u32 z1) = hex (u32 z2) -> z1 = z2.
Proof. intros H1 H2 Heq%hex_inj; [|apply u32_u64..]. by apply u32_inj. Qed.

Definition flag (b : bool) : string := if b then "1" else "0".

Lemma flag_inj b1 b2 : flag b1 = flag b2 -> b1 = b2.
Proof. by destruct b1, b2. Qed.

Lemma append_inj s a b : s +:+ a = s +:+ b -> a = b.
Proof. induction s as [|c s IH]; [done|]. rewrite !append_cons. intros [=]. auto. Qed.

(** ** A beat as a line *)

Lemma insert_field label i w rest :
  is_value i = true ->
  inserts (Str label :: i :: rest) (OStream w false true 0)
  = inserts rest (OStream (w +:+ label +:+ number false i) false true 0).
Proof.
  intros Hi. change (Str label :: i :: rest) with ([Str label; i] ++ rest).
  rewrite inserts_app, inserts_plain by (cbn; by rewrite Hi). cbn [plain number]. by rewrite append_nil_r.
Qed.

Lemma insert_hex label n i w rest :
  is_value i = true ->
  inserts (Str label :: std_setw n :: std_hex :: i :: std_dec :: rest) (OStream w false true 0)
  = inserts rest (OStream (w +:+ label +:+ number true i +:+ spaces (n - String.length (number true i)))
                          false true 0).
Proof.
  intros Hi. change (Str label :: std_setw n :: std_hex :: i :: std_dec :: rest)
    with ([Str label] ++ ([std_setw n; std_hex; i; std_dec] ++ rest)).
  rewrite inserts_app, inserts_plain, inserts_app by done. f_equal. cbn [plain number].
  rewrite append_nil_r. destruct i; try done; unfold inserts; cbn [fold_left];
    unfold insert, put, padded; cbn [written in_hex adjust_left width]; by rewrite !append_assoc.
Qed.

Lemma insert_op name w b rest :
  inserts (Str "op:" :: std_setw 14 :: std_left :: Str name :: rest) (OStream w false b 0)
  = inserts rest (OStream (w +:+ "op:" +:+ name +:+ spaces (14 - String.length name)) false true 0).
Proof.
  change (Str "op:" :: std_setw 14 :: std_left :: Str name :: rest)
    with ([Str "op:"] ++ ([std_setw 14; std_left; Str name] ++ rest)).
  rewrite inserts_app, inserts_plain, inserts_app by done. f_equal. cbn [plain number].
  rewrite append_nil_r. unfold inserts; cbn [fold_left];
    unfold insert, put, padded; cbn [written in_hex adjust_left width number]. by rewrite !append_assoc.
Qed.

Definition number_field (label : string) (z : Z) : field := (label, decimal z, O).
Definition flag_field (label : string) (b : bool) : field := (label, flag b, O).
Definition hex_field (label : string) (z : Z) (n : nat) : field :=
  (label, "0x" +:+ hex z, (n - String.length (hex z))%nat).

(** The name of an opcode and its text. *)
Definition named (i : item) (name : string) : Prop := i = Str name /\ all_chars solid name = true.

Definition op_line (name : string) (l : list field) : string :=
  "op" +:+ ":" +:+ name +:+ spaces (14 - String.length name) +:+ line l.

Ltac print_line :=
  repeat first [rewrite insert_op | rewrite insert_field by done | rewrite insert_hex by done];
  unfold inserts; cbn [fold_left number]; unfold op_line; f_equal;
  cbn [line number_field flag_field hex_field spaces]; rewrite ?append_assoc, ?append_nil_r; reflexivity.

Definition fields_a (b : tl_a) : list field :=
  [ number_field "param" (a_param b); number_field "size" (a_size b); number_field "src" (a_source b);
    hex_field "addr" (a_address b) 8; hex_field "mask" (u32 (a_mask b)) 2;
    flag_field "corrupt" (a_corrupt b); hex_field "data" (a_data b) 16 ].
Definition fields_b (b : tl_b) : list field :=
  [ number_field "param" (b_param b); number_field "size" (b_size b); number_field "src" (b_source b);
    hex_field "addr" (b_address b) 8 ].
Definition fields_c (b : tl_c) : list field :=
  [ number_field "param" (c_param b); number_field "size" (c_size b); number_field "src" (c_source b);
    hex_field "addr" (c_address b) 8; flag_field "corrupt" (c_corrupt b); hex_field "data" (c_data b) 16 ].
Definition fields_d (b : tl_d) : list field :=
  [ number_field "param" (d_param b); number_field "size" (d_size b); number_field "src" (d_source b);
    number_field "sink" (d_sink b); flag_field "denied" (d_denied b);
    flag_field "corrupt" (d_corrupt b); hex_field "data" (d_data b) 16 ].

Lemma written_a b name w l : named (print_a_op (a_opcode b)) name ->
  inserts (print_a b) (OStream w false l 0) = OStream (w +:+ op_line name (fields_a b)) false true 0.
Proof. intros [Hop _]. unfold print_a, fields_a. rewrite Hop. print_line. Qed.

Lemma written_b b name w l : named (print_b_op (b_opcode b)) name ->
  inserts (print_b b) (OStream w false l 0) = OStream (w +:+ op_line name (fields_b b)) false true 0.
Proof. intros [Hop _]. unfold print_b, fields_b. rewrite Hop. print_line. Qed.

Lemma written_c b name w l : named (print_c_op (c_opcode b)) name ->
  inserts (print_c b) (OStream w false l 0) = OStream (w +:+ op_line name (fields_c b)) false true 0.
Proof. intros [Hop _]. unfold print_c, fields_c. rewrite Hop. print_line. Qed.

Lemma written_d b name w l : named (print_d_op (d_opcode b)) name ->
  inserts (print_d b) (OStream w false l 0) = OStream (w +:+ op_line name (fields_d b)) false true 0.
Proof. intros [Hop _]. unfold print_d, fields_d. rewrite Hop. print_line. Qed.

(** ** The text determines the beat *)

Lemma op_line_tokens name l :
  all_chars solid name = true -> forallb clean l = true -> tokens (op_line name l) = name :: map token l.
Proof. intros Hname Hl. by apply tokens_line. Qed.

Lemma op_line_inj w name1 name2 l1 l2 :
  all_chars solid name1 = true -> all_chars solid name2 = true ->
  forallb clean l1 = true -> forallb clean l2 = true ->
  w +:+ op_line name1 l1 = w +:+ op_line name2 l2 -> name1 = name2 /\ map token l1 = map token l2.
Proof.
  intros H1 H2 Hl1 Hl2 Heq%append_inj. apply (f_equal tokens) in Heq.
  rewrite !op_line_tokens in Heq by done. by simplify_eq.
Qed.

Lemma clean_number label z : all_chars (not_char ":") label = true -> clean (number_field label z) = true.
Proof. intros Hl. unfold clean, number_field, token. cbn. by rewrite Hl, decimal_solid. Qed.

Lemma clean_flag label b : all_chars (not_char ":") label = true -> clean (flag_field label b) = true.
Proof. intros Hl. unfold clean, flag_field, token. cbn. rewrite Hl. by destruct b. Qed.

Lemma clean_hex label z n :
  0 <= z -> all_chars (not_char ":") label = true -> clean (hex_field label z n) = true.
Proof.
  intros Hz Hl. unfold clean, hex_field, token. cbn [fst snd]. rewrite Hl, all_chars_app, hex_solid by done. done.
Qed.

(** Beats as the tester makes them: named opcodes and the types of the fields. *)
Record printable_a (b : tl_a) : Prop := {
  pa_op : exists name, named (print_a_op (a_opcode b)) name;
  pa_ints : is_int32 (a_param b) /\ is_int32 (a_size b) /\ is_int32 (a_source b) /\ is_int32 (a_mask b);
  pa_words : is_u64 (a_address b) /\ is_u64 (a_data b);
}.
Record printable_b (b : tl_b) : Prop := {
  pb_op : exists name, named (print_b_op (b_opcode b)) name;
  pb_ints : is_int32 (b_param b) /\ is_int32 (b_size b) /\ is_int32 (b_source b);
  pb_words : is_u64 (b_address b);
}.
Record printable_c (b : tl_c) : Prop := {
  pc_op : exists name, named (print_c_op (c_opcode b)) name;
  pc_ints : is_int32 (c_param b) /\ is_int32 (c_size b) /\ is_int32 (c_source b);
  pc_words : is_u64 (c_address b) /\ is_u64 (c_data b);
}.
Record printable_d (b : tl_d) : Prop := {
  pd_op : exists name, named (print_d_op (d_opcode b)) name;
  pd_ints : is_int32 (d_param b) /\ is_int32 (d_size b) /\ is_int32 (d_source b) /\ is_int32 (d_sink b);
  pd_words : is_u64 (d_data b);
}.

Ltac clean_fields :=
  cbn [forallb fields_a fields_b fields_c fields_d]; 
  repeat match goal with |- _ && _ = true => apply andb_true_iff; split end; try done;
  first [ by apply clean_number | by apply clean_flag
        | apply clean_hex; [first [exact (proj1 (u32_u64 _)) | unfold is_u64 in *; lia] | done] ].

Ltac same_fields :=
  match goal with H : map token _ = map token _ |- _ =>
    cbn [map fields_a fields_b fields_c fields_d] in H; unfold token in H;
    cbn [fst snd number_field flag_field hex_field] in H; 
    repeat (let E := fresh "E" in apply cons_eq_inj in H as [E H])
  end;
  repeat match goal with
  | H : decimal ?x = decimal ?y |- _ => apply decimal_inj in H; [|assumption..]
  | H : "0x" +:+ ?x = "0x" +:+ ?y |- _ => apply append_inj in H
  | H : hex (u32 ?x) = hex (u32 ?y) |- _ => apply hex32_inj in H; [|assumption..]
  | H : hex ?x = hex ?y |- _ => apply hex_inj in H; [|assumption..]
  | H : flag ?x = flag ?y |- _ => apply flag_inj in H
  end.

(** The opcode of a name. *)
Definition a_op_named (name : string) : option tl_a_op_e :=
  find (fun op => match print_a_op op with Str s => bool_decide (s = name) | _ => false end)
    [PutFullData; PutPartialData; ArithmeticData; LogicalData; Get; Intent; AcquireBlock; AcquirePerm].
Definition b_op_named (name : string) : option tl_b_op_e :=
  find (fun op => match print_b_op op with Str s => bool_decide (s = name) | _ => false end)
    [ProbeBlock; ProbePerm].
Definition c_op_named (name : string) : option tl_c_op_e :=
  find (fun op => match print_c_op op with Str s => bool_decide (s = name) | _ => false end)
    [ProbeAck; ProbeAckData; Release; ReleaseData].
Definition d_op_named (name : string) : option tl_d_op_e :=
  find (fun op => match print_d_op op with Str s => bool_decide (s = name) | _ => false end)
    [AccessAck; AccessAckData; HintAck; Grant; GrantData; ReleaseAck].

Lemma named_a op name : named (print_a_op op) name -> a_op_named name = Some op.
Proof. intros [H _]. by destruct op; inversion H. Qed.
Lemma named_b op name : named (print_b_op op) name -> b_op_named name = Some op.
Proof. intros [H _]. by destruct op; inversion H. Qed.
Lemma named_c op name : named (print_c_op op) name -> c_op_named name = Some op.
Proof. intros [H _]. by destruct op; inversion H. Qed.
Lemma named_d op name : named (print_d_op op) name -> d_op_named name = Some op.
Proof. intros [H _]. by destruct op; inversion H. Qed.

Lemma printed_a w l b1 b2 :
  printable_a b1 -> printable_a b2 ->
  written (inserts (print_a b1) (OStream w false l 0)) = written (inserts (print_a b2) (OStream w false l 0)) ->
  b1 = b2.
Proof.
  intros [[n1 Hn1] (? & ? & ? & ?) [? ?]] [[n2 Hn2] (? & ? & ? & ?) [? ?]] Heq.
  rewrite (written_a _ n1), (written_a _ n2) in Heq by done. cbn [written] in Heq.
  apply op_line_inj in Heq as [Hname Htokens]; [|apply Hn1|apply Hn2|clean_fields|clean_fields].
  same_fields. subst n2. apply named_a in Hn1, Hn2. rewrite Hn1 in Hn2. injection Hn2 as Hop.
  destruct b1, b2; cbn in *. by subst.
Qed.

Lemma printed_b w l b1 b2 :
  printable_b b1 -> printable_b b2 ->
  written (inserts (print_b b1) (OStream w false l 0)) = written (inserts (print_b b2) (OStream w false l 0)) ->
  b1 = b2.
Proof.
  intros [[n1 Hn1] (? & ? & ?) ?] [[n2 Hn2] (? & ? & ?) ?] Heq.
  rewrite (written_b _ n1), (written_b _ n2) in Heq by done. cbn [written] in Heq.
  apply op_line_inj in Heq as [Hname Htokens]; [|apply Hn1|apply Hn2|clean_fields|clean_fields].
  same_fields. subst n2. apply named_b in Hn1, Hn2. rewrite Hn1 in Hn2. injection Hn2 as Hop.
  destruct b1, b2; cbn in *. by subst.
Qed.

Lemma printed_c w l b1 b2 :
  printable_c b1 -> printable_c b2 ->
  written (inserts (print_c b1) (OStream w false l 0)) = written (inserts (print_c b2) (OStream w false l 0)) ->
  b1 = b2.
Proof.
  intros [[n1 Hn1] (? & ? & ?) [? ?]] [[n2 Hn2] (? & ? & ?) [? ?]] Heq.
  rewrite (written_c _ n1), (written_c _ n2) in Heq by done. cbn [written] in Heq.
  apply op_line_inj in Heq as [Hname Htokens]; [|apply Hn1|apply Hn2|clean_fields|clean_fields].
  same_fields. subst n2. apply named_c in Hn1, Hn2. rewrite Hn1 in Hn2. injection Hn2 as Hop.
  destruct b1, b2; cbn in *. by subst.
Qed.

Lemma printed_d w l b1 b2 :
  printable_d b1 -> printable_d b2 ->
  written (inserts (print_d b1) (OStream w false l 0)) = written (inserts (print_d b2) (OStream w false l 0)) ->
  b1 = b2.
Proof.
  intros [[n1 Hn1] (? & ? & ? & ?) ?] [[n2 Hn2] (? & ? & ? & ?) ?] Heq.
  rewrite (written_d _ n1), (written_d _ n2) in Heq by done. cbn [written] in Heq.
  apply op_line_inj in Heq as [Hname Htokens]; [|apply Hn1|apply Hn2|clean_fields|clean_fields].
  same_fields. subst n2. apply named_d in Hn1, Hn2. rewrite Hn1 in Hn2. injection Hn2 as Hop.
  destruct b1, b2; cbn in *. by subst.
Qed.


(** ** The theorem *)


Module PrintingExample.

Definition beat : tl_a := BeatA PutFullData 0 3 5 0x80000010 255 false 0xa0.

Lemma beat_printable : printable_a beat.
Proof. split; unfold is_int32, is_u64; cbn; [|lia|lia]. by eexists. Qed.

Definition other : tl_a := BeatA PutFullData 0 3 5 0x80000010 255 false 0xb0.

Lemma other_printable : printable_a other.
Proof. split; unfold is_int32, is_u64; cbn; [|lia|lia]. by eexists. Qed.


End PrintingExample.
