(* ===== verification/TlEndpoint.v ===== *)
(** * TileLink endpoints

    [tl_channels.h]: the routing table, the parameters of hosts and devices, and
    the transaction identifiers of a sender. *)

From S2P Require Import Prelude Exceptions TileLink.

(** ** [RoutingTable] *)

Module RoutingTable.

Record table : Type := Table { base : list Z; mask : list Z; target : list Z }.

(** The constructor asserts equal lengths. *)
Definition make (base mask target : list Z) : outcome exn table :=
  if (length base =? length mask)%nat && (length base =? length target)%nat
  then Ok (Table base mask target) else AssertFail.

(** The loop of [get_owner] on the entries that remain. *)
Fixpoint last_owner (id owner : Z) (base mask target : list Z) : Z :=
  match base, mask, target with
  | b :: base, m :: mask, t :: target =>
      last_owner id (if Z.land id (Z.lnot m) =? b then t else owner) base mask target
  | _, _, _ => owner
  end.

Definition get_owner (r : table) (id : Z) : Z := last_owner id 0 (base r) (mask r) (target r).

(** The loop of [get_any_id] from number [i]: after 1024 tries, an assertion. *)
Fixpoint search_id (fuel : nat) (r : table) (link i : Z) : outcome exn Z :=
  match fuel with
  | O => AssertFail
  | S fuel => if get_owner r i =? link then Ok i else search_id fuel r link (i + 1)
  end.

Definition get_any_id (r : table) (link : Z) : outcome exn Z := search_id 1024 r link 0.

End RoutingTable.

(** ** [TileLinkEndpoint] *)

Record endpoint : Type := Endpoint {
  position : Z;
  protocol : tl_protocol_e;
  bit_width : Z;
  first_id : Z;
  last_id : Z;
  max_size : Z;
  fifo : bool;
  can_deny : bool;
  routing : RoutingTable.table;
}.

(** [TileLinkChannelEnd::beat_size], and its [num_beats] for a given [size]. *)
Definition beat_size (e : endpoint) : Z := bits_to_size (bit_width e).
Definition beats_of_size (e : endpoint) (size : Z) : Z :=
  let total_bits := size_to_bits size in
  if bit_width e <? total_bits then Z.quot total_bits (bit_width e) else 1.

(** [TileLinkDevice::get_b_id] and [get_routing_id]; a [uint64_t] is converted to
    the [int] result. *)
Definition get_b_id (e : endpoint) (source_id address : Z) : Z :=
  let host_index := RoutingTable.get_owner (routing e) source_id in
  s32 (Z.land address 0xFFF + u64 (s32 (Z.shiftl host_index 16))).
Definition device_routing_id (e : endpoint) (position : Z) : outcome exn Z :=
  RoutingTable.get_any_id (routing e) position.

(** ** Transaction identifiers of a sender: [ids_in_use] *)

Module TransactionId.

Definition can_start_new_transaction (e : endpoint) (ids : gset Z) : bool :=
  Z.of_nat (size ids) <? u64 (last_id e - first_id e + 1).

Definition available (ids : gset Z) (id : Z) : bool := bool_decide (id ∉ ids).

(** The first available identifier from [id] on; an assertion after the last. *)
Fixpoint first_available (fuel : nat) (e : endpoint) (ids : gset Z) (id : Z) : outcome exn Z :=
  if id <=? last_id e then
    match fuel with
    | O => OutOfFuel
    | S fuel => if available ids id then Ok id else first_available fuel e ids (id + 1)
    end
  else AssertFail.

Section random.

Context {G : Type} `{Random G}.

Abbreviation M := (M exn G).

Definition random_id (e : endpoint) : M Z :=
  r ← rand;
  mret (first_id e + r mod (last_id e - first_id e + 1)).

(** The loop that draws identifiers until one is available: it ends when the
    generator draws one, for which [fuel] bounds the number of draws. *)
Fixpoint draw_available (fuel : nat) (e : endpoint) (ids : gset Z) : M Z :=
  match fuel with
  | O => fail OutOfFuel
  | S fuel =>
      id ← random_id e;
      if available ids id then mret id else draw_available fuel e ids
  end.

Definition get_transaction_id (fuel : nat) (e : endpoint) (ids : gset Z) (randomise : bool) : M Z :=
  (if can_start_new_transaction e ids then mret tt else throw NoAvailableIDException);;
  if (randomise : bool) then draw_available fuel e ids
  else fail (first_available (Z.to_nat (last_id e - first_id e + 1)) e ids (first_id e)).

Definition get_routing_id (e : endpoint) (randomise : bool) : M Z :=
  if (randomise : bool) then random_id e else mret (first_id e).

End random.

(** [start_transaction] and [end_transaction], with their assertions. *)
Definition start_transaction (id : Z) (ids : gset Z) : outcome exn (gset Z) :=
  if available ids id then Ok ({[id]} ∪ ids) else AssertFail.
Definition end_transaction (id : Z) (ids : gset Z) : outcome exn (gset Z) :=
  if available ids id then AssertFail else Ok (ids ∖ {[id]}).

End TransactionId.
