(* ===== verification/TlMessages.v ===== *)
(** * TileLink messages

    [tl_messages.h]/[tl_messages.cc]: a message is a sequence of beats of one
    request or response; its creation, the generation of its beats, and the
    changes that tests make to them. *)

From S2P Require Import Prelude Exceptions TileLink TlEndpoint.

(** A field that the code leaves uninitialised. *)
Class Indeterminate : Type := { indeterminate_data : Z }.

(** ** [tl_message_base] *)

(** The base class and the [header] of the template's specialisations. *)
Record tl_message (C : Type) : Type := Message {
  channel_width_bytes : Z;
  beats_to_send : Z;
  beats_ready : Z;
  beats_generated : Z;
  header : C;
}.
Arguments Message {C} channel_width_bytes beats_to_send beats_ready beats_generated header.
Arguments channel_width_bytes {C} t.
Arguments beats_to_send {C} t.
Arguments beats_ready {C} t.
Arguments beats_generated {C} t.
Arguments header {C} t.

Section base.

Context {C : Type}.

Implicit Types m : tl_message C.

(** The constructor with its assertions. *)
Definition make_message (width num_beats ready : Z) (h : C) : outcome exn (tl_message C) :=
  if (0 <? num_beats) && (0 <=? ready) && (ready <=? num_beats) && (0 <? width)
  then Ok (Message width num_beats ready 0 h) else AssertFail.

Definition in_progress m : bool := 0 <? beats_generated m.
Definition can_send m : bool := beats_generated m <? beats_ready m.
Definition finished m : bool := beats_to_send m =? beats_generated m.
Definition complete m : bool := beats_to_send m =? beats_ready m.

Definition set_generated (n : Z) m : tl_message C :=
  Message (channel_width_bytes m) (beats_to_send m) (beats_ready m) n (header m).
Definition unsend m : tl_message C := set_generated (beats_generated m - 1) m.

Definition new_beat_ready m : outcome exn (tl_message C) :=
  if beats_ready m <? beats_to_send m
  then Ok (Message (channel_width_bytes m) (beats_to_send m) (beats_ready m + 1)
             (beats_generated m) (header m))
  else AssertFail.

Definition current_beat m : Z := beats_generated m.
Definition total_beats m : Z := beats_to_send m.

End base.

(** ** [modify]: the fields named in a map of updates *)

Definition update {A} (updates : gmap string Z) (name : string) (f : Z -> A) (old : A) : A :=
  match updates !! name with Some v => f v | None => old end.
Definition as_bool (v : Z) : bool := negb (v =? 0).

Definition modify_a (beat : tl_a) (updates : gmap string Z) : tl_a :=
  BeatA (update updates "opcode" tl_a_op (a_opcode beat))
    (update updates "param" id (a_param beat))
    (update updates "size" id (a_size beat))
    (update updates "source" id (a_source beat))
    (update updates "address" u64 (a_address beat))
    (update updates "mask" id (a_mask beat))
    (update updates "corrupt" as_bool (a_corrupt beat))
    (update updates "data" u64 (a_data beat)).

Definition modify_b (beat : tl_b) (updates : gmap string Z) : tl_b :=
  BeatB (update updates "opcode" tl_b_op (b_opcode beat))
    (update updates "param" id (b_param beat))
    (update updates "size" id (b_size beat))
    (update updates "source" id (b_source beat))
    (update updates "address" u64 (b_address beat)).

Definition modify_c (beat : tl_c) (updates : gmap string Z) : tl_c :=
  BeatC (update updates "opcode" tl_c_op (c_opcode beat))
    (update updates "param" id (c_param beat))
    (update updates "size" id (c_size beat))
    (update updates "source" id (c_source beat))
    (update updates "address" u64 (c_address beat))
    (update updates "corrupt" as_bool (c_corrupt beat))
    (update updates "data" u64 (c_data beat)).

Definition modify_d (beat : tl_d) (updates : gmap string Z) : tl_d :=
  BeatD (update updates "opcode" tl_d_op (d_opcode beat))
    (update updates "param" id (d_param beat))
    (update updates "size" id (d_size beat))
    (update updates "source" id (d_source beat))
    (update updates "sink" id (d_sink beat))
    (update updates "denied" as_bool (d_denied beat))
    (update updates "corrupt" as_bool (d_corrupt beat))
    (update updates "data" u64 (d_data beat)).

Definition modify_e (beat : tl_e) (updates : gmap string Z) : tl_e :=
  BeatE (update updates "sink" id (e_sink beat)).

Section random.

Context {G : Type} `{Random G} `{Indeterminate}.

Abbreviation M := (M exn G).

(** ** [next_beat] *)

Definition next_beat_a (randomise : bool) (m : tl_message tl_a) : M (tl_a * tl_message tl_a) :=
  let beat := header m in
  let data := u64 (a_data beat + beats_generated m) in
  mask ← (if randomise && bool_decide (a_opcode beat = PutPartialData) then
            r ← rand;
            mret (s32 (Z.land (complete_mask (a_address beat) (int_shl (a_size beat))
                                 (channel_width_bytes m)) r))
          else mret (a_mask beat));
  corrupt ← (if randomise && a_has_payload (a_opcode beat) then random_bool 50
             else mret (a_corrupt beat));
  mret (BeatA (a_opcode beat) (a_param beat) (a_size beat) (a_source beat) (a_address beat)
          mask corrupt data,
        set_generated (beats_generated m + 1) m).

(** All messages on channel B are a single beat. *)
Definition next_beat_b (randomise : bool) (m : tl_message tl_b) : M (tl_b * tl_message tl_b) :=
  assert_that (beats_generated m =? 0);;
  mret (header m, set_generated (beats_generated m + 1) m).

Definition next_beat_c (randomise : bool) (m : tl_message tl_c) : M (tl_c * tl_message tl_c) :=
  let beat := header m in
  let data := u64 (c_data beat + beats_generated m) in
  corrupt ← (if randomise && c_has_payload (c_opcode beat) then random_bool 50
             else mret (c_corrupt beat));
  mret (BeatC (c_opcode beat) (c_param beat) (c_size beat) (c_source beat) (c_address beat)
          corrupt data,
        set_generated (beats_generated m + 1) m).

(** The draw is made only if the beat is not denied. *)
Definition next_beat_d (randomise : bool) (m : tl_message tl_d) : M (tl_d * tl_message tl_d) :=
  let beat := header m in
  let data := u64 (d_data beat + beats_generated m) in
  corrupt ← (if randomise && d_has_payload (d_opcode beat) then
               if d_denied beat then mret true else random_bool 50
             else mret (d_corrupt beat));
  mret (BeatD (d_opcode beat) (d_param beat) (d_size beat) (d_source beat) (d_sink beat)
          (d_denied beat) corrupt data,
        set_generated (beats_generated m + 1) m).

Definition next_beat_e (randomise : bool) (m : tl_message tl_e) : M (tl_e * tl_message tl_e) :=
  assert_that (beats_generated m =? 0);;
  mret (header m, set_generated (beats_generated m + 1) m).

(** ** Requests *)

(** The endpoints of the simulation, and the bound for loops that draw until they
    succeed. *)
Record network : Type := Network { hosts : list endpoint; devices : list endpoint }.

Context (fuel : nat) (net : network).

(** [random_host] and [random_device]: draw until the protocol is high enough. *)
Fixpoint draw_endpoint (fuel : nat) (l : list endpoint) (min_protocol : tl_protocol_e) : M endpoint :=
  match fuel with
  | O => fail OutOfFuel
  | S fuel =>
      r ← rand;
      e ← element l (r mod Z.of_nat (length l));
      if protocol_value min_protocol <=? protocol_value (protocol e) then mret e
      else draw_endpoint fuel l min_protocol
  end.
Definition random_host (min_protocol : tl_protocol_e) : M endpoint :=
  draw_endpoint fuel (hosts net) min_protocol.
Definition random_device (min_protocol : tl_protocol_e) : M endpoint :=
  draw_endpoint fuel (devices net) min_protocol.

(** [rand()] is zero-extended to the mask's type. *)
Definition random_a_param (opcode : tl_a_op_e) : M Z :=
  match opcode with
  | ArithmeticData => random_arithmetic_data_param
  | LogicalData => random_logical_data_param
  | Intent => random_intent_param
  | AcquireBlock | AcquirePerm => random_grow_permission
  | _ => mret 0
  end.

(** An address in the first 4 KiB of the device, aligned to the size. *)
Definition random_address (size device : Z) : M Z :=
  raw_address ← random_sample 0 (0x1000 - 1);
  let aligned_address := align raw_address (int_shl size) in
  mret (get_address aligned_address device).

(** The [corrupt] flag and data of a message with a payload. *)
Definition random_payload (payload : bool) : M (bool * Z) :=
  if (payload : bool) then
    corrupt ← random_bool 50;
    data ← random_data;
    mret (corrupt, data)
  else mret (false, indeterminate_data).

(** The sender's endpoint [e] is the host; [ids] are its identifiers in use. *)
Definition new_a_request (e : endpoint) (ids : gset Z) (randomise : bool) : M tl_a :=
  if (randomise : bool) then
    device ← random_device TL_UL;
    let protocol := max_common_protocol (protocol e) (protocol device) in
    opcode ← random_a_opcode protocol;
    param ← random_a_param opcode;
    size ← random_sample 0 (max_size e);
    source ← TransactionId.get_transaction_id fuel e ids randomise;
    address ← random_address size (position device);
    let mask := s32 (complete_mask address (int_shl size) (Z.quot (bit_width e) 8)) in
    mask ← (if bool_decide (opcode = PutPartialData)
            then r ← rand; mret (Z.land mask r) else mret mask);
    payload ← random_payload (a_has_payload opcode);
    mret (BeatA opcode param size source address mask (fst payload) (snd payload))
  else
    let size := beat_size e in
    source ← TransactionId.get_transaction_id fuel e ids randomise;
    mret (BeatA PutFullData 0 size source (get_address 0x3000 0) (full_mask size) false
            0xDEADBEEFCAFEF00D).

(** The loop that draws addresses until the identifier is not in use. *)
Fixpoint draw_b_address (fuel : nat) (e : endpoint) (ids : gset Z) (size source : Z) : M Z :=
  match fuel with
  | O => fail OutOfFuel
  | S fuel =>
      raw_address ← random_sample 0 (0x1000 - 1);
      let device_address := s32 (get_address raw_address (position e)) in
      let address := align (u64 device_address) (int_shl size) in
      if TransactionId.available ids (get_b_id e source address) then mret address
      else draw_b_address fuel e ids size source
  end.

(** The loop that takes the next address until the identifier is not in use. *)
Fixpoint next_b_address (fuel : nat) (e : endpoint) (ids : gset Z) (size source address : Z) : M Z :=
  if TransactionId.available ids (get_b_id e source address) then mret address
  else match fuel with
  | O => fail OutOfFuel
  | S fuel => next_b_address fuel e ids size source (u64 (address + Z.quot (size_to_bits size) 8))
  end.

Definition new_b_request (e : endpoint) (ids : gset Z) (randomise : bool) : M tl_b :=
  host ← random_host TL_C;
  if (randomise : bool) then
    opcode ← random_b_opcode (protocol e);
    param ← random_cap_permission;
    size ← random_sample 0 (max_size e);
    source ← fail (device_routing_id e (position host));
    address ← draw_b_address fuel e ids size source;
    mret (BeatB opcode param size source address)
  else
    let size := beat_size e in
    source ← fail (device_routing_id e (position host));
    address ← next_b_address fuel e ids size source (get_address 0x3000 (position e));
    mret (BeatB ProbeBlock 0 size source address).

(** [random_bool() ? random_prune_permission() : random_report_permission()]. *)
Definition random_c_param : M Z :=
  b ← random_bool 500;
  if (b : bool) then random_prune_permission else random_report_permission.

Definition new_c_request (e : endpoint) (ids : gset Z) (randomise : bool) : M tl_c :=
  if (randomise : bool) then
    device ← random_device TL_C_IO_TERM;
    opcode ← random_c_opcode (protocol e);
    param ← random_c_param;
    size ← random_sample 0 (max_size e);
    source ← TransactionId.get_transaction_id fuel e ids randomise;
    address ← random_address size (position device);
    payload ← random_payload (c_has_payload opcode);
    mret (BeatC opcode param size source address (fst payload) (snd payload))
  else
    source ← TransactionId.get_transaction_id fuel e ids randomise;
    mret (BeatC Release 0 (beat_size e) source (get_address 0x3000 0) false 0xDEADBEEFCAFEF00D).

(** ** Responses *)

Definition new_b_response (e : endpoint) (request : tl_a) (randomise : bool) : M tl_b :=
  opcode ← match a_opcode request with
           | AcquireBlock => mret ProbeBlock
           | AcquirePerm => mret ProbePerm
           | _ => fail AssertFail
           end;
  if (randomise : bool) then
    param ← random_cap_permission;
    source ← rand;
    mret (BeatB opcode param (a_size request) source (a_address request))
  else mret (BeatB opcode 0 (a_size request) 0 (a_address request)).

Definition new_c_response (e : endpoint) (request : tl_b) (randomise : bool) : M tl_c :=
  match b_opcode request with
  | ProbeBlock | ProbePerm => mret tt
  | B_OTHER _ => fail AssertFail
  end;;
  if (randomise : bool) then
    write_back ← (if bool_decide (b_opcode request = ProbeBlock) then random_bool 200 else mret false);
    let opcode := if (write_back : bool) then ProbeAckData else ProbeAck in
    param ← random_c_param;
    payload ← random_payload (c_has_payload opcode);
    mret (BeatC opcode param (b_size request) (b_source request) (b_address request)
            (fst payload) (snd payload))
  else mret (BeatC ProbeAck 0 (b_size request) (b_source request) (b_address request) false 0).

(** The opcode that answers a request; an unnamed opcode leaves it uninitialised. *)
Definition d_opcode_of_a (opcode : tl_a_op_e) : M tl_d_op_e :=
  match opcode with
  | PutFullData | PutPartialData => mret AccessAck
  | ArithmeticData | LogicalData | Get => mret AccessAckData
  | Intent => mret HintAck
  | AcquireBlock | AcquirePerm => mret Grant
  | A_OTHER _ => fail Undefined
  end.

(** [requires_response ? get_transaction_id() : get_routing_id()]. *)
Definition d_sink_for (e : endpoint) (ids : gset Z) (opcode : tl_d_op_e) (randomise : bool) : M Z :=
  if d_requires_response opcode then TransactionId.get_transaction_id fuel e ids randomise
  else TransactionId.get_routing_id e randomise.

Definition new_d_response_a (e : endpoint) (ids : gset Z) (request : tl_a) (randomise : bool)
    : M tl_d :=
  opcode ← d_opcode_of_a (a_opcode request);
  sink ← d_sink_for e ids opcode randomise;
  if (randomise : bool) then
    with_data ← (if bool_decide (a_opcode request = AcquireBlock) then random_bool 200
                 else mret false);
    let opcode := if (with_data : bool) then GrantData else opcode in
    param ← (if d_requires_response opcode then random_cap_permission else mret 0);
    denied ← (if can_deny e then random_bool 100 else mret false);
    corrupt ← (if d_has_payload opcode then
                 if (denied : bool) then mret true else random_bool 100
               else mret false);
    data ← random_data;
    mret (BeatD opcode param (a_size request) (a_source request) sink denied corrupt data)
  else mret (BeatD opcode 0 (a_size request) (a_source request) sink false false
               0xDEADBEEFCAFEF00D).

Definition new_d_response_c (e : endpoint) (request : tl_c) (randomise : bool) : M tl_d :=
  match c_opcode request with
  | Release | ReleaseData => mret tt
  | _ => fail AssertFail
  end;;
  sink ← TransactionId.get_routing_id e randomise;
  mret (BeatD ReleaseAck 0 (c_size request) (c_source request) sink false false 0).

Definition new_e_response (request : tl_d) : tl_e := BeatE (d_sink request).

(** ** The constructors of [tl_message] *)

Definition width_bytes (e : endpoint) : Z := Z.quot (bit_width e) 8.

(** The constructors that set the beats in their body, with its assertion and that
    of the base class. *)
Definition sized_message {C} (e : endpoint) (beats ready : Z) (h : C) : M (tl_message C) :=
  assert_that (0 <? width_bytes e);;
  assert_that (0 <? beats);;
  mret (Message (width_bytes e) beats ready 0 h).

Definition a_request (e : endpoint) (ids : gset Z) (randomise : bool) (requirements : gmap string Z)
    : M (tl_message tl_a) :=
  request ← new_a_request e ids randomise;
  let h := modify_a request requirements in
  let beats := num_beats (a_has_payload (a_opcode h)) (a_size h) (width_bytes e) in
  sized_message e beats beats h.

Definition b_request (e : endpoint) (ids : gset Z) (randomise : bool) (requirements : gmap string Z)
    : M (tl_message tl_b) :=
  request ← new_b_request e ids randomise;
  let h := modify_b request requirements in
  let beats := num_beats (b_has_payload (b_opcode h)) (b_size h) (width_bytes e) in
  sized_message e beats beats h.

Definition c_request (e : endpoint) (ids : gset Z) (randomise : bool) (requirements : gmap string Z)
    : M (tl_message tl_c) :=
  request ← new_c_request e ids randomise;
  let h := modify_c request requirements in
  let beats := num_beats (c_has_payload (c_opcode h)) (c_size h) (width_bytes e) in
  sized_message e beats beats h.

(** The base class is constructed before [header]: the number of beats is computed
    from an uninitialised header, but is 1 for every B opcode. *)
Definition b_response (e : endpoint) (request : tl_a) (randomise : bool) : M (tl_message tl_b) :=
  h ← new_b_response e request randomise;
  fail (make_message (width_bytes e) 1 1 h).

Definition c_response (e : endpoint) (request : tl_b) (randomise : bool) : M (tl_message tl_c) :=
  h ← new_c_response e request randomise;
  let beats := num_beats (c_has_payload (c_opcode h)) (c_size h) (width_bytes e) in
  sized_message e beats beats h.

(** Responses to multi-beat requests become ready one beat at a time. *)
Definition d_response_a (e : endpoint) (ids : gset Z) (request : tl_a) (randomise : bool)
    : M (tl_message tl_d) :=
  h ← new_d_response_a e ids request randomise;
  let beats := num_beats (d_has_payload (d_opcode h)) (d_size h) (width_bytes e) in
  let ready := match a_opcode request with LogicalData | ArithmeticData => 1 | _ => beats end in
  sized_message e beats ready h.

Definition d_response_c (e : endpoint) (request : tl_c) (randomise : bool) : M (tl_message tl_d) :=
  h ← new_d_response_c e request randomise;
  let beats := num_beats (d_has_payload (d_opcode h)) (d_size h) (width_bytes e) in
  sized_message e beats beats h.

Definition e_response (e : endpoint) (request : tl_d) (randomise : bool) : M (tl_message tl_e) :=
  fail (make_message (width_bytes e) 1 1 (new_e_response request)).

End random.
