(* ===== verification/TlMessagesTheorems.v ===== *)
(** * TileLink messages: theorems *)

From S2P Require Import Prelude Exceptions TileLink TlEndpoint TlMessages.

Import TransactionId.

(** ** Arithmetic *)

Section arithmetic.

Implicit Types (a i s c n : Z).

Lemma int_shl_pow n : 0 <= n < 31 -> int_shl n = 2 ^ n.
Proof.
  intros. unfold int_shl, s32. rewrite Z.shiftl_mul_pow2, Z.mul_1_l by lia.
  apply signed_small; [lia|]. split; [lia|]. apply Z.pow_lt_mono_r; lia.
Qed.

Lemma int_shl_ones n : 0 <= n < 31 -> u64 (int_shl n - 1) = Z.ones n.
Proof.
  intros. rewrite int_shl_pow, Z.ones_equiv by lia. unfold u64. apply wrap_small.
  assert (1 <= 2 ^ n < 2 ^ 31) by (split; [apply (Z.pow_le_mono_r 2 0)|apply Z.pow_lt_mono_r]; lia).
  lia.
Qed.

(** The lanes of the channel that hold the bytes of an access of [2 ^ s] bytes. *)
Definition lane_used a s c i : Prop := exists b, a <= b < a + 2 ^ s /\ b mod 2 ^ c = i.

Lemma lane_in_channel a s c i : 0 <= c -> lane_used a s c i -> 0 <= i < 2 ^ c.
Proof. intros Hc (b & _ & <-). apply Z.mod_pos_bound. apply Z.pow_pos_nonneg; lia. Qed.

(** An access that covers the channel uses all lanes. *)
Lemma all_lanes_used a s c i : 0 <= c <= s -> 0 <= i < 2 ^ c -> lane_used a s c i.
Proof.
  intros Hc Hi. assert (Hs : 2 ^ c <= 2 ^ s) by (apply Z.pow_le_mono_r; lia).
  exists (a + (i - a) mod 2 ^ c). pose proof (Z.mod_pos_bound (i - a) (2 ^ c) ltac:(lia)).
  split; [lia|]. rewrite Zplus_mod_idemp_r. replace (a + (i - a)) with i by lia. by apply Z.mod_small.
Qed.

Lemma aligned_offset a s c :
  0 <= s <= c -> a mod 2 ^ s = 0 -> a mod 2 ^ c + 2 ^ s <= 2 ^ c.
Proof.
  intros Hs Ha. pose proof (Z.pow_pos_nonneg 2 s ltac:(lia) ltac:(lia)).
  assert (exists d, c = s + d /\ 0 <= d) as (d & -> & Hd) by (exists (c - s); lia).
  rewrite Z.pow_add_r by lia. pose proof (Z.pow_pos_nonneg 2 d ltac:(lia) ltac:(lia)).
  rewrite Z.rem_mul_r, Ha by lia. pose proof (Z.mod_pos_bound (a / 2 ^ s) (2 ^ d) ltac:(lia)). nia.
Qed.

Lemma narrow_lanes a s c i :
  0 <= s <= c -> a mod 2 ^ s = 0 ->
  lane_used a s c i <-> a mod 2 ^ c <= i < a mod 2 ^ c + 2 ^ s.
Proof.
  intros Hs Ha. pose proof (aligned_offset a s c Hs Ha) as Hfit.
  pose proof (Z.pow_pos_nonneg 2 c ltac:(lia) ltac:(lia)) as Hc.
  pose proof (Z.div_mod a (2 ^ c) ltac:(lia)) as Hdiv. pose proof (Z.mod_pos_bound a (2 ^ c) Hc).
  set (o := a mod 2 ^ c) in *. clearbody o. split.
  - intros (b & Hb & <-). replace b with (o + (b - a) + a / 2 ^ c * 2 ^ c) by lia.
    rewrite Z_mod_plus_full, Z.mod_small; lia.
  - intros Hi. exists (a + (i - o)). split; [lia|].
    replace (a + (i - o)) with (i + a / 2 ^ c * 2 ^ c) by lia.
    rewrite Z_mod_plus_full, Z.mod_small; lia.
Qed.

Lemma complete_mask_bits a s c i :
  0 <= a -> 0 <= s -> 0 <= c < 5 -> a mod 2 ^ s = 0 -> 0 <= i ->
  Z.testbit (complete_mask a (2 ^ s) (2 ^ c)) i = true <-> lane_used a s c i.
Proof.
  intros Ha Hs Hc Hal Hi. unfold complete_mask.
  assert (Hc1 : 2 ^ c < 31) by (apply Z.lt_le_trans with (2 ^ 5 - 1); [|done];
    assert (2 ^ c <= 2 ^ 4) by (apply Z.pow_le_mono_r; lia); lia).
  destruct (Z.leb_spec (2 ^ c) (2 ^ s)) as [Hle|Hlt].
  - assert (c <= s) by (destruct (decide (c <= s)); [done|];
      assert (2 ^ s < 2 ^ c) by (apply Z.pow_lt_mono_r; lia); lia).
    rewrite int_shl_ones by (split; [apply Z.pow_nonneg; lia|lia]).
    rewrite Z.testbit_ones_nonneg, Z.ltb_lt by (try apply Z.pow_nonneg; lia).
    split; [intros; apply all_lanes_used; lia|]. intros Hl. apply (lane_in_channel a s c); [lia|done].
  - assert (s < c) by (apply (Z.pow_lt_mono_r_iff 2); lia).
    rewrite (narrow_lanes a s c i ltac:(lia) Hal).
    rewrite int_shl_ones by (split; [apply Z.pow_nonneg; lia|lia]).
    pose proof (aligned_offset a s c ltac:(lia) Hal). pose proof (Z.mod_pos_bound a (2 ^ c) ltac:(lia)).
    pose proof (Z.pow_nonneg 2 s ltac:(lia)). set (o := a mod 2 ^ c) in *.
    assert (Hbits : Z.testbit (u64 (Z.shiftl (Z.ones (2 ^ s)) o)) i
                    = (o <=? i) && (i <? o + 2 ^ s)).
    { unfold u64, wrap. destruct (Z.ltb_spec i 64).
      - rewrite Z.mod_pow2_bits_low by lia. destruct (Z.leb_spec o i).
        + rewrite Z.shiftl_spec, Z.testbit_ones_nonneg by lia. cbn [andb].
          apply eq_true_iff_eq. rewrite !Z.ltb_lt. lia.
        + by rewrite Z.shiftl_spec_low.
      - rewrite Z.mod_pow2_bits_high by lia. rewrite (proj2 (Z.ltb_ge i _)) by lia. by rewrite andb_false_r. }
    rewrite Hbits, andb_true_iff, Z.leb_le, Z.ltb_lt. done.
Qed.

(** A mask of at most 16 lanes is an [int]. *)
Lemma s32_mask m : 0 <= m -> (forall i, 16 <= i -> Z.testbit m i = false) -> s32 m = m.
Proof.
  intros Hpos Hlow. unfold s32. apply signed_small; [lia|]. split; [done|].
  destruct (Z.eq_dec m 0) as [->|]; [lia|]. apply Z.log2_lt_pow2; [lia|].
  destruct (decide (Z.log2 m < 32 - 1)); [done|]. exfalso.
  assert (Hb : Z.testbit m (Z.log2 m) = true) by (apply Z.bit_log2; lia). rewrite Hlow in Hb by lia. done.
Qed.

Lemma complete_mask_nonneg a n c : 0 <= complete_mask a n c.
Proof. unfold complete_mask. case_match; apply wrap_bound; lia. Qed.

Lemma complete_mask_high a s c i :
  0 <= a -> 0 <= s -> 0 <= c < 5 -> a mod 2 ^ s = 0 -> 16 <= i ->
  Z.testbit (complete_mask a (2 ^ s) (2 ^ c)) i = false.
Proof.
  intros Ha Hs Hc Hal Hi. apply not_true_is_false. intros Ht. apply complete_mask_bits in Ht; try lia.
  apply lane_in_channel in Ht; [|lia]. assert (2 ^ c <= 2 ^ 4) by (apply Z.pow_le_mono_r; lia). lia.
Qed.

End arithmetic.

(** ** Transaction identifiers *)

Section identifiers.

Implicit Types (e : endpoint) (ids : gset Z) (id : Z).

Definition in_range e id : Prop := first_id e <= id <= last_id e.

(** The identifiers in use belong to the endpoint. *)
Record ids_ok e ids : Prop := {
  ids_range : set_Forall (in_range e) ids;
  ids_count : 0 <= last_id e - first_id e + 1 < 2 ^ 31;
}.

Definition all_ids e : gset Z := list_to_set (seqZ (first_id e) (last_id e - first_id e + 1)).

Lemma elem_of_all_ids e id : id ∈ all_ids e <-> in_range e id.
Proof. unfold all_ids, in_range. rewrite elem_of_list_to_set, elem_of_seqZ. lia. Qed.

Lemma size_all_ids e : 0 <= last_id e - first_id e + 1 -> Z.of_nat (size (all_ids e)) = last_id e - first_id e + 1.
Proof.
  intros. unfold all_ids. rewrite size_list_to_set by apply NoDup_seqZ. rewrite length_seqZ. lia.
Qed.

Lemma can_start_spec e ids :
  ids_ok e ids -> can_start_new_transaction e ids = true <-> exists id, in_range e id /\ id ∉ ids.
Proof.
  intros [Hr Hn]. unfold can_start_new_transaction, u64. rewrite wrap_small by lia.
  rewrite Z.ltb_lt, <- (size_all_ids e) by lia.
  assert (Hsub : ids ⊆ all_ids e) by (intros id Hid; apply elem_of_all_ids, Hr, Hid).
  split.
  - intros Hlt. destruct (decide (all_ids e ⊆ ids)) as [Hall|Hnot].
    + apply subseteq_size in Hall. lia.
    + assert (Hne : all_ids e ∖ ids ≢ ∅).
      { intros Heq. apply Hnot. intros x Hx. destruct (decide (x ∈ ids)); [done|set_solver]. }
      apply set_choose in Hne as [id Hid]. exists id. rewrite <- elem_of_all_ids. set_solver.
  - intros (id & Hid & Hno). apply elem_of_all_ids in Hid.
    apply inj_lt, subset_size. set_solver.
Qed.

Lemma available_spec ids id : available ids id = true <-> id ∉ ids.
Proof. apply bool_decide_eq_true. Qed.

Lemma first_available_run fuel e ids id :
  last_id e - id < Z.of_nat fuel -> (exists j, id <= j <= last_id e /\ j ∉ ids) ->
  exists j, first_available fuel e ids id = Ok j /\ id <= j <= last_id e /\ j ∉ ids
    /\ forall k, id <= k < j -> k ∈ ids.
Proof.
  revert id. induction fuel as [|fuel IH]; intros id Hfuel (j & Hj & Hno); [lia|].
  cbn [first_available]. rewrite (proj2 (Z.leb_le _ _)) by lia.
  destruct (available ids id) eqn:Ha.
  - exists id. apply available_spec in Ha. repeat split; try done; lia.
  - assert (Hin : id ∈ ids).
    { destruct (decide (id ∈ ids)) as [|Hn]; [done|]. apply available_spec in Hn. congruence. }
    destruct (IH (id + 1)) as (k & Hk & Hr & Hnk & Hb); [lia| |].
    { exists j. split; [|done]. assert (j <> id) by set_solver. lia. }
    exists k. repeat split; try done; try lia. intros i Hi.
    destruct (decide (i = id)) as [->|]; [done|]. apply Hb. lia.
Qed.

(** The identifiers that a generator draws. *)
Section drawing.

Context {G : Type} `{Random G}.

Fixpoint drawn (n : nat) e (g : G) : list Z :=
  match n with
  | O => []
  | S n => let '(r, g) := next_rand g in
           first_id e + r mod (last_id e - first_id e + 1) :: drawn n e g
  end.

Lemma random_id_run e g :
  random_id e g = (Ok (first_id e + fst (next_rand g) mod (last_id e - first_id e + 1)),
                   snd (next_rand g)).
Proof. unfold random_id, rand, mbind, M_bind. by destruct (next_rand g). Qed.

Lemma draw_available_run fuel e ids g :
  first_id e <= last_id e ->
  match draw_available fuel e ids g with
  | (Ok id, _) => in_range e id /\ id ∉ ids
  | (OutOfFuel, _) => Forall (fun id => id ∈ ids) (drawn fuel e g)
  | _ => False
  end.
Proof.
  intros He. revert g. induction fuel as [|fuel IH]; intros g; cbn [draw_available drawn].
  { apply Forall_nil. }
  erewrite bind_ok by apply random_id_run. destruct (next_rand g) as [r g']. cbn [fst snd].
  set (id := first_id e + r mod (last_id e - first_id e + 1)).
  destruct (available ids id) eqn:Ha.
  - split; [|by apply available_spec]. unfold id, in_range.
    pose proof (Z.mod_pos_bound r (last_id e - first_id e + 1) ltac:(lia)). lia.
  - specialize (IH g'). assert (Hin : id ∈ ids).
    { destruct (decide (id ∈ ids)) as [|Hn]; [done|]. apply available_spec in Hn. congruence. }
    destruct (draw_available fuel e ids g') as [[]?]; try done. by constructor.
Qed.

(** The outcome of [get_transaction_id]. *)
Definition id_outcome (fuel : nat) e ids (randomise : bool) (o : outcome exn Z) : Prop :=
  match o with
  | Ok id => in_range e id /\ id ∉ ids
             /\ (randomise = false -> forall j, first_id e <= j < id -> j ∈ ids)
  | Throw NoAvailableIDException => forall id, in_range e id -> id ∈ ids
  | OutOfFuel => randomise = true /\ exists g, Forall (fun id => id ∈ ids) (drawn fuel e g)
  | _ => False
  end.

Lemma get_transaction_id_run fuel e ids randomise g :
  ids_ok e ids -> id_outcome fuel e ids randomise (fst (get_transaction_id fuel e ids randomise g)).
Proof.
  intros Hok. unfold get_transaction_id. destruct (can_start_new_transaction e ids) eqn:Hc.
  - erewrite bind_ok by done. apply can_start_spec in Hc as (id & Hid & Hno); [|done].
    destruct randomise.
    + assert (He : first_id e <= last_id e) by (unfold in_range in Hid; lia).
      pose proof (draw_available_run fuel e ids g He) as Hd.
      destruct (draw_available fuel e ids g) as [[id'| | | | |] g']; cbn; try done.
      * destruct Hd as [? ?]. done.
      * split; [done|]. by exists g.
    + destruct (first_available_run (Z.to_nat (last_id e - first_id e + 1)) e ids (first_id e))
        as (j & Hj & Hr & Hnj & Hb).
      * unfold in_range in Hid. lia.
      * by exists id.
      * cbn. rewrite Hj. done.
  - rewrite bind_run. cbn. intros id Hid. destruct (decide (id ∈ ids)) as [|Hno]; [done|].
    assert (Ht : can_start_new_transaction e ids = true) by (apply can_start_spec; eauto). congruence.
Qed.

End drawing.

End identifiers.

(** ** Programs that draw random numbers *)

Section drawing_programs.

Context {G : Type} `{Random G} `{Indeterminate}.

(** Whatever the generator, [k] returns a value with [P], or fails for lack of an
    identifier, which implies [exhausted], or of draws, which implies [unlucky]. *)
Definition ends {A} (exhausted unlucky : Prop) (k : M exn G A) (P : A -> Prop) : Prop :=
  forall g, match fst (k g) with
            | Ok a => P a
            | Throw NoAvailableIDException => exhausted
            | OutOfFuel => unlucky
            | _ => False
            end.

Section rules.

Variables (exhausted unlucky : Prop).

Abbreviation ends k P := (ends exhausted unlucky k P).

Lemma ends_ret {A} (a : A) (P : A -> Prop) : P a -> ends (mret a) P.
Proof. by intros ? g. Qed.

Lemma ends_bind {A B} (k : M exn G A) (f : A -> M exn G B) P Q :
  ends k P -> (forall a, P a -> ends (f a) Q) -> ends (k ≫= f) Q.
Proof.
  intros Hk Hf g. specialize (Hk g). rewrite bind_run. destruct (k g) as [[a|[]| | | |] g']; try done.
  by apply Hf.
Qed.

Lemma ends_weaken {A} (k : M exn G A) (P Q : A -> Prop) :
  ends k P -> (forall a, P a -> Q a) -> ends k Q.
Proof.
  intros Hk HPQ g. specialize (Hk g). destruct (fst (k g)) as [a|[]| | | |]; auto.
Qed.

Lemma ends_rand : ends rand (fun r => 0 <= r < 2 ^ 31).
Proof. intros g. unfold rand. pose proof (next_rand_range g). by destruct (next_rand g). Qed.

Lemma ends_sample min max : min <= max -> ends (random_sample min max) (fun r => min <= r <= max).
Proof.
  intros. eapply ends_bind; [apply ends_rand|]. intros r _. apply ends_ret.
  pose proof (Z.mod_pos_bound r (max - min + 1) ltac:(lia)). lia.
Qed.

Lemma ends_random_bool p : ends (random_bool p) (fun _ => True).
Proof. eapply ends_bind; [apply ends_rand|]. intros r _. by apply ends_ret. Qed.

Lemma ends_random_element {A} (l : list A) : l <> [] -> ends (random_element l) (fun a => a ∈ l).
Proof.
  intros Hl. assert (0 < Z.of_nat (length l)) by (destruct l; [done|rewrite length_cons; lia]).
  eapply ends_bind; [apply ends_sample; lia|]. intros i Hi g. cbv beta in *. unfold element.
  destruct (lookup_lt_is_Some_2 l (Z.to_nat i)) as [a Ha]; [lia|]. rewrite Ha. cbn.
  by eapply list_elem_of_lookup_2.
Qed.

Lemma ends_random_payload payload :
  ends (random_payload payload) (fun x => fst x = true -> payload = true).
Proof.
  unfold random_payload. destruct payload; [|by apply ends_ret].
  eapply ends_bind; [apply ends_random_bool|]. intros c _.
  eapply ends_bind with (P := fun _ => True).
  - eapply ends_bind; [apply ends_rand|]. intros ? _.
    eapply ends_bind; [apply ends_rand|]. intros ? _. by apply ends_ret.
  - intros d _. by apply ends_ret.
Qed.

End rules.

Lemma ends_failures {A} (x u x' u' : Prop) (k : M exn G A) P :
  ends x u k P -> (x -> x') -> (u -> u') -> ends x' u' k P.
Proof.
  intros Hk Hx Hu g. specialize (Hk g). destruct (fst (k g)) as [a|[]| | | |]; auto.
Qed.

(** The failures of a program that asks for an identifier of [e]. *)
Definition no_identifier (e : endpoint) (ids : gset Z) : Prop :=
  forall id, in_range e id -> id ∈ ids.
Definition bad_draws (fuel : nat) (e : endpoint) (ids : gset Z) : Prop :=
  exists g, Forall (fun id => id ∈ ids) (drawn fuel e g).

Lemma ends_transaction_id fuel e ids randomise :
  ids_ok e ids ->
  ends (no_identifier e ids) (bad_draws fuel e ids) (get_transaction_id fuel e ids randomise)
    (fun id => in_range e id /\ id ∉ ids).
Proof.
  intros Hok g. pose proof (get_transaction_id_run fuel e ids randomise g Hok) as Ho.
  unfold id_outcome in Ho. destruct (fst _) as [id|[]| | | |]; try done.
  - by destruct Ho as (? & ? & _).
  - by destruct Ho as [_ ?].
Qed.

(** ** Requests on channel A *)

(** The protocol levels: TL-UL, TL-UH, TL-C. *)
Definition protocol_level (p : tl_protocol_e) : Z :=
  match p with TL_UL => 0 | TL_UH => 1 | _ => 2 end.
Definition a_level (op : tl_a_op_e) : Z :=
  match op with
  | PutFullData | PutPartialData | Get => 0
  | ArithmeticData | LogicalData | Intent => 1
  | AcquireBlock | AcquirePerm => 2
  | A_OTHER _ => 3
  end.
Definition supports (p : tl_protocol_e) (op : tl_a_op_e) : Prop := a_level op <= protocol_level p.

Lemma common_level p1 p2 :
  protocol_level (max_common_protocol p1 p2) = Z.min (protocol_level p1) (protocol_level p2).
Proof. by destruct p1, p2. Qed.

Lemma ends_random_a_opcode x u p : ends x u (random_a_opcode p) (fun op => supports p op).
Proof.
  assert (Hl : forall l, l <> [] -> (forall op, op ∈ l -> supports p op) ->
    ends x u (random_element l) (fun op => supports p op)).
  { intros l Hne Hin. eapply ends_weaken; [by apply ends_random_element|]. done. }
  unfold supports in *. destruct p; apply Hl; try done; intros op Hop;
    unfold tl_ul, tl_uh, tl_c_ops in Hop;
    repeat (apply elem_of_cons in Hop as [->|Hop]; [cbn; lia|]); by apply elem_of_nil in Hop.
Qed.

(** The values of [param] that the operation has. *)
Definition a_param_ok (op : tl_a_op_e) (param : Z) : Prop :=
  0 <= param <= match op with
                | ArithmeticData => 4 | LogicalData => 3 | Intent => 1
                | AcquireBlock | AcquirePerm => 2
                | _ => 0
                end.

Lemma ends_random_a_param x u op : ends x u (random_a_param op) (a_param_ok op).
Proof.
  unfold a_param_ok. destruct op; cbn; try (apply ends_ret; lia);
    (eapply ends_weaken; [apply ends_sample; lia|]); cbn; lia.
Qed.

(** A host and devices that the addresses of the tester can reach. *)
Record configuration (net : network) (e : endpoint) (c : Z) : Prop := {
  conf_devices : devices net <> [];
  conf_positions d : d ∈ devices net -> 0 <= position d < 8;
  conf_width : bit_width e = 8 * 2 ^ c /\ 0 <= c < 5;
  conf_size : 0 <= max_size e <= 12;
}.

(** The address is in the first 4 KiB of the device, aligned to the size. *)
Definition in_window (d : endpoint) (size address : Z) : Prop :=
  position d * 2 ^ 28 <= address < position d * 2 ^ 28 + 2 ^ 12 /\ address mod 2 ^ size = 0.

Lemma get_address_run address d :
  0 <= address < 2 ^ 12 -> 0 <= d < 8 -> get_address address d = d * 2 ^ 28 + address.
Proof.
  intros. unfold get_address. change 0x10000000 with (2 ^ 28).
  unfold s32. rewrite signed_small by lia. unfold u64. rewrite (wrap_small 64 (d * _)) by lia.
  rewrite wrap_small; lia.
Qed.

Lemma align_run a s : 0 <= s -> 0 <= a < 2 ^ 12 ->
  0 <= align a (2 ^ s) < 2 ^ 12 /\ align a (2 ^ s) mod 2 ^ s = 0.
Proof.
  intros Hs Ha. pose proof (Z.pow_pos_nonneg 2 s ltac:(lia) ltac:(lia)) as Hp.
  pose proof (Z.mod_pos_bound a (2 ^ s) Hp). pose proof (Z.div_mod a (2 ^ s) ltac:(lia)).
  assert (0 <= a / 2 ^ s) by (apply Z.div_pos; lia).
  assert (Hal : align a (2 ^ s) = a - a mod 2 ^ s) by (unfold align, u64; apply wrap_small; nia).
  rewrite Hal. split; [nia|]. replace (a - a mod 2 ^ s) with (a / 2 ^ s * 2 ^ s) by lia.
  apply Z_mod_mult.
Qed.

Lemma ends_random_address x u d size :
  0 <= size <= 12 -> 0 <= position d < 8 ->
  ends x u (random_address size (position d)) (in_window d size).
Proof.
  intros Hs Hd. eapply ends_bind; [apply ends_sample; lia|]. intros raw Hraw. cbv beta in *. apply ends_ret.
  rewrite int_shl_pow by lia. destruct (align_run raw size) as [Hr Hm]; [lia|lia|].
  rewrite get_address_run by lia. split; [lia|].
  replace (2 ^ 28) with (2 ^ (28 - size) * 2 ^ size) by (rewrite <- Z.pow_add_r by lia; f_equal; lia).
  rewrite Z.mul_assoc, Z.add_comm, Z_mod_plus_full. done.
Qed.

(** What TileLink asks of a request. *)
Record legal_a (net : network) (e : endpoint) (ids : gset Z) (c : Z) (r : tl_a) : Prop := {
  legal_target : exists d, d ∈ devices net
    /\ supports (protocol e) (a_opcode r) /\ supports (protocol d) (a_opcode r)
    /\ in_window d (a_size r) (a_address r);
  legal_param : a_param_ok (a_opcode r) (a_param r);
  legal_size : 0 <= a_size r <= max_size e;
  legal_source : in_range e (a_source r) /\ a_source r ∉ ids;
  legal_lanes i : 0 <= i -> Z.testbit (a_mask r) i = true -> lane_used (a_address r) (a_size r) c i;
  legal_full i : a_opcode r <> PutPartialData -> 0 <= i ->
    lane_used (a_address r) (a_size r) c i -> Z.testbit (a_mask r) i = true;
  legal_corrupt : a_corrupt r = true -> a_has_payload (a_opcode r) = true;
}.

Lemma ends_random_device x u fuel net e c :
  configuration net e c -> (1 <= fuel)%nat ->
  ends x u (random_device fuel net TL_UL) (fun d => d ∈ devices net).
Proof.
  intros [Hne _ _ _] Hf. unfold random_device. destruct fuel as [|fuel]; [lia|]. cbn [draw_endpoint].
  assert (0 < Z.of_nat (length (devices net))) by (destruct (devices net); [done|rewrite length_cons; lia]).
  eapply ends_bind; [apply ends_rand|]. intros r _.
  pose proof (Z.mod_pos_bound r (Z.of_nat (length (devices net))) ltac:(lia)).
  eapply ends_bind with (P := fun d => d ∈ devices net).
  - intros g. unfold element.
    destruct (lookup_lt_is_Some_2 (devices net) (Z.to_nat (r mod Z.of_nat (length (devices net)))))
      as [a Ha]; [lia|].
    rewrite Ha. cbn. by eapply list_elem_of_lookup_2.
  - intros d Hd. cbn [protocol_value]. rewrite (proj2 (Z.leb_le _ _)) by (destruct (protocol d); cbn; lia).
    by apply ends_ret.
Qed.

(** The mask of a request: the complete one, or part of it. *)
Lemma ends_mask x u op a s c :
  0 <= a -> 0 <= s <= 12 -> 0 <= c < 5 -> a mod 2 ^ s = 0 ->
  let mask := s32 (complete_mask a (int_shl s) (2 ^ c)) in
  ends x u (if bool_decide (op = PutPartialData) then r ← rand; mret (Z.land mask r) else mret mask)
    (fun m => (forall i, 0 <= i -> Z.testbit m i = true -> lane_used a s c i)
              /\ (forall i, op <> PutPartialData -> 0 <= i -> lane_used a s c i -> Z.testbit m i = true)).
Proof.
  intros Ha Hs Hc Hal. cbv zeta. rewrite int_shl_pow by lia.
  set (full := complete_mask a (2 ^ s) (2 ^ c)).
  assert (Hbits : forall i, 0 <= i -> Z.testbit full i = true <-> lane_used a s c i)
    by (intros; apply complete_mask_bits; lia).
  assert (Hs32 : s32 full = full).
  { apply s32_mask; [apply complete_mask_nonneg|]. intros. apply complete_mask_high; lia. }
  rewrite Hs32. case_bool_decide as Hop.
  - eapply ends_bind; [apply ends_rand|]. intros r _. apply ends_ret. split; [|done].
    intros i Hi. rewrite Z.land_spec, andb_true_iff. intros [Ht _]. by apply Hbits.
  - apply ends_ret. split; intros; by apply Hbits.
Qed.

Lemma new_a_request_run fuel net e ids c :
  configuration net e c -> ids_ok e ids -> (1 <= fuel)%nat ->
  ends (no_identifier e ids) (bad_draws fuel e ids) (new_a_request fuel net e ids true)
    (legal_a net e ids c).
Proof.
  intros Hconf Hids Hfuel. pose proof Hconf as [Hne Hpos [Hw Hc] Hsz]. unfold new_a_request.
  eapply ends_bind; [by eapply ends_random_device|]. intros d Hd. cbv beta in *. specialize (Hpos d Hd).
  eapply ends_bind; [apply ends_random_a_opcode|]. intros op Hop. cbv beta in *.
  eapply ends_bind; [apply ends_random_a_param|]. intros param Hparam. cbv beta in *.
  eapply ends_bind; [apply ends_sample; lia|]. intros size Hsize. cbv beta in *.
  eapply ends_bind; [by apply ends_transaction_id|]. intros source Hsource. cbv beta in *.
  eapply ends_bind; [apply ends_random_address; lia|]. intros address [Ha Hal].
  assert (Hq : Z.quot (bit_width e) 8 = 2 ^ c).
  { rewrite Hw, Z.mul_comm. apply Z.quot_mul. lia. }
  rewrite Hq. eapply ends_bind; [apply (ends_mask _ _ op address size c); lia|].
  intros mask [Hin Hfull]. eapply ends_bind; [apply ends_random_payload|]. intros [corrupt data] Hcor.
  apply ends_ret. unfold supports in Hop. rewrite common_level in Hop.
  split; cbn in *; try done. exists d. unfold supports. repeat split; try done; try lia.
Qed.

(** ** Responses on channel D *)

(** The response opcodes that TileLink has for a request. *)
Inductive d_answers : tl_a_op_e -> tl_d_op_e -> Prop :=
  | answers_put_full : d_answers PutFullData AccessAck
  | answers_put_partial : d_answers PutPartialData AccessAck
  | answers_arithmetic : d_answers ArithmeticData AccessAckData
  | answers_logical : d_answers LogicalData AccessAckData
  | answers_get : d_answers Get AccessAckData
  | answers_intent : d_answers Intent HintAck
  | answers_block : d_answers AcquireBlock Grant
  | answers_block_data : d_answers AcquireBlock GrantData
  | answers_perm : d_answers AcquirePerm Grant.

Record answers_request (e : endpoint) (ids : gset Z) (r : tl_a) (d : tl_d) : Prop := {
  answer_opcode : d_answers (a_opcode r) (d_opcode d);
  answer_copied : d_size d = a_size r /\ d_source d = a_source r;
  answer_sink : in_range e (d_sink d)
    /\ (d_requires_response (d_opcode d) = true -> d_sink d ∉ ids);
  answer_param : 0 <= d_param d <= if d_requires_response (d_opcode d) then 2 else 0;
  answer_denied : d_denied d = true ->
    can_deny e = true /\ (d_has_payload (d_opcode d) = true -> d_corrupt d = true);
  answer_corrupt : d_corrupt d = true -> d_has_payload (d_opcode d) = true;
}.

Lemma ends_random_id x u e :
  first_id e <= last_id e -> ends x u (random_id e) (in_range e).
Proof.
  intros He. eapply ends_bind; [apply ends_rand|]. intros r _. apply ends_ret. unfold in_range.
  pose proof (Z.mod_pos_bound r (last_id e - first_id e + 1) ltac:(lia)). lia.
Qed.

Lemma ends_sink fuel e ids op randomise :
  ids_ok e ids -> first_id e <= last_id e ->
  ends (d_requires_response op = true /\ no_identifier e ids)
    (d_requires_response op = true /\ bad_draws fuel e ids) (d_sink_for fuel e ids op randomise)
    (fun s => in_range e s /\ (d_requires_response op = true -> s ∉ ids)).
Proof.
  intros Hids He. unfold d_sink_for. destruct (d_requires_response op).
  - eapply ends_weaken with (P := fun id => in_range e id /\ id ∉ ids); [|by intros s [? ?]].
    eapply ends_failures; [by apply ends_transaction_id|done..].
  - unfold get_routing_id. destruct randomise.
    + eapply ends_weaken; [by apply ends_random_id|]. done.
    + apply ends_ret. split; [|done]. unfold in_range. lia.
Qed.

Lemma d_opcode_of_a_run x u op :
  (forall n, op <> A_OTHER n) ->
  ends x u (d_opcode_of_a op) (fun o =>
    d_answers op o /\ (op = AcquireBlock -> o = Grant)).
Proof.
  intros Hop. destruct op; cbn; try (apply ends_ret; split; [constructor|done]). by edestruct Hop.
Qed.

(** Acquires need an identifier of the device. *)
Definition acquires (r : tl_a) : Prop := a_level (a_opcode r) = 2.

Lemma new_d_response_run fuel e ids r randomise :
  (forall n, a_opcode r <> A_OTHER n) -> ids_ok e ids -> first_id e <= last_id e ->
  ends (acquires r /\ no_identifier e ids) (acquires r /\ bad_draws fuel e ids) (new_d_response_a fuel e ids r randomise)
    (answers_request e ids r).
Proof.
  intros Hop Hids He. unfold new_d_response_a.
  eapply ends_bind; [by apply d_opcode_of_a_run|]. intros op [Hans Hblock].
  assert (Hacq : d_requires_response op = true -> acquires r) by (unfold acquires; by destruct Hans).
  eapply ends_bind.
  { eapply ends_failures; [by apply ends_sink|intros [Hx ?]; auto..]. }
  intros sink [Hsr Hsn]. destruct randomise.
  2:{ apply ends_ret. split; cbn; try done. by destruct (d_requires_response op). }
  eapply ends_bind with (P := fun b : bool => b = true -> a_opcode r = AcquireBlock).
  { case_bool_decide; [|by apply ends_ret].
    eapply ends_weaken; [apply ends_random_bool|]. done. }
  intros with_data Hwith. cbv zeta. set (op' := if with_data then GrantData else op).
  assert (Hop' : d_answers (a_opcode r) op' /\ (d_requires_response op' = true -> sink ∉ ids)).
  { unfold op'. destruct with_data; [|done]. rewrite Hwith in * by done. split; [constructor|].
    intros _. apply Hsn. by rewrite Hblock. }
  clearbody op'. destruct Hop' as [Hans' Hsink'].
  eapply ends_bind with (P := fun p => 0 <= p <= if d_requires_response op' then 2 else 0).
  { destruct (d_requires_response op'); [|apply ends_ret; lia]. apply ends_sample. lia. }
  intros param Hparam. cbv beta in *.
  eapply ends_bind with (P := fun b : bool => b = true -> can_deny e = true).
  { destruct (can_deny e); [|by apply ends_ret]. eapply ends_weaken; [apply ends_random_bool|]. done. }
  intros denied Hdenied.
  eapply ends_bind with (P := fun b : bool => (b = true -> d_has_payload op' = true)
    /\ (denied = true -> d_has_payload op' = true -> b = true)).
  { destruct (d_has_payload op'); [|by apply ends_ret]. destruct denied; [by apply ends_ret|].
    eapply ends_weaken; [apply ends_random_bool|]. done. }
  intros corrupt [Hc1 Hc2].
  eapply ends_bind with (P := fun _ => True).
  { eapply ends_bind; [apply ends_rand|]. intros ? _.
    eapply ends_bind; [apply ends_rand|]. intros ? _. by apply ends_ret. }
  intros data _. apply ends_ret. split; cbn; try done. intros Hd. by split; [apply Hdenied|apply Hc2].
Qed.

(** The number of beats that the data of a message takes. *)
Definition data_beats (payload : bool) (size width : Z) : Z :=
  if payload then Z.max 1 (2 ^ size / width) else 1.

Lemma num_beats_run payload size width :
  0 <= size < 31 -> 0 < width -> num_beats payload size width = data_beats payload size width.
Proof.
  intros. unfold num_beats, data_beats. destruct payload; [|done]. rewrite int_shl_pow by lia.
  by rewrite Z.quot_div_nonneg by (try apply Z.pow_nonneg; lia).
Qed.

Lemma d_response_run fuel e ids r randomise :
  (forall n, a_opcode r <> A_OTHER n) -> ids_ok e ids -> first_id e <= last_id e ->
  0 <= a_size r < 31 -> 0 < width_bytes e ->
  ends (acquires r /\ no_identifier e ids) (acquires r /\ bad_draws fuel e ids) (d_response_a fuel e ids r randomise)
    (fun m => answers_request e ids r (header m) /\ beats_generated m = 0
       /\ beats_to_send m
          = data_beats (d_has_payload (d_opcode (header m))) (a_size r) (width_bytes e)
       /\ beats_ready m = (match a_opcode r with
                           | LogicalData | ArithmeticData => 1
                           | _ => beats_to_send m
                           end)).
Proof.
  intros Hop Hids He Hs Hw. unfold d_response_a.
  eapply ends_bind; [by apply new_d_response_run|]. intros h Hh.
  destruct (answer_copied _ _ _ _ Hh) as [Hsz _]. rewrite Hsz, num_beats_run by done. cbv zeta.
  set (beats := data_beats _ _ _).
  assert (0 < beats) by (unfold beats, data_beats; destruct (d_has_payload _); lia).
  unfold sized_message. rewrite (proj2 (Z.ltb_lt _ _)) by done.
  rewrite (proj2 (Z.ltb_lt _ _)) by done. intros g. cbn. done.
Qed.

(** ** Sending a message *)

(** [n] beats of a message on channel D, one after the other. *)
Fixpoint next_beats_d (n : nat) (randomise : bool) (m : tl_message tl_d)
    : M exn G (list tl_d * tl_message tl_d) :=
  match n with
  | O => mret ([], m)
  | S n =>
      r ← next_beat_d randomise m;
      rest ← next_beats_d n randomise (snd r);
      mret (fst r :: fst rest, snd rest)
  end.

(** A beat of the message: the header with the data counted up; [corrupt] only
    with data, and always when denied. *)
Definition beat_of (randomise : bool) (h : tl_d) (i : Z) (b : tl_d) : Prop :=
  d_opcode b = d_opcode h /\ d_param b = d_param h /\ d_size b = d_size h
  /\ d_source b = d_source h /\ d_sink b = d_sink h /\ d_denied b = d_denied h
  /\ d_data b = u64 (d_data h + i)
  /\ (if randomise && d_has_payload (d_opcode h) then d_denied h = true -> d_corrupt b = true
      else d_corrupt b = d_corrupt h).

Lemma next_beat_d_run x u randomise m :
  ends x u (next_beat_d randomise m) (fun r =>
    beat_of randomise (header m) (beats_generated m) (fst r)
    /\ snd r = set_generated (beats_generated m + 1) m).
Proof.
  unfold next_beat_d, beat_of. cbv zeta.
  eapply ends_bind with (P := fun b : bool =>
    if randomise && d_has_payload (d_opcode (header m)) then d_denied (header m) = true -> b = true
    else b = d_corrupt (header m)).
  - destruct (randomise && _); [|by apply ends_ret]. destruct (d_denied _); [by apply ends_ret|].
    eapply ends_weaken; [apply ends_random_bool|]. done.
  - intros corrupt Hc. by apply ends_ret.
Qed.

Lemma next_beats_d_run x u n randomise m :
  ends x u (next_beats_d n randomise m) (fun r =>
    length (fst r) = n /\ snd r = set_generated (beats_generated m + Z.of_nat n) m
    /\ forall i b, fst r !! i = Some b ->
         beat_of randomise (header m) (beats_generated m + Z.of_nat i) b).
Proof.
  revert m. induction n as [|n IH]; intros m; cbn [next_beats_d].
  - apply ends_ret. split; [done|]. split; [|done]. destruct m. unfold set_generated. cbn. f_equal. lia.
  - eapply ends_bind; [apply next_beat_d_run|]. intros [b m'] [Hb Hm']. cbn [fst snd] in *. subst m'.
    eapply ends_bind; [apply IH|]. intros [bs m'] (Hlen & Hm' & Hbs). cbn [fst snd] in *. subst m'.
    apply ends_ret. cbn [fst snd]. split; [by rewrite length_cons, Hlen|]. split.
    + unfold set_generated. cbn. f_equal. lia.
    + intros [|i] c Hi; cbn in Hi; simplify_eq.
      * by rewrite Z.add_0_r.
      * specialize (Hbs i c Hi). cbn in Hbs.
        by replace (beats_generated m + Z.of_nat (S i)) with (beats_generated m + 1 + Z.of_nat i) by lia.
Qed.

End drawing_programs.

(** ** The claims *)

(** Byte masks. For an access of [2 ^ s] bytes at an address aligned to its size,
    on a channel of [2 ^ c] bytes (up to 16), bit [i] of [complete_mask] is set
    exactly when byte lane [i] of the channel holds a byte of the access. *)
Theorem complete_mask_lanes a s c i :
  0 <= a -> 0 <= s -> 0 <= c < 5 -> a mod 2 ^ s = 0 -> 0 <= i ->
  Z.testbit (complete_mask a (2 ^ s) (2 ^ c)) i = true <-> lane_used a s c i.
Proof. apply complete_mask_bits. Qed.

Section claims.

Context {G : Type} `{Random G} `{Indeterminate}.

(** Transaction identifiers. [get_transaction_id] gives an identifier of the
    endpoint that is not in use (the lowest one, unless it is drawn at random),
    and throws exactly when all are in use; the random draws go on until one is
    available. *)
Theorem transaction_id_unique fuel e ids randomise g :
  ids_ok e ids ->
  match fst (get_transaction_id fuel e ids randomise g) with
  | Ok id => in_range e id /\ id ∉ ids
             /\ (randomise = false -> forall j, first_id e <= j < id -> j ∈ ids)
  | Throw NoAvailableIDException => forall id, in_range e id -> id ∈ ids
  | OutOfFuel => randomise = true /\ exists g, Forall (fun id => id ∈ ids) (drawn fuel e g)
  | _ => False
  end.
Proof. apply get_transaction_id_run. Qed.

(** Random requests on channel A. Whatever the generator draws, a request of a
    host is one that TileLink allows: an operation that the host and the target
    device support, with a parameter of that operation, a size within the host's
    limit, an available source, an address in the device's window aligned to the
    size, a mask within the lanes of the access (all of them, except for partial
    writes), and no corrupt flag without data. Otherwise all identifiers are in
    use, or only unavailable ones were drawn. *)
Theorem a_request_legal fuel net e ids c g :
  configuration net e c -> ids_ok e ids -> (1 <= fuel)%nat ->
  match fst (new_a_request fuel net e ids true g) with
  | Ok r => legal_a net e ids c r
  | Throw NoAvailableIDException => no_identifier e ids
  | OutOfFuel => bad_draws fuel e ids
  | _ => False
  end.
Proof. intros Hc Hi Hf. by apply new_a_request_run. Qed.

(** Responses on channel D to a request on channel A have an opcode that
    answers it, copy its size and source, carry an identifier of the device (not
    in use where a response is expected), are denied only by devices that can
    deny, and then flagged corrupt if they have data. They have as many beats as
    their data needs, all ready, except for arithmetic and logical operations,
    whose beats become ready as the request's beats arrive. Only acquires can fail:
    all identifiers are in use, or only unavailable ones were drawn. *)
Theorem d_response_matches fuel e ids r randomise g :
  (forall n, a_opcode r <> A_OTHER n) -> ids_ok e ids -> first_id e <= last_id e ->
  0 <= a_size r < 31 -> 0 < width_bytes e ->
  match fst (d_response_a fuel e ids r randomise g) with
  | Ok m => answers_request e ids r (header m) /\ beats_generated m = 0
       /\ beats_to_send m
          = data_beats (d_has_payload (d_opcode (header m))) (a_size r) (width_bytes e)
       /\ beats_ready m = (match a_opcode r with
                           | LogicalData | ArithmeticData => 1
                           | _ => beats_to_send m
                           end)
  | Throw NoAvailableIDException => acquires r /\ no_identifier e ids
  | OutOfFuel => acquires r /\ bad_draws fuel e ids
  | _ => False
  end.
Proof. intros. by apply d_response_run. Qed.

(** Sending a message on channel D. A complete message that was not started
    can be sent for exactly its number of beats and is then finished; the beats
    are its header, with the data counted up, and the corrupt flag drawn anew only
    for beats with data, and always set when denied. *)
Theorem d_message_sent randomise (m : tl_message tl_d) g :
  beats_generated m = 0 -> complete m = true -> 0 < beats_to_send m ->
  exists bs m' g', next_beats_d (Z.to_nat (beats_to_send m)) randomise m g = (Ok (bs, m'), g')
    /\ Z.of_nat (length bs) = beats_to_send m
    /\ (forall k, 0 <= k < beats_to_send m -> can_send (set_generated k m) = true
          /\ finished (set_generated k m) = false)
    /\ can_send m' = false /\ finished m' = true /\ header m' = header m
    /\ forall i b, bs !! i = Some b -> beat_of randomise (header m) (Z.of_nat i) b.
Proof.
  intros Hg Hc Hpos. unfold complete in Hc. apply Z.eqb_eq in Hc.
  pose proof (next_beats_d_run False False (Z.to_nat (beats_to_send m)) randomise m g) as Hrun.
  destruct (next_beats_d _ _ _ _) as [[[bs m']|[]| | | |] g']; try done. cbn [fst snd] in Hrun.
  destruct Hrun as (Hlen & -> & Hbs). exists bs. eexists _, g'. split; [reflexivity|].
  split; [lia|]. split.
  - intros k Hk. unfold can_send, finished. cbn. rewrite <- Hc. split; [apply Z.ltb_lt; lia|].
    apply Z.eqb_neq. lia.
  - rewrite Hg in *. unfold can_send, finished. cbn. rewrite <- Hc.
    split; [apply Z.ltb_ge; lia|]. split; [apply Z.eqb_eq; lia|]. split; [done|].
    intros i b Hi. by apply Hbs.
Qed.

End claims.

(** ** Witnesses *)

Module MessagesExample.

#[local] Instance linear : Random Z.
Proof.
  refine {| next_rand g := (g mod 2 ^ 31, (g * 1103515245 + 12345) mod 2 ^ 31) |}.
  intros g. apply Z.mod_pos_bound. lia.
Defined.

#[local] Instance zero_data : Indeterminate := {| indeterminate_data := 0 |}.

Definition host : endpoint := Endpoint 0 TL_C 64 0 7 6 false false (RoutingTable.Table [] [] []).
Definition device : endpoint := Endpoint 2 TL_UH 64 8 15 6 false true (RoutingTable.Table [] [] []).
Definition net : network := Network [host] [device].
Definition used : gset Z := {[ 1; 2 ]}.
Definition used_sinks : gset Z := {[ 9 ]}.

Lemma used_ok : ids_ok host used.
Proof.
  split; [|done]. intros id Hid. assert (id = 1 \/ id = 2) as [-> | ->] by set_solver; by split.
Qed.

Lemma sinks_ok : ids_ok device used_sinks.
Proof. split; [|done]. intros id Hid. assert (id = 9) as -> by set_solver. by split. Qed.

Lemma complete_mask_lanes_witness :
  Z.testbit (complete_mask 0x1004 (2 ^ 2) (2 ^ 3)) 5 = true <-> lane_used 0x1004 2 3 5.
Proof. by apply complete_mask_lanes. Defined.

Lemma transaction_id_unique_witness :
  match fst (get_transaction_id 10 host used false 42) with
  | Ok id => in_range host id /\ id ∉ used
             /\ (false = false -> forall j, 0 <= j < id -> j ∈ used)
  | Throw NoAvailableIDException => forall id, in_range host id -> id ∈ used
  | OutOfFuel => false = true /\ exists g, Forall (fun id => id ∈ used) (drawn 10 host g)
  | _ => False
  end.
Proof. apply (transaction_id_unique 10 host used false 42). apply used_ok. Defined.

Lemma a_request_legal_witness :
  exists r, fst (new_a_request 10 net host used true 42) = Ok r /\ legal_a net host used 3 r.
Proof.
  assert (Hr : exists r, fst (new_a_request 10 net host used true 42) = Ok r)
    by (eexists; vm_compute; reflexivity).
  destruct Hr as [r Hr]. exists r. split; [exact Hr|].
  assert (Hl : configuration net host 3).
  { split; [done| |done|done]. intros d ->%list_elem_of_singleton. by vm_compute. }
  pose proof (a_request_legal 10 net host used 3 42 Hl used_ok ltac:(lia)) as Hlegal.
  rewrite Hr in Hlegal. exact Hlegal.
Defined.

Definition get_request : tl_a := BeatA Get 0 5 3 0x20000040 0xFF false 0.

Lemma d_response_matches_witness :
  exists m, fst (d_response_a 10 device used_sinks get_request true 42) = Ok m
    /\ answers_request device used_sinks get_request (header m) /\ beats_to_send m = 4.
Proof.
  assert (Hr : exists m, fst (d_response_a 10 device used_sinks get_request true 42) = Ok m)
    by (eexists; vm_compute; reflexivity).
  destruct Hr as [m Hr]. exists m. split; [exact Hr|].
  pose proof (d_response_matches 10 device used_sinks get_request true 42 ltac:(done) sinks_ok
    ltac:(done) ltac:(done) ltac:(done)) as Hd.
  rewrite Hr in Hd. destruct Hd as (Ha & _ & Hb & _). split; [exact Ha|]. rewrite Hb.
  pose proof (answer_opcode _ _ _ _ Ha) as Ho. cbn [get_request a_opcode] in Ho.
  inversion Ho. reflexivity.
Defined.

Definition response : tl_message tl_d :=
  Message 8 4 4 0 (BeatD AccessAckData 0 5 3 8 false false 0x100).

Lemma d_message_sent_witness :
  exists bs m' g', next_beats_d 4 true response 42 = (Ok (bs, m'), g')
    /\ Z.of_nat (length bs) = 4
    /\ (forall k, 0 <= k < 4 -> can_send (set_generated k response) = true
          /\ finished (set_generated k response) = false)
    /\ can_send m' = false /\ finished m' = true /\ header m' = header response
    /\ forall i b, bs !! i = Some b -> beat_of true (header response) (Z.of_nat i) b.
Proof. apply (d_message_sent true response 42); done. Defined.

End MessagesExample.
