(* ===== verification/TlConfig.v ===== *)
(** * TileLink configuration files

    [tl_config.h]/[tl_config.cc]: the reader of the hosts and devices that the tester
    simulates, a subset of YAML. *)

From S2P Require Import Prelude Exceptions Text TileLink TlEndpoint TlMessages.
From Stdlib Require Import Ascii.

Open Scope Z_scope.

(** [tl_endpoint_config_t]; a field that no line has set is not initialised. *)
Record tl_endpoint_config_t : Type := EndpointConfig {
  cfg_protocol : option tl_protocol_e;
  data_width : option Z;
  cfg_first_id : option Z;
  cfg_last_id : option Z;
  cfg_max_size : option Z;
  cfg_fifo : option bool;
  cfg_can_deny : option bool;
  bases : list Z;
  masks : list Z;
  targets : list Z;
}.

Definition no_parameters : tl_endpoint_config_t :=
  EndpointConfig None None None None None None None [] [] [].

(** [tl_config_t]. *)
Record tl_config_t : Type := Config {
  cfg_hosts : list tl_endpoint_config_t;
  cfg_devices : list tl_endpoint_config_t;
}.

(** ** Lines *)

Definition remove_comments (line : string) : string := before_char "#" line.

(** Erase trailing, then leading white space. *)
Definition strip_whitespace (line : string) : string := skip_spaces (erase_trailing line).

Definition is_empty (line : string) : bool :=
  bool_decide (strip_whitespace (remove_comments line) = EmptyString).

(** [substr] with [compare]. *)
Definition ends_with (str suffix : string) : bool :=
  if (String.length str <? String.length suffix)%nat then false
  else bool_decide (String.substring (String.length str - String.length suffix) (String.length suffix) str
                    = suffix).

Definition starts_with (line name : string) : bool :=
  bool_decide (String.substring 0 (String.length name) line = name).

(** The integers between spaces; [std::stoi] reads decimal numbers. *)
Fixpoint parse_tokens (tokens : list string) : outcome exn (list Z) :=
  match tokens with
  | [] => Ok []
  | token :: tokens =>
      if bool_decide (token = EmptyString) then parse_tokens tokens
      else match stoi token with
           | Ok n => match parse_tokens tokens with Ok ns => Ok (n :: ns) | o => o end
           | o => outcome_cast o Undefined
           end
  end.

Definition parse_int_list (line : string) : outcome exn (list Z) := parse_tokens (split_on " " line).

(** ** Parameters *)

Definition set_protocol v (c : tl_endpoint_config_t) : tl_endpoint_config_t :=
  EndpointConfig (Some v) (data_width c) (cfg_first_id c) (cfg_last_id c) (cfg_max_size c)
    (cfg_fifo c) (cfg_can_deny c) (bases c) (masks c) (targets c).
Definition set_data_width v (c : tl_endpoint_config_t) : tl_endpoint_config_t :=
  EndpointConfig (cfg_protocol c) (Some v) (cfg_first_id c) (cfg_last_id c) (cfg_max_size c)
    (cfg_fifo c) (cfg_can_deny c) (bases c) (masks c) (targets c).
Definition set_first_id v (c : tl_endpoint_config_t) : tl_endpoint_config_t :=
  EndpointConfig (cfg_protocol c) (data_width c) (Some v) (cfg_last_id c) (cfg_max_size c)
    (cfg_fifo c) (cfg_can_deny c) (bases c) (masks c) (targets c).
Definition set_last_id v (c : tl_endpoint_config_t) : tl_endpoint_config_t :=
  EndpointConfig (cfg_protocol c) (data_width c) (cfg_first_id c) (Some v) (cfg_max_size c)
    (cfg_fifo c) (cfg_can_deny c) (bases c) (masks c) (targets c).
Definition set_max_size v (c : tl_endpoint_config_t) : tl_endpoint_config_t :=
  EndpointConfig (cfg_protocol c) (data_width c) (cfg_first_id c) (cfg_last_id c) (Some v)
    (cfg_fifo c) (cfg_can_deny c) (bases c) (masks c) (targets c).
Definition set_fifo v (c : tl_endpoint_config_t) : tl_endpoint_config_t :=
  EndpointConfig (cfg_protocol c) (data_width c) (cfg_first_id c) (cfg_last_id c) (cfg_max_size c)
    (Some v) (cfg_can_deny c) (bases c) (masks c) (targets c).
Definition set_can_deny v (c : tl_endpoint_config_t) : tl_endpoint_config_t :=
  EndpointConfig (cfg_protocol c) (data_width c) (cfg_first_id c) (cfg_last_id c) (cfg_max_size c)
    (cfg_fifo c) (Some v) (bases c) (masks c) (targets c).
Definition set_bases v (c : tl_endpoint_config_t) : tl_endpoint_config_t :=
  EndpointConfig (cfg_protocol c) (data_width c) (cfg_first_id c) (cfg_last_id c) (cfg_max_size c)
    (cfg_fifo c) (cfg_can_deny c) v (masks c) (targets c).
Definition set_masks v (c : tl_endpoint_config_t) : tl_endpoint_config_t :=
  EndpointConfig (cfg_protocol c) (data_width c) (cfg_first_id c) (cfg_last_id c) (cfg_max_size c)
    (cfg_fifo c) (cfg_can_deny c) (bases c) v (targets c).
Definition set_targets v (c : tl_endpoint_config_t) : tl_endpoint_config_t :=
  EndpointConfig (cfg_protocol c) (data_width c) (cfg_first_id c) (cfg_last_id c) (cfg_max_size c)
    (cfg_fifo c) (cfg_can_deny c) (bases c) (masks c) v.

Definition outcome_map {A B} (f : A -> B) (o : outcome exn A) : outcome exn B :=
  match o with Ok a => Ok (f a) | o => outcome_cast o Undefined end.

(** [exit(1)] for an unknown protocol. *)
Definition parse_protocol (value : string) : outcome exn tl_protocol_e :=
  if bool_decide (value = "TL-C"%string) then Ok TL_C
  else if bool_decide (value = "TL-C-ROM-TERM"%string) then Ok TL_C_ROM_TERM
  else if bool_decide (value = "TL-C-IO-TERM"%string) then Ok TL_C_IO_TERM
  else if bool_decide (value = "TL-UH"%string) then Ok TL_UH
  else if bool_decide (value = "TL-UL"%string) then Ok TL_UL
  else ExitWith 1.

(** One parameter; an unknown name only gives a warning. *)
Definition set_parameter (name value : string) (c : tl_endpoint_config_t)
    : outcome exn tl_endpoint_config_t :=
  let named s := bool_decide (name = s) in
  if named "Protocol"%string then outcome_map (fun v => set_protocol v c) (parse_protocol value)
  else if named "DataWidth"%string then outcome_map (fun v => set_data_width v c) (stoi value)
  else if named "FirstID"%string then outcome_map (fun v => set_first_id v c) (stoi value)
  else if named "LastID"%string then outcome_map (fun v => set_last_id v c) (stoi value)
  else if named "MaxSize"%string then outcome_map (fun v => set_max_size v c) (stoi value)
  else if named "Fifo"%string then outcome_map (fun v => set_fifo (as_bool v) c) (stoi value)
  else if named "CanDeny"%string then outcome_map (fun v => set_can_deny (as_bool v) c) (stoi value)
  else if ends_with name "Base" then outcome_map (fun v => set_bases v c) (parse_int_list value)
  else if ends_with name "Mask" then outcome_map (fun v => set_masks v c) (parse_int_list value)
  else if ends_with name "Target" then outcome_map (fun v => set_targets v c) (parse_int_list value)
  else Ok c.

(** A line without a colon ends the program. *)
Definition parse_line (line : string) (c : tl_endpoint_config_t) : outcome exn tl_endpoint_config_t :=
  match after_char ":" line with
  | None => ExitWith 1
  | Some value =>
      set_parameter (strip_whitespace (before_char ":" line))
        (strip_whitespace (remove_comments value)) c
  end.

(** The loop of [parse_parameters] on the lines that remain. *)
Fixpoint parse_lines (lines : list string) (c : tl_endpoint_config_t)
    : outcome exn tl_endpoint_config_t :=
  match lines with
  | [] => Ok c
  | line :: lines => match parse_line line c with Ok c => parse_lines lines c | o => o end
  end.

Definition parse_parameters (data : list string) : outcome exn tl_endpoint_config_t :=
  parse_lines data no_parameters.

(** ** The file *)

(** The local variables of [read_config]: [section] is the kind of the components
    that follow. *)
Record reader : Type := Reader {
  config : tl_config_t;
  section : string;
  component : list string;
}.

Definition add_component (r : reader) : outcome exn tl_config_t :=
  match component r with
  | [] => Ok (config r)
  | data =>
      if bool_decide (section r = EmptyString) then AssertFail
      else match parse_parameters data with
           | Ok endpoint =>
               if bool_decide (section r = "host"%string)
               then Ok (Config (cfg_hosts (config r) ++ [endpoint]) (cfg_devices (config r)))
               else if bool_decide (section r = "device"%string)
               then Ok (Config (cfg_hosts (config r)) (cfg_devices (config r) ++ [endpoint]))
               else AssertFail
           | o => outcome_cast o Undefined
           end
  end.

(** [add_component] and [component.clear()]. *)
Definition finish_component (r : reader) : outcome exn reader :=
  outcome_map (fun c => Reader c (section r) []) (add_component r).

Definition set_section (s : string) (r : reader) : reader := Reader (config r) s (component r).
Definition push_line (line : string) (r : reader) : reader :=
  Reader (config r) (section r) (component r ++ [line]).

(** The body of the loop. *)
Definition read_line (line : string) (r : reader) : outcome exn reader :=
  if is_empty line then Ok r
  else if starts_with line "hosts:" then outcome_map (set_section "host") (finish_component r)
  else if starts_with line "devices:" then outcome_map (set_section "device") (finish_component r)
  else match strip_whitespace line with
       | String "-" line => outcome_map (push_line line) (finish_component r)
       | line => Ok (push_line line r)
       end.

Fixpoint read_lines (lines : list string) (r : reader) : outcome exn reader :=
  match lines with
  | [] => Ok r
  | line :: lines => match read_line line r with Ok r => read_lines lines r | o => o end
  end.

(** [read_config] on the contents of a file, [None] if it cannot be read. *)
Definition read_config (file : option string) : outcome exn tl_config_t :=
  match file with
  | None => ExitWith 1
  | Some text =>
      match read_lines (split_on "010" text) (Reader (Config [] []) EmptyString []) with
      | Ok r => add_component r
      | o => outcome_cast o Undefined
      end
  end.

(** ** Endpoints *)

(** The constructor of [TileLinkEndpoint], for the component at [position]; reading a
    field that was not initialised is undefined. *)
Definition endpoint_of (position : Z) (c : tl_endpoint_config_t) : outcome exn endpoint :=
  match cfg_protocol c, data_width c, cfg_first_id c, cfg_last_id c, cfg_max_size c, cfg_fifo c, cfg_can_deny c with
  | Some p, Some w, Some f, Some l, Some s, Some o, Some d =>
      outcome_map (Endpoint position p w f l s o d) (RoutingTable.make (bases c) (masks c) (targets c))
  | _, _, _, _, _, _, _ => Undefined
  end.
