(* ===== verification/TlConfigTheorems.v ===== *)
(** * Theorems on configuration files

    A configuration that is printed is read back; what the reader can give for any
    text; and how it reads hexadecimal numbers. *)

From S2P Require Import Prelude Exceptions Text TileLink TlEndpoint TlMessages TlConfig.
From Stdlib Require Import Ascii.

Open Scope Z_scope.

(** ** What the reader gives for any text *)

(** The fields are C++ [int]s where they are initialised. *)
Definition int32 (z : Z) : Prop := - 2 ^ 31 <= z < 2 ^ 31.
Definition set_int32 (o : option Z) : Prop := match o with Some z => int32 z | None => True end.

Record typed (c : tl_endpoint_config_t) : Prop := {
  typed_width : set_int32 (data_width c);
  typed_first : set_int32 (cfg_first_id c);
  typed_last : set_int32 (cfg_last_id c);
  typed_size : set_int32 (cfg_max_size c);
  typed_bases : Forall int32 (bases c);
  typed_masks : Forall int32 (masks c);
  typed_targets : Forall int32 (targets c);
}.

(** The ways in which the reader can stop. *)
Definition stops {A} (P : A -> Prop) (o : outcome exn A) : Prop :=
  match o with
  | Ok a => P a
  | ExitWith status => status = 1
  | Throw e => e = std_invalid_argument \/ e = std_out_of_range
  | AssertFail => True
  | _ => False
  end.

Lemma stops_map {A B} (f : A -> B) (P : A -> Prop) (Q : B -> Prop) o :
  stops P o -> (forall a, P a -> Q (f a)) -> stops Q (outcome_map f o).
Proof. destruct o; cbn; auto. Qed.

Lemma stops_stoi s : stops int32 (stoi s).
Proof.
  unfold stoi. destruct (leading_number s) as [v|]; [|by left].
  destruct (is_int v) eqn:Hv; [|by right]. apply andb_true_iff in Hv as [?%Z.leb_le ?%Z.ltb_lt]. done.
Qed.

Lemma stops_tokens tokens : stops (Forall int32) (parse_tokens tokens).
Proof.
  induction tokens as [|t tokens IH]; cbn [parse_tokens]; [by constructor|].
  case_bool_decide; [done|]. pose proof (stops_stoi t) as Ht. destruct (stoi t); try done.
  destruct (parse_tokens tokens); try done. by constructor.
Qed.

Lemma stops_protocol value : stops (fun _ => True) (parse_protocol value).
Proof. unfold parse_protocol. by repeat case_bool_decide. Qed.

Lemma stops_parameter name value c : typed c -> stops typed (set_parameter name value c).
Proof.
  intros []. unfold set_parameter. cbv zeta.
  repeat case_match; try (eapply stops_map; [first [apply stops_protocol | apply stops_stoi | apply stops_tokens]|
    by intros; constructor]); by constructor.
Qed.

Lemma stops_lines lines c : typed c -> stops typed (parse_lines lines c).
Proof.
  revert c. induction lines as [|line lines IH]; intros c Hc; cbn [parse_lines]; [done|].
  unfold parse_line. destruct (after_char ":" line) as [value|]; [|done].
  pose proof (stops_parameter (strip_whitespace (before_char ":" line))
                (strip_whitespace (remove_comments value)) c Hc) as H.
  destruct (set_parameter _ _ c); auto.
Qed.

Lemma stops_parameters data : stops typed (parse_parameters data).
Proof. apply stops_lines. by constructor. Qed.

Definition typed_config (c : tl_config_t) : Prop := Forall typed (cfg_hosts c) /\ Forall typed (cfg_devices c).

Lemma stops_component r : typed_config (config r) -> stops typed_config (add_component r).
Proof.
  intros [Hh Hd]. unfold add_component. destruct (component r) as [|l data]; [done|].
  case_bool_decide; [done|]. pose proof (stops_parameters (l :: data)) as Hparams.
  destruct (parse_parameters (l :: data)); try done.
  repeat case_bool_decide; try done; (split; [|done]) || (split; [done|]); cbn;
    apply Forall_app; split; try done; by constructor.
Qed.

Lemma stops_finish r : typed_config (config r) -> stops (fun r => typed_config (config r)) (finish_component r).
Proof. intros Hr. eapply stops_map; [by apply stops_component|done]. Qed.

Lemma stops_line line r :
  typed_config (config r) -> stops (fun r => typed_config (config r)) (read_line line r).
Proof.
  intros Hr. pose proof (stops_finish r Hr) as Hf. unfold read_line.
  repeat case_match; try done; by eapply stops_map.
Qed.

Lemma stops_read_lines lines r :
  typed_config (config r) -> stops (fun r => typed_config (config r)) (read_lines lines r).
Proof.
  revert r. induction lines as [|line lines IH]; intros r Hr; cbn [read_lines]; [done|].
  pose proof (stops_line line r Hr) as H. destruct (read_line line r); auto.
Qed.


(** ** Printing a configuration *)

(** Words, each after a space. *)
Definition spaced (words : list string) : string :=
  foldr (fun w s => String " " (w +:+ s)) EmptyString words.

Definition protocol_name (p : tl_protocol_e) : string :=
  match p with
  | TL_UL => "TL-UL" | TL_UH => "TL-UH" | TL_C => "TL-C"
  | TL_C_ROM_TERM => "TL-C-ROM-TERM" | TL_C_IO_TERM => "TL-C-IO-TERM"
  end.

(** A component all of whose parameters are given. *)
Record parameters : Type := Parameters {
  p_protocol : tl_protocol_e;
  p_width : Z;
  p_first : Z;
  p_last : Z;
  p_size : Z;
  p_fifo : bool;
  p_deny : bool;
  p_bases : list Z;
  p_masks : list Z;
  p_targets : list Z;
}.

Definition complete (p : parameters) : tl_endpoint_config_t :=
  EndpointConfig (Some (p_protocol p)) (Some (p_width p)) (Some (p_first p)) (Some (p_last p))
    (Some (p_size p)) (Some (p_fifo p)) (Some (p_deny p)) (p_bases p) (p_masks p) (p_targets p).

Record printable (p : parameters) : Prop := {
  printable_width : int32 (p_width p);
  printable_first : int32 (p_first p);
  printable_last : int32 (p_last p);
  printable_size : int32 (p_size p);
  printable_bases : Forall int32 (p_bases p);
  printable_masks : Forall int32 (p_masks p);
  printable_targets : Forall int32 (p_targets p);
}.

(** [Name: words], after the protocol that comes first. *)
Definition parameter_line (name : string) (words : list string) : string :=
  name +:+ String ":" (spaced words).

Definition other_lines (p : parameters) : list string :=
  [ parameter_line "DataWidth" [decimal (p_width p)];
    parameter_line "FirstID" [decimal (p_first p)];
    parameter_line "LastID" [decimal (p_last p)];
    parameter_line "MaxSize" [decimal (p_size p)];
    parameter_line "Fifo" [decimal (Z.b2z (p_fifo p))];
    parameter_line "CanDeny" [decimal (Z.b2z (p_deny p))];
    parameter_line "SourceBase" (map decimal (p_bases p));
    parameter_line "SourceMask" (map decimal (p_masks p));
    parameter_line "SourceTarget" (map decimal (p_targets p)) ].

Definition protocol_line (p : parameters) : string :=
  parameter_line " Protocol" [protocol_name (p_protocol p)].

Definition print_component (p : parameters) : list string :=
  ("  -" +:+ protocol_line p) :: map (fun l => "    " +:+ l) (other_lines p).

Definition print_lines (hosts devices : list parameters) : list string :=
  "hosts:" :: concat (map print_component hosts) ++ "devices:" :: concat (map print_component devices).

Definition join_lines (lines : list string) : string :=
  foldr (fun l s => l +:+ String "010" s) EmptyString lines.

Definition print_config (hosts devices : list parameters) : string := join_lines (print_lines hosts devices).

(** ** Printed lines *)

Definition word_char (c : ascii) : bool := negb (is_space c) && not_char "#" c && not_char ":" c.

Definition word (w : string) : Prop := w <> EmptyString /\ all_chars word_char w = true.

Lemma word_decimal z : word (decimal z).
Proof.
  split; [apply decimal_nonempty|]. apply decimal_chars.
  intros c Hc. cbn in Hc. repeat (destruct Hc as [<- | Hc]; [done|]). done.
Qed.

Lemma words_decimal zs : Forall word (map decimal zs).
Proof. induction zs; constructor; [apply word_decimal|done]. Qed.

Lemma word_protocol p : word (protocol_name p).
Proof. by destruct p. Qed.

Lemma spaced_cons w words : spaced (w :: words) = String " " (w +:+ spaced words).
Proof. done. Qed.

Lemma spaced_chars (P : ascii -> bool) words :
  P " "%char = true -> (forall c, word_char c = true -> P c = true) ->
  Forall word words -> all_chars P (spaced words) = true.
Proof.
  intros Hspace HP. induction 1 as [|w words [_ Hw] _ IH]; [done|].
  rewrite spaced_cons. cbn [all_chars]. by rewrite Hspace, all_chars_app, IH, (all_chars_weaken _ _ _ HP Hw).
Qed.

Lemma word_char_inv c :
  word_char c = true -> is_space c = false /\ not_char "#" c = true /\ not_char ":" c = true.
Proof. unfold word_char. rewrite !andb_true_iff, negb_true_iff. tauto. Qed.

Lemma word_char_not_space c a : is_space a = true -> word_char c = true -> not_char a c = true.
Proof.
  intros Ha (Hc & _)%word_char_inv. unfold not_char. rewrite bool_decide_false; [done|]. congruence.
Qed.

Lemma word_solid w : word w -> erase_trailing w = w.
Proof.
  intros [_ Hw]. apply erase_trailing_solid. eapply all_chars_weaken, Hw.
  intros c (Hc & _)%word_char_inv. by rewrite Hc.
Qed.

Lemma erase_spaced words : Forall word words -> erase_trailing (spaced words) = spaced words.
Proof.
  induction 1 as [|w words Hw Hws IH]; [done|].
  rewrite spaced_cons. destruct words as [|w2 words].
  - cbn [spaced foldr]. rewrite append_nil_r. change (String " " w) with (String " " EmptyString +:+ w).
    apply erase_trailing_app; [apply Hw|by apply word_solid].
  - rewrite <- append_cons. by apply erase_trailing_app.
Qed.

(** The words of a value without the first space. *)
Definition listed (words : list string) : string :=
  match words with [] => EmptyString | w :: words => w +:+ spaced words end.

Lemma skip_word w s : word w -> skip_spaces (w +:+ s) = w +:+ s.
Proof.
  intros [Hne Hw]. destruct w as [|c w]; [done|]. rewrite append_cons. apply skip_spaces_head.
  cbn in Hw. apply andb_true_iff in Hw as [(? & _)%word_char_inv _]. done.
Qed.

Lemma strip_spaced words : Forall word words -> strip_whitespace (spaced words) = listed words.
Proof.
  intros Hws. unfold strip_whitespace. rewrite erase_spaced by done.
  destruct Hws as [|w words Hw Hws]; [done|]. rewrite spaced_cons. by apply skip_word.
Qed.

Lemma split_words words :
  Forall word words -> split_on " " (listed words) = match words with [] => [EmptyString] | _ => words end.
Proof.
  induction 1 as [|w words [_ Hw] Hws IH]; [done|]. cbn [listed].
  assert (Hc : all_chars (not_char " ") w = true)
    by (eapply all_chars_weaken, Hw; intros; by apply word_char_not_space).
  destruct words as [|w2 words].
  - cbn [spaced foldr]. rewrite append_nil_r. by apply split_on_none.
  - rewrite spaced_cons, split_on_app by done. f_equal. apply IH.
Qed.

Lemma parse_tokens_decimal zs : Forall int32 zs -> parse_tokens (map decimal zs) = Ok zs.
Proof.
  induction 1 as [|z zs Hz _ IH]; [done|]. rewrite map_cons. cbn [parse_tokens].
  rewrite bool_decide_false by apply decimal_nonempty. by rewrite stoi_decimal, IH.
Qed.

Lemma parse_int_list_decimal zs : Forall int32 zs -> parse_int_list (listed (map decimal zs)) = Ok zs.
Proof.
  intros Hzs. unfold parse_int_list. rewrite split_words by apply words_decimal.
  pose proof (parse_tokens_decimal zs Hzs) as Hp. destruct zs; [done|]. apply Hp.
Qed.

(** ** Reading printed lines *)

Lemma spaced_no_comment words : Forall word words -> all_chars (not_char "#") (spaced words) = true.
Proof. apply spaced_chars; [done|]. by intros c (_ & ? & _)%word_char_inv. Qed.

Lemma parse_printed name words c :
  all_chars (not_char ":") name = true -> Forall word words ->
  parse_line (parameter_line name words) c = set_parameter (strip_whitespace name) (listed words) c.
Proof.
  intros Hname Hws. unfold parse_line, parameter_line. rewrite after_char_app, before_char_app by done.
  unfold remove_comments. rewrite before_char_none by by apply spaced_no_comment.
  by rewrite strip_spaced.
Qed.

Lemma listed_one w : listed [w] = w.
Proof. apply append_nil_r. Qed.

Lemma bool_read b : int32 (Z.b2z b) /\ as_bool (Z.b2z b) = b.
Proof. unfold int32. by destruct b. Qed.

(** The lines of a component as the reader keeps them. *)
Definition kept_lines (p : parameters) : list string := protocol_line p :: other_lines p.

Lemma words_one w : word w -> Forall word [w].
Proof. intros Hw. by constructor. Qed.

Lemma parse_number name k z c :
  all_chars (not_char ":") name = true ->
  (forall v, set_parameter (strip_whitespace name) v c = outcome_map k (stoi v)) ->
  int32 z -> parse_line (parameter_line name [decimal z]) c = Ok (k z).
Proof.
  intros Hname Hk Hz. rewrite parse_printed, Hk, listed_one, stoi_decimal by done || apply words_one, word_decimal.
  done.
Qed.

Lemma parse_numbers name k zs c :
  all_chars (not_char ":") name = true ->
  (forall v, set_parameter (strip_whitespace name) v c = outcome_map k (parse_int_list v)) ->
  Forall int32 zs -> parse_line (parameter_line name (map decimal zs)) c = Ok (k zs).
Proof.
  intros Hname Hk Hzs. rewrite parse_printed, Hk, parse_int_list_decimal by done || apply words_decimal.
  done.
Qed.

Lemma parse_printed_protocol p c :
  parse_line (parameter_line " Protocol" [protocol_name p]) c = Ok (set_protocol p c).
Proof.
  rewrite parse_printed, listed_one by done || apply words_one, word_protocol.
  by destruct p.
Qed.

Lemma parse_kept p : printable p -> parse_parameters (kept_lines p) = Ok (complete p).
Proof.
  intros [Hw Hf Hl Hs Hb Hm Ht].
  destruct (bool_read (p_fifo p)) as [Hfifo Efifo], (bool_read (p_deny p)) as [Hdeny Edeny].
  unfold parse_parameters, kept_lines, other_lines, protocol_line. cbn [parse_lines].
  rewrite parse_printed_protocol. cbn [parse_lines].
  rewrite (parse_number "DataWidth" (fun v => set_data_width v _)) by done.
  rewrite (parse_number "FirstID" (fun v => set_first_id v _)) by done.
  rewrite (parse_number "LastID" (fun v => set_last_id v _)) by done.
  rewrite (parse_number "MaxSize" (fun v => set_max_size v _)) by done.
  rewrite (parse_number "Fifo" (fun v => set_fifo (as_bool v) _)) by done.
  rewrite (parse_number "CanDeny" (fun v => set_can_deny (as_bool v) _)) by done.
  rewrite (parse_numbers "SourceBase" (fun v => set_bases v _)) by done.
  rewrite (parse_numbers "SourceMask" (fun v => set_masks v _)) by done.
  rewrite (parse_numbers "SourceTarget" (fun v => set_targets v _)) by done.
  rewrite Efifo, Edeny. done.
Qed.

(** ** Reading a printed file *)

Lemma erase_printed a words :
  Forall word words -> erase_trailing (a +:+ String ":" (spaced words)) = a +:+ String ":" (spaced words).
Proof.
  intros Hws. apply erase_trailing_app; [done|]. cbn. by rewrite erase_spaced.
Qed.

Lemma skip_spaces_app a b : skip_spaces a <> EmptyString -> skip_spaces (a +:+ b) = skip_spaces a +:+ b.
Proof.
  induction a as [|c a IH]; [done|]. rewrite append_cons. cbn. destruct (is_space c); [auto|done].
Qed.

Lemma strip_printed a words :
  skip_spaces a <> EmptyString -> Forall word words ->
  strip_whitespace (a +:+ String ":" (spaced words)) = skip_spaces a +:+ String ":" (spaced words).
Proof. intros Ha Hws. unfold strip_whitespace. by rewrite erase_printed, skip_spaces_app. Qed.

Lemma not_empty_printed a words :
  all_chars (not_char "#") a = true -> skip_spaces a <> EmptyString -> Forall word words ->
  is_empty (a +:+ String ":" (spaced words)) = false.
Proof.
  intros Hc Ha Hws. unfold is_empty, remove_comments. rewrite before_char_none.
  - rewrite strip_printed by done. apply bool_decide_false. by destruct (skip_spaces a).
  - rewrite all_chars_app, Hc. cbn. by apply spaced_no_comment.
Qed.

(** A line that does not start a component is kept. *)
Lemma read_parameter name words r :
  In name ["DataWidth"; "FirstID"; "LastID"; "MaxSize"; "Fifo"; "CanDeny"; "SourceBase"; "SourceMask";
           "SourceTarget"] ->
  Forall word words ->
  read_line ("    " +:+ parameter_line name words) r = Ok (push_line (parameter_line name words) r).
Proof.
  intros Hname Hws. cbn in Hname. unfold read_line, parameter_line.
  repeat (destruct Hname as [<- | Hname];
    [match goal with |- context [is_empty (?a +:+ (?b +:+ ?c))] => change (a +:+ (b +:+ c)) with ((a +:+ b) +:+ c) end;
     rewrite not_empty_printed, strip_printed by done; done|]).
  done.
Qed.

(** The first line of a component finishes the one before. *)
Lemma read_protocol p r :
  read_line ("  -" +:+ protocol_line p) r = outcome_map (push_line (protocol_line p)) (finish_component r).
Proof.
  unfold read_line, protocol_line, parameter_line.
  change ("  -" +:+ (" Protocol" +:+ ?c)) with ("  - Protocol" +:+ c).
  rewrite not_empty_printed, strip_printed by done || apply words_one, word_protocol. done.
Qed.

Lemma read_other p r :
  read_lines (map (fun l => "    " +:+ l) (other_lines p)) r
  = Ok (Reader (config r) (section r) (component r ++ other_lines p)).
Proof.
  unfold other_lines. rewrite !map_cons. cbn [read_lines map].
  do 9 (rewrite read_parameter by first [cbn; tauto | apply words_one, word_decimal | apply words_decimal]).
  unfold push_line. cbn [config section component]. by rewrite <- !app_assoc.
Qed.

Lemma read_lines_app l1 l2 r :
  read_lines (l1 ++ l2) r = match read_lines l1 r with Ok r => read_lines l2 r | o => o end.
Proof.
  revert r. induction l1 as [|l l1 IH]; intros r; cbn; [done|]. by destruct (read_line l r).
Qed.

Lemma read_component p r r' :
  finish_component r = Ok r' -> component r' = [] ->
  read_lines (print_component p) r = Ok (Reader (config r') (section r') (kept_lines p)).
Proof.
  intros Hr Hc. unfold print_component. cbn [read_lines]. rewrite read_protocol, Hr. cbn [outcome_map].
  rewrite read_other. cbn. by rewrite Hc.
Qed.

Definition section_name (host : bool) : string := if host then "host" else "device".

Definition extend_config (host : bool) (es : list tl_endpoint_config_t) (c : tl_config_t) : tl_config_t :=
  if host then Config (cfg_hosts c ++ es) (cfg_devices c) else Config (cfg_hosts c) (cfg_devices c ++ es).

Lemma finish_kept host p c :
  printable p ->
  finish_component (Reader c (section_name host) (kept_lines p))
  = Ok (Reader (extend_config host [complete p] c) (section_name host) []).
Proof.
  intros Hp. unfold finish_component, add_component. cbn [component section config kept_lines].
  fold (kept_lines p). rewrite parse_kept by done. by destruct host.
Qed.

Lemma extend_config_nil host c : extend_config host [] c = c.
Proof. destruct c, host; cbn; by rewrite app_nil_r. Qed.

Lemma extend_config_app host es1 es2 c :
  extend_config host es2 (extend_config host es1 c) = extend_config host (es1 ++ es2) c.
Proof. destruct host; cbn; by rewrite app_assoc. Qed.

(** All the components of a section, given that what came before can be finished. *)
Lemma read_components host ps r c :
  Forall printable ps -> finish_component r = Ok (Reader c (section_name host) []) ->
  exists r', read_lines (concat (map print_component ps)) r = Ok r'
    /\ finish_component r' = Ok (Reader (extend_config host (map complete ps) c) (section_name host) []).
Proof.
  intros Hps. revert r c. induction Hps as [|p ps Hp Hps IH]; intros r c Hr.
  - exists r. by rewrite extend_config_nil.
  - rewrite map_cons. cbn [concat]. rewrite read_lines_app, (read_component p r _ Hr) by done.
    cbn [config section].
    destruct (IH (Reader c (section_name host) (kept_lines p)) (extend_config host [complete p] c)) as (r' & -> & Hr').
    { by apply finish_kept. }
    exists r'. split; [done|]. by rewrite Hr', extend_config_app.
Qed.

Lemma read_printed_lines hosts devices :
  Forall printable hosts -> Forall printable devices ->
  exists r, read_lines (print_lines hosts devices) (Reader (Config [] []) EmptyString []) = Ok r
    /\ add_component r = Ok (Config (map complete hosts) (map complete devices)).
Proof.
  intros Hh Hd. unfold print_lines. cbn [read_lines].
  change (read_line "hosts:" _) with (@Ok exn _ (Reader (Config [] []) "host" [])). cbv iota.
  destruct (read_components true hosts (Reader (Config [] []) "host" []) (Config [] []) Hh) as (r & Hr & Hf); [done|].
  rewrite read_lines_app, Hr. cbn [read_lines].
  assert (Hline : read_line "devices:" r
    = Ok (Reader (Config (map complete hosts) []) "device" [])).
  { change (read_line "devices:" r) with (outcome_map (set_section "device") (finish_component r)).
    rewrite Hf. done. }
  rewrite Hline.
  destruct (read_components false devices (Reader (Config (map complete hosts) []) "device" [])
              (Config (map complete hosts) []) Hd) as (r' & Hr' & Hf'); [done|].
  exists r'. split; [exact Hr'|]. unfold finish_component in Hf'.
  destruct (add_component r'); cbn in Hf'; by simplify_eq.
Qed.

(** Lines hold no line feed. *)
Definition one_line (l : string) : Prop := all_chars (not_char "010") l = true.

Lemma parameter_one_line name words : one_line name -> Forall word words -> one_line (parameter_line name words).
Proof.
  intros Hname Hws. unfold one_line, parameter_line. rewrite all_chars_app, Hname. cbn.
  apply spaced_chars; [done| |done]. intros c. by apply word_char_not_space.
Qed.

Lemma component_one_line p : Forall one_line (print_component p).
Proof.
  unfold print_component, protocol_line, other_lines. rewrite !map_cons. cbn [map].
  repeat constructor; unfold one_line; rewrite all_chars_app; cbn [all_chars andb not_char negb];
    first [apply (parameter_one_line _ _) | idtac];
    first [done | apply words_one, word_decimal | apply words_one, word_protocol | apply words_decimal].
Qed.

Lemma printed_one_line hosts devices : Forall one_line (print_lines hosts devices).
Proof.
  assert (H : forall ps, Forall one_line (concat (map print_component ps))).
  { induction ps as [|p ps IH]; [done|]. rewrite map_cons. cbn [concat].
    apply Forall_app. split; [apply component_one_line|done]. }
  unfold print_lines. constructor; [done|]. apply Forall_app. split; [done|]. by constructor.
Qed.

Lemma split_join lines : Forall one_line lines -> split_on "010" (join_lines lines) = lines ++ [EmptyString].
Proof.
  induction 1 as [|l lines Hl _ IH]; [done|].
  change (join_lines (l :: lines)) with (l +:+ String "010" (join_lines lines)).
  by rewrite split_on_app, IH.
Qed.

Lemma read_config_printed hosts devices :
  Forall printable hosts -> Forall printable devices ->
  read_config (Some (print_config hosts devices)) = Ok (Config (map complete hosts) (map complete devices)).
Proof.
  intros Hh Hd. unfold read_config, print_config. rewrite split_join by apply printed_one_line.
  destruct (read_printed_lines hosts devices Hh Hd) as (r & Hr & Ha).
  rewrite read_lines_app, Hr. exact Ha.
Qed.

(** C38: a configuration printed as a file, each component with its parameters in
    the documented layout, is read back as it was: every host and device in order,
    every number, flag, protocol and routing table. *)
Theorem config_round_trip (hosts devices : list parameters) :
  Forall printable hosts -> Forall printable devices ->
  read_config (Some (print_config hosts devices)) = Ok (Config (map complete hosts) (map complete devices)).
Proof. apply read_config_printed. Qed.

(** ** Concrete files *)

Module ConfigExample.

Definition host : parameters := Parameters TL_C 64 0 3 5 false true [] [] [].
Definition device : parameters := Parameters TL_UH 64 4 5 5 false true [4; 6] [1; -7] [1; 2].

Lemma config_round_trip_witness :
  read_config (Some (print_config [host] [device; device]))
  = Ok (Config (map complete [host]) (map complete [device; device])).
Proof.
  apply config_round_trip; repeat (first [apply Forall_cons | apply Forall_nil | split]);
    cbn; repeat (first [apply Forall_cons | apply Forall_nil | split]); by vm_compute.
Defined.

(** A device of the default configuration: the masks are written in hexadecimal. *)
Definition default_device : string := join_lines
  [ "devices:";
    "  - Protocol:  TL-C";
    "    DataWidth: 64";
    "    FirstID:   0";
    "    LastID:    3";
    "    MaxSize:   5";
    "    Fifo:      0";
    "    CanDeny:   1";
    "    # Routing table mapping source IDs to hosts. Some network components use";
    "    # source ID bits for out-of-band data, so this can change between devices.";
    "    SourceBase: 4 6";
    "    SourceMask: 0x1 0x1";
    "    SourceTarget: 1 2" ].

(** [stoi] reads decimal numbers: the masks are 0, and identifier 5 of the second
    host is taken for one of the first host. *)
Example hexadecimal_masks_read_as_zero :
  read_config (Some default_device)
  = Ok (Config [] [complete (Parameters TL_C 64 0 3 5 false true [4; 6] [0; 0] [1; 2])])
  /\ RoutingTable.get_owner (RoutingTable.Table [4; 6] [0; 0] [1; 2]) 5 = 0
  /\ RoutingTable.get_owner (RoutingTable.Table [4; 6] [1; 1] [1; 2]) 5 = 1.
Proof. split_and!; vm_compute; reflexivity. Qed.

End ConfigExample.
