(* ===== verification/TlChannels.v ===== *)
(** * TileLink channel ends

    [tl_channels.h]/[tl_channels.cc]: the senders and receivers of the five
    channels. The templates [TileLinkSender] and [TileLinkReceiver] are the modules
    [Sender] and [Receiver]; the class [SenderMethods] has the virtual methods and
    the channel's specialisation of [tl_message]. *)

From S2P Require Import Prelude Exceptions TileLink TlEndpoint TlMessages.

(** The signals of one channel of a port of the device under test. The sender
    drives [valid] and [data], the receiver [ready]. *)
Record wires (C : Type) : Type := Wires { valid : bool; ready : bool; data : C }.
Arguments Wires {C} valid ready data.
Arguments valid {C} w.
Arguments ready {C} w.
Arguments data {C} w.

Definition set_valid {C} (v : bool) (w : wires C) : wires C := Wires v (ready w) (data w).
Definition set_ready {C} (r : bool) (w : wires C) : wires C := Wires (valid w) r (data w).
Definition set_data {C} (d : C) (w : wires C) : wires C := Wires (valid w) (ready w) d.

(** ** [TileLinkSender] *)

Module Sender.

(** The fields of the template; [requests] are those of the specialisation: the
    requests that it has to respond to. *)
Record sender (C Q : Type) : Type := Sender {
  ids_in_use : gset Z;
  to_send : list (tl_message C);
  modifications : list (gmap string Z);
  beat_accepted : bool;
  requests : Q;
}.
Arguments Sender {C Q} ids_in_use to_send modifications beat_accepted requests.
Arguments ids_in_use {C Q} s.
Arguments to_send {C Q} s.
Arguments modifications {C Q} s.
Arguments beat_accepted {C Q} s.
Arguments requests {C Q} s.

Definition make {C Q} (q : Q) : sender C Q := Sender ∅ [] [] false q.

(** The sender, its channel and the random number generator. *)
Record state (C Q G : Type) : Type := State {
  self : sender C Q;
  channel : wires C;
  generator : G;
}.
Arguments State {C Q G} self channel generator.
Arguments self {C Q G} s.
Arguments channel {C Q G} s.
Arguments generator {C Q G} s.

Section fields.

Context {C Q G : Type}.

Implicit Types (s : sender C Q) (w : state C Q G).

Definition set_ids (ids : gset Z) s : sender C Q :=
  Sender ids (to_send s) (modifications s) (beat_accepted s) (requests s).
Definition set_to_send (l : list (tl_message C)) s : sender C Q :=
  Sender (ids_in_use s) l (modifications s) (beat_accepted s) (requests s).
Definition set_modifications (l : list (gmap string Z)) s : sender C Q :=
  Sender (ids_in_use s) (to_send s) l (beat_accepted s) (requests s).
Definition set_accepted (b : bool) s : sender C Q :=
  Sender (ids_in_use s) (to_send s) (modifications s) b (requests s).
Definition set_requests (q : Q) s : sender C Q :=
  Sender (ids_in_use s) (to_send s) (modifications s) (beat_accepted s) q.

Definition on_self (f : sender C Q -> sender C Q) w : state C Q G :=
  State (f (self w)) (channel w) (generator w).
Definition on_channel (f : wires C -> wires C) w : state C Q G :=
  State (self w) (f (channel w)) (generator w).

Abbreviation M := (M exn (state C Q G)).

(** Code that only draws numbers. *)
Definition draw {A} (k : Prelude.M exn G A) : M A :=
  zoom generator (fun g w => State (self w) (channel w) g) k.

(** *** The queues *)

Definition push (m : tl_message C) : M unit :=
  modify (on_self (fun s => set_to_send (to_send s ++ [m]) s)).

(** [to_send.pop()]: undefined on an empty queue. *)
Definition pop : M unit :=
  s ← gets self;
  match to_send s with
  | [] => fail Undefined
  | _ :: l => modify (on_self (set_to_send l))
  end.

Definition front : M (tl_message C) :=
  s ← gets self;
  match to_send s with [] => fail Undefined | m :: _ => mret m end.

(** Assignment through the reference [to_send.front()]. *)
Definition set_front (m : tl_message C) : M unit :=
  modify (on_self (fun s => set_to_send (match to_send s with [] => [] | _ :: l => m :: l end) s)).

Definition change_next_beat (updates : gmap string Z) : M unit :=
  modify (on_self (fun s => set_modifications (modifications s ++ [updates]) s)).

(** *** Transactions *)

Definition start_transaction (id : Z) : M unit :=
  s ← gets self;
  ids ← fail (TransactionId.start_transaction id (ids_in_use s));
  modify (on_self (set_ids ids)).

Definition end_transaction (id : Z) : M unit :=
  s ← gets self;
  ids ← fail (TransactionId.end_transaction id (ids_in_use s));
  modify (on_self (set_ids ids)).

(** *** Reordering *)

(** Move the front response to the back, if it has not been started and the last
    response is complete. *)
Definition reorder (l : list (tl_message C)) : list (tl_message C) :=
  match l with
  | [] => []
  | m :: l' => if negb (in_progress m) && from_option complete false (list.last l)
               then l' ++ [m] else l
  end.

Definition reorder_responses : M unit :=
  modify (on_self (fun s => set_to_send (reorder (to_send s)) s)).

End fields.

(** Move the front request to the back. *)
Definition rotate {A} (l : list A) : list A :=
  match l with [] => [] | a :: l => l ++ [a] end.

(** *** The virtual methods *)

Class SenderMethods (C Q G : Type) : Type := {
  next_beat : bool -> tl_message C -> M exn G (C * tl_message C);
  modify_beat : C -> gmap string Z -> C;
  is_fifo : bool;
  respond : M exn (state C Q G) unit;
  reorder_requests : Q -> Q;
}.

Section cycle.

Context {C Q G : Type} `{Random G} {methods : SenderMethods C Q G}.

Abbreviation M := (M exn (state C Q G)).

(** A message is no longer valid once it has been accepted. *)
Definition set_flow_control : M unit :=
  s ← gets self;
  when (beat_accepted s) (modify (on_channel (set_valid false)));;
  modify (on_self (set_accepted false)).

Definition get_inputs (randomise : bool) : M unit :=
  w ← gets channel;
  when (valid w && ready w) (modify (on_self (set_accepted true))).

(** A draw that is made only when [randomise] is set. *)
Definition chance (randomise : bool) (permille : Z) : M bool :=
  if (randomise : bool) then draw (random_bool permille) else mret false.

(** Withdraw the beat from the channel. *)
Definition retract : M unit :=
  modify (on_channel (set_valid false));;
  m ← front;
  set_front (unsend m).

(** Clear out completed messages. *)
Definition pop_finished : M unit :=
  s ← gets self;
  match to_send s with
  | m :: _ => when (finished m) pop
  | [] => mret tt
  end.

Definition reorder_all : M unit :=
  modify (on_self (fun s => set_requests (reorder_requests (requests s)) s));;
  reorder_responses.

(** The next modification, if there is one, and the beat it is applied to. *)
Definition apply_modification (beat : C) : M (C * gmap string Z) :=
  s ← gets self;
  match modifications s with
  | [] => mret (beat, ∅)
  | updates :: l =>
      modify (on_self (set_modifications l));;
      mret (modify_beat beat updates, updates)
  end.

Definition has (updates : gmap string Z) (name : string) : bool :=
  bool_decide (is_Some (updates !! name)).

(** Generate a beat of the front message and put it on the channel. *)
Definition send_beat (randomise : bool) : M unit :=
  m ← front;
  b ← draw (next_beat randomise m);
  set_front (snd b);;
  r ← apply_modification (fst b);
  when (has (snd r) "duplicate_beat") (set_front (unsend (snd b)));;
  when (negb (has (snd r) "drop_beat"))
    (modify (on_channel (set_data (fst r)));; modify (on_channel (set_valid true))).

(** The first message can be sent now. *)
Definition can_send_front : M bool :=
  s ← gets self;
  match to_send s with [] => mret false | m :: _ => mret (can_send m) end.

Definition set_outputs (randomise : bool) : M unit :=
  w ← gets channel;
  kept ← (if valid w then
            s ← gets self;
            assert_that (negb (bool_decide (to_send s = [])));;
            r ← chance randomise 200;
            if (r : bool) then retract;; mret false else mret true
          else mret false);
  if (kept : bool) then mret tt else
  pop_finished;;
  shuffle ← (if is_fifo then mret false else chance randomise 500);
  when shuffle reorder_all;;
  answer ← (if (randomise : bool) then draw (random_bool 800) else mret true);
  when answer respond;;
  can ← can_send_front;
  if (can : bool) then
    stall ← chance randomise 200;
    when (negb stall) (send_beat randomise)
  else mret tt.

End cycle.

(** *** Answering queued requests

    The loop that every channel has: answer the requests that are in the queue at
    its start, in order. A request for which no identifier is available stops a
    FIFO sender and goes to the end of the queue otherwise. [view] and [update]
    select the queue among the specialisation's fields. The result tells whether
    the loop came to its end. *)
Section answering.

Context {C Q G R : Type}.

Abbreviation M := (M exn (state C Q G)).

Variables (view : Q -> list R) (update : list R -> Q -> Q).
Variables (fifo : bool) (respond1 : R -> M unit).

Definition pop_request : M unit :=
  modify (on_self (fun s => set_requests (update (drop 1 (view (requests s))) (requests s)) s)).
Definition push_request (r : R) : M unit :=
  modify (on_self (fun s => set_requests (update (view (requests s) ++ [r]) (requests s)) s)).

(** [try { respond(...); } catch (NoAvailableIDException&)]: was it caught? *)
Definition no_identifier_left (k : M unit) : M bool :=
  try_catch (k;; mret false)
    (fun e => if bool_decide (e = NoAvailableIDException) then Some (mret true) else None).

Fixpoint answer (n : nat) : M bool :=
  match n with
  | O => mret true
  | S n =>
      s ← gets self;
      match view (requests s) with
      | [] => fail Undefined
      | r :: _ =>
          failed ← no_identifier_left (respond1 r);
          if (failed : bool) && fifo then mret false
          else when failed (push_request r);; pop_request;; answer n
      end
  end.

Definition answer_all : M bool :=
  s ← gets self;
  answer (length (view (requests s))).

End answering.

End Sender.

(** ** [TileLinkReceiver] *)

Module Receiver.

Record receiver : Type := Receiver { beats_remaining : Z; ready_for_beat : bool }.

Definition make : receiver := Receiver 0 true.

Definition all_beats_arrived (r : receiver) : bool := beats_remaining r =? 0.

(** A beat of a message of the given size has arrived at endpoint [e]. *)
Definition new_beat_arrived (e : endpoint) (size : Z) (r : receiver) : receiver :=
  let remaining := if all_beats_arrived r then beats_of_size e size else beats_remaining r in
  Receiver (remaining - 1) (ready_for_beat r).

Section cycle.

(** [W] is the endpoint that the receiver is part of, which [handle_beat] works on. *)
Context {C W G : Type} `{Random G}.

Variables (self : W -> receiver) (set_self : receiver -> W -> W).
Variables (channel : W -> wires C) (set_channel : wires C -> W -> W).
Variables (generator : W -> G) (set_generator : G -> W -> W).
Variable handle_beat : bool -> C -> M exn W unit.

Definition set_flow_control : M exn W unit :=
  modify (fun w => set_channel (set_ready (ready_for_beat (self w)) (channel w)) w).

Definition get_inputs (randomise : bool) : M exn W unit :=
  r ← gets self;
  c ← gets channel;
  when (valid c && ready_for_beat r) (handle_beat randomise (data c));;
  next ← (if (randomise : bool) then zoom generator set_generator (random_bool 800) else mret true);
  modify (fun w => set_self (Receiver (beats_remaining (self w)) next) w).

Definition set_outputs (randomise : bool) : M exn W unit := mret tt.

End cycle.

End Receiver.

(** ** The senders of the five channels

    [e] is the endpoint that a sender belongs to, [net] the endpoints of the
    simulation; [fuel] bounds draws that go on until they succeed. A sender without
    requests of its own has [unit] for its queues. *)

Section senders.

Context {G : Type} `{Random G} `{Indeterminate}.
Context (fuel : nat) (net : network) (e : endpoint).

Import Sender.

(** A message is created from the identifiers in use. *)
Definition create {C Q A} (k : gset Z -> M exn G A) : M exn (state C Q G) A :=
  s ← gets self;
  draw (k (ids_in_use s)).

(** *** Channel A *)

Definition methods_a : SenderMethods tl_a unit G := {|
  next_beat := next_beat_a; modify_beat := modify_a; is_fifo := fifo e;
  respond := mret tt; reorder_requests q := q;
|}.

Definition queue_request_a (randomise : bool) (requirements : gmap string Z)
    : M exn (state tl_a unit G) unit :=
  s ← gets self;
  if TransactionId.can_start_new_transaction e (ids_in_use s) then
    request ← create (fun ids => a_request fuel net e ids randomise requirements);
    push request;;
    start_transaction (a_source (header request))
  else mret tt.

(** *** Channel B *)

Abbreviation queue_b := (list (bool * tl_a)).

Definition set_b_source (source : Z) (m : tl_message tl_b) : tl_message tl_b :=
  let h := header m in
  Message (channel_width_bytes m) (beats_to_send m) (beats_ready m) (beats_generated m)
    (BeatB (b_opcode h) (b_param h) (b_size h) source (b_address h)).

(** Hosts whose caches are probed. *)
Definition probed (h : endpoint) : bool := bool_decide (protocol h = TL_C).

(** The identifier of a probe to the host at a position, and the probe. *)
Definition probe_for (h : endpoint) (m : tl_message tl_b) : outcome exn (tl_message tl_b * Z) :=
  match device_routing_id e (position h) with
  | Ok source => let m := set_b_source source m in
                 Ok (m, get_b_id e source (b_address (header m)))
  | o => outcome_cast o Undefined
  end.

(** The loop of [respond(bool, tl_a&)] on the hosts that remain. *)
Fixpoint probe_hosts (l : list endpoint) (response : tl_message tl_b)
    : M exn (state tl_b queue_b G) unit :=
  match l with
  | [] => mret tt
  | h :: l =>
      if probed h then
        p ← fail (probe_for h response);
        s ← gets self;
        (if TransactionId.available (ids_in_use s) (snd p) then mret tt
         else throw NoAvailableIDException);;
        push (fst p);;
        start_transaction (snd p);;
        probe_hosts l (fst p)
      else probe_hosts l response
  end.

Definition respond_b_to_a (request : bool * tl_a) : M exn (state tl_b queue_b G) unit :=
  assert_that (bool_decide (protocol e = TL_C));;
  response ← draw (b_response e (snd request) (fst request));
  probe_hosts (hosts net) response.

Definition methods_b : SenderMethods tl_b queue_b G := {|
  next_beat := next_beat_b; modify_beat := modify_b; is_fifo := fifo e;
  respond := (answer_all id (fun q _ => q) (fifo e) respond_b_to_a;; mret tt);
  reorder_requests := rotate;
|}.

(** The first loop of [queue_request]: the probes, or [None] if an identifier is in
    use. *)
Fixpoint pending_probes (ids : gset Z) (l : list endpoint) (request : tl_message tl_b)
    : outcome exn (option (list (tl_message tl_b))) :=
  match l with
  | [] => Ok (Some [])
  | h :: l =>
      if probed h then
        match probe_for h request with
        | Ok (m, id) =>
            if TransactionId.available ids id then
              match pending_probes ids l m with
              | Ok (Some ms) => Ok (Some (m :: ms))
              | o => o
              end
            else Ok None
        | o => outcome_cast o Undefined
        end
      else pending_probes ids l request
  end.

(** The second loop. *)
Fixpoint send_probes (ms : list (tl_message tl_b)) : M exn (state tl_b queue_b G) unit :=
  match ms with
  | [] => mret tt
  | m :: ms =>
      push m;;
      start_transaction (get_b_id e (b_source (header m)) (b_address (header m)));;
      send_probes ms
  end.

Definition queue_request_b (randomise : bool) (requirements : gmap string Z)
    : M exn (state tl_b queue_b G) unit :=
  s ← gets self;
  if bool_decide (protocol e = TL_C) && TransactionId.can_start_new_transaction e (ids_in_use s) then
    request ← create (fun ids => b_request fuel net e ids randomise requirements);
    s ← gets self;
    pending ← fail (pending_probes (ids_in_use s) (hosts net) request);
    match pending with Some ms => send_probes ms | None => mret tt end
  else mret tt.

(** *** Channel C *)

Abbreviation queue_c := (list (bool * tl_b)).

Definition respond_c_to_b (request : bool * tl_b) : M exn (state tl_c queue_c G) unit :=
  assert_that (bool_decide (protocol e = TL_C) || bool_decide (protocol e = TL_C_IO_TERM));;
  response ← draw (c_response e (snd request) (fst request));
  push response.

Definition methods_c : SenderMethods tl_c queue_c G := {|
  next_beat := next_beat_c; modify_beat := modify_c; is_fifo := fifo e;
  respond := (answer_all id (fun q _ => q) (fifo e) respond_c_to_b;; mret tt);
  reorder_requests := rotate;
|}.

Definition queue_request_c (randomise : bool) (requirements : gmap string Z)
    : M exn (state tl_c queue_c G) unit :=
  s ← gets self;
  if (bool_decide (protocol e = TL_C) || bool_decide (protocol e = TL_C_ROM_TERM))
     && TransactionId.can_start_new_transaction e (ids_in_use s) then
    request ← create (fun ids => c_request fuel net e ids randomise requirements);
    push request;;
    when (c_requires_response (c_opcode (header request)))
      (start_transaction (c_source (header request)))
  else mret tt.

(** *** Channel D *)

Record queue_d : Type := QueueD {
  a_requests : list (bool * tl_a);
  c_requests : list (bool * tl_c);
  lock_output_buffer : bool;
}.

Definition set_a_requests (l : list (bool * tl_a)) (q : queue_d) : queue_d :=
  QueueD l (c_requests q) (lock_output_buffer q).
Definition set_c_requests (l : list (bool * tl_c)) (q : queue_d) : queue_d :=
  QueueD (a_requests q) l (lock_output_buffer q).
Definition set_lock (b : bool) : M exn (state tl_d queue_d G) unit :=
  modify (on_self (fun s => set_requests (QueueD (a_requests (requests s)) (c_requests (requests s)) b) s)).

Definition atomic (op : tl_a_op_e) : bool :=
  match op with ArithmeticData | LogicalData => true | _ => false end.

(** Assignment through [to_send.back()]. *)
Definition set_back (m : tl_message tl_d) : M exn (state tl_d queue_d G) unit :=
  modify (on_self (fun s => set_to_send (removelast (to_send s) ++ [m]) s)).

(** The message at the back, if it waits for further beats of its request. *)
Definition unfinished_back (s : sender tl_d queue_d) : option (tl_message tl_d) :=
  match list.last (to_send s) with
  | Some m => if complete m then None else Some m
  | None => None
  end.

(** Default: generate a new response and put it in the buffer. *)
Definition new_response_a (request : bool * tl_a) : M exn (state tl_d queue_d G) unit :=
  s ← gets self;
  assert_that (negb (lock_output_buffer (requests s)));;
  response ← create (fun ids => d_response_a fuel e ids (snd request) (fst request));
  push response;;
  set_lock (negb (complete response));;
  when (d_requires_response (d_opcode (header response)))
    (start_transaction (d_sink (header response))).

Definition respond_d_to_a (request : bool * tl_a) : M exn (state tl_d queue_d G) unit :=
  s ← gets self;
  match (if atomic (a_opcode (snd request)) then unfinished_back s else None) with
  | Some m =>
      m ← fail (new_beat_ready m);
      set_back m;;
      set_lock (negb (complete m))
  | None => new_response_a request
  end.

Definition respond_d_to_c (request : bool * tl_c) : M exn (state tl_d queue_d G) unit :=
  s ← gets self;
  assert_that (negb (lock_output_buffer (requests s)));;
  response ← create (fun ids => d_response_c e (snd request) (fst request));
  push response;;
  when (d_requires_response (d_opcode (header response)))
    (start_transaction (d_sink (header response))).

(** The output buffer may become locked if only a partial response has been queued
    so far. *)
Definition respond_d : M exn (state tl_d queue_d G) unit :=
  done ← answer_all a_requests set_a_requests (fifo e) respond_d_to_a;
  s ← gets self;
  when (done && negb (lock_output_buffer (requests s)))
    (answer_all c_requests set_c_requests (fifo e) respond_d_to_c;; mret tt).

(** Atomic requests can have several beats, which have to stay together. *)
Definition reorder_requests_d (q : queue_d) : queue_d :=
  let keep := match a_requests q, list.last (a_requests q) with
              | (_, first) :: _, Some (_, last) => atomic (a_opcode first) || atomic (a_opcode last)
              | _, _ => true
              end in
  QueueD (if keep then a_requests q else rotate (a_requests q)) (rotate (c_requests q))
    (lock_output_buffer q).

Definition methods_d : SenderMethods tl_d queue_d G := {|
  next_beat := next_beat_d; modify_beat := modify_d; is_fifo := fifo e;
  respond := respond_d; reorder_requests := reorder_requests_d;
|}.

(** *** Channel E *)

Abbreviation queue_e := (list (bool * tl_d)).

Definition respond_e_to_d (request : bool * tl_d) : M exn (state tl_e queue_e G) unit :=
  assert_that (protocol_value TL_UH <? protocol_value (protocol e));;
  response ← draw (e_response e (snd request) (fst request));
  push response.

Definition methods_e : SenderMethods tl_e queue_e G := {|
  next_beat := next_beat_e; modify_beat := modify_e; is_fifo := fifo e;
  respond := (answer_all id (fun q _ => q) (fifo e) respond_e_to_d;; mret tt);
  reorder_requests := rotate;
|}.

(** [handle_request]: queue a request that has to be answered. *)
Definition handle_request {C Q R} (view : Q -> list R) (update : list R -> Q -> Q) (r : R)
    : M exn (state C Q G) unit := push_request view update r.

End senders.
