(* ===== verification/TlHarness.v ===== *)
(** * TileLink hosts, devices and the simulation

    The classes [TileLinkHost] and [TileLinkDevice] of [tl_channels.h], the receivers'
    [handle_beat] of [tl_channels.cc], and the cycle of [tl_harness.h]. The device
    under test is a parameter: the network that connects the ports. *)

From S2P Require Import Prelude Exceptions MainMemory Simulation.
From S2P Require Import TileLink TlEndpoint TlMessages TlChannels.

Import Sender.

(** A port of the device under test: [host_a_valid_i[i]] and so on, for one [i]. *)
Record links : Type := Links {
  link_a : wires tl_a;
  link_b : wires tl_b;
  link_c : wires tl_c;
  link_d : wires tl_d;
  link_e : wires tl_e;
}.

Definition set_link_a (w : wires tl_a) (l : links) : links :=
  Links w (link_b l) (link_c l) (link_d l) (link_e l).
Definition set_link_b (w : wires tl_b) (l : links) : links :=
  Links (link_a l) w (link_c l) (link_d l) (link_e l).
Definition set_link_c (w : wires tl_c) (l : links) : links :=
  Links (link_a l) (link_b l) w (link_d l) (link_e l).
Definition set_link_d (w : wires tl_d) (l : links) : links :=
  Links (link_a l) (link_b l) (link_c l) w (link_e l).
Definition set_link_e (w : wires tl_e) (l : links) : links :=
  Links (link_a l) (link_b l) (link_c l) (link_d l) w.

(** An endpoint object, its port and the random number generator. *)
Record world (E G : Type) : Type := World { me : E; port : links; random : G }.
Arguments World {E G} me port random.
Arguments me {E G} w.
Arguments port {E G} w.
Arguments random {E G} w.

Definition set_me {E G} (e : E) (w : world E G) : world E G := World e (port w) (random w).
Definition set_port {E G} (l : links) (w : world E G) : world E G := World (me w) l (random w).
Definition set_random {E G} (g : G) (w : world E G) : world E G := World (me w) (port w) g.

(** ** [TileLinkHost] *)

Module TileLinkHost.

Record host : Type := Host {
  endpoint : TlEndpoint.endpoint;
  a : sender tl_a unit;
  b : Receiver.receiver;
  c : sender tl_c (list (bool * tl_b));
  d : Receiver.receiver;
  e : sender tl_e (list (bool * tl_d));
}.

Definition make (p : TlEndpoint.endpoint) : host :=
  Host p (Sender.make tt) Receiver.make (Sender.make []) Receiver.make (Sender.make []).

Definition set_a x (h : host) : host := Host (endpoint h) x (b h) (c h) (d h) (e h).
Definition set_b x (h : host) : host := Host (endpoint h) (a h) x (c h) (d h) (e h).
Definition set_c x (h : host) : host := Host (endpoint h) (a h) (b h) x (d h) (e h).
Definition set_d x (h : host) : host := Host (endpoint h) (a h) (b h) (c h) x (e h).
Definition set_e x (h : host) : host := Host (endpoint h) (a h) (b h) (c h) (d h) x.

Section operations.

Context {G : Type} `{Random G} `{Indeterminate}.
Context (fuel : nat) (net : network).

Abbreviation W := (world host G).
Abbreviation M := (M exn W).

(** Run code of a sender on the sender, its channel and the generator. *)
Definition on_a {A} (k : Prelude.M exn (state tl_a unit G) A) : M A :=
  zoom (fun w => State (a (me w)) (link_a (port w)) (random w))
    (fun s w => World (set_a (self s) (me w)) (set_link_a (channel s) (port w)) (generator s)) k.
Definition on_c {A} (k : Prelude.M exn (state tl_c (list (bool * tl_b)) G) A) : M A :=
  zoom (fun w => State (c (me w)) (link_c (port w)) (random w))
    (fun s w => World (set_c (self s) (me w)) (set_link_c (channel s) (port w)) (generator s)) k.
Definition on_e {A} (k : Prelude.M exn (state tl_e (list (bool * tl_d)) G) A) : M A :=
  zoom (fun w => State (e (me w)) (link_e (port w)) (random w))
    (fun s w => World (set_e (self s) (me w)) (set_link_e (channel s) (port w)) (generator s)) k.

(** *** Received beats *)

Definition arrived_d (size : Z) : M unit :=
  modify (fun w => set_me (set_d (Receiver.new_beat_arrived (endpoint (me w)) size (d (me w))) (me w)) w).
Definition all_arrived_d : M bool := gets (fun w => Receiver.all_beats_arrived (d (me w))).

(** [TileLinkReceiverB::handle_beat]. *)
Definition handle_b (randomise : bool) (beat : tl_b) : M unit :=
  match b_opcode beat with
  | ProbeBlock | ProbePerm => on_c (handle_request id (fun q _ => q) (randomise, beat))
  | B_OTHER _ => fail AssertFail
  end.

(** [TileLinkReceiverD::handle_beat]; other opcodes match no case. *)
Definition handle_d (randomise : bool) (beat : tl_d) : M unit :=
  match d_opcode beat with
  | AccessAck | HintAck => on_a (end_transaction (d_source beat))
  | AccessAckData =>
      arrived_d (d_size beat);;
      last ← all_arrived_d;
      when last (on_a (end_transaction (d_source beat)))
  | ReleaseAck => on_c (end_transaction (d_source beat))
  | Grant =>
      on_a (end_transaction (d_source beat));;
      on_e (handle_request id (fun q _ => q) (randomise, beat))
  | GrantData =>
      arrived_d (d_size beat);;
      last ← all_arrived_d;
      when last
        (on_a (end_transaction (d_source beat));;
         on_e (handle_request id (fun q _ => q) (randomise, beat)))
  | D_OTHER _ => mret tt
  end.

(** *** A clock cycle *)

Definition set_flow_control : M unit :=
  on_a Sender.set_flow_control;;
  Receiver.set_flow_control (fun w => b (me w)) (fun w => link_b (port w))
    (fun x w => set_port (set_link_b x (port w)) w);;
  on_c Sender.set_flow_control;;
  Receiver.set_flow_control (fun w => d (me w)) (fun w => link_d (port w))
    (fun x w => set_port (set_link_d x (port w)) w);;
  on_e Sender.set_flow_control.

Definition get_inputs (randomise : bool) : M unit :=
  on_a (Sender.get_inputs randomise);;
  Receiver.get_inputs (fun w => b (me w)) (fun x w => set_me (set_b x (me w)) w)
    (fun w => link_b (port w)) random set_random handle_b randomise;;
  on_c (Sender.get_inputs randomise);;
  Receiver.get_inputs (fun w => d (me w)) (fun x w => set_me (set_d x (me w)) w)
    (fun w => link_d (port w)) random set_random handle_d randomise;;
  on_e (Sender.get_inputs randomise).

Definition queue_request_a (randomise : bool) (requirements : gmap string Z) : M unit :=
  p ← gets (fun w => endpoint (me w));
  on_a (TlChannels.queue_request_a fuel net p randomise requirements).
Definition queue_request_c (randomise : bool) (requirements : gmap string Z) : M unit :=
  p ← gets (fun w => endpoint (me w));
  on_c (TlChannels.queue_request_c fuel net p randomise requirements).

(** Randomly inject new requests. *)
Definition inject : M unit :=
  new_a ← zoom random set_random (random_bool 100);
  when new_a (queue_request_a true ∅);;
  new_c ← zoom random set_random (random_bool 100);
  when new_c (queue_request_c true ∅).

Definition set_outputs (randomise : bool) : M unit :=
  when randomise inject;;
  p ← gets (fun w => endpoint (me w));
  on_a (Sender.set_outputs (methods := methods_a p) randomise);;
  Receiver.set_outputs randomise;;
  on_c (Sender.set_outputs (methods := methods_c p) randomise);;
  Receiver.set_outputs randomise;;
  on_e (Sender.set_outputs (methods := methods_e p) randomise).

End operations.

End TileLinkHost.

(** ** [TileLinkDevice] *)

Module TileLinkDevice.

Record device : Type := Device {
  endpoint : TlEndpoint.endpoint;
  a : Receiver.receiver;
  b : sender tl_b (list (bool * tl_a));
  c : Receiver.receiver;
  d : sender tl_d queue_d;
  e : Receiver.receiver;
}.

Definition make (p : TlEndpoint.endpoint) : device :=
  Device p Receiver.make (Sender.make []) Receiver.make (Sender.make (QueueD [] [] false))
    Receiver.make.

Definition set_a x (h : device) : device := Device (endpoint h) x (b h) (c h) (d h) (e h).
Definition set_b x (h : device) : device := Device (endpoint h) (a h) x (c h) (d h) (e h).
Definition set_c x (h : device) : device := Device (endpoint h) (a h) (b h) x (d h) (e h).
Definition set_d x (h : device) : device := Device (endpoint h) (a h) (b h) (c h) x (e h).
Definition set_e x (h : device) : device := Device (endpoint h) (a h) (b h) (c h) (d h) x.

Section operations.

Context {G : Type} `{Random G} `{Indeterminate}.
Context (fuel : nat) (net : network).

Abbreviation W := (world device G).
Abbreviation M := (M exn W).

Definition on_b {A} (k : Prelude.M exn (state tl_b (list (bool * tl_a)) G) A) : M A :=
  zoom (fun w => State (b (me w)) (link_b (port w)) (random w))
    (fun s w => World (set_b (self s) (me w)) (set_link_b (channel s) (port w)) (generator s)) k.
Definition on_d {A} (k : Prelude.M exn (state tl_d queue_d G) A) : M A :=
  zoom (fun w => State (d (me w)) (link_d (port w)) (random w))
    (fun s w => World (set_d (self s) (me w)) (set_link_d (channel s) (port w)) (generator s)) k.

(** *** Received beats *)

Definition arrived_a (size : Z) : M unit :=
  modify (fun w => set_me (set_a (Receiver.new_beat_arrived (endpoint (me w)) size (a (me w))) (me w)) w).
Definition all_arrived_a : M bool := gets (fun w => Receiver.all_beats_arrived (a (me w))).
Definition arrived_c (size : Z) : M unit :=
  modify (fun w => set_me (set_c (Receiver.new_beat_arrived (endpoint (me w)) size (c (me w))) (me w)) w).
Definition all_arrived_c : M bool := gets (fun w => Receiver.all_beats_arrived (c (me w))).

Definition answer_a_on_d (request : bool * tl_a) : M unit :=
  on_d (handle_request a_requests set_a_requests request).
Definition answer_c_on_d (request : bool * tl_c) : M unit :=
  on_d (handle_request c_requests set_c_requests request).

(** [TileLinkReceiverA::handle_beat]: a put is answered when all of it has arrived,
    an acquire on channels B and D. *)
Definition handle_a (randomise : bool) (beat : tl_a) : M unit :=
  match a_opcode beat with
  | PutFullData | PutPartialData =>
      arrived_a (a_size beat);;
      last ← all_arrived_a;
      when last (answer_a_on_d (randomise, beat))
  | ArithmeticData | LogicalData | Get | Intent => answer_a_on_d (randomise, beat)
  | AcquireBlock | AcquirePerm =>
      on_b (handle_request id (fun q _ => q) (randomise, beat));;
      answer_a_on_d (randomise, beat)
  | A_OTHER _ => mret tt
  end.

(** The end of the probe of the host that owns the source. *)
Definition end_probe (source address : Z) : M unit :=
  p ← gets (fun w => endpoint (me w));
  on_b (end_transaction (get_b_id p source address)).

(** [TileLinkReceiverC::handle_beat]. *)
Definition handle_c (randomise : bool) (beat : tl_c) : M unit :=
  p ← gets (fun w => endpoint (me w));
  assert_that (bool_decide (protocol p = TL_C));;
  match c_opcode beat with
  | ProbeAck => end_probe (c_source beat) (c_address beat)
  | ProbeAckData =>
      arrived_c (c_size beat);;
      last ← all_arrived_c;
      when last (end_probe (c_source beat) (align (c_address beat) (u64 (int_shl (c_size beat)))))
  | Release => answer_c_on_d (randomise, beat)
  | ReleaseData =>
      arrived_c (c_size beat);;
      last ← all_arrived_c;
      when last (answer_c_on_d (randomise, beat))
  | C_OTHER _ => mret tt
  end.

(** [TileLinkReceiverE::handle_beat]. *)
Definition handle_e (randomise : bool) (beat : tl_e) : M unit :=
  p ← gets (fun w => endpoint (me w));
  assert_that (bool_decide (protocol p = TL_C));;
  on_d (end_transaction (e_sink beat)).

(** *** A clock cycle *)

Definition set_flow_control : M unit :=
  Receiver.set_flow_control (fun w => a (me w)) (fun w => link_a (port w))
    (fun x w => set_port (set_link_a x (port w)) w);;
  on_b Sender.set_flow_control;;
  Receiver.set_flow_control (fun w => c (me w)) (fun w => link_c (port w))
    (fun x w => set_port (set_link_c x (port w)) w);;
  on_d Sender.set_flow_control;;
  Receiver.set_flow_control (fun w => e (me w)) (fun w => link_e (port w))
    (fun x w => set_port (set_link_e x (port w)) w).

Definition get_inputs (randomise : bool) : M unit :=
  Receiver.get_inputs (fun w => a (me w)) (fun x w => set_me (set_a x (me w)) w)
    (fun w => link_a (port w)) random set_random handle_a randomise;;
  on_b (Sender.get_inputs randomise);;
  Receiver.get_inputs (fun w => c (me w)) (fun x w => set_me (set_c x (me w)) w)
    (fun w => link_c (port w)) random set_random handle_c randomise;;
  on_d (Sender.get_inputs randomise);;
  Receiver.get_inputs (fun w => e (me w)) (fun x w => set_me (set_e x (me w)) w)
    (fun w => link_e (port w)) random set_random handle_e randomise.

Definition queue_request_b (randomise : bool) (requirements : gmap string Z) : M unit :=
  p ← gets (fun w => endpoint (me w));
  on_b (TlChannels.queue_request_b fuel net p randomise requirements).

(** Randomly inject new requests. *)
Definition inject : M unit :=
  new_b ← zoom random set_random (random_bool 50);
  when new_b (queue_request_b true ∅).

Definition set_outputs (randomise : bool) : M unit :=
  when randomise inject;;
  p ← gets (fun w => endpoint (me w));
  Receiver.set_outputs randomise;;
  on_b (Sender.set_outputs (methods := methods_b net p) randomise);;
  Receiver.set_outputs randomise;;
  on_d (Sender.set_outputs (methods := methods_d fuel p) randomise);;
  Receiver.set_outputs randomise.

End operations.

End TileLinkDevice.

(** ** [TileLinkSimulation] *)

(** The class [Vtl_wrapper], generated from the RTL: the ports of all hosts and
    devices, and its internal state [X]. *)
Record dut (X : Type) : Type := Dut {
  host_ports : list links;
  device_ports : list links;
  rtl : X;
}.
Arguments Dut {X} host_ports device_ports rtl.
Arguments host_ports {X} d.
Arguments device_ports {X} d.
Arguments rtl {X} d.

Class Wrapper (X : Type) : Type := {
  eval : dut X -> dut X;
  final : dut X -> dut X;
  set_clk_i : Z -> dut X -> dut X;
  set_rst_ni : Z -> dut X -> dut X;
}.

Module TileLinkSimulation.

(** The hosts and devices, the device under test, the generator, whether traffic is
    random, and the other members of the base class [Simulation<DUT>]: arguments,
    settings, the time in half cycles and the calls on waveform files. (What only the
    subclass [RISCVSimulation] adds to them is never used here.) *)
Record simulation (X G : Type) : Type := Sim {
  hosts : list TileLinkHost.host;
  devices : list TileLinkDevice.device;
  under_test : dut X;
  generator : G;
  randomise : bool;
  base : Simulation.simulation unit;
}.
Arguments Sim {X G} hosts devices under_test generator randomise base.
Arguments hosts {X G} s.
Arguments devices {X G} s.
Arguments under_test {X G} s.
Arguments generator {X G} s.
Arguments randomise {X G} s.
Arguments base {X G} s.

Section operations.

Context {X G : Type} `{Random G} `{Indeterminate} `{Wrapper X} `{TraceFormats}.

Context (fuel : nat).

Implicit Types s : simulation X G.

Abbreviation M := (M exn (simulation X G)).

Definition on_dut (f : dut X -> dut X) s : simulation X G :=
  Sim (hosts s) (devices s) (f (under_test s)) (generator s) (randomise s) (base s).
Definition set_randomise (b : bool) s : simulation X G :=
  Sim (hosts s) (devices s) (under_test s) (generator s) b (base s).
Definition set_generator (g : G) s : simulation X G :=
  Sim (hosts s) (devices s) (under_test s) g (randomise s) (base s).
Definition set_base (b : Simulation.simulation unit) s : simulation X G :=
  Sim (hosts s) (devices s) (under_test s) (generator s) (randomise s) b.

(** [hosts.push_back(h)] and [devices.push_back(d)]. *)
Definition add_host (h : TileLinkHost.host) s : simulation X G :=
  Sim (hosts s ++ [h]) (devices s) (under_test s) (generator s) (randomise s) (base s).
Definition add_device (d : TileLinkDevice.device) s : simulation X G :=
  Sim (hosts s) (devices s ++ [d]) (under_test s) (generator s) (randomise s) (base s).

(** Run code of the base class. *)
Definition on_base {A} (k : Prelude.M exn (Simulation.simulation unit) A) : M A :=
  zoom base set_base k.

(** [this->cycle += 0.5]. *)
Definition half_cycle : M unit :=
  on_base (modify (fun b => Simulation.set_cycle (Simulation.cycle b + 1) b)).

(** Run code of a host on the host with its port: undefined outside of the arrays. *)
Definition on_host {A} (i : nat) (k : Prelude.M exn (world TileLinkHost.host G) A) : M A :=
  fun s =>
    match hosts s !! i, host_ports (under_test s) !! i with
    | Some h, Some l =>
        let '(o, w) := k (World h l (generator s)) in
        let t := under_test s in
        (o, Sim (<[i := me w]> (hosts s)) (devices s)
              (Dut (<[i := port w]> (host_ports t)) (device_ports t) (rtl t))
              (random w) (randomise s) (base s))
    | _, _ => (Undefined, s)
    end.
Definition on_device {A} (i : nat) (k : Prelude.M exn (world TileLinkDevice.device G) A) : M A :=
  fun s =>
    match devices s !! i, device_ports (under_test s) !! i with
    | Some h, Some l =>
        let '(o, w) := k (World h l (generator s)) in
        let t := under_test s in
        (o, Sim (hosts s) (<[i := me w]> (devices s))
              (Dut (host_ports t) (<[i := port w]> (device_ports t)) (rtl t))
              (random w) (randomise s) (base s))
    | _, _ => (Undefined, s)
    end.

(** The loop over an array of [n] elements from index [i]. *)
Fixpoint for_each (n i : nat) (k : nat -> M unit) : M unit :=
  match n with O => mret tt | S n => k i;; for_each n (S i) k end.

Definition all_endpoints (kh : Prelude.M exn (world TileLinkHost.host G) unit)
    (kd : Prelude.M exn (world TileLinkDevice.device G) unit) : M unit :=
  s ← get;
  for_each (length (hosts s)) 0 (fun i => on_host i kh);;
  for_each (length (devices s)) 0 (fun i => on_device i kd).

(** [host(i)] and [device(i)] as other endpoints see them. *)
Definition endpoints s : network :=
  Network (map TileLinkHost.endpoint (hosts s)) (map TileLinkDevice.endpoint (devices s)).

Definition set_flow_control : M unit :=
  all_endpoints TileLinkHost.set_flow_control TileLinkDevice.set_flow_control.
Definition set_outputs : M unit :=
  s ← get;
  all_endpoints (TileLinkHost.set_outputs fuel (endpoints s) (randomise s))
    (TileLinkDevice.set_outputs fuel (endpoints s) (randomise s)).
Definition get_inputs : M unit :=
  s ← get;
  all_endpoints (TileLinkHost.get_inputs (randomise s)) (TileLinkDevice.get_inputs (randomise s)).

Definition cycle_first_half : M unit :=
  modify (on_dut eval);;
  set_flow_control;;
  set_outputs.
Definition cycle_second_half : M unit :=
  modify (on_dut eval);;
  get_inputs.

Definition next_cycle : M unit :=
  modify (on_dut (set_clk_i 1));;
  cycle_first_half;;
  on_base Simulation.base_trace_state_change;;
  half_cycle;;
  modify (on_dut (set_clk_i 0));;
  cycle_second_half;;
  on_base Simulation.base_trace_state_change;;
  half_cycle.

Fixpoint cycles (n : nat) : M unit :=
  match n with O => mret tt | S n => next_cycle;; cycles n end.

(** [run]: random traffic, then a drain. *)
Definition run (random : bool) (duration drain : Z) : M unit :=
  modify (set_randomise random);;
  cycles (Z.to_nat duration);;
  modify (set_randomise false);;
  cycles (Z.to_nat drain).

(** [reset] of the base class. *)
Fixpoint toggle_clock (n : nat) (t : dut X) : dut X :=
  match n with
  | O => t
  | S n => toggle_clock n (eval (set_clk_i 0 (eval (set_clk_i 1 t))))
  end.
Definition reset : M unit :=
  modify (on_dut (set_rst_ni 0));;
  modify (on_dut (toggle_clock 10));;
  modify (on_dut (set_rst_ni 1)).

(** [end_simulation] of the base class. *)
Definition end_simulation : M unit := modify (on_dut final).

End operations.

End TileLinkSimulation.
