(* ===== verification/TlReceiver.v ===== *)
(** * TileLink receivers: beats assembled into messages

    What hosts and devices do when all beats of a message have arrived, for the
    messages of channels A, C and D: each is handled once, however many beats it
    has, and ends its transaction or queues its answer. *)

From S2P Require Import Prelude Exceptions TileLink TlEndpoint TlMessages TlMessagesTheorems.
From S2P Require Import TlChannels TlHarness.

Import Sender.

(** ** Counting beats *)

(** The endpoint's and the message's computation of the number of beats agree, if the
    channel is a whole number of bytes wide. *)
Lemma beats_of_size_data e size :
  bit_width e = 8 * width_bytes e -> 0 < width_bytes e -> 0 <= size < 28 ->
  beats_of_size e size = num_beats true size (width_bytes e).
Proof.
  intros He Hw Hs. unfold beats_of_size, num_beats, size_to_bits, size_to_bytes.
  rewrite He. remember (width_bytes e) as w eqn:Ew. clear Ew.
  pose proof (int_shl_pow size ltac:(lia)) as Hp. rewrite Hp.
  pose proof (Z.pow_pos_nonneg 2 size ltac:(lia) ltac:(lia)) as Hpos.
  remember (2 ^ size) as p eqn:Ep. clear Ep Hp. rewrite Z.quot_mul_cancel_l by lia.
  rewrite Z.quot_div_nonneg by lia.
  destruct (Z.ltb_spec (8 * w) (8 * p)).
  - assert (1 <= p / w) by (apply Z.div_le_lower_bound; lia). lia.
  - assert (p / w <= 1) by (apply Z.div_le_upper_bound; lia). lia.
Qed.

Section counting.

Context {C W : Type}.

(** A receiver inside of the endpoint [W]. *)
Variables (get : W -> Receiver.receiver) (set : Receiver.receiver -> W -> W) (owner : W -> endpoint).
Hypothesis get_set : forall x w, get (set x w) = x.
Hypothesis set_set : forall x y w, set y (set x w) = set y w.
Hypothesis owner_set : forall x w, owner (set x w) = owner w.

(** The endpoint takes messages of this channel. *)
Variable admits : W -> bool.
Hypothesis admits_set : forall x w, admits (set x w) = admits w.

Variables (size : Z) (complete : C -> M exn W unit).

(** The code that the receivers share: count the beat, and act on the last one. *)
Definition counted (beat : C) : M exn W unit :=
  ok ← gets admits;
  assert_that ok;;
  modify (fun w => set (Receiver.new_beat_arrived (owner w) size (get w)) w);;
  last ← gets (fun w => Receiver.all_beats_arrived (get w));
  when last (complete beat).

(** [n] beats are expected: the rest of a message, or all of a new one. *)
Definition expected (w : W) (n : Z) : Prop :=
  Receiver.beats_remaining (get w) = n
  \/ (Receiver.beats_remaining (get w) = 0 /\ beats_of_size (owner w) size = n).

Definition counted_down (w : W) : W := set (Receiver.Receiver 0 (Receiver.ready_for_beat (get w))) w.

Lemma counted_all bs b w :
  admits w = true -> expected w (Z.of_nat (length (bs ++ [b]))) ->
  each counted (bs ++ [b]) w = complete b (counted_down w).
Proof using get_set set_set owner_set admits_set.
  revert w. induction bs as [|c bs IH]; intros w Hadm Hw.
  - cbn [app]. rewrite each_one. unfold counted. erewrite bind_ok by done. rewrite Hadm.
    erewrite bind_ok by done. erewrite bind_ok by done. erewrite bind_ok by done.
    cbv beta. rewrite get_set. unfold Receiver.new_beat_arrived, Receiver.all_beats_arrived.
    destruct Hw as [Hw|[Hw Hs]]; rewrite Hw; cbn [Z.eqb length app Z.of_nat] in *.
    + cbn. done.
    + rewrite Hs. cbn. done.
  - cbn [app each]. cbn [app length] in Hw. set (n := Z.of_nat (length (bs ++ [b]))) in *.
    assert (Hn : 0 < n) by (unfold n; rewrite length_app; cbn; lia).
    assert (Hrest : Receiver.beats_remaining (Receiver.new_beat_arrived (owner w) size (get w)) = n).
    { unfold Receiver.new_beat_arrived, Receiver.all_beats_arrived. cbn.
      destruct Hw as [Hw|[Hw Hs]]; rewrite Hw; [|cbn; lia].
      replace (Z.of_nat (S (length (bs ++ [b])))) with (n + 1) in Hw |- * by lia.
      rewrite (proj2 (Z.eqb_neq _ 0)) by lia. lia. }
    assert (Hc : counted c w = (Ok tt, set (Receiver.new_beat_arrived (owner w) size (get w)) w)).
    { unfold counted. erewrite bind_ok by done. rewrite Hadm.
      erewrite bind_ok by done. erewrite bind_ok by done. erewrite bind_ok by done. cbv beta.
      rewrite get_set. unfold Receiver.all_beats_arrived at 1. rewrite Hrest.
      rewrite (proj2 (Z.eqb_neq _ 0)) by lia. done. }
    erewrite bind_ok by exact Hc. rewrite IH.
    + unfold counted_down. by rewrite get_set, set_set.
    + by rewrite admits_set.
    + left. by rewrite get_set.
Qed.

End counting.

(** ** Hosts: responses on channel D *)

Section host.

Context {G : Type}.

Implicit Types (w : world TileLinkHost.host G) (h : TileLinkHost.host).

Import TileLinkHost.

(** What a host does with a whole message, whose last beat is [beat]. *)
Definition end_a (id : Z) h : host := set_a (set_ids (ids_in_use (a h) ∖ {[id]}) (a h)) h.
Definition end_c (id : Z) h : host := set_c (set_ids (ids_in_use (c h) ∖ {[id]}) (c h)) h.
Definition acknowledge (r : bool) (beat : tl_d) h : host :=
  set_e (set_requests (requests (e h) ++ [(r, beat)]) (e h)) h.

Definition response_effect (r : bool) (beat : tl_d) h : host :=
  match d_opcode beat with
  | AccessAck | HintAck | AccessAckData => end_a (d_source beat) h
  | ReleaseAck => end_c (d_source beat) h
  | Grant | GrantData => acknowledge r beat (end_a (d_source beat) h)
  | D_OTHER _ => h
  end.

(** The identifiers among which the source of a response has to be. *)
Definition awaited (op : tl_d_op_e) h : gset Z :=
  match op with ReleaseAck => ids_in_use (c h) | _ => ids_in_use (a h) end.

Lemma on_a_run {A} (k : M exn (state tl_a unit G) A) w :
  on_a k w = (fst (k (State (a (me w)) (link_a (port w)) (random w))),
              let s := snd (k (State (a (me w)) (link_a (port w)) (random w))) in
              World (set_a (self s) (me w)) (set_link_a (channel s) (port w)) (generator s)).
Proof. unfold on_a, zoom. by destruct (k _). Qed.

Lemma world_same {E} (x : world E G) : World (me x) (port x) (random x) = x.
Proof. by destruct x. Qed.

Lemma same_link_a (l : links) : set_link_a (link_a l) l = l.
Proof. by destruct l. Qed.
Lemma same_link_c (l : links) : set_link_c (link_c l) l = l.
Proof. by destruct l. Qed.
Lemma same_link_e (l : links) : set_link_e (link_e l) l = l.
Proof. by destruct l. Qed.

Lemma end_transaction_run {C Q} (s : sender C Q) c (g : G) id :
  id ∈ ids_in_use s ->
  end_transaction id (State s c g) = (Ok tt, State (set_ids (ids_in_use s ∖ {[id]}) s) c g).
Proof.
  intros Hid. unfold end_transaction. erewrite bind_ok by done. cbv beta. cbn [self].
  unfold TransactionId.end_transaction, TransactionId.available.
  by rewrite bool_decide_eq_false_2 by (intros Hn; by apply Hn).
Qed.

Lemma end_on_a id w :
  id ∈ ids_in_use (a (me w)) -> on_a (end_transaction id) w = (Ok tt, set_me (end_a id (me w)) w).
Proof.
  intros Hid. unfold on_a, zoom. rewrite end_transaction_run by done. cbn.
  by rewrite same_link_a.
Qed.

Lemma end_on_c id w :
  id ∈ ids_in_use (c (me w)) -> on_c (end_transaction id) w = (Ok tt, set_me (end_c id (me w)) w).
Proof.
  intros Hid. unfold on_c, zoom. rewrite end_transaction_run by done. cbn.
  by rewrite same_link_c.
Qed.

Lemma acknowledge_on_e r beat w :
  on_e (handle_request id (fun q _ => q) (r, beat)) w = (Ok tt, set_me (acknowledge r beat (me w)) w).
Proof. unfold on_e, zoom. cbn. by rewrite same_link_e. Qed.

(** What [handle_d] does when all beats of a message have arrived. *)
Definition last_beat (r : bool) (beat : tl_d) : M exn (world host G) unit :=
  match d_opcode beat with
  | AccessAck | HintAck | AccessAckData => on_a (end_transaction (d_source beat))
  | ReleaseAck => on_c (end_transaction (d_source beat))
  | Grant | GrantData =>
      on_a (end_transaction (d_source beat));;
      on_e (handle_request id (fun q _ => q) (r, beat))
  | D_OTHER _ => mret tt
  end.

Lemma last_beat_run r beat w :
  d_source beat ∈ awaited (d_opcode beat) (me w) ->
  last_beat r beat w = (Ok tt, set_me (response_effect r beat (me w)) w).
Proof.
  unfold last_beat, awaited, response_effect.
  destruct (d_opcode beat); intros Hid; rewrite ?bind_run, ?end_on_a, ?end_on_c by done;
    rewrite ?acknowledge_on_e; try done. by destruct w.
Qed.

(** Beats that belong to the same message. *)
Definition same_response (h b : tl_d) : Prop :=
  d_opcode b = d_opcode h /\ d_size b = d_size h /\ d_source b = d_source h.

(** Beats in a message of the given opcode and size, as endpoint [p] counts them. *)
Definition response_beats (p : TlEndpoint.endpoint) (hd : tl_d) : Z :=
  if d_has_payload (d_opcode hd) then beats_of_size p (d_size hd) else 1.

Lemma response_run r hd bs b w :
  Receiver.beats_remaining (d (me w)) = 0 ->
  Forall (same_response hd) (bs ++ [b]) ->
  Z.of_nat (length (bs ++ [b])) = response_beats (endpoint (me w)) hd ->
  d_source hd ∈ awaited (d_opcode hd) (me w) ->
  each (handle_d r) (bs ++ [b]) w = (Ok tt, set_me (response_effect r b (me w)) w).
Proof.
  intros Hz Hall Hlen Hid. pose proof Hall as [_ Hb]%Forall_app. apply Forall_inv in Hb as (Hop & Hsize & Hsrc).
  rewrite <- Hop, <- Hsrc in Hid. unfold response_beats in Hlen.
  destruct (d_has_payload (d_opcode hd)) eqn:Hp.
  - rewrite (each_ext _ (counted (fun w => d (me w)) (fun x w => set_me (set_d x (me w)) w)
      (fun w => endpoint (me w)) (fun _ => true) (d_size hd) (last_beat r))).
    + rewrite counted_all by (try done; right; by split).
      assert (Hw : counted_down (fun w => d (me w)) (fun x w => set_me (set_d x (me w)) w) w = w).
      { destruct w as [[p0 a0 b0 c0 [rem rdy] e0] l g]. cbn in Hz. subst rem. done. }
      rewrite Hw. by apply last_beat_run.
    + eapply Forall_impl; [|exact Hall]. intros x (Hox & Hsx & _) w'.
      unfold handle_d, counted, last_beat. rewrite Hox, Hsx. by destruct (d_opcode hd).
  - destruct bs as [|? bs]; [|rewrite length_app in Hlen; cbn in Hlen; lia].
    cbn [app]. rewrite each_one, <- (last_beat_run r b w Hid). unfold handle_d, last_beat.
    rewrite Hop. by destruct (d_opcode hd).
Qed.

End host.

(** ** Devices: requests on channel A, and channel C *)

Section device.

Context {G : Type}.

Implicit Types (w : world TileLinkDevice.device G) (h : TileLinkDevice.device).

Import TileLinkDevice.

Definition queue_on_d (l : list (bool * tl_a)) h : device :=
  set_d (set_requests (set_a_requests (a_requests (requests (d h)) ++ l) (requests (d h))) (d h)) h.
Definition release_on_d (l : list (bool * tl_c)) h : device :=
  set_d (set_requests (set_c_requests (c_requests (requests (d h)) ++ l) (requests (d h))) (d h)) h.
Definition queue_on_b (l : list (bool * tl_a)) h : device :=
  set_b (set_requests (requests (b h) ++ l) (b h)) h.
Definition end_b (id : Z) h : device := set_b (set_ids (ids_in_use (b h) ∖ {[id]}) (b h)) h.

(** What a device does with the whole message [bs], whose last beat is [beat]: an
    atomic operation is answered beat by beat, any other request once, and an
    acquire is also probed for. *)
Definition request_effect (r : bool) (bs : list tl_a) (beat : tl_a) h : device :=
  match a_opcode beat with
  | PutFullData | PutPartialData | Get | Intent => queue_on_d [(r, beat)] h
  | ArithmeticData | LogicalData => queue_on_d (map (pair r) bs) h
  | AcquireBlock | AcquirePerm => queue_on_d [(r, beat)] (queue_on_b [(r, beat)] h)
  | A_OTHER _ => h
  end.

Lemma same_link_b (l : links) : set_link_b (link_b l) l = l.
Proof. by destruct l. Qed.
Lemma same_link_d (l : links) : set_link_d (link_d l) l = l.
Proof. by destruct l. Qed.

Lemma answer_a_run req w : answer_a_on_d req w = (Ok tt, set_me (queue_on_d [req] (me w)) w).
Proof. unfold answer_a_on_d, on_d, zoom. cbn. by rewrite same_link_d. Qed.
Lemma answer_c_run req w : answer_c_on_d req w = (Ok tt, set_me (release_on_d [req] (me w)) w).
Proof. unfold answer_c_on_d, on_d, zoom. cbn. by rewrite same_link_d. Qed.
Lemma probe_run req w :
  on_b (handle_request id (fun q _ => q) req) w = (Ok tt, set_me (queue_on_b [req] (me w)) w).
Proof. unfold on_b, zoom. cbn. by rewrite same_link_b. Qed.

Lemma queue_on_d_app l1 l2 h : queue_on_d l2 (queue_on_d l1 h) = queue_on_d (l1 ++ l2) h.
Proof. unfold queue_on_d, set_requests, set_d. cbn. by rewrite app_assoc. Qed.

Lemma queue_on_d_nil h : queue_on_d [] h = h.
Proof.
  destruct h as [p x0 x1 x2 [ids ts ms ac [qa qc lk]] x4]. unfold queue_on_d, set_requests, set_d. cbn.
  by rewrite app_nil_r.
Qed.

(** Beats that belong to the same message. *)
Definition same_request (h b : tl_a) : Prop :=
  a_opcode b = a_opcode h /\ a_size b = a_size h.

Definition request_beats (p : TlEndpoint.endpoint) (hd : tl_a) : Z :=
  if a_has_payload (a_opcode hd) then beats_of_size p (a_size hd) else 1.

Definition last_put (r : bool) (beat : tl_a) : M exn (world device G) unit :=
  answer_a_on_d (r, beat).

Lemma put_run r hd bs b w :
  a_opcode hd = PutFullData \/ a_opcode hd = PutPartialData ->
  Receiver.beats_remaining (a (me w)) = 0 ->
  Forall (same_request hd) (bs ++ [b]) ->
  Z.of_nat (length (bs ++ [b])) = beats_of_size (endpoint (me w)) (a_size hd) ->
  each (handle_a r) (bs ++ [b]) w = (Ok tt, set_me (queue_on_d [(r, b)] (me w)) w).
Proof.
  intros Hput Hz Hall Hlen.
  rewrite (each_ext _ (counted (fun w => a (me w)) (fun x w => set_me (set_a x (me w)) w)
    (fun w => endpoint (me w)) (fun _ => true) (a_size hd) (fun beat => answer_a_on_d (r, beat)))).
  - rewrite counted_all by (try done; right; by split).
    assert (Hw : counted_down (fun w => a (me w)) (fun x w => set_me (set_a x (me w)) w) w = w).
    { destruct w as [[p0 [rem rdy] b0 c0 d0 e0] l g]. cbn in Hz. subst rem. done. }
    rewrite Hw. apply answer_a_run.
  - eapply Forall_impl; [|exact Hall]. intros x (Hox & Hsx) w'.
    unfold handle_a, counted. rewrite Hox, Hsx. by destruct Hput as [-> | ->].
Qed.

Lemma atomic_beats_run r bs w :
  Forall (fun b => a_opcode b = ArithmeticData \/ a_opcode b = LogicalData) bs ->
  each (handle_a r) bs w = (Ok tt, set_me (queue_on_d (map (pair r) bs) (me w)) w).
Proof.
  intros Hall. pose (after := fun l => set_me (queue_on_d (map (pair r) l) (me w)) w).
  replace w with (after []) at 1 by (unfold after; cbn; rewrite queue_on_d_nil; by destruct w).
  apply (each_run _ after). intros l1 x l2 ->.
  apply Forall_app in Hall as [_ Hx%Forall_inv]. unfold handle_a.
  destruct Hx as [-> | ->]; rewrite answer_a_run; unfold after; rewrite map_app, <- queue_on_d_app; done.
Qed.

Lemma request_run r hd bs b w :
  Receiver.beats_remaining (a (me w)) = 0 ->
  Forall (same_request hd) (bs ++ [b]) ->
  Z.of_nat (length (bs ++ [b])) = request_beats (endpoint (me w)) hd ->
  each (handle_a r) (bs ++ [b]) w = (Ok tt, set_me (request_effect r (bs ++ [b]) b (me w)) w).
Proof.
  intros Hz Hall Hlen. pose proof Hall as [_ Hb]%Forall_app. apply Forall_inv in Hb as (Hop & Hsize).
  unfold request_beats, request_effect in *. rewrite Hop.
  destruct (a_has_payload (a_opcode hd)) eqn:Hp.
  - destruct (a_opcode hd) eqn:Ho; try discriminate Hp.
    1, 2: apply (put_run r hd bs b w); auto.
    all: apply atomic_beats_run; eapply Forall_impl; [|exact Hall]; intros x [-> _]; rewrite Ho; auto.
  - destruct bs as [|? bs]; [|rewrite length_app in Hlen; cbn in Hlen; lia].
    cbn [app]. rewrite each_one. unfold handle_a. rewrite Hop.
    destruct (a_opcode hd); try discriminate Hp; try apply answer_a_run; try (by destruct w).
    all: erewrite bind_ok by apply probe_run; by rewrite answer_a_run.
Qed.

(** *** Channel C *)

Definition same_c (h b : tl_c) : Prop :=
  c_opcode b = c_opcode h /\ c_size b = c_size h /\ c_source b = c_source h /\ c_address b = c_address h.

Definition c_beats (p : TlEndpoint.endpoint) (hd : tl_c) : Z :=
  if c_has_payload (c_opcode hd) then beats_of_size p (c_size hd) else 1.

(** The probe that an answer ends: identified by source and address, for answers
    with data by the first address of the block. *)
Definition answered_probe (p : TlEndpoint.endpoint) (beat : tl_c) : Z :=
  get_b_id p (c_source beat)
    (match c_opcode beat with
     | ProbeAckData => align (c_address beat) (u64 (int_shl (c_size beat)))
     | _ => c_address beat
     end).

Definition c_effect (r : bool) (beat : tl_c) h : device :=
  match c_opcode beat with
  | ProbeAck | ProbeAckData => end_b (answered_probe (endpoint h) beat) h
  | Release | ReleaseData => release_on_d [(r, beat)] h
  | C_OTHER _ => h
  end.

(** The probe that an answer ends has been sent. *)
Definition expected_c (beat : tl_c) h : Prop :=
  match c_opcode beat with
  | ProbeAck | ProbeAckData => answered_probe (endpoint h) beat ∈ ids_in_use (b h)
  | _ => True
  end.

Lemma end_probe_run source address w :
  get_b_id (endpoint (me w)) source address ∈ ids_in_use (b (me w)) ->
  end_probe source address w
  = (Ok tt, set_me (end_b (get_b_id (endpoint (me w)) source address) (me w)) w).
Proof.
  intros Hid. unfold end_probe. erewrite bind_ok by done. cbv beta. unfold on_b, zoom.
  rewrite end_transaction_run by done. cbn. by rewrite same_link_b.
Qed.

Definition last_c (r : bool) (beat : tl_c) : M exn (world device G) unit :=
  match c_opcode beat with
  | ProbeAck => end_probe (c_source beat) (c_address beat)
  | ProbeAckData => end_probe (c_source beat) (align (c_address beat) (u64 (int_shl (c_size beat))))
  | Release | ReleaseData => answer_c_on_d (r, beat)
  | C_OTHER _ => mret tt
  end.

Lemma last_c_run r beat w :
  expected_c beat (me w) -> last_c r beat w = (Ok tt, set_me (c_effect r beat (me w)) w).
Proof.
  unfold last_c, expected_c, c_effect, answered_probe.
  destruct (c_opcode beat); intros Hid; rewrite ?end_probe_run, ?answer_c_run by done; try done.
  by destruct w.
Qed.

Lemma c_message_run r hd bs b w :
  protocol (endpoint (me w)) = TL_C ->
  Receiver.beats_remaining (c (me w)) = 0 ->
  Forall (same_c hd) (bs ++ [b]) ->
  Z.of_nat (length (bs ++ [b])) = c_beats (endpoint (me w)) hd ->
  expected_c b (me w) ->
  each (handle_c r) (bs ++ [b]) w = (Ok tt, set_me (c_effect r b (me w)) w).
Proof.
  intros Hc Hz Hall Hlen Hid. pose proof Hall as [_ Hb]%Forall_app.
  apply Forall_inv in Hb as (Hop & Hsize & Hsrc & Haddr). rewrite <- (last_c_run r b w Hid).
  unfold c_beats in Hlen. destruct (c_has_payload (c_opcode hd)) eqn:Hp.
  - rewrite (each_ext _ (counted (fun w => c (me w)) (fun x w => set_me (set_c x (me w)) w)
      (fun w => endpoint (me w)) (fun w => bool_decide (protocol (endpoint (me w)) = TL_C))
      (c_size hd) (last_c r))).
    + rewrite counted_all; try done; [|by rewrite bool_decide_eq_true_2|right; by split].
      assert (Hw : counted_down (fun w => c (me w)) (fun x w => set_me (set_c x (me w)) w) w = w).
      { destruct w as [[p0 a0 b0 [rem rdy] d0 e0] l g]. cbn in Hz. subst rem. done. }
      by rewrite Hw.
    + eapply Forall_impl; [|exact Hall]. intros x (Hox & Hsx & _ & _) w'.
      unfold handle_c, counted, last_c. rewrite Hox, Hsx. by destruct (c_opcode hd).
  - destruct bs as [|? bs]; [|rewrite length_app in Hlen; cbn in Hlen; lia].
    cbn [app]. rewrite each_one. unfold handle_c, last_c. erewrite bind_ok by done.
    rewrite bool_decide_eq_true_2 by done. erewrite bind_ok by done. rewrite Hop.
    by destruct (c_opcode hd).
Qed.

End device.
