(* ===== verification/TlSender.v ===== *)
(** * TileLink senders: messages arrive whole and in order

    The template [TileLinkSender], for every specialisation whose virtual methods
    have the laws below: over any number of cycles, with random stalls, retractions
    and reordering, the beats that the network accepts are exactly those of the
    messages queued, each message whole, uninterrupted and once. *)

From S2P Require Import Prelude Exceptions TileLink TlEndpoint TlMessages TlChannels.

Import Sender.

(** ** Messages and queues *)

Section queues.

Context {C : Type}.

Implicit Types (m : tl_message C) (l : list (tl_message C)).

(** The counters of a message are consistent. *)
Record message_ok m : Prop := {
  generated_nonneg : 0 <= beats_generated m;
  generated_ready : beats_generated m <= beats_ready m;
  ready_total : beats_ready m <= beats_to_send m;
  total_pos : 0 < beats_to_send m;
}.

Definition unstarted m : Prop := beats_generated m = 0.

Record fresh m : Prop := { fresh_ok : message_ok m; fresh_unstarted : unstarted m }.

(** What identifies a message while it is in the queue. *)
Definition identity m : C * Z * Z := (header m, beats_to_send m, channel_width_bytes m).

(** Only more beats of [m] have become ready. *)
Record advanced m m' : Prop := {
  advanced_identity : identity m' = identity m;
  advanced_generated : beats_generated m' = beats_generated m;
  advanced_ready : beats_ready m <= beats_ready m' <= beats_to_send m;
}.

(** New messages are at the end; old ones have at most advanced. *)
Definition grown l new l' : Prop :=
  exists l1, l' = l1 ++ new /\ Forall2 advanced l l1 /\ Forall fresh new.

Lemma advanced_refl m : message_ok m -> advanced m m.
Proof. intros [? ? ? ?]. by split. Qed.

#[export] Instance advanced_trans : Transitive advanced.
Proof.
  intros m1 m2 m3 [Hi1 Hg1 Hr1] [Hi2 Hg2 Hr2].
  assert (beats_to_send m1 = beats_to_send m2) by (unfold identity in *; congruence).
  split; [congruence|congruence|lia].
Qed.

Lemma advanced_ok m m' : message_ok m -> advanced m m' -> message_ok m'.
Proof.
  intros [? ? ? ?] [Hi Hg Hr].
  assert (beats_to_send m = beats_to_send m') by (unfold identity in *; congruence).
  split; lia.
Qed.

Lemma advanced_fresh m m' : fresh m -> advanced m m' -> fresh m'.
Proof.
  intros [Hok Hu] Ha. split; [by eapply advanced_ok|].
  destruct Ha as [_ Hg _]. unfold unstarted in *. lia.
Qed.

Lemma advanced_all_ok l l' : Forall message_ok l -> Forall2 advanced l l' -> Forall message_ok l'.
Proof.
  intros Hl H. induction H; inversion_clear Hl; constructor; eauto using advanced_ok.
Qed.

Lemma advanced_all_fresh l l' : Forall fresh l -> Forall2 advanced l l' -> Forall fresh l'.
Proof.
  intros Hl H. induction H; inversion_clear Hl; constructor; eauto using advanced_fresh.
Qed.

Lemma advanced_identities l l' : Forall2 advanced l l' -> map identity l' = map identity l.
Proof. induction 1 as [|m m' l l' [Hi _ _]]; cbn; congruence. Qed.

Lemma grown_refl l : Forall message_ok l -> grown l [] l.
Proof.
  intros Hl. exists l. rewrite app_nil_r. split; [done|]. split; [|done].
  induction Hl; constructor; eauto using advanced_refl.
Qed.

Lemma grown_ok l new l' : Forall message_ok l -> grown l new l' -> Forall message_ok l'.
Proof.
  intros Hl (l1 & -> & H1 & Hn). apply Forall_app. split; [by eapply advanced_all_ok|].
  eapply Forall_impl; [|exact Hn]. by intros m [? _].
Qed.

Lemma grown_trans l1 new1 l2 new2 l3 :
  grown l1 new1 l2 -> grown l2 new2 l3 -> exists new, grown l1 new l3.
Proof.
  intros (k1 & -> & H1 & Hn1) (k2 & -> & H2 & Hn2).
  apply Forall2_app_inv_l in H2 as (ka & kb & Ha & Hb & Hk); subst k2.
  exists (kb ++ new2). exists ka. rewrite app_assoc. split; [done|]. split.
  - by trans k1.
  - apply Forall_app. split; [|done]. exact (advanced_all_fresh _ _ Hn1 Hb).
Qed.

Lemma grown_push l m : Forall message_ok l -> fresh m -> grown l [m] (l ++ [m]).
Proof.
  intros Hl Hm. exists l. split; [done|]. split; [|by constructor].
  induction Hl; constructor; eauto using advanced_refl.
Qed.

Lemma grown_identities l new l' :
  grown l new l' -> map identity l' = map identity l ++ map identity new.
Proof. intros (l1 & -> & H1 & _). rewrite map_app. f_equal. by apply advanced_identities. Qed.

Lemma set_generated_ok m n :
  message_ok m -> 0 <= n <= beats_ready m -> message_ok (set_generated n m).
Proof. intros [? ? ? ?] ?. by split; cbn; lia. Qed.

Lemma identity_set_generated m n : identity (set_generated n m) = identity m.
Proof. done. Qed.

(** [reorder] permutes the queue, and changes nothing once its front has started. *)
Lemma reorder_perm l : reorder l ≡ₚ l.
Proof.
  destruct l as [|m l]; cbn [reorder]; [done|]. destruct (_ && _); [|done].
  by rewrite Permutation_app_comm.
Qed.

Lemma reorder_started m l : 0 < beats_generated m -> reorder (m :: l) = m :: l.
Proof.
  intros Hm. cbn [reorder]. unfold in_progress. by rewrite (proj2 (Z.ltb_lt 0 _)).
Qed.

End queues.

(** ** What the specialisation promises *)

(** The relation between states around code that does not touch the channel: the
    queue of messages may grow, requests and identifiers may change. The network
    may change [ready]. *)
Record extends {C Q G} (w w' : state C Q G) : Prop := {
  extends_valid : valid (channel w') = valid (channel w);
  extends_data : data (channel w') = data (channel w);
  extends_accepted : beat_accepted (self w') = beat_accepted (self w);
  extends_modifications : modifications (self w') = modifications (self w);
  extends_queue : Forall message_ok (to_send (self w)) ->
    exists new, grown (to_send (self w)) new (to_send (self w'));
}.

(** [beat_spec h i b]: [b] may be beat number [i] of a message with header [h]. *)
Class SenderLaws (C Q G : Type) {methods : SenderMethods C Q G} : Type := {
  beat_spec : C -> Z -> C -> Prop;
  next_beat_law r m g b m' g' :
    next_beat r m g = (Ok (b, m'), g') ->
    m' = set_generated (beats_generated m + 1) m /\ beat_spec (header m) (beats_generated m) b;
  respond_law w : extends w (snd (respond w));
}.

Section delivery.

Context {C Q G : Type} `{Random G} {methods : SenderMethods C Q G} `{!SenderLaws C Q G}.

Implicit Types (w : state C Q G) (m : tl_message C) (bs : list C).

(** A beat is on the channel that has not been accepted. *)
Definition offered w : bool := valid (channel w) && negb (beat_accepted (self w)).

(** [bs] are the first beats of message [m]. *)
Definition beats_of (h : C) bs : Prop := forall i b, bs !! i = Some b -> beat_spec h (Z.of_nat i) b.

(** The invariant: [bs] are the beats of the front message that were accepted. *)
Record in_flight w bs : Prop := {
  flight_mods : modifications (self w) = [];
  flight_ok : Forall message_ok (to_send (self w));
  flight_rest : Forall unstarted (tail (to_send (self w)));
  flight_front :
    match to_send (self w) with
    | [] => bs = [] /\ offered w = false
    | m :: _ =>
        beats_of (header m) bs
        /\ Z.of_nat (length bs) = beats_generated m - (if offered w then 1 else 0)
        /\ (offered w = true -> beat_spec (header m) (beats_generated m - 1) (data (channel w)))
    end;
  flight_accepted : beat_accepted (self w) = true -> valid (channel w) = true;
}.

(** Code outside of the sender, and [respond], keep the invariant. *)
Lemma extends_in_flight w w' bs :
  extends w w' -> in_flight w bs ->
  in_flight w' bs /\ exists new, map identity (to_send (self w'))
                               = map identity (to_send (self w)) ++ map identity new.
Proof.
  intros [Hv Hd Ha Hm Hq] [Fm Fo Fr Ff Fa]. destruct (Hq Fo) as [new Hg].
  assert (Hoff : offered w' = offered w) by (unfold offered; congruence).
  split; [|by eexists; apply grown_identities]. split; try congruence.
  - by eapply grown_ok.
  - destruct Hg as (l1 & -> & H1 & Hn).
    assert (Hnu : Forall unstarted new) by (eapply Forall_impl; [|exact Hn]; by intros ? [_ ?]).
    destruct H1 as [|m m' l l' Hmm Hll]; cbn in *.
    { destruct new; [done|]. by inversion_clear Hnu. }
    apply Forall_app. split; [|done]. clear -Hll Fr.
    induction Hll as [|x y l l' [_ Hxy _]]; inversion_clear Fr; constructor; auto.
    unfold unstarted in *. lia.
  - destruct Hg as (l1 & -> & H1 & Hn). rewrite Hoff, Hd.
    destruct H1 as [|m m' l l' [Hi Hmg _] _]; cbn in *.
    + destruct Ff as [-> ->]. destruct new as [|m new]; [done|]. cbn.
      inversion_clear Hn as [|? ? [_ Hu] _]. split; [|split; [|done]].
      * by intros i b Hi.
      * unfold unstarted in Hu. cbn. lia.
    + assert (header m' = header m) as -> by (unfold identity in Hi; congruence). by rewrite Hmg.
  - rewrite Ha, Hv. exact Fa.
Qed.

(** ** Delivery

    [conserved l l']: nothing is lost or duplicated, and the order is kept by a
    FIFO sender. *)
Definition conserved {A} (l l' : list A) : Prop := if is_fifo then l = l' else l ≡ₚ l'.

#[local] Instance conserved_equiv {A} : Equivalence (@conserved A).
Proof.
  unfold conserved. destruct is_fifo; [apply _|].
  split; [by intros l|by intros l k|by intros l k h ? ?; etrans].
Qed.

#[local] Instance conserved_app {A} : Proper (conserved ==> conserved ==> conserved) (@app A).
Proof. unfold conserved. intros l l' Hl k k' Hk. destruct is_fifo; [congruence|by rewrite Hl, Hk]. Qed.

Abbreviation ids w := (map identity (to_send (self w))).

(** All beats of message [m]. *)
Definition whole m bs : Prop := Z.of_nat (length bs) = beats_to_send m /\ beats_of (header m) bs.

(** From [w], where [bs] of the front message were accepted, to [w'] and [bs'], the
    network accepts [acc]: the remaining beats of the front message, those of the
    following ones, and [bs']. The messages that are in the queue at the start, and
    [new] ones queued in the meantime, are those sent and those in the queue at the
    end. *)
Definition delivers w bs acc w' bs' : Prop :=
  in_flight w' bs'
  /\ exists new sent bss,
       conserved (ids w ++ map identity new) (map identity sent ++ ids w')
       /\ Forall2 whole sent bss
       /\ bs ++ acc = concat bss ++ bs'.

Lemma delivers_refl w bs : in_flight w bs -> delivers w bs [] w bs.
Proof.
  intros Hf. split; [done|]. exists [], [], []. cbn. rewrite !app_nil_r. done.
Qed.

Lemma delivers_trans w1 bs1 acc1 w2 bs2 acc2 w3 bs3 :
  delivers w1 bs1 acc1 w2 bs2 -> delivers w2 bs2 acc2 w3 bs3 ->
  delivers w1 bs1 (acc1 ++ acc2) w3 bs3.
Proof.
  intros [_ (new1 & sent1 & bss1 & Hc1 & Hw1 & He1)] [Hf (new2 & sent2 & bss2 & Hc2 & Hw2 & He2)].
  split; [done|]. exists (new1 ++ new2), (sent1 ++ sent2), (bss1 ++ bss2). split; [|split].
  - rewrite !map_app, app_assoc, Hc1, <- !app_assoc, Hc2. done.
  - by apply Forall2_app.
  - rewrite app_assoc, He1, <- app_assoc, He2, concat_app, app_assoc. done.
Qed.

Lemma extends_delivers w w' bs : extends w w' -> in_flight w bs -> delivers w bs [] w' bs.
Proof.
  intros He Hf. destruct (extends_in_flight w w' bs He Hf) as [Hf' [new Hn]].
  split; [done|]. exists new, [], []. cbn. by rewrite Hn, app_nil_r.
Qed.

(** States that differ in the generator, the requests, identifiers and [ready]. *)
Lemma same_extends w w' :
  valid (channel w') = valid (channel w) -> data (channel w') = data (channel w) ->
  beat_accepted (self w') = beat_accepted (self w) ->
  modifications (self w') = modifications (self w) -> to_send (self w') = to_send (self w) ->
  extends w w'.
Proof. intros Hv Hd Ha Hm Hq. split; try done. intros Hok. exists []. rewrite Hq. by apply grown_refl. Qed.

(** The first messages that a list of states can make of it. *)
Lemma in_flight_unoffered w bs m l :
  in_flight w bs -> to_send (self w) = m :: l -> offered w = false ->
  beats_of (header m) bs /\ Z.of_nat (length bs) = beats_generated m /\ message_ok m.
Proof.
  intros [_ Fo _ Ff _] Hq Hoff. rewrite Hq in *. rewrite Hoff in *. destruct Ff as (Hb & Hl & _).
  apply Forall_cons_1 in Fo as [Hm _]. repeat split; try apply Hm; try done. lia.
Qed.

(** *** The stages of a cycle *)

(** A state between the two halves of [set_outputs]: no beat is on the channel. *)
Definition idle w : Prop := valid (channel w) = false /\ beat_accepted (self w) = false.

Lemma idle_offered w : idle w -> offered w = false.
Proof. intros [Hv _]. unfold offered. by rewrite Hv. Qed.

Definition delivering w0 bs0 acc w : Prop := exists bs, delivers w0 bs0 acc w bs.

Lemma delivering_step w0 bs0 acc w bs acc' w' bs' :
  delivers w0 bs0 acc w bs -> delivers w bs acc' w' bs' -> delivering w0 bs0 (acc ++ acc') w'.
Proof. intros. exists bs'. by eapply delivers_trans. Qed.

Lemma delivering_silent w0 bs0 acc w w' :
  delivering w0 bs0 acc w -> (forall bs, in_flight w bs -> exists bs', delivers w bs [] w' bs') ->
  delivering w0 bs0 acc w'.
Proof.
  intros [bs Hd] Hs. destruct (Hs bs (proj1 Hd)) as [bs' Hd'].
  rewrite <- (app_nil_r acc). by eapply delivering_step.
Qed.

Lemma delivering_extends w0 bs0 acc w w' :
  delivering w0 bs0 acc w -> extends w w' -> delivering w0 bs0 acc w'.
Proof. intros Hd He. eapply delivering_silent; [done|]. intros bs Hf. exists bs. by apply extends_delivers. Qed.

(** [delivering] and another property of the channel and the flag are kept by code
    that only draws numbers. *)
Lemma draw_extends {A} (k : M exn G A) w : extends w (snd (draw k w)).
Proof. unfold draw, zoom. destruct (k (generator w)) as [o g]. by apply same_extends. Qed.

Lemma chance_extends r p w : extends w (snd (chance r p w)).
Proof. unfold chance. destruct r; [apply draw_extends|by apply same_extends]. Qed.

Lemma hoare_extends {A} w0 bs0 acc (k : M exn (state C Q G) A) :
  (forall w, extends w (snd (k w))) ->
  hoare (fun w => delivering w0 bs0 acc w /\ idle w) k (fun _ w => delivering w0 bs0 acc w /\ idle w).
Proof.
  intros Hk w a w' [Hd [Hv Ha]] Hrun. specialize (Hk w). rewrite Hrun in Hk. cbn in Hk.
  split; [by eapply delivering_extends|]. destruct Hk as [Hv' _ Ha' _ _]. split; congruence.
Qed.

(** A change of the channel that leaves the offered beat. *)
Lemma delivers_channel w w' bs :
  in_flight w bs -> to_send (self w') = to_send (self w) ->
  modifications (self w') = modifications (self w) -> offered w' = offered w ->
  data (channel w') = data (channel w) ->
  (beat_accepted (self w') = true -> valid (channel w') = true) -> delivers w bs [] w' bs.
Proof.
  intros [Fm Fo Fr Ff Fa] Hq Hm Ho Hd Ha. split.
  - split; rewrite ?Hq; try done; [congruence|]. by rewrite Ho, Hd.
  - exists [], [], []. cbn. by rewrite Hq, !app_nil_r.
Qed.

Lemma flow_delivers w0 bs0 acc :
  hoare (delivering w0 bs0 acc) set_flow_control
    (fun _ w => delivering w0 bs0 acc w /\ beat_accepted (self w) = false).
Proof.
  intros w [] w' Hd Hrun. unfold set_flow_control in Hrun.
  apply bind_ok_inv in Hrun as (s & w1 & [= <- <-] & Hrun).
  apply bind_ok_inv in Hrun as ([] & w1 & Hw & [= <-]). split; [|done].
  eapply delivering_silent; [done|]. intros bs Hf. exists bs.
  unfold offered. destruct (beat_accepted (self w)) eqn:Ha; injection Hw as <-.
  - pose proof (flight_accepted _ _ Hf Ha) as Hv. apply delivers_channel; try done.
    unfold offered. cbn. by rewrite Ha, andb_false_r.
  - apply delivers_channel; try done. unfold offered. cbn. by rewrite Ha.
Qed.

Lemma front_inv w m w' :
  front w = (Ok m, w') -> w' = w /\ exists l, to_send (self w) = m :: l.
Proof.
  intros (s & w1 & [= <- <-] & Hm)%bind_ok_inv. destruct (to_send (self w)) as [|m' l]; [discriminate|].
  injection Hm as <- <-. eauto.
Qed.

(** The offered beat is withdrawn, or stays and ends the call. *)
Lemma retract_delivers w0 bs0 acc :
  hoare (fun w => delivering w0 bs0 acc w /\ valid (channel w) = true /\ beat_accepted (self w) = false)
    retract (fun _ w => delivering w0 bs0 acc w /\ idle w).
Proof.
  intros w [] w' (Hd & Hv & Ha) Hrun. unfold retract in Hrun.
  apply bind_ok_inv in Hrun as ([] & w1 & [= <-] & Hrun).
  apply bind_ok_inv in Hrun as (m & w1 & Hfront & [= <-]).
  apply front_inv in Hfront as (-> & l & Hq). cbn in Hq. split; [|by split].
  eapply delivering_silent; [done|]. intros bs [Fm Fo Fr Ff Fa]. exists bs.
  assert (Ho : offered w = true) by (unfold offered; by rewrite Hv, Ha).
  rewrite Hq, Ho in *. destruct Ff as (Hb & Hl & _). inversion_clear Fo as [|? ? Hm Hok].
  split; [|exists [], [], []; cbn; by rewrite Hq, !app_nil_r].
  split; cbn; rewrite ?Hq; cbn; try done; try congruence.
  - constructor; [|done]. apply set_generated_ok; [done|]. destruct Hm. lia.
  - split; [done|]. unfold offered. cbn. split; [lia|done].
Qed.

Lemma pop_finished_delivers w0 bs0 acc :
  hoare (fun w => delivering w0 bs0 acc w /\ idle w) pop_finished
    (fun _ w => delivering w0 bs0 acc w /\ idle w).
Proof.
  intros w [] w' [Hd Hi] Hrun. unfold pop_finished in Hrun.
  apply bind_ok_inv in Hrun as (s & w1 & [= <- <-] & Hrun).
  destruct (to_send (self w)) as [|m l] eqn:Hq; [by injection Hrun as <-|].
  destruct (finished m) eqn:Hfin; cbn in Hrun; [|by injection Hrun as <-].
  unfold pop in Hrun. apply bind_ok_inv in Hrun as (s & w1 & [= <- <-] & Hrun).
  rewrite Hq in Hrun. injection Hrun as <-. split; [|done].
  pose proof (idle_offered w Hi) as Ho.
  eapply delivering_silent; [done|]. intros bs Hf. exists [].
  destruct (in_flight_unoffered w bs m l Hf Hq Ho) as (Hb & Hl & Hm).
  destruct Hf as [Fm Fo Fr _ Fa]. rewrite Hq in *. cbn in Fr. apply Forall_cons_1 in Fo as [_ Fo].
  apply Z.eqb_eq in Hfin. split.
  - split; cbn; try done; [by destruct Fr; [constructor|]|].
    rewrite (idle_offered (on_self (set_to_send l) w)) by exact Hi. destruct l as [|m' l]; [done|]. inversion_clear Fr as [|? ? Hu _]. unfold unstarted in Hu.
    split; [by intros i b Hb'|]. split; [cbn; lia|done].
  - exists [], [m], [bs]. cbn. rewrite Hq, !app_nil_r. split; [done|]. split; [|done].
    repeat constructor; [lia|done].
Qed.

(** Reordering moves only messages that have not been started. *)
Lemma reorder_cases (l : list (tl_message C)) :
  reorder l = l \/ exists m l', l = m :: l' /\ in_progress m = false /\ reorder l = l' ++ [m].
Proof.
  destruct l as [|m l]; [by left|]. cbn [reorder]. destruct (in_progress m) eqn:Hp; [by left|].
  destruct (from_option _ _ _); [right; by exists m, l|by left].
Qed.

Lemma in_flight_reorder w bs w' :
  in_flight w bs -> idle w -> idle w' -> modifications (self w') = modifications (self w) ->
  data (channel w') = data (channel w) -> to_send (self w') = reorder (to_send (self w)) ->
  in_flight w' bs.
Proof.
  intros Hf Hi Hi' Hm Hd Hq. pose proof (idle_offered w Hi) as Ho.
  pose proof (idle_offered w' Hi') as Ho'. pose proof (reorder_perm (to_send (self w))) as Hp.
  destruct (reorder_cases (to_send (self w))) as [Hr|(m & l & Hl & Hprog & Hr)].
  { destruct Hf as [Fm Fo Fr Ff Fa]. rewrite Hr in Hq. split; rewrite ?Hq; try congruence.
    - rewrite Ho', Hd. by rewrite Ho in Ff.
    - destruct Hi' as [_ ->]. done. }
  destruct (in_flight_unoffered w bs m l Hf Hl Ho) as (Hb & Hlen & Hok).
  assert (Hzero : beats_generated m = 0).
  { unfold in_progress in Hprog. apply Z.ltb_ge in Hprog. destruct Hok. lia. }
  assert (bs = []) as -> by (destruct bs; [done|]; cbn in Hlen; lia).
  destruct Hf as [Fm Fo Fr _ _]. rewrite Hl in Fr. cbn in Fr.
  assert (Hall : Forall unstarted (to_send (self w'))) by (rewrite Hq, Hr; apply Forall_app; by split; [|constructor]).
  split; [congruence|by rewrite Hq, Hp| |rewrite Ho'|by destruct Hi' as [_ ->]].
  - destruct Hall; [constructor|done].
  - destruct Hall as [|m' l' Hu _]; [done|]. split; [by intros i b|].
    unfold unstarted in Hu. split; [cbn; lia|done].
Qed.

Lemma reorder_delivers w0 bs0 acc :
  is_fifo = false ->
  hoare (fun w => delivering w0 bs0 acc w /\ idle w) reorder_all
    (fun _ w => delivering w0 bs0 acc w /\ idle w).
Proof.
  intros Hfifo w [] w' [Hd Hi] [= <-]. split; [|done].
  eapply delivering_silent; [done|]. intros bs Hf. exists bs.
  split; [by eapply in_flight_reorder|]. exists [], [], []. cbn.
  unfold conserved. rewrite Hfifo, reorder_perm, !app_nil_r. done.
Qed.

Lemma unmodified w (b : C) :
  modifications (self w) = [] -> apply_modification b w = (Ok (b, ∅), w).
Proof. intros Hm. unfold apply_modification. rewrite bind_run. cbn. by rewrite Hm. Qed.

(** A beat of the front message is put on the channel. *)
Lemma send_beat_delivers w0 bs0 acc r :
  hoare (fun w => (delivering w0 bs0 acc w /\ idle w)
                  /\ exists m l, to_send (self w) = m :: l /\ can_send m = true)
    (send_beat r)
    (fun _ w => delivering w0 bs0 acc w /\ beat_accepted (self w) = false).
Proof.
  intros w [] w' [[Hd Hi] (m & l & Hq & Hcan)] Hrun. unfold send_beat in Hrun.
  apply bind_ok_inv in Hrun as (m' & w1 & Hfront & Hrun).
  apply front_inv in Hfront as (-> & l' & Hq'). rewrite Hq in Hq'. injection Hq' as <- <-.
  apply bind_ok_inv in Hrun as ([b m'] & w1 & Hdraw & Hrun). unfold draw, zoom in Hdraw.
  destruct (next_beat r m (generator w)) as [o g] eqn:Hnb. injection Hdraw as -> <-.
  destruct (next_beat_law _ _ _ _ _ _ Hnb) as [-> Hspec]. cbn [fst snd] in Hrun.
  destruct Hd as [bs Hd]. pose proof (proj1 Hd) as Hf.
  pose proof Hf as [Fm _ _ _ _]. apply bind_ok_inv in Hrun as ([] & w1 & [= <-] & Hrun).
  erewrite bind_ok in Hrun by (by apply unmodified). unfold has, when in Hrun. cbn in Hrun.
  rewrite !(bool_decide_eq_false_2 (is_Some _)) in Hrun by (rewrite lookup_empty; by intros [? ?]).
  injection Hrun as <-. split; [|by destruct Hi].
  destruct (in_flight_unoffered w bs m l Hf Hq (idle_offered w Hi)) as (Hb & Hlen & Hok).
  exists bs. rewrite <- (app_nil_r acc). eapply delivers_trans; [exact Hd|].
  destruct Hf as [_ Fo Fr _ _], Hi as [_ Ha]. rewrite Hq in *.
  apply Forall_cons_1 in Fo as [_ Fo]. unfold can_send in Hcan. apply Z.ltb_lt in Hcan.
  split; [|exists [], [], []; cbn; by rewrite Hq, !app_nil_r].
  split; cbn; rewrite ?Hq; try done.
  - constructor; [|done]. apply set_generated_ok; [done|]. destruct Hok. lia.
  - unfold offered. cbn. rewrite Ha. cbn. split; [done|]. split; [lia|]. intros _.
    by replace (beats_generated m + 1 - 1) with (beats_generated m) by lia.
Qed.

(** *** A clock cycle *)

Definition offering w0 bs0 acc w : Prop := delivering w0 bs0 acc w /\ beat_accepted (self w) = false.

Lemma resume_delivers w0 bs0 acc r :
  hoare (fun w => delivering w0 bs0 acc w /\ idle w)
    (pop_finished;;
     shuffle ← (if is_fifo then mret false else chance r 500);
     when shuffle reorder_all;;
     answer ← (if (r : bool) then draw (random_bool 800) else mret true);
     when answer respond;;
     can ← can_send_front;
     if (can : bool) then
       stall ← chance r 200;
       when (negb stall) (send_beat r)
     else mret tt)
    (fun _ w => offering w0 bs0 acc w).
Proof.
  eapply hoare_bind; [apply pop_finished_delivers|]. intros [].
  eapply hoare_bind with (Q := fun b w => (delivering w0 bs0 acc w /\ idle w) /\ (b = true -> is_fifo = false)).
  { destruct is_fifo eqn:Hfifo; [apply hoare_ret; intros w Hw; split; [exact Hw|intros [=]]|]. eapply hoare_weaken; [|intros w Hw; exact Hw|].
    - apply hoare_extends. intros w. apply chance_extends.
    - by intros b w. }
  intros shuffle. eapply hoare_bind with (Q := fun _ w => delivering w0 bs0 acc w /\ idle w).
  { apply hoare_when; [|by intros _ w [? _]]. intros ->. intros w a w' [Hd Hf].
    exact (reorder_delivers w0 bs0 acc (Hf eq_refl) w a w' Hd). }
  intros []. eapply hoare_bind with (Q := fun _ w => delivering w0 bs0 acc w /\ idle w).
  { apply hoare_extends. intros w. destruct r; [apply draw_extends|by apply same_extends]. }
  intros answer. eapply hoare_bind with (Q := fun _ w => delivering w0 bs0 acc w /\ idle w).
  { apply hoare_when; [|done]. intros _. apply hoare_extends, respond_law. }
  intros [].
  eapply hoare_bind with (Q := fun can w => (delivering w0 bs0 acc w /\ idle w)
    /\ (can = true -> exists m l, to_send (self w) = m :: l /\ can_send m = true)).
  { intros w b w' Hd (s & w1 & [= <- <-] & Hb)%bind_ok_inv.
    destruct (to_send (self w)) as [|m l] eqn:Hq; injection Hb as <- <-; [by split|].
    split; [done|]. intros Hcan. by exists m, l. }
  intros can. destruct can.
  2: { apply hoare_ret. intros w [[Hd [_ Ha]] _]. by split. }
  eapply hoare_bind with (Q := fun _ w => (delivering w0 bs0 acc w /\ idle w)
    /\ exists m l, to_send (self w) = m :: l /\ can_send m = true).
  - intros w b w' [Hd Hm] Hrun. pose proof (chance_extends r 200 w) as He. rewrite Hrun in He.
    split; [by eapply hoare_extends; [apply chance_extends|exact Hd|exact Hrun]|].
    unfold chance in Hrun. destruct r; [|injection Hrun as <- <-; auto].
    unfold draw, zoom in Hrun. destruct (random_bool _ _). injection Hrun as _ <-. auto.
  - intros stall. apply hoare_when; [intros _; apply send_beat_delivers|].
    intros _ w [[Hd [_ Ha]] _]. by split.
Qed.

Lemma set_outputs_delivers w0 bs0 acc r :
  hoare (offering w0 bs0 acc) (set_outputs r) (fun _ => offering w0 bs0 acc).
Proof.
  unfold set_outputs.
  eapply hoare_bind with (Q := fun c w => offering w0 bs0 acc w /\ c = channel w).
  { by apply hoare_gets. }
  intros c. eapply hoare_bind with (Q := fun (kept : bool) w =>
    offering w0 bs0 acc w /\ (kept = false -> idle w)).
  - destruct (valid c) eqn:Hv.
    2: { apply hoare_ret. intros w [[Hd Ha] ->]. by repeat split. }
    eapply hoare_bind with (Q := fun _ w => offering w0 bs0 acc w /\ c = channel w);
      [by apply hoare_gets|]. intros s.
    eapply hoare_bind with (Q := fun _ w => offering w0 bs0 acc w /\ c = channel w);
      [by apply hoare_assert|]. intros [].
    eapply hoare_bind with (Q := fun _ w => delivering w0 bs0 acc w /\ valid (channel w) = true
      /\ beat_accepted (self w) = false).
    + intros w b w' [[Hd Ha] ->] Hrun. pose proof (chance_extends r 200 w) as He.
      rewrite Hrun in He. cbn in He. split; [by eapply delivering_extends|].
      destruct He as [Hv' _ Ha' _ _]. split; congruence.
    + intros []; [|by apply hoare_ret; intros w (Hd & Hv' & Ha); repeat split].
      eapply hoare_bind; [apply retract_delivers|]. intros []. apply hoare_ret.
      intros w [Hd [Hv' Ha]]. by repeat split.
  - intros []; [by apply hoare_ret; intros w [? _]|].
    eapply hoare_weaken; [apply resume_delivers| |intros a w Hw; exact Hw]. intros w [[Hd _] Hi]. auto.
Qed.

(** A cycle of the sender: the first half of a clock cycle, the network's [ready],
    and the second half; the beats that the network takes. *)
Definition clock_cycle (r ready_signal : bool) : M exn (state C Q G) (list C) :=
  set_flow_control;;
  set_outputs r;;
  modify (on_channel (set_ready ready_signal));;
  c ← gets channel;
  get_inputs r;;
  mret (if valid c && ready c then [data c] else []).

Lemma get_inputs_delivers w bs r :
  in_flight w bs -> beat_accepted (self w) = false ->
  exists w', get_inputs r w = (Ok tt, w')
    /\ delivers w bs (if valid (channel w) && ready (channel w) then [data (channel w)] else []) w'
         (bs ++ if valid (channel w) && ready (channel w) then [data (channel w)] else []).
Proof.
  intros Hf Ha. unfold get_inputs. erewrite bind_ok by done. cbv beta.
  destruct (valid (channel w) && ready (channel w)) eqn:Hvr; cbn.
  2: { exists w. rewrite app_nil_r. split; [done|]. by apply delivers_refl. }
  apply andb_true_iff in Hvr as [Hv _]. eexists. split; [done|]. destruct Hf as [Fm Fo Fr Ff Fa].
  split; [|exists [], [], []; cbn; by rewrite !app_nil_r].
  assert (Ho : offered w = true) by (unfold offered; by rewrite Hv, Ha).
  split; cbn; try done. rewrite Ho in Ff. unfold offered. cbn. rewrite andb_false_r.
  destruct (to_send (self w)) as [|m l]; [by destruct Ff|]. destruct Ff as (Hb & Hl & Hd).
  rewrite length_app. cbn. split; [|split; [lia|done]].
  intros i b [Hi|[Hle Hi]]%lookup_app_Some; [by apply Hb|].
  apply list_lookup_singleton_Some in Hi as [Hi <-].
  replace (Z.of_nat i) with (beats_generated m - 1) by lia. by apply Hd.
Qed.

Lemma clock_cycle_delivers w bs r ready_signal acc w' :
  in_flight w bs -> clock_cycle r ready_signal w = (Ok acc, w') ->
  exists bs', delivers w bs acc w' bs'.
Proof.
  intros Hf Hrun. unfold clock_cycle in Hrun.
  apply bind_ok_inv in Hrun as ([] & w1 & H1 & Hrun).
  apply (flow_delivers w bs []) in H1; [|by exists bs; apply delivers_refl].
  apply bind_ok_inv in Hrun as ([] & w2 & H2 & Hrun). apply (set_outputs_delivers w bs [] _ w1) in H2; [|done].
  apply bind_ok_inv in Hrun as ([] & w3 & [= <-] & Hrun).
  apply bind_ok_inv in Hrun as (c & w3 & [= <- <-] & Hrun).
  set (w4 := on_channel _ w2) in *. destruct H2 as [Hd Ha].
  apply (delivering_extends w bs [] w2 w4) in Hd as [bs4 Hd]; [|by apply same_extends].
  destruct (get_inputs_delivers w4 bs4 r (proj1 Hd) Ha) as (w5 & H5 & Hd5).
  erewrite bind_ok in Hrun by exact H5. injection Hrun as <- <-.
  eexists. exact (delivers_trans _ _ _ _ _ _ _ _ Hd Hd5).
Qed.

(** Cycles of the sender, and steps of the rest of the program in between, which may
    queue messages and requests. *)
Inductive transfer : state C Q G -> list C -> state C Q G -> Prop :=
  | transfer_done w : transfer w [] w
  | transfer_cycle w1 acc1 w2 r ready_signal acc2 w3 :
      transfer w1 acc1 w2 -> clock_cycle r ready_signal w2 = (Ok acc2, w3) ->
      transfer w1 (acc1 ++ acc2) w3
  | transfer_other w1 acc w2 w3 :
      transfer w1 acc w2 -> extends w2 w3 -> transfer w1 acc w3.

Lemma transfer_trans w1 acc1 w2 acc2 w3 :
  transfer w1 acc1 w2 -> transfer w2 acc2 w3 -> transfer w1 (acc1 ++ acc2) w3.
Proof.
  intros H1 H2. induction H2 as [w|w1' a1 w2 r rs a2 w3 _ IH Hc|w1' a w2 w3 _ IH He].
  - by rewrite app_nil_r.
  - rewrite app_assoc. eapply transfer_cycle; eauto.
  - eapply transfer_other; eauto.
Qed.

Lemma transfer_delivers w bs acc w' :
  in_flight w bs -> transfer w acc w' -> exists bs', delivers w bs acc w' bs'.
Proof.
  intros Hf Ht. induction Ht as [w|w1 acc1 w2 r rs acc2 w3 Ht IH Hc|w1 acc w2 w3 Ht IH He].
  - exists bs. by apply delivers_refl.
  - destruct (IH Hf) as [bs2 H2]. destruct (clock_cycle_delivers _ _ _ _ _ _ (proj1 H2) Hc) as [bs3 H3].
    eexists. by eapply delivers_trans.
  - destruct (IH Hf) as [bs2 H2]. exists bs2. rewrite <- (app_nil_r acc).
    eapply delivers_trans; [done|]. by apply extends_delivers; [|apply H2].
Qed.

(** *** Draining

    Without random choices and new requests, with a network that is always ready,
    every cycle sends one beat until all are sent. *)

(** Beats that are still to be sent. *)
Fixpoint beats_left (l : list (tl_message C)) : Z :=
  match l with
  | [] => 0
  | m :: l => beats_to_send m - beats_generated m + beats_left l
  end.

(** [next_beat] does not fail on the messages of the queue. *)
Definition next_beat_runs m : Prop := forall k g, 0 <= k < beats_ready m ->
  exists b m' g', next_beat false (set_generated k m) g = (Ok (b, m'), g').

(** No request is to be answered. *)
Definition quiet w : Prop := forall w', requests (self w') = requests (self w) -> respond w' = (Ok tt, w').

Record draining w : Prop := {
  drain_complete : Forall (fun m => complete m = true) (to_send (self w));
  drain_runs : Forall next_beat_runs (to_send (self w));
  drain_quiet : quiet w;
  drain_offered : offered w = false;
}.

(** The queue after [pop_finished]. *)
Definition unfinished (l : list (tl_message C)) : list (tl_message C) :=
  match l with m :: l' => if finished m then l' else l | [] => [] end.

Lemma pop_finished_run w :
  pop_finished w = (Ok tt, on_self (set_to_send (unfinished (to_send (self w)))) w).
Proof.
  unfold pop_finished. erewrite bind_ok by done. cbv beta.
  destruct w as [[i l ms ac q] c g]. cbn [self to_send]. destruct l as [|m l]; [done|]. cbn [unfinished].
  destruct (finished m); [|done]. done.
Qed.

Lemma flow_run w :
  offered w = false -> modifications (self w) = [] ->
  exists w', set_flow_control w = (Ok tt, w') /\ idle w'
    /\ to_send (self w') = to_send (self w) /\ requests (self w') = requests (self w)
    /\ modifications (self w') = [].
Proof.
  unfold offered, set_flow_control. intros Ho Hm. erewrite bind_ok by done. cbv beta.
  destruct (beat_accepted (self w)) eqn:Ha; cbn; (eexists; split; [done|]); cbn; [done|].
  split; [|done]. split; cbn; [|done]. destruct (valid (channel w)); [|done]. by rewrite andb_true_r in Ho.
Qed.

(** With an unfinished first message, its next beat goes on the channel. *)
Lemma sender_outputs_run w m l b m' g :
  idle w -> quiet w -> modifications (self w) = [] ->
  unfinished (to_send (self w)) = m :: l -> can_send m = true ->
  next_beat false m (generator w) = (Ok (b, m'), g) ->
  exists w', set_outputs false w = (Ok tt, w') /\ valid (channel w') = true
    /\ data (channel w') = b /\ beat_accepted (self w') = false
    /\ to_send (self w') = m' :: l /\ requests (self w') = requests (self w)
    /\ modifications (self w') = [].
Proof.
  intros [Hv Ha] Hq Hm Hu Hc Hb. unfold set_outputs. erewrite bind_ok by done. cbv beta. rewrite Hv.
  erewrite bind_ok by done. cbv beta iota. erewrite bind_ok by apply pop_finished_run.
  erewrite bind_ok by (by destruct is_fifo). cbv beta. erewrite bind_ok by done.
  erewrite bind_ok by done. cbv beta. cbn [when]. erewrite bind_ok by (by apply Hq).
  rewrite Hu. erewrite bind_ok by done. cbn beta iota. unfold can_send_front.
  cbn [to_send self on_self set_to_send]. rewrite Hc. erewrite bind_ok by done. cbn [negb when].
  unfold send_beat. erewrite bind_ok by done. unfold draw, zoom.
  rewrite bind_run. cbn [generator on_self]. rewrite Hb. cbn [fst snd].
  erewrite bind_ok by done. erewrite bind_ok by (by apply unmodified). cbn [fst snd].
  unfold has. rewrite !(bool_decide_eq_false_2 (is_Some _)) by (rewrite lookup_empty; by intros [? ?]).
  eexists. split; [done|]. done.
Qed.

Lemma unfinished_front w bs :
  in_flight w bs -> draining w -> 0 < beats_left (to_send (self w)) ->
  exists m l, unfinished (to_send (self w)) = m :: l /\ can_send m = true
    /\ message_ok m /\ beats_left (m :: l) = beats_left (to_send (self w))
    /\ Forall (fun m => complete m = true) (m :: l) /\ Forall next_beat_runs (m :: l).
Proof.
  intros [_ Fo Fr _ _] [Dc Dr _ _] Hleft. destruct (to_send (self w)) as [|m l]; [cbn in Hleft; lia|].
  cbn [unfinished]. destruct (finished m) eqn:Hf.
  - unfold finished in Hf. apply Z.eqb_eq in Hf. cbn in Hleft, Fr.
    destruct l as [|m' l]; [cbn in Hleft; lia|]. exists m', l. split; [done|].
    apply Forall_cons_1 in Fo as [_ Fo]. apply Forall_cons_1 in Dc as [_ Dc].
    apply Forall_cons_1 in Dr as [_ Dr]. pose proof (Forall_inv Fo) as Hok. pose proof (Forall_inv Fr) as Hu.
    pose proof (Forall_inv Dc) as Hc. unfold complete in Hc. apply Z.eqb_eq in Hc.
    unfold unstarted in Hu. split; [apply Z.ltb_lt; destruct Hok; lia|]. split; [done|].
    split; [cbn; lia|done].
  - pose proof (Forall_inv Fo) as Hok. pose proof (Forall_inv Dc) as Hc. unfold complete in Hc.
    apply Z.eqb_eq in Hc. unfold finished in Hf. apply Z.eqb_neq in Hf. exists m, l. split; [done|].
    split; [apply Z.ltb_lt; destruct Hok; lia|]. done.
Qed.

Lemma next_beat_runs_later m k :
  next_beat_runs m -> next_beat_runs (set_generated k m).
Proof. intros H' j g Hj. exact (H' j g Hj). Qed.

(** The beats of the front message that were accepted, after [pop_finished]. *)
Definition current_beats (l : list (tl_message C)) bs : list C :=
  match l with m :: _ => if finished m then [] else bs | [] => [] end.

Lemma pop_in_flight w bs w' :
  in_flight w bs -> offered w = false -> idle w' -> modifications (self w') = [] ->
  to_send (self w') = unfinished (to_send (self w)) ->
  in_flight w' (current_beats (to_send (self w)) bs).
Proof.
  intros [Fm Fo Fr Ff _] Ho Hi Hm Hq. pose proof (idle_offered w' Hi) as Ho'.
  rewrite Ho in Ff. destruct (to_send (self w)) as [|m l]; cbn in Hq |- *.
  { split; rewrite ?Hq; try done. by destruct Hi as [_ ->]. }
  destruct (finished m).
  - apply Forall_cons_1 in Fo as [_ Fo]. cbn in Fr.
    split; rewrite ?Hq, ?Ho'; try done; [by destruct Fr; [constructor|]| |by destruct Hi as [_ ->]].
    destruct l as [|m' l]; [done|]. pose proof (Forall_inv Fr) as Hu. unfold unstarted in Hu.
    split; [by intros i b|]. split; [cbn; lia|done].
  - split; rewrite ?Hq, ?Ho'; try done; [|by destruct Hi as [_ ->]]. by destruct Ff as (? & ? & _).
Qed.

Lemma sent_in_flight w bs m l b w' :
  in_flight w bs -> idle w -> to_send (self w) = m :: l -> can_send m = true ->
  beat_spec (header m) (beats_generated m) b ->
  to_send (self w') = set_generated (beats_generated m + 1) m :: l ->
  modifications (self w') = [] -> valid (channel w') = true -> beat_accepted (self w') = true ->
  in_flight w' (bs ++ [b]).
Proof.
  intros Hf Hi Hq Hc Hb Hq' Hm' Hv' Ha'. apply Z.ltb_lt in Hc.
  destruct (in_flight_unoffered w bs m l Hf Hq (idle_offered w Hi)) as (Hbs & Hlen & Hok).
  destruct Hf as [Fm Fo Fr _ _]. rewrite Hq in *. apply Forall_cons_1 in Fo as [_ Fo].
  assert (Ho : offered w' = false) by (unfold offered; by rewrite Ha', andb_false_r).
  split; rewrite ?Hq', ?Ho; try done.
  - constructor; [|done]. apply set_generated_ok; [done|]. destruct Hok. lia.
  - rewrite length_app. cbn. split; [|split; [lia|done]].
    intros i b' [Hi'|[Hle Hi']]%lookup_app_Some; [by apply Hbs|].
    apply list_lookup_singleton_Some in Hi' as [Hi' <-].
    by replace (Z.of_nat i) with (beats_generated m) by lia.
Qed.

Lemma draining_next w m l w' :
  draining w -> Forall (fun m => complete m = true) (m :: l) -> Forall next_beat_runs (m :: l) ->
  to_send (self w') = set_generated (beats_generated m + 1) m :: l ->
  requests (self w') = requests (self w) -> beat_accepted (self w') = true -> draining w'.
Proof.
  intros Hd Dc Dr Hq Hr Ha. split; rewrite ?Hq.
  - constructor; [exact (Forall_inv Dc)|exact (Forall_inv_tail Dc)].
  - constructor; [apply next_beat_runs_later; exact (Forall_inv Dr)|exact (Forall_inv_tail Dr)].
  - intros w2 H2. apply (drain_quiet w Hd). congruence.
  - unfold offered. by rewrite Ha, andb_false_r.
Qed.

Lemma drain_cycle w bs :
  in_flight w bs -> draining w -> 0 < beats_left (to_send (self w)) ->
  exists m l b w', unfinished (to_send (self w)) = m :: l
    /\ clock_cycle false true w = (Ok [b], w') /\ draining w'
    /\ to_send (self w') = set_generated (beats_generated m + 1) m :: l
    /\ in_flight w' (current_beats (to_send (self w)) bs ++ [b])
    /\ beats_left (m :: l) = beats_left (to_send (self w)).
Proof.
  intros Hf Hd Hleft. destruct (unfinished_front w bs Hf Hd Hleft) as (m & l & Hu & Hc & Hok & Hl & Dc & Dr).
  destruct (flow_run w (drain_offered w Hd) (flight_mods w bs Hf)) as (w1 & H1 & Hi1 & Hq1 & Hr1 & Hm1).
  pose proof (pop_in_flight w bs (on_self (set_to_send (unfinished (to_send (self w)))) w1) Hf
    (drain_offered w Hd) Hi1 Hm1 eq_refl) as Hf1.
  pose proof Hc as Hlt. apply Z.ltb_lt in Hlt.
  destruct (Forall_inv Dr (beats_generated m) (generator w1) ltac:(destruct Hok; lia)) as (b & m' & g & Hb).
  replace (set_generated (beats_generated m) m) with m in Hb by (by destruct m).
  destruct (next_beat_law _ _ _ _ _ _ Hb) as [-> Hspec].
  destruct (sender_outputs_run w1 m l b (set_generated (beats_generated m + 1) m) g Hi1)
    as (w2 & H2 & Hv2 & Hd2 & Ha2 & Hq2 & Hr2 & Hm2); try done.
  { intros w' Hw'. apply (drain_quiet w Hd). congruence. }
  { by rewrite Hq1. }
  unfold clock_cycle. erewrite bind_ok by exact H1. erewrite bind_ok by exact H2.
  erewrite bind_ok by done. erewrite bind_ok by done. cbv beta. unfold get_inputs.
  rewrite bind_run. erewrite bind_ok by done. cbn [channel on_channel valid ready set_ready data].
  rewrite Hv2, Hd2. cbn [andb when]. exists m, l, b. eexists. split; [done|]. split; [done|].
  split; [|split; [exact Hq2|split; [|exact Hl]]].
  - eapply draining_next; [exact Hd|exact Dc|exact Dr|exact Hq2|cbn; congruence|done].
  - eapply sent_in_flight; [exact Hf1|exact Hi1|exact Hu|exact Hc|exact Hspec|exact Hq2|exact Hm2|exact Hv2|done].
Qed.

(** [n] cycles without random choices, in which the network is ready. *)
Fixpoint drain (n : nat) : M exn (state C Q G) (list C) :=
  match n with
  | O => mret []
  | S n =>
      acc1 ← clock_cycle false true;
      acc2 ← drain n;
      mret (acc1 ++ acc2)
  end.

(** Without beats left, the queue has at most a finished message. *)
Lemma drained w bs :
  in_flight w bs -> offered w = false -> beats_left (to_send (self w)) = 0 ->
  exists bss, Forall2 whole (to_send (self w)) bss /\ bs = concat bss.
Proof.
  intros [_ Fo Fr Ff _] Ho Hleft. rewrite Ho in Ff. destruct (to_send (self w)) as [|m l].
  { exists []. split; [done|]. by destruct Ff. }
  assert (Hnn : forall l, Forall message_ok l -> 0 <= beats_left l).
  { clear. induction 1 as [|m l [] _ IH]; cbn; lia. }
  pose proof (Forall_inv Fo) as Hm. apply Forall_cons_1 in Fo as [_ Fo].
  destruct Ff as (Hb & Hlen & _). cbn in Hleft, Fr. pose proof (Hnn l Fo) as Hl. destruct Hm.
  destruct l as [|m' l].
  - exists [bs]. cbn in *. rewrite app_nil_r. split; [|done]. repeat constructor; [lia|done].
  - pose proof (Forall_inv Fo) as [? ? ? ?]. pose proof (Forall_inv Fr) as Hu. unfold unstarted in Hu.
    apply Forall_cons_1 in Fo as [_ Fo]. pose proof (Hnn l Fo). cbn in Hleft. lia.
Qed.

Lemma drain_run n w bs :
  in_flight w bs -> draining w -> beats_left (to_send (self w)) = Z.of_nat n ->
  exists acc w' bss, drain n w = (Ok acc, w') /\ length acc = n
    /\ Forall2 whole (to_send (self w)) bss /\ bs ++ acc = concat bss.
Proof.
  revert w bs. induction n as [|n IH]; intros w bs Hf Hd Hleft.
  { destruct (drained w bs Hf (drain_offered w Hd) Hleft) as (bss & Hw & Hb).
    exists [], w, bss. by rewrite app_nil_r. }
  destruct (drain_cycle w bs Hf Hd ltac:(lia)) as (m & l & b & w1 & Hu & H1 & Hd1 & Hq1 & Hf1 & Hl1).
  destruct (IH w1 _ Hf1 Hd1) as (acc & w2 & bss & H2 & Hn & Hw & Hb).
  { rewrite Hq1. cbn in Hl1 |- *. lia. }
  rewrite Hq1 in Hw. apply Forall2_cons_inv_l in Hw as (b1 & bss' & Hw1 & Hw & Hbss).
  assert (Hwhole : Forall2 whole (m :: l) bss) by (rewrite Hbss; by constructor).
  rewrite <- app_assoc in Hb. cbn [app] in Hb.
  pose proof (in_flight_unoffered w bs) as Hin.
  destruct (to_send (self w)) as [|m0 l0] eqn:Hq0; [done|]. cbn [unfinished current_beats] in *.
  destruct (finished m0) eqn:Hfin.
  - destruct (Hin m0 l0 Hf eq_refl (drain_offered w Hd)) as (Hbs & Hlen & _).
    apply Z.eqb_eq in Hfin. exists (b :: acc), w2, (bs :: bss). cbn [drain].
    erewrite bind_ok by exact H1. erewrite bind_ok by exact H2. split; [done|]. split; [cbn; congruence|].
    split; [|cbn; by rewrite <- Hb]. subst l0. constructor; [|done]. split; [lia|done].
  - exists (b :: acc), w2, bss. cbn [drain]. erewrite bind_ok by exact H1. erewrite bind_ok by exact H2.
    rewrite Hu. split; [done|]. split; [cbn; congruence|]. done.
Qed.

End delivery.
