(* ===== verification/TlSenderTheorems.v ===== *)
(** * TileLink senders: the five channels

    Each of the five senders has the laws of [TlSender], from which its messages
    arrive whole, in order and once. *)

From S2P Require Import Prelude Exceptions TileLink TlEndpoint TlMessages TlMessagesTheorems.
From S2P Require Import TlChannels TlSender.

Import Sender.

(** ** Code that only lets the queue grow *)

Section growing.

Context {C Q G : Type}.

Implicit Types w : state C Q G.

Lemma extends_refl w : extends w w.
Proof. by apply same_extends. Qed.

Lemma extends_trans w1 w2 w3 : extends w1 w2 -> extends w2 w3 -> extends w1 w3.
Proof.
  intros [Hv1 Hd1 Ha1 Hm1 Hq1] [Hv2 Hd2 Ha2 Hm2 Hq2]. split; try congruence.
  intros Hok. destruct (Hq1 Hok) as [new1 H1]. destruct (Hq2 (grown_ok _ _ _ Hok H1)) as [new2 H2].
  by eapply grown_trans.
Qed.

(** [k] lets the queue grow, however it ends, and its values have [P]. *)
Definition growing {A} (k : M exn (state C Q G) A) (P : A -> Prop) : Prop :=
  forall w, extends w (snd (k w)) /\ forall a, fst (k w) = Ok a -> P a.

Lemma growing_ret {A} (a : A) (P : A -> Prop) : P a -> growing (mret a) P.
Proof. intros Ha w. split; [apply extends_refl|]. by intros b [= <-]. Qed.

Lemma growing_fail {A} (o : outcome exn A) (P : A -> Prop) :
  (forall a, o = Ok a -> P a) -> growing (fail o) P.
Proof. intros Ho w. split; [apply extends_refl|]. exact Ho. Qed.

Lemma growing_gets {A} (f : state C Q G -> A) : growing (gets f) (fun _ => True).
Proof. intros w. split; [apply extends_refl|done]. Qed.

Lemma growing_bind {A B} (k : M exn (state C Q G) A) (f : A -> M exn (state C Q G) B) P R :
  growing k P -> (forall a, P a -> growing (f a) R) -> growing (k ≫= f) R.
Proof.
  intros Hk Hf w. destruct (Hk w) as [He HP]. rewrite bind_run. destruct (k w) as [[a| | | | |] w'];
    cbn in *; try (split; [exact He|by intros ? [=]]).
  destruct (Hf a (HP a eq_refl) w') as [He' HR]. split; [by eapply extends_trans|done].
Qed.

Lemma growing_weaken {A} (k : M exn (state C Q G) A) (P R : A -> Prop) :
  growing k P -> (forall a, P a -> R a) -> growing k R.
Proof. intros Hk HPR w. destruct (Hk w) as [He HP]. auto. Qed.

Lemma growing_when b (k : M exn (state C Q G) unit) :
  growing k (fun _ => True) -> growing (when b k) (fun _ => True).
Proof. intros Hk. destruct b; [done|by apply growing_ret]. Qed.

Lemma growing_assert b : growing (assert_that (S := state C Q G) b) (fun _ => True).
Proof. destruct b; [by apply growing_ret|by apply growing_fail]. Qed.

Lemma growing_draw {A} (k : M exn G A) (P : A -> Prop) :
  hoare (fun _ => True) k (fun a _ => P a) -> growing (draw k) P.
Proof.
  intros Hk w. split; [apply draw_extends|]. intros a Ha. unfold draw, zoom in Ha.
  destruct (k (generator w)) as [o g] eqn:Ho. cbn in Ha. subst o. by eapply Hk.
Qed.

Lemma growing_create {A} (k : gset Z -> M exn G A) (P : A -> Prop) :
  (forall ids, hoare (fun _ => True) (k ids) (fun a _ => P a)) ->
  growing (create (Q := Q) (C := C) k) P.
Proof.
  intros Hk. eapply growing_bind; [apply growing_gets|]. intros s _. by apply growing_draw.
Qed.

Lemma growing_push (m : tl_message C) : fresh m -> growing (push m) (fun _ => True).
Proof.
  intros Hm w. split; [|done]. split; try done. intros Hok. exists [m]. by apply grown_push.
Qed.

Lemma growing_start id : growing (start_transaction id) (fun _ => True).
Proof.
  eapply growing_bind; [apply growing_gets|]. intros s _.
  eapply growing_bind with (P := fun _ => True); [by apply growing_fail|]. intros ids _ w.
  split; [by apply same_extends|done].
Qed.

Lemma growing_requests (f : sender C Q -> Q) :
  growing (modify (on_self (fun s => set_requests (f s) s))) (fun _ => True).
Proof. intros w. split; [by apply same_extends|done]. Qed.

Lemma growing_answer {R} (view : Q -> list R) update fifo respond1 n :
  (forall r, growing (respond1 r) (fun _ => True)) ->
  growing (answer view update fifo respond1 n) (fun _ => True).
Proof.
  intros Hr. induction n as [|n IH]; cbn [answer]; [by apply growing_ret|].
  eapply growing_bind; [apply growing_gets|]. intros s _.
  destruct (view (requests s)) as [|r rs]; [by apply growing_fail|].
  eapply growing_bind with (P := fun _ => True).
  - assert (Hk : growing (respond1 r;; mret false) (fun _ => True)).
    { eapply growing_bind; [apply Hr|]. intros [] _. by apply growing_ret. }
    intros w. destruct (Hk w) as [He _]. split; [|done]. unfold no_identifier_left, try_catch.
    destruct ((respond1 r;; mret false) w) as [[] w']; try done. by destruct (bool_decide _).
  - intros failed _. destruct (_ && _); [by apply growing_ret|].
    eapply growing_bind; [apply growing_when, growing_requests|]. intros [] _.
    eapply growing_bind; [apply growing_requests|]. by intros [] _.
Qed.

Lemma growing_answer_all {R} (view : Q -> list R) update fifo respond1 :
  (forall r, growing (respond1 r) (fun _ => True)) ->
  growing (answer_all view update fifo respond1) (fun _ => True).
Proof.
  intros Hr. eapply growing_bind; [apply growing_gets|]. intros s _. by apply growing_answer.
Qed.

End growing.

(** ** Created messages have not been started *)

Section creation.

Context {G : Type} `{Random G} `{Indeterminate}.

Lemma sized_message_fresh {C} e beats ready (h : C) :
  (0 < beats -> 0 <= ready <= beats) ->
  hoare (fun _ => True) (sized_message (G := G) e beats ready h) (fun m _ => fresh m).
Proof.
  intros Hr. eapply hoare_bind with (Q := fun _ _ => True); [by apply hoare_assert|]. intros [].
  eapply hoare_bind with (Q := fun _ _ => 0 < beats); [by apply hoare_assert; intros ?%Z.ltb_lt|].
  intros []. apply hoare_ret. intros g Hb. specialize (Hr Hb). split; [|done]. split; cbn; lia.
Qed.

Lemma make_message_fresh {C} width n ready (h : C) :
  hoare (fun _ => True) (fail (S := G) (make_message width n ready h)) (fun m _ => fresh m).
Proof.
  apply hoare_fail. intros m g Hm _. unfold make_message in Hm. destruct (_ && _) eqn:Hc; [|done].
  injection Hm as <-. repeat (apply andb_true_iff in Hc as [Hc ?]).
  rewrite ?Z.leb_le, ?Z.ltb_lt in *. split; [|done]. split; cbn; lia.
Qed.

(** A draw of the header followed by the construction of the message. *)
Lemma created_fresh {C} (k : M exn G C) (f : C -> M exn G (tl_message C)) :
  (forall h, hoare (fun _ => True) (f h) (fun m _ => fresh m)) ->
  hoare (fun _ => True) (h ← k; f h) (fun m _ => fresh m).
Proof. intros Hf. by eapply hoare_bind with (Q := fun _ _ => True). Qed.

Lemma a_request_fresh fuel net e ids r req :
  hoare (fun _ => True) (a_request fuel net e ids r req) (fun m _ => fresh m).
Proof. apply created_fresh. intros h. apply sized_message_fresh. lia. Qed.

Lemma b_request_fresh fuel net e ids r req :
  hoare (fun _ => True) (b_request fuel net e ids r req) (fun m _ => fresh m).
Proof. apply created_fresh. intros h. apply sized_message_fresh. lia. Qed.

Lemma c_request_fresh fuel net e ids r req :
  hoare (fun _ => True) (c_request fuel net e ids r req) (fun m _ => fresh m).
Proof. apply created_fresh. intros h. apply sized_message_fresh. lia. Qed.

Lemma b_response_fresh e request r :
  hoare (fun _ => True) (b_response e request r) (fun m _ => fresh m).
Proof. apply created_fresh. intros h. apply make_message_fresh. Qed.

Lemma c_response_fresh e request r :
  hoare (fun _ => True) (c_response e request r) (fun m _ => fresh m).
Proof. apply created_fresh. intros h. apply sized_message_fresh. lia. Qed.

Lemma d_response_a_fresh fuel e ids request r :
  hoare (fun _ => True) (d_response_a fuel e ids request r) (fun m _ => fresh m).
Proof. apply created_fresh. intros h. apply sized_message_fresh. destruct (a_opcode request); lia. Qed.

Lemma d_response_c_fresh e request r :
  hoare (fun _ => True) (d_response_c (G := G) e request r) (fun m _ => fresh m).
Proof. apply created_fresh. intros h. apply sized_message_fresh. lia. Qed.

Lemma e_response_fresh e request r :
  hoare (fun _ => True) (e_response (G := G) e request r) (fun m _ => fresh m).
Proof. apply make_message_fresh. Qed.

End creation.

(** ** Responses let the queue grow *)

Section responses.

Context {G : Type} `{Random G} `{Indeterminate}.
Context (fuel : nat) (net : network) (e : endpoint).

Implicit Types w : state tl_d queue_d G.

Lemma probe_for_fresh h m : fresh m -> forall p, probe_for e h m = Ok p -> fresh (fst p).
Proof.
  intros [[? ? ? ?] Hu] p. unfold probe_for. destruct (device_routing_id _ _); intros Hp; try done.
  injection Hp as <-. by split.
Qed.

Lemma probe_hosts_growing l m :
  fresh m -> growing (probe_hosts (G := G) e l m) (fun _ => True).
Proof.
  revert m. induction l as [|h l IH]; intros m Hm; cbn [probe_hosts]; [by apply growing_ret|].
  destruct (probed h); [|by apply IH].
  eapply growing_bind; [apply growing_fail; exact (probe_for_fresh h m Hm)|]. intros p Hp.
  eapply growing_bind; [apply growing_gets|]. intros s _.
  eapply growing_bind with (P := fun _ => True).
  { destruct (TransactionId.available _ _); [by apply growing_ret|by apply growing_fail]. }
  intros [] _. eapply growing_bind; [by apply growing_push|]. intros [] _.
  eapply growing_bind; [apply growing_start|]. intros [] _. by apply IH.
Qed.

Lemma respond_b_growing request : growing (respond_b_to_a (G := G) net e request) (fun _ => True).
Proof.
  eapply growing_bind; [apply growing_assert|]. intros [] _.
  eapply growing_bind; [apply growing_draw, b_response_fresh|]. intros m Hm. by apply probe_hosts_growing.
Qed.

Lemma respond_c_growing request : growing (respond_c_to_b (G := G) e request) (fun _ => True).
Proof.
  eapply growing_bind; [apply growing_assert|]. intros [] _.
  eapply growing_bind; [apply growing_draw, c_response_fresh|]. intros m Hm. by apply growing_push.
Qed.

Lemma respond_e_growing request : growing (respond_e_to_d (G := G) e request) (fun _ => True).
Proof.
  eapply growing_bind; [apply growing_assert|]. intros [] _.
  eapply growing_bind; [apply growing_draw, e_response_fresh|]. intros m Hm. by apply growing_push.
Qed.

(** The last message has one more beat ready. *)
Lemma unfinished_back_last (s : sender tl_d queue_d) m :
  unfinished_back s = Some m -> exists l, to_send s = l ++ [m].
Proof.
  unfold unfinished_back. destruct (list.last (to_send s)) as [m'|] eqn:Hl; [|done].
  destruct (complete m'); [done|]. intros [= ->]. by apply last_Some in Hl.
Qed.

Lemma advance_extends w l m m' :
  to_send (self w) = l ++ [m] -> new_beat_ready m = Ok m' ->
  extends w (on_self (fun s => set_to_send (removelast (to_send s) ++ [m']) s) w).
Proof.
  intros Hq Hm. split; try done. intros Hok. cbn. rewrite Hq, removelast_last in *.
  exists []. eexists. rewrite app_nil_r. split; [done|]. split; [|done].
  apply Forall_app in Hok as [Hl Hm0]. apply Forall2_app.
  - clear Hq Hm0. induction Hl; constructor; eauto using advanced_refl.
  - constructor; [|done]. unfold new_beat_ready in Hm. destruct (Z.ltb_spec (beats_ready m) (beats_to_send m)); [|done].
    injection Hm as <-. split; cbn; [done|done|lia].
Qed.

Lemma new_response_growing request : growing (new_response_a (G := G) fuel e request) (fun _ => True).
Proof.
  eapply growing_bind; [apply growing_gets|]. intros s _.
  eapply growing_bind; [apply growing_assert|]. intros [] _.
  eapply growing_bind; [apply growing_create; intros ids; apply d_response_a_fresh|]. intros m Hm.
  eapply growing_bind; [by apply growing_push|]. intros [] _.
  eapply growing_bind; [apply growing_requests|]. intros [] _. apply growing_when, growing_start.
Qed.

Lemma respond_d_a_growing request : growing (respond_d_to_a (G := G) fuel e request) (fun _ => True).
Proof.
  intros w. unfold respond_d_to_a. rewrite bind_run. cbn [gets].
  destruct (if atomic _ then _ else _) as [m|] eqn:Hb; [|apply new_response_growing].
  destruct (atomic _); [|done]. destruct (unfinished_back_last _ _ Hb) as [l Hq].
  destruct (new_beat_ready m) as [m'| | | | |] eqn:Hm; try (split; [apply extends_refl|done]).
  split; [|done]. rewrite bind_run. cbn. eapply extends_trans; [by eapply advance_extends|].
  by apply same_extends.
Qed.

Lemma respond_d_c_growing request : growing (respond_d_to_c (G := G) e request) (fun _ => True).
Proof.
  eapply growing_bind; [apply growing_gets|]. intros s _.
  eapply growing_bind; [apply growing_assert|]. intros [] _.
  eapply growing_bind; [apply growing_create; intros ids; apply d_response_c_fresh|]. intros m Hm.
  eapply growing_bind; [by apply growing_push|]. intros [] _. apply growing_when, growing_start.
Qed.

Lemma respond_d_growing : growing (respond_d (G := G) fuel e) (fun _ => True).
Proof.
  eapply growing_bind; [apply growing_answer_all, respond_d_a_growing|]. intros done _.
  eapply growing_bind; [apply growing_gets|]. intros s _. apply growing_when.
  eapply growing_bind; [apply growing_answer_all, respond_d_c_growing|]. intros b _. by apply growing_ret.
Qed.

End responses.

(** ** The beats of a message *)

(** Beat [i] of a message with header [h]: the data counts up; random masks are
    drawn for partial writes, and random corrupt flags for beats with data that are not
    denied. *)
Definition beat_of_a (h : tl_a) (i : Z) (b : tl_a) : Prop :=
  a_opcode b = a_opcode h /\ a_param b = a_param h /\ a_size b = a_size h
  /\ a_source b = a_source h /\ a_address b = a_address h /\ a_data b = u64 (a_data h + i)
  /\ (a_mask b = a_mask h \/ a_opcode h = PutPartialData)
  /\ (a_corrupt b = a_corrupt h \/ a_has_payload (a_opcode h) = true).
Definition beat_of_b (h : tl_b) (i : Z) (b : tl_b) : Prop := b = h /\ i = 0.
Definition beat_of_c (h : tl_c) (i : Z) (b : tl_c) : Prop :=
  c_opcode b = c_opcode h /\ c_param b = c_param h /\ c_size b = c_size h
  /\ c_source b = c_source h /\ c_address b = c_address h /\ c_data b = u64 (c_data h + i)
  /\ (c_corrupt b = c_corrupt h \/ c_has_payload (c_opcode h) = true).
Definition beat_of_d (h : tl_d) (i : Z) (b : tl_d) : Prop :=
  d_opcode b = d_opcode h /\ d_param b = d_param h /\ d_size b = d_size h
  /\ d_source b = d_source h /\ d_sink b = d_sink h /\ d_denied b = d_denied h
  /\ d_data b = u64 (d_data h + i)
  /\ (d_corrupt b = d_corrupt h
      \/ d_has_payload (d_opcode h) = true /\ (d_denied h = true -> d_corrupt b = true)).
Definition beat_of_e (h : tl_e) (i : Z) (b : tl_e) : Prop := b = h /\ i = 0.

Section laws.

Context {G : Type} `{Random G} `{Indeterminate}.
Context (fuel : nat) (net : network) (e : endpoint).

(** The law of [next_beat], as a Hoare rule. *)
Definition generates {C} (spec : C -> Z -> C -> Prop) (m : tl_message C)
    (k : M exn G (C * tl_message C)) : Prop :=
  hoare (fun _ => True) k (fun r _ =>
    snd r = set_generated (beats_generated m + 1) m /\ spec (header m) (beats_generated m) (fst r)).

Lemma generates_law {C} spec (m : tl_message C) k g b m' g' :
  generates spec m k -> k g = (Ok (b, m'), g') ->
  m' = set_generated (beats_generated m + 1) m /\ spec (header m) (beats_generated m) b.
Proof. intros Hg Hk. exact (Hg g (b, m') g' I Hk). Qed.

(** An optional draw keeps the old value or is allowed to change it. *)
Lemma hoare_optional {A} (c : bool) (k : M exn G A) (old : A) :
  hoare (fun _ => True) (if c then k else mret old) (fun a _ => a = old \/ c = true).
Proof. destruct c; [by intros g a g' _ _; right|by apply hoare_ret; left]. Qed.

Lemma next_beat_a_generates r m : generates beat_of_a m (next_beat_a r m).
Proof.
  eapply hoare_bind; [apply hoare_optional|]. intros mask. cbv beta.
  eapply hoare_bind with (Q := fun corrupt _ =>
    (mask = a_mask (header m) \/ a_opcode (header m) = PutPartialData)
    /\ (corrupt = a_corrupt (header m) \/ a_has_payload (a_opcode (header m)) = true)).
  - intros g c g' Hm Hc. split.
    + destruct Hm as [->|Hm]; [by left|]. apply andb_true_iff in Hm as [_ Hm].
      right. by apply bool_decide_eq_true in Hm.
    + destruct (hoare_optional (r && a_has_payload (a_opcode (header m))) (random_bool 50)
        (a_corrupt (header m)) g c g' I Hc) as [->|Hr]; [by left|].
      apply andb_true_iff in Hr as [_ Hr]. by right.
  - intros corrupt. apply hoare_ret. intros g Hmc. by repeat split; try apply Hmc.
Qed.

Lemma next_beat_b_generates r m : generates beat_of_b m (next_beat_b (G := G) r m).
Proof.
  eapply hoare_bind with (Q := fun _ _ => beats_generated m = 0).
  - apply hoare_assert. by intros ?%Z.eqb_eq.
  - intros []. apply hoare_ret. by intros g Hz.
Qed.

Lemma next_beat_c_generates r m : generates beat_of_c m (next_beat_c r m).
Proof.
  eapply hoare_bind; [apply hoare_optional|]. intros corrupt. apply hoare_ret. intros g Hc.
  repeat split; try done. cbn. destruct Hc as [->|Hc]; [by left|].
  apply andb_true_iff in Hc as [_ Hc]. by right.
Qed.

Lemma next_beat_d_generates r m : generates beat_of_d m (next_beat_d r m).
Proof.
  eapply hoare_bind with (Q := fun corrupt _ => corrupt = d_corrupt (header m)
    \/ d_has_payload (d_opcode (header m)) = true /\ (d_denied (header m) = true -> corrupt = true)).
  - destruct (r && _) eqn:Hr; [|by apply hoare_ret; left]. apply andb_true_iff in Hr as [_ Hr].
    destruct (d_denied (header m)); [by apply hoare_ret; right|]. by intros g c g' _ _; right.
  - intros corrupt. apply hoare_ret. intros g Hc. by repeat split.
Qed.

Lemma next_beat_e_generates r m : generates beat_of_e m (next_beat_e (G := G) r m).
Proof.
  eapply hoare_bind with (Q := fun _ _ => beats_generated m = 0).
  - apply hoare_assert. by intros ?%Z.eqb_eq.
  - intros []. apply hoare_ret. by intros g Hz.
Qed.

#[global] Instance laws_a : SenderLaws tl_a unit G (methods := methods_a e).
Proof.
  refine {| beat_spec := beat_of_a |}.
  - intros r m g b m' g'. apply generates_law, next_beat_a_generates.
  - intros w. apply extends_refl.
Defined.

Lemma answering_law {C Q R} (view : Q -> list R) update respond1 (w : state C Q G) :
  (forall r, growing (respond1 r) (fun _ => True)) ->
  extends w (snd ((answer_all view update (fifo e) respond1;; mret tt) w)).
Proof.
  intros Hr. assert (Hk : growing (answer_all view update (fifo e) respond1;; mret tt) (fun _ => True)).
  { eapply growing_bind; [by apply growing_answer_all|]. intros b _. by apply growing_ret. }
  apply Hk.
Qed.

#[global] Instance laws_b : SenderLaws tl_b (list (bool * tl_a)) G (methods := methods_b net e).
Proof.
  refine {| beat_spec := beat_of_b |}.
  - intros r m g b m' g'. apply generates_law, next_beat_b_generates.
  - intros w. apply answering_law, respond_b_growing.
Defined.

#[global] Instance laws_c : SenderLaws tl_c (list (bool * tl_b)) G (methods := methods_c e).
Proof.
  refine {| beat_spec := beat_of_c |}.
  - intros r m g b m' g'. apply generates_law, next_beat_c_generates.
  - intros w. apply answering_law, respond_c_growing.
Defined.

#[global] Instance laws_d : SenderLaws tl_d queue_d G (methods := methods_d fuel e).
Proof.
  refine {| beat_spec := beat_of_d |}.
  - intros r m g b m' g'. apply generates_law, next_beat_d_generates.
  - intros w. apply respond_d_growing.
Defined.

#[global] Instance laws_e : SenderLaws tl_e (list (bool * tl_d)) G (methods := methods_e e).
Proof.
  refine {| beat_spec := beat_of_e |}.
  - intros r m g b m' g'. apply generates_law, next_beat_e_generates.
  - intros w. apply answering_law, respond_e_growing.
Defined.

(** Queueing a request, and handing over one to be answered, are steps of the rest
    of the program. *)
Lemma queue_request_a_extends r req w : extends w (snd (queue_request_a fuel net e r req w)).
Proof.
  assert (Hk : growing (queue_request_a fuel net e r req) (fun _ => True)); [|apply Hk].
  eapply growing_bind; [apply growing_gets|]. intros s _. destruct (TransactionId.can_start_new_transaction _ _);
    [|by apply growing_ret].
  eapply growing_bind; [apply growing_create; intros ids; apply a_request_fresh|]. intros m Hm.
  eapply growing_bind; [by apply growing_push|]. intros [] _. apply growing_start.
Qed.

End laws.

(** ** The claims *)

Section claims.

Context {C Q G : Type} `{Random G} {methods : SenderMethods C Q G} `{!SenderLaws C Q G}.

Implicit Types (w : state C Q G) (acc bs : list C).


(** C18: Draining. Without random choices and requests to answer, when the network
    is always ready, a sender whose messages are complete takes exactly as many
    cycles as beats are left, one accepted beat each, and these are the beats of
    its messages in the order of the queue. *)
Theorem sender_drains n w bs :
  in_flight w bs -> draining w -> beats_left (to_send (self w)) = Z.of_nat n ->
  exists acc w' bss, drain n w = (Ok acc, w') /\ length acc = n
    /\ Forall2 whole (to_send (self w)) bss /\ bs ++ acc = concat bss.
Proof. apply drain_run. Qed.

End claims.

(** ** Witnesses *)

Module SenderExample.

#[local] Existing Instance MessagesExample.linear.
#[local] Existing Instance MessagesExample.zero_data.

Definition ack : tl_message tl_d := Message 8 1 1 0 (BeatD AccessAck 0 3 5 8 false false 0).

(** A sender on channel D with two messages. *)
Definition start : state tl_d queue_d Z :=
  State (Sender ∅ [MessagesExample.response; ack] [] false (QueueD [] [] false))
    (Wires false false (BeatD AccessAck 0 0 0 0 false false 0)) 7.

#[local] Instance methods : SenderMethods tl_d queue_d Z := methods_d 10 MessagesExample.device.
#[local] Instance laws : SenderLaws tl_d queue_d Z := laws_d 10 MessagesExample.device.

Lemma start_flight : in_flight start [].
Proof.
  split; try done.
  - repeat constructor; cbn; lia.
  - by repeat constructor.
Qed.


Lemma start_draining : draining start.
Proof.
  split; try done.
  - by repeat constructor.
  - repeat constructor; intros k g Hk; eexists _, _, _; reflexivity.
  - intros [[i l ms ac q] c g] Hq. cbn in Hq. subst q. reflexivity.
Qed.

Lemma sender_drains_witness :
  exists acc w' bss, drain 5 start = (Ok acc, w') /\ length acc = 5%nat
    /\ Forall2 whole (to_send (self start)) bss /\ [] ++ acc = concat bss.
Proof. apply (sender_drains 5 start [] start_flight start_draining). reflexivity. Defined.

End SenderExample.
