(* ===== verification/TlQueue.v ===== *)
(** * TileLink senders as queues of messages

    The abstract view of a sender of [TlSender]: the messages that the network has not
    wholly accepted, in order, and the beats of the first one that it has. A cycle
    changes this view only by answering requests and by moving a message that has not
    been started to the end; and it cannot fail. *)

From S2P Require Import Prelude Exceptions TileLink TlEndpoint TlMessages TlChannels TlSender.

Import Sender.

(** What a message in the queue is, apart from how many of its beats were generated. *)
Record entry (C : Type) : Type := Entry { e_header : C; e_total : Z; e_ready : Z }.
Arguments Entry {C} e_header e_total e_ready.
Arguments e_header {C} e.
Arguments e_total {C} e.
Arguments e_ready {C} e.

Definition entry_of {C} (m : tl_message C) : entry C := Entry (header m) (beats_to_send m) (beats_ready m).
Definition e_complete {C} (k : entry C) : bool := e_total k =? e_ready k.

(** The accepted beats are fewer than those of the first message. *)
Definition accepted_fewer {C} (ks : list (entry C)) (bs : list C) : Prop :=
  match ks with [] => bs = [] | k :: _ => Z.of_nat (length bs) < e_total k end.

Section queue.

Context {C Q G : Type} `{Random G} {methods : SenderMethods C Q G} `{!SenderLaws C Q G}.

Implicit Types (w : state C Q G) (m : tl_message C) (bs : list C) (k : entry C) (ks : list (entry C)).

Abbreviation entries w := (map entry_of (to_send (self w))).

(** The first message has beats that were not accepted. *)
Definition unsent (l : list (tl_message C)) bs : Prop :=
  match l with [] => True | m :: _ => Z.of_nat (length bs) < beats_to_send m end.

(** The view: a first message that was wholly accepted, but is still in [to_send], is
    not part of it. *)
Inductive holds w : list (entry C) -> list C -> Prop :=
  | holds_part bs : in_flight w bs -> unsent (to_send (self w)) bs -> holds w (entries w) bs
  | holds_sent m l bs : in_flight w bs -> to_send (self w) = m :: l ->
      Z.of_nat (length bs) = beats_to_send m -> holds w (map entry_of l) [].

(** No beat is on the channel, and the first message in [to_send] is not finished. *)
Record resting w ks bs : Prop := {
  resting_flight : in_flight w bs;
  resting_unsent : unsent (to_send (self w)) bs;
  resting_idle : idle w;
  resting_entries : ks = entries w;
}.

Lemma resting_holds w ks bs : resting w ks bs -> holds w ks bs.
Proof. intros [Hf Hu _ ->]. by constructor. Qed.

(** The beat on the channel is the next one of the first message, and is ready. *)
Lemma holds_offered w ks bs :
  holds w ks bs -> offered w = true ->
  exists k ks', ks = k :: ks' /\ Z.of_nat (length bs) < e_ready k /\ e_ready k <= e_total k
    /\ beat_spec (e_header k) (Z.of_nat (length bs)) (data (channel w)).
Proof.
  intros [bs1 Hf Hu|m l bs1 Hf Hq Hn] Ho; destruct Hf as [_ Fo _ Ff _]; rewrite Ho in Ff.
  - destruct (to_send (self w)) as [|m l]; [by destruct Ff|]. destruct Ff as (_ & Hl & Hd).
    apply Forall_cons_1 in Fo as [[_ Hgr Hrt _] _]. exists (entry_of m), (map entry_of l).
    split; [done|]. cbn. split; [lia|]. split; [done|]. rewrite Hl. by apply Hd.
  - rewrite Hq in *. destruct Ff as (_ & Hl & _). apply Forall_cons_1 in Fo as [[_ Hgr Hrt _] _]. lia.
Qed.

Lemma holds_fewer w ks bs : holds w ks bs -> accepted_fewer ks bs.
Proof.
  intros [bs1 Hf Hu|m l bs1 Hf Hq Hn].
  - unfold unsent in Hu. pose proof (flight_front _ _ Hf) as Ff. destruct (to_send (self w)); [by destruct Ff|done].
  - destruct l as [|m' l]; [done|]. pose proof (flight_ok _ _ Hf) as Fo. rewrite Hq in Fo.
    apply Forall_cons_1 in Fo as [_ [[? ? ? ?] _]%Forall_cons_1]. cbn. lia.
Qed.

(** When nothing is left, all messages that are still in the queue were sent. *)
Lemma holds_finished w bs : holds w [] bs -> Forall (fun m => finished m = true) (to_send (self w)).
Proof.
  intros Hh. inversion Hh as [bs1 Hf Hu Hks|m l bs1 Hf Hq Hn Hks]; subst.
  - by destruct (to_send (self w)).
  - destruct l; [|done]. rewrite Hq. constructor; [|done]. destruct Hf as [_ Fo _ Ff _]. rewrite Hq in *.
    apply Forall_inv in Fo as [? ? ? ?]. unfold finished. apply Z.eqb_eq. destruct Ff as (_ & Hl & _).
    destruct (offered w); lia.
Qed.

(** What the network takes when it accepts a beat. *)
Definition accept (taken : bool) (b : C) ks bs : list (entry C) * list C :=
  match taken, ks with
  | true, k :: ks' => if Z.of_nat (length bs) + 1 =? e_total k then (ks', []) else (ks, bs ++ [b])
  | _, _ => (ks, bs)
  end.

Lemma get_inputs_holds w ks bs r :
  holds w ks bs -> beat_accepted (self w) = false ->
  exists w', get_inputs r w = (Ok tt, w') /\ channel w' = channel w /\ generator w' = generator w
    /\ requests (self w') = requests (self w) /\ ids_in_use (self w') = ids_in_use (self w)
    /\ (let x := accept (valid (channel w) && ready (channel w)) (data (channel w)) ks bs in
        holds w' (fst x) (snd x)).
Proof.
  intros Hh Ha. unfold get_inputs. erewrite bind_ok by done. cbv beta.
  destruct (valid (channel w) && ready (channel w)) eqn:Hvr; cbn [when accept].
  2: { exists w. repeat split; try done. }
  pose proof Hvr as Hvr'. apply andb_true_iff in Hvr' as [Hv _].
  assert (Ho : offered w = true) by (unfold offered; by rewrite Hv, Ha).
  destruct (holds_offered w ks bs Hh Ho) as (k & ks' & -> & _ & _ & Hs).
  eexists. split; [done|]. cbn [channel generator self on_self requests ids_in_use set_accepted].
  repeat (split; [done|]).
  inversion Hh as [bs1 Hf Hu Hks|m l bs1 Hf Hq Hn Hks Hb]; subst.
  2: { destruct Hf as [_ Fo _ Ff _]. rewrite Hq, Ho in *. destruct Ff as (_ & Hl & _).
       apply Forall_cons_1 in Fo as [[_ Hgr Hrt _] _]. lia. }
  pose proof (get_inputs_delivers w bs r Hf Ha) as (w' & Hrun & [Hf' _]).
  unfold get_inputs in Hrun. rewrite bind_run in Hrun. cbn [gets fst snd] in Hrun.
  rewrite Hvr in Hrun, Hf'. cbn [when] in Hrun. injection Hrun as <-.
  unfold unsent in Hu. destruct (to_send (self w)) as [|m l] eqn:Hq; [done|]. injection Hks as <- <-.
  cbn [e_total entry_of]. destruct (Z.eqb_spec (Z.of_nat (length bs) + 1) (beats_to_send m)) as [Heq|Hne].
  - cbn [fst snd]. eapply holds_sent; [exact Hf'|cbn; exact Hq|rewrite length_app; cbn; lia].
  - cbn [fst snd].
    assert (He : map entry_of (m :: l) = map entry_of (to_send (self (on_self (set_accepted true) w))))
      by (cbn; by rewrite Hq).
    rewrite He. apply holds_part; [exact Hf'|]. cbn. rewrite Hq. cbn. rewrite length_app. cbn. lia.
Qed.

(** Code outside of the sender. *)
Lemma holds_same w w' ks bs :
  holds w ks bs -> valid (channel w') = valid (channel w) -> data (channel w') = data (channel w) ->
  beat_accepted (self w') = beat_accepted (self w) ->
  modifications (self w') = modifications (self w) -> to_send (self w') = to_send (self w) ->
  holds w' ks bs.
Proof.
  intros Hh Hv Hd Ha Hm Hq.
  assert (Hi : forall bs, in_flight w bs -> in_flight w' bs).
  { intros bs' Hf. by eapply extends_in_flight; [apply same_extends|]. }
  destruct Hh as [bs Hf Hu|m l bs Hf Hq0 Hn].
  - rewrite <- Hq. apply holds_part; [auto|by rewrite Hq].
  - eapply holds_sent; [by apply Hi|by rewrite Hq|done].
Qed.

(** A new message. *)
Lemma holds_push w w' ks bs m :
  holds w ks bs -> fresh m -> to_send (self w') = to_send (self w) ++ [m] ->
  channel w' = channel w -> beat_accepted (self w') = beat_accepted (self w) ->
  modifications (self w') = modifications (self w) ->
  holds w' (ks ++ [entry_of m]) bs /\ (ks = [] -> bs = []).
Proof.
  intros Hh Hm Hq Hc Ha Hmod.
  assert (Hx : extends w w').
  { split; try congruence. intros Hok. exists [m]. rewrite Hq. by apply grown_push. }
  assert (Hi : forall bs, in_flight w bs -> in_flight w' bs).
  { intros bs' Hf. by eapply extends_in_flight. }
  destruct Hh as [bs Hf Hu|m0 l bs Hf Hq0 Hn].
  - split.
    + assert (He : map entry_of (to_send (self w)) ++ [entry_of m] = entries w') by (by rewrite Hq, map_app).
      rewrite He. apply holds_part; [auto|]. rewrite Hq. destruct (to_send (self w)) as [|m1 l] eqn:Hl; [|done].
      cbn. pose proof (flight_front _ _ Hf) as Ff. rewrite Hl in Ff. destruct Ff as [-> _].
      destruct Hm as [[? ? ? ?] _]. cbn. lia.
    + pose proof (flight_front _ _ Hf) as Ff. destruct (to_send (self w)); [|done]. by destruct Ff.
  - split; [|done]. change ([entry_of m]) with (map entry_of [m]). rewrite <- map_app.
    eapply holds_sent; [by apply Hi|by rewrite Hq, Hq0|done].
Qed.

(** *** The stages of a cycle *)

Lemma flow_holds w ks bs :
  holds w ks bs ->
  exists w', set_flow_control w = (Ok tt, w') /\ beat_accepted (self w') = false
    /\ requests (self w') = requests (self w) /\ ids_in_use (self w') = ids_in_use (self w)
    /\ ready (channel w') = ready (channel w) /\ generator w' = generator w /\ holds w' ks bs.
Proof.
  intros Hh. unfold set_flow_control. erewrite bind_ok by done. cbv beta.
  set (w' := on_self (set_accepted false) (if beat_accepted (self w) then on_channel (set_valid false) w else w)).
  exists w'. split; [by destruct (beat_accepted (self w))|]. unfold w'.
  destruct (beat_accepted (self w)) eqn:Ha; (repeat (split; [done|])).
  - assert (Ho : offered w = false) by (unfold offered; by rewrite Ha, andb_false_r).
    assert (Hi : forall bs, in_flight w bs ->
      in_flight (on_self (set_accepted false) (on_channel (set_valid false) w)) bs).
    { intros bs' Hf. eapply (delivers_channel w); try done. }
    destruct Hh as [bs Hf Hu|m l bs Hf Hq Hn].
    + apply (holds_part (on_self (set_accepted false) (on_channel (set_valid false) w))); auto.
    + by eapply (holds_sent (on_self (set_accepted false) (on_channel (set_valid false) w)) m l bs); [apply Hi|..].
  - eapply holds_same; try done.
Qed.

Lemma front_run w m l : to_send (self w) = m :: l -> front w = (Ok m, w).
Proof. intros Hq. unfold front. erewrite bind_ok by done. cbv beta. by rewrite Hq. Qed.

Lemma retract_rests w ks bs :
  holds w ks bs -> offered w = true ->
  exists w', retract w = (Ok tt, w') /\ resting w' ks bs
    /\ requests (self w') = requests (self w) /\ ids_in_use (self w') = ids_in_use (self w).
Proof.
  intros Hh Ho. destruct Hh as [bs Hf Hu|m l bs Hf Hq Hn].
  2: { destruct Hf as [_ Fo _ Ff _]. rewrite Hq, Ho in *. destruct Ff as (_ & Hl & _).
       apply Forall_cons_1 in Fo as [[_ Hgr Hrt _] _]. lia. }
  pose proof Hf as [Fm Fo Fr Ff Fa]. rewrite Ho in Ff.
  destruct (to_send (self w)) as [|m l] eqn:Hq; [by destruct Ff|]. destruct Ff as (Hb & Hl & _).
  unfold retract. erewrite bind_ok by done. erewrite bind_ok by (eapply front_run; cbn; exact Hq).
  pose proof Ho as Ho'. unfold offered in Ho'. apply andb_true_iff in Ho' as [_ Ha%negb_true_iff].
  eexists. split; [done|]. split; [|done]. apply Forall_cons_1 in Fo as [Hm Fo]. pose proof Hm as [? ? ? ?].
  split; cbn; rewrite ?Hq; try done.
  split; cbn; rewrite ?Hq; cbn; try done.
  - constructor; [|done]. apply set_generated_ok; [done|]. lia.
  - split; [done|]. unfold offered. cbn. split; [lia|done].
  - by rewrite Ha.
Qed.

Lemma pop_rests w ks bs :
  holds w ks bs -> idle w ->
  exists w', pop_finished w = (Ok tt, w') /\ resting w' ks bs
    /\ requests (self w') = requests (self w) /\ ids_in_use (self w') = ids_in_use (self w).
Proof.
  intros Hh Hi. rewrite pop_finished_run. eexists. split; [done|]. split; [|done].
  pose proof (idle_offered w Hi) as Ho.
  destruct Hh as [bs Hf Hu|m l bs Hf Hq Hn].
  - assert (Hsame : unfinished (to_send (self w)) = to_send (self w)).
    { pose proof (flight_front _ _ Hf) as Ff. rewrite Ho in Ff. unfold unfinished, unsent in *.
      destruct (to_send (self w)) as [|m l]; [done|]. destruct Ff as (_ & Hl & _). unfold finished.
      by rewrite (proj2 (Z.eqb_neq _ _)) by lia. }
    rewrite Hsame. split; cbn; try done. eapply extends_in_flight; [|exact Hf]. by apply same_extends.
  - pose proof (pop_in_flight w bs (on_self (set_to_send (unfinished (to_send (self w)))) w)
      Hf Ho Hi (flight_mods _ _ Hf) eq_refl) as Hf'.
    pose proof (flight_front _ _ Hf) as Ff. rewrite Ho in Ff. rewrite Hq in *. destruct Ff as (_ & Hl & _).
    assert (Hfin : finished m = true) by (unfold finished; apply Z.eqb_eq; lia).
    cbn [current_beats unfinished] in *. rewrite Hfin in *. split; cbn; try done.
    destruct l as [|m' l]; [done|]. pose proof (flight_ok _ _ Hf) as Fo. rewrite Hq in Fo.
    apply Forall_cons_1 in Fo as [_ [[? ? ? ?] _]%Forall_cons_1]. cbn. lia.
Qed.

Lemma send_beat_holds w ks bs r :
  resting w ks bs -> (exists m l, to_send (self w) = m :: l /\ can_send m = true
    /\ exists b m' g, next_beat r m (generator w) = (Ok (b, m'), g)) ->
  exists w', send_beat r w = (Ok tt, w') /\ holds w' ks bs /\ beat_accepted (self w') = false
    /\ valid (channel w') = true /\ requests (self w') = requests (self w) /\ ids_in_use (self w') = ids_in_use (self w).
Proof.
  intros [Hf Hu Hi ->] (m & l & Hq & Hcan & b & m' & g & Hb).
  destruct (next_beat_law _ _ _ _ _ _ Hb) as [-> Hspec].
  destruct (in_flight_unoffered w bs m l Hf Hq (idle_offered w Hi)) as (Hbs & Hlen & Hok).
  unfold send_beat. erewrite bind_ok by (eapply front_run; exact Hq).
  rewrite bind_run. unfold draw, zoom. rewrite Hb. cbn [fst snd].
  erewrite bind_ok by done. erewrite bind_ok by (apply unmodified; exact (flight_mods _ _ Hf)). cbn [fst snd].
  unfold has. rewrite !(bool_decide_eq_false_2 (is_Some _)) by (rewrite lookup_empty; by intros [? ?]).
  eexists. split; [done|]. destruct Hf as [Fm Fo Fr _ _], Hi as [_ Ha]. rewrite Hq in *.
  apply Forall_cons_1 in Fo as [_ Fo]. unfold can_send in Hcan. apply Z.ltb_lt in Hcan.
  split; [|repeat split; try done].
  match goal with |- holds ?w' _ _ => assert (He : map entry_of (m :: l) = entries w') by (cbn; by rewrite Hq) end.
  rewrite He. apply holds_part; cbn; rewrite ?Hq; cbn; [|cbn in Hu; lia].
  split; cbn; rewrite ?Hq; try done.
  - constructor; [|done]. apply set_generated_ok; [done|]. destruct Hok. lia.
  - unfold offered. cbn. rewrite Ha. cbn. split; [done|]. split; [lia|]. intros _.
    by replace (beats_generated m + 1 - 1) with (beats_generated m) by lia.
Qed.

(** *** A cycle keeps an invariant of the queue, and cannot fail

    [I] is about the messages, the accepted beats of the first one, the requests and
    the identifiers in use; [J] holds when the requests have been answered. *)
Section invariant.

Variables I J : list (entry C) -> list C -> Q -> gset Z -> Prop.

Implicit Types K : list (entry C) -> list C -> Q -> gset Z -> Prop.

Definition kept K w : Prop := exists ks bs, holds w ks bs /\ K ks bs (requests (self w)) (ids_in_use (self w)).
Definition kept_resting K w : Prop :=
  exists ks bs, resting w ks bs /\ K ks bs (requests (self w)) (ids_in_use (self w)).
Definition kept_outputs K w : Prop := kept K w /\ beat_accepted (self w) = false.

(** The first message waits for beats. *)
Definition blocked ks bs : Prop :=
  match ks with [] => True | k :: _ => e_ready k <= Z.of_nat (length bs) end.

(** A beat is on the channel, unless there is none that can be sent. *)
Definition active w : Prop :=
  valid (channel w) = true
  \/ exists ks bs, resting w ks bs /\ J ks bs (requests (self w)) (ids_in_use (self w)) /\ blocked ks bs.

Lemma resting_blocked w ks bs :
  resting w ks bs -> match to_send (self w) with [] => True | m :: _ => can_send m = false end -> blocked ks bs.
Proof.
  intros [Hf _ Hi ->] Hcan. destruct (to_send (self w)) as [|m l] eqn:Hq; [done|].
  destruct (in_flight_unoffered w bs m l Hf Hq (idle_offered w Hi)) as (_ & Hlen & Hok).
  unfold can_send in Hcan. apply Z.ltb_ge in Hcan. cbn. lia.
Qed.

(** Moving a message to the end, reordering and answering requests keep [I]; the first
    message can generate its next beat. *)
Record queue_invariant : Prop := {
  rotate_kept k ks q ids : is_fifo = false -> I (k :: ks) [] q ids ->
    from_option e_complete false (list.last (k :: ks)) = true -> I (ks ++ [k]) [] q ids;
  requests_kept ks bs q ids : is_fifo = false -> I ks bs q ids -> I ks bs (reorder_requests q) ids;
  respond_kept : safe False (kept_resting I) respond (fun _ => kept_resting J);
  answered_kept ks bs q ids : J ks bs q ids -> I ks bs q ids;
  generates_kept r m ks bs q ids g : I (entry_of m :: ks) bs q ids -> message_ok m -> can_send m = true ->
    exists b m' g', next_beat r m g = (Ok (b, m'), g');
}.

Hypothesis invariant : queue_invariant.

#[local] Set Default Proof Using "All".

Lemma rest_same K w w' :
  kept_resting K w -> channel w' = channel w -> self w' = self w -> kept_resting K w'.
Proof.
  intros (ks & bs & [Hf Hu [Hv Ha] ->] & HI) Hc Hs. exists (entries w), bs. rewrite Hs. split; [|done].
  split; rewrite ?Hs; try done; [|by split; rewrite ?Hc, ?Hs].
  eapply extends_in_flight; [|exact Hf]. by apply same_extends; rewrite ?Hc, ?Hs.
Qed.

Lemma draw_safe {A} (k : M exn G A) (P : state C Q G -> Prop) :
  (forall g, exists a g', k g = (Ok a, g')) ->
  (forall w w', P w -> channel w' = channel w -> self w' = self w -> P w') ->
  safe False P (draw k) (fun _ => P).
Proof.
  intros Hk HP w Hw. unfold draw, zoom. destruct (Hk (generator w)) as (a & g' & ->). by eapply HP.
Qed.

Lemma random_bool_runs p (g : G) : exists b g', random_bool p g = (Ok b, g').
Proof using Type. unfold random_bool, rand. rewrite bind_run. destruct (next_rand g) as [n g']. by eexists _, g'. Qed.

Lemma chance_safe r p (P : state C Q G -> Prop) :
  (forall w w', P w -> channel w' = channel w -> self w' = self w -> P w') ->
  safe False P (chance r p) (fun b w => P w /\ (r = false -> b = false)).
Proof.
  intros HP. unfold chance. destruct r; [|by apply safe_ret].
  eapply safe_weaken; [apply draw_safe; [apply random_bool_runs|exact HP]|done|by intros b w Hw].
Qed.

Lemma reorder_entries (l : list (tl_message C)) :
  list.last (map entry_of l) = entry_of <$> list.last l.
Proof. apply (fmap_last entry_of). Qed.

Lemma reorder_rests :
  is_fifo = false -> safe False (kept_resting I) reorder_all (fun _ => kept_resting I).
Proof.
  intros Hfifo w (ks & bs & [Hf Hu Hi ->] & HI). unfold reorder_all.
  set (w' := on_self (fun s => set_to_send (reorder (to_send s)) (set_requests (reorder_requests (requests s)) s)) w).
  change (kept_resting I w').
  assert (Hf' : in_flight w' bs) by (by eapply (in_flight_reorder w)).
  apply (requests_kept invariant) in HI; [|done].
  assert (Hq : to_send (self w') = reorder (to_send (self w))) by done.
  destruct (to_send (self w)) as [|m l] eqn:Hl; [by exists [], bs; split; [split; rewrite ?Hq|]|].
  cbn [reorder] in Hq. destruct (negb (in_progress m) && _) eqn:Hmove.
  2: { exists (map entry_of (m :: l)), bs. split; [split; rewrite ?Hq|]; done. }
  apply andb_true_iff in Hmove as [Hprog%negb_true_iff Hlast].
  destruct (in_flight_unoffered w bs m l Hf Hl (idle_offered w Hi)) as (_ & Hlen & Hok).
  assert (bs = []) as ->.
  { unfold in_progress in Hprog. apply Z.ltb_ge in Hprog. destruct Hok. destruct bs; [done|]. cbn in Hlen. lia. }
  exists (map entry_of (l ++ [m])), []. split.
  - split; try done; rewrite Hq; [|done]. pose proof (flight_ok _ _ Hf') as Fo. rewrite Hq in Fo.
    destruct (l ++ [m]); [done|]. cbn. by apply Forall_inv in Fo as [? ? ? ?].
  - rewrite map_app. apply (rotate_kept invariant); [done|exact HI|].
    change (entry_of m :: map entry_of l) with (map entry_of (m :: l)). rewrite reorder_entries.
    by destruct (list.last (m :: l)).
Qed.

(** The part of a cycle that starts without a beat on the channel. *)
Lemma resume_safe r :
  safe False (fun w => kept I w /\ idle w)
    (pop_finished;;
     shuffle ← (if is_fifo then mret false else chance r 500);
     when shuffle reorder_all;;
     answer ← (if (r : bool) then draw (random_bool 800) else mret true);
     when answer respond;;
     can ← can_send_front;
     if (can : bool) then
       stall ← chance r 200;
       when (negb stall) (send_beat r)
     else mret tt)
    (fun _ w => kept_outputs I w /\ (r = false -> active w)).
Proof.
  pose (answered := fun w => kept_resting I w /\ (r = false -> kept_resting J w)).
  assert (Hanswered : forall w w', answered w -> channel w' = channel w -> self w' = self w -> answered w').
  { intros w w' [Hw HJ] Hc Hs. split; [by eapply rest_same|]. intros Hr. by eapply rest_same; [apply HJ|..]. }
  eapply safe_then with (Q := kept_resting I).
  { intros w [(ks & bs & Hh & HI) Hi]. destruct (pop_rests w ks bs Hh Hi) as (w' & -> & Hr & Hq & Hids).
    exists ks, bs. by rewrite Hq, Hids. }
  intros []. eapply safe_bind with (Q := fun b w => kept_resting I w /\ (b = true -> is_fifo = false)).
  { destruct is_fifo; [by apply safe_ret|].
    eapply safe_weaken; [apply (chance_safe r 500 (kept_resting I) (rest_same I))|done|by intros b w [Hw _]]. }
  intros shuffle. eapply safe_then with (Q := kept_resting I).
  { apply safe_when; [|by intros _ w [? _]]. intros -> w [Hw Hf]. by apply (reorder_rests (Hf eq_refl)). }
  intros []. eapply safe_bind with (Q := fun b w => kept_resting I w /\ (r = false -> b = true)).
  { destruct r; [|by apply safe_ret].
    eapply safe_weaken; [apply (draw_safe _ (kept_resting I)); [apply random_bool_runs|apply rest_same]|done|by intros b w Hw]. }
  intros answer. eapply safe_then with (Q := answered).
  { apply safe_when.
    - intros _. eapply safe_weaken; [apply (respond_kept invariant)|by intros w [Hw _]|].
      intros [] w Hw. split; [|done]. destruct Hw as (ks & bs & Hrest & HJ). exists ks, bs.
      split; [done|]. by apply (answered_kept invariant).
    - intros -> w [Hw Hr]. split; [done|]. intros Hr'. by specialize (Hr Hr'). }
  intros []. eapply safe_bind with (Q := fun (can : bool) w => answered w
    /\ (if can then exists m l, to_send (self w) = m :: l /\ can_send m = true
        else match to_send (self w) with [] => True | m :: _ => can_send m = false end)).
  { intros w Hw. unfold can_send_front. rewrite bind_run. cbn [gets].
    destruct (to_send (self w)) as [|m l] eqn:Hq; cbn; rewrite Hq; [by split|]. split; [done|].
    destruct (can_send m) eqn:Hcan; [by exists m, l|done]. }
  intros [].
  2: { apply safe_ret. intros w [[(ks & bs & Hr & HI) HJ] Hcan]. split.
       - split; [|apply Hr]. exists ks, bs. split; [by apply resting_holds|done].
       - intros Hr'. right. destruct (HJ Hr') as (ks' & bs' & Hrest & HJ'). exists ks', bs'.
         split; [exact Hrest|]. split; [exact HJ'|]. by eapply resting_blocked. }
  eapply safe_bind with (Q := fun stall w => (answered w
    /\ exists m l, to_send (self w) = m :: l /\ can_send m = true) /\ (r = false -> stall = false)).
  { apply chance_safe. intros w w' [Hw Hm] Hc Hs. split; [by eapply Hanswered|by rewrite Hs]. }
  intros stall. apply safe_when.
  - intros _ w [[[(ks & bs & Hr & HI) _] (m & l & Hq & Hcan)] _].
    destruct (send_beat_holds w ks bs r Hr) as (w' & -> & Hh & Ha & Hv & Hqr & Hids).
    { exists m, l. split; [done|]. split; [done|]. pose proof Hr as [Hf _ _ ->]. rewrite Hq in HI.
      pose proof (flight_ok _ _ Hf) as Fo. rewrite Hq in Fo.
      eapply (generates_kept invariant); [exact HI|by apply Forall_inv in Fo|done]. }
    split; [|by left]. split; [|done]. exists ks, bs. by rewrite Hqr, Hids.
  - intros Hstall%negb_false_iff w [[[(ks & bs & Hr & HI) _] _] Hr']. split; [|intros Hf; specialize (Hr' Hf); congruence].
    split; [|apply Hr]. exists ks, bs. split; [by apply resting_holds|done].
Qed.

(** The beat on the channel stays there, or is retracted. *)
Lemma stays_safe r :
  safe False (fun w => kept_outputs I w /\ offered w = true)
    (s ← gets self;
     assert_that (negb (bool_decide (to_send s = [])));;
     x ← chance r 200;
     if (x : bool) then retract;; mret false else mret true)
    (fun stays w => kept_outputs I w /\ (if (stays : bool) then offered w = true else idle w)).
Proof.
  eapply safe_bind with (Q := fun s w => (kept_outputs I w /\ offered w = true) /\ s = self w).
  { by apply safe_gets. }
  intros s. eapply safe_then with (Q := fun w => kept_outputs I w /\ offered w = true).
  { apply safe_assert. intros w [[[(ks & bs & Hh & HI) Ha] Ho] ->].
    split; [|split; [split; [by exists ks, bs|done]|done]].
    apply negb_true_iff, bool_decide_eq_false. intros Hnil.
    destruct Hh as [bs Hf _|m l bs Hf Hq _]; [|congruence].
    pose proof (flight_front _ _ Hf) as Ff. rewrite Hnil in Ff. destruct Ff. congruence. }
  intros []. eapply safe_bind with (Q := fun _ w => kept_outputs I w /\ offered w = true).
  { eapply safe_weaken; [apply (chance_safe r 200 (fun w => kept_outputs I w /\ offered w = true))|done|by intros b w [Hw _]].
    intros w w' [[(ks & bs & Hh & HI) Ha] Ho] Hc Hs.
    assert (Hh' : holds w' ks bs) by (apply (holds_same w w' ks bs Hh); by rewrite ?Hc, ?Hs).
    split; [split; [exists ks, bs; by rewrite Hs|by rewrite Hs]|]. unfold offered in *. by rewrite Hc, Hs. }
  intros []; [|by apply safe_ret].
  eapply safe_then with (Q := fun w => kept_outputs I w /\ idle w); [|intros []; by apply safe_ret].
  intros w [[(ks & bs & Hh & HI) Ha] Ho].
  destruct (retract_rests w ks bs Hh Ho) as (w' & -> & Hr & Hq & Hids).
  split; [split; [exists ks, bs; rewrite Hq, Hids; split; [by apply resting_holds|done]|apply Hr]|apply Hr].
Qed.

Lemma set_outputs_safe r :
  safe False (kept_outputs I) (set_outputs r) (fun _ w => kept_outputs I w /\ (r = false -> active w)).
Proof.
  unfold set_outputs. eapply safe_bind with (Q := fun c w => kept_outputs I w /\ c = channel w); [by apply safe_gets|].
  intros c. eapply safe_bind with (Q := fun (stays : bool) w =>
    kept_outputs I w /\ (if stays then offered w = true else idle w)).
  - destruct (valid c) eqn:Hv.
    + eapply safe_weaken; [apply stays_safe| |done]. intros w [[Hw Ha] ->]. split; [by split|].
      unfold offered. by rewrite Hv, Ha.
    + apply safe_ret. intros w [[Hw Ha] ->]. split; [by split|]. by split.
  - intros [].
    + apply safe_ret. intros w [Hw Ho]. split; [done|]. intros _. left. unfold offered in Ho.
      by apply andb_true_iff in Ho as [Hv _].
    + eapply safe_weaken; [apply resume_safe| |by intros a w Hw]. intros w [[Hw _] Hi]. auto.
Qed.

End invariant.

Section quiet.

#[local] Set Default Proof Using "Type".

(** A sender that has nothing to send, and stays so: its requests are [q0]. *)
Definition quiet_queue (q0 : Q) ks bs (q : Q) (ids : gset Z) : Prop := ks = [] /\ q = q0.

Lemma quiet_invariant q0 :
  (forall w, requests (self w) = q0 -> respond w = (Ok tt, w)) -> reorder_requests q0 = q0 ->
  queue_invariant (quiet_queue q0) (quiet_queue q0).
Proof.
  intros Hresp Hreq. split.
  - by intros k ks q ids _ [Hk _].
  - intros ks bs q ids _ [-> ->]. by split.
  - intros w (ks & bs & Hr & HI). rewrite Hresp by (by destruct HI). by exists ks, bs.
  - done.
  - by intros r m ks bs q ids g [Hk _].
Qed.

Lemma quiet_unoffered q0 w : kept (quiet_queue q0) w -> offered w = false.
Proof.
  intros (ks & bs & Hh & [-> _]). destruct (offered w) eqn:Ho; [|done].
  by destruct (holds_offered w [] bs Hh Ho) as (k & ks' & ? & _).
Qed.

Lemma quiet_invalid q0 w : kept (quiet_queue q0) w -> beat_accepted (self w) = false -> valid (channel w) = false.
Proof.
  intros Hk Ha. pose proof (quiet_unoffered q0 w Hk) as Ho. unfold offered in Ho.
  rewrite Ha in Ho. by rewrite andb_true_r in Ho.
Qed.

End quiet.

(** Nothing depends on the generator and on the signal that the network drives. *)
Lemma kept_same I w w' :
  kept I w -> valid (channel w') = valid (channel w) -> data (channel w') = data (channel w) ->
  self w' = self w -> kept I w'.
Proof.
  intros (ks & bs & Hh & HI) Hv Hd Hs. exists ks, bs. rewrite Hs. split; [|done].
  apply (holds_same w w' ks bs Hh); by rewrite ?Hs.
Qed.

(** A new sender has nothing to send. *)
Lemma make_holds (q : Q) (c : wires C) (g : G) : valid c = false -> holds (State (make q) c g) [] [].
Proof.
  intros Hv. change (@nil (entry C)) with (map (@entry_of C) []).
  apply (holds_part (State (make q) c g)); [|done]. split; cbn; try done.
  split; [done|]. unfold offered. cbn. by rewrite Hv.
Qed.

End queue.
