(* ===== verification/TlWorlds.v ===== *)
(** * TileLink endpoints, channel by channel

    Rules for the safety of the code of hosts, devices and the simulation: a state of an
    endpoint is described by a predicate for each of its channels, on the sender or the
    receiver and its signals, and code that works on one channel keeps the others. *)

From S2P Require Import Prelude Exceptions Simulation TileLink TlEndpoint TlMessages TlChannels TlHarness.
From S2P Require Import TlSender TlSenderTheorems TlQueue TlReceiver.

Import Sender.

(** ** Senders *)

Section senders.

Context {C Q G : Type} `{Random G} {methods : SenderMethods C Q G} `{!SenderLaws C Q G}.

Implicit Types (s : sender C Q) (c : wires C) (I : list (entry C) -> list C -> Q -> gset Z -> Prop).

(** Between two cycles, and once the signals of a cycle are set. *)
Definition sending I s c : Prop := exists g : G, kept I (State s c g).
Definition offering I s c : Prop := sending I s c /\ beat_accepted s = false.

(** The queue, the requests and the identifiers in use. *)
Definition sends (ks : list (entry C)) (bs : list C) (q : Q) (ids : gset Z) s c : Prop :=
  (exists g : G, holds (State s c g) ks bs) /\ requests s = q /\ ids_in_use s = ids.

(** The signals. *)
Definition signals (v r : bool) (b : C) c : Prop := valid c = v /\ ready c = r /\ data c = b.

Lemma kept_sending I (t : state C Q G) : kept I t -> sending I (self t) (channel t).
Proof. exists (generator t). by destruct t. Qed.

Lemma sending_kept I (t : state C Q G) : sending I (self t) (channel t) -> kept I t.
Proof. intros [g Hk]. by eapply kept_same. Qed.

Lemma sending_wires I s c c' :
  sending I s c -> valid c' = valid c -> data c' = data c -> sending I s c'.
Proof. intros [g Hk] Hv Hd. exists g. by apply (kept_same I (State s c g)). Qed.

Lemma sends_wires ks bs q ids s c c' :
  sends ks bs q ids s c -> valid c' = valid c -> data c' = data c -> sends ks bs q ids s c'.
Proof. intros ([g Hh] & Hq & Hi) Hv Hd. split; [|done]. exists g. by apply (holds_same (State s c g)). Qed.

(** A change of the requests and the identifiers. *)
Lemma sends_changed ks bs q ids q' ids' s s' c :
  sends ks bs q ids s c -> beat_accepted s' = beat_accepted s -> modifications s' = modifications s ->
  to_send s' = to_send s -> requests s' = q' -> ids_in_use s' = ids' -> sends ks bs q' ids' s' c.
Proof. intros ([g Hh] & _ & _) Ha Hm Ht Hq Hi. split; [|done]. exists g. by apply (holds_same (State s c g)). Qed.

Lemma sending_sends I s c :
  sending I s c -> exists ks bs, sends ks bs (requests s) (ids_in_use s) s c /\ I ks bs (requests s) (ids_in_use s).
Proof. intros (g & ks & bs & Hh & HI). exists ks, bs. split; [|exact HI]. split; [by exists g|done]. Qed.

Lemma sends_sending I ks bs q ids s c : sends ks bs q ids s c -> I ks bs q ids -> sending I s c.
Proof. intros ([g Hh] & <- & <-) HI. exists g, ks, bs. by split. Qed.

(** Code of a sender leads from [P] to [R]. *)
Definition sender_safe {A} (o : Prop) (P : sender C Q -> wires C -> Prop) (k : M exn (state C Q G) A)
    (R : sender C Q -> wires C -> Prop) : Prop :=
  safe o (fun t => P (self t) (channel t)) k (fun _ t => R (self t) (channel t)).

Lemma flow_safe I : sender_safe False (sending I) set_flow_control (offering I).
Proof.
  intros t Ht. apply sending_kept in Ht as (ks & bs & Hh & HI).
  destruct (flow_holds t ks bs Hh) as (t' & -> & Ha & Hr & Hi & _ & _ & Hh').
  split; [|done]. apply kept_sending. exists ks, bs. by rewrite Hr, Hi.
Qed.

(** A beat is on the channel, unless no message can be sent. *)
Definition moving J s c : Prop :=
  valid c = true
  \/ exists ks bs, sends ks bs (requests s) (ids_in_use s) s c /\ J ks bs (requests s) (ids_in_use s) /\ blocked ks bs.
Definition offering_if (live : bool) I J s c : Prop := offering I s c /\ (live = true -> moving J s c).

Lemma sends_fewer ks bs q ids s c : sends ks bs q ids s c -> accepted_fewer ks bs.
Proof. intros ([g Hh] & _). by eapply holds_fewer. Qed.

Lemma offering_sends live I J s c :
  (forall ks bs q ids, J ks bs q ids -> I ks bs q ids) -> offering_if live I J s c ->
  exists ks bs, sends ks bs (requests s) (ids_in_use s) s c /\ I ks bs (requests s) (ids_in_use s)
    /\ (live = true -> valid c = false -> J ks bs (requests s) (ids_in_use s) /\ blocked ks bs).
Proof.
  intros HJ [[Hs _] Hm]. destruct (sending_sends I s c Hs) as (ks & bs & Hh & HI).
  destruct live; [|by exists ks, bs]. destruct (Hm eq_refl) as [Hv|(ks' & bs' & Hh' & HJ' & Hb)].
  - exists ks, bs. split; [done|]. split; [done|]. congruence.
  - exists ks', bs'. auto.
Qed.

Lemma outputs_safe I J r :
  queue_invariant I J -> sender_safe False (offering I) (set_outputs r) (offering_if (negb r) I J).
Proof.
  intros HI. eapply safe_weaken; [by apply (set_outputs_safe I J HI)| |].
  - intros t [Ht Ha]. split; [by apply sending_kept|done].
  - intros _ t [[Ht Ha] Hlive]. split; [split; [by apply kept_sending|done]|].
    intros Hr%negb_true_iff. destruct (Hlive Hr) as [Hv|(ks & bs & Hrest & HJ & Hb)]; [by left|right].
    exists ks, bs. split; [|done]. split; [|done]. exists (generator t). destruct t. by apply resting_holds.
Qed.

(** The network takes a beat, or does not. *)
Lemma inputs_safe ks bs q ids v ry b r :
  let x := accept (v && ry) b ks bs in
  sender_safe False (fun s c => sends ks bs q ids s c /\ beat_accepted s = false /\ signals v ry b c)
    (get_inputs r) (sends (fst x) (snd x) q ids).
Proof.
  intros x t (([g Hh] & Hq & Hi) & Ha & Hv & Hr & Hd).
  apply (holds_same _ t) in Hh; [|done..].
  destruct (get_inputs_holds t ks bs r Hh Ha) as (t' & -> & Hc & _ & Hq' & Hi' & Hh').
  rewrite Hv, Hr, Hd in Hh'. split; [|by split; congruence].
  exists (generator t'). by destruct t'.
Qed.

(** A quiet sender offers nothing, so nothing is taken. *)
Lemma quiet_unused q0 s c : offering (quiet_queue q0) s c -> valid c = false.
Proof. intros [[g Hk] Ha]. by apply (quiet_invalid q0 (State s c g)). Qed.

Lemma quiet_inputs q0 r :
  sender_safe False (offering (quiet_queue q0)) (get_inputs r) (sending (quiet_queue q0)).
Proof.
  intros t Ht. pose proof (quiet_unused _ _ _ Ht) as Hv. destruct Ht as [Ht _].
  unfold get_inputs. erewrite bind_ok by done. cbv beta. by rewrite Hv.
Qed.

End senders.

(** ** Receivers *)

Section receivers.

Context {C W G : Type} `{Random G}.
Variables (self : W -> Receiver.receiver) (set_self : Receiver.receiver -> W -> W).
Variables (channel : W -> wires C) (generator : W -> G) (set_generator : G -> W -> W).
Variable handle : bool -> C -> M exn W unit.

Lemma receiver_safe o (P Q R : W -> Prop) r v ry b :
  (forall w, P w -> valid (channel w) = v /\ data (channel w) = b /\ Receiver.ready_for_beat (self w) = ry) ->
  (v && ry = true -> safe o P (handle r b) (fun _ => Q)) ->
  (v && ry = false -> forall w, P w -> Q w) ->
  (forall g w, Q w -> Q (set_generator g w)) ->
  (forall next w, (negb r = true -> next = true) -> Q w ->
     R (set_self (Receiver.Receiver (Receiver.beats_remaining (self w)) next) w)) ->
  safe o P (Receiver.get_inputs self set_self channel generator set_generator handle r) (fun _ => R).
Proof.
  intros HP Hh Hn Hg Hs. unfold Receiver.get_inputs.
  eapply safe_bind with (Q := fun x w => P w /\ Receiver.ready_for_beat x = ry).
  { apply safe_gets. intros w Hw. split; [done|]. by apply HP. }
  intros x. eapply safe_bind with (Q := fun y w => P w /\ Receiver.ready_for_beat x = ry /\ valid y = v /\ data y = b).
  { apply safe_gets. intros w [Hw Hx]. destruct (HP w Hw) as (? & ? & _). auto. }
  intros y. eapply safe_then with (Q := Q).
  { intros w (Hw & -> & -> & ->). destruct (v && ry); [by apply Hh|by apply Hn]. }
  intros _. eapply safe_bind with (Q := fun next w => Q w /\ (negb r = true -> next = true)).
  { destruct r; [|by apply safe_ret]. intros w Hw. unfold zoom.
    destruct (random_bool_runs 800 (generator w)) as (n & g & ->). by split; [apply Hg|]. }
  intros next. apply safe_modify. intros w [Hw Hr]. by apply Hs.
Qed.

(** No beat is on the channel. *)
Lemma receiver_idle o (P Q : W -> Prop) r :
  (forall w, P w -> valid (channel w) = false /\ Q w) ->
  (forall g w, Q w -> Q (set_generator g w)) ->
  (forall next w, Q w -> Q (set_self (Receiver.Receiver (Receiver.beats_remaining (self w)) next) w)) ->
  safe o P (Receiver.get_inputs self set_self channel generator set_generator handle r) (fun _ => Q).
Proof.
  intros HP Hg Hs w Hw. destruct (HP w Hw) as [Hv HQ].
  apply (receiver_safe o (fun w' => w' = w) Q Q r false (Receiver.ready_for_beat (self w)) (data (channel w)));
    [by intros ? ->|done|by intros _ ? ->|done|by intros next w' _; apply Hs|done].
Qed.

End receivers.

(** What receivers know between two cycles, and once the signals of a cycle are set;
    they are ready for a beat if they are [live]. *)
Definition listening {C} (live : bool) (n : Z) (r : Receiver.receiver) (c : wires C) : Prop :=
  Receiver.beats_remaining r = n /\ (live = true -> Receiver.ready_for_beat r = true).
Definition taking {C} (live : bool) (n : Z) (r : Receiver.receiver) (c : wires C) : Prop :=
  listening live n r c /\ ready c = Receiver.ready_for_beat r.
Definition anything {A B} (a : A) (b : B) : Prop := True.

(** ** Worlds *)

Section worlds.

Context {E G : Type} `{Random G}.

(** Code of an endpoint leads from [P] to [R]. *)
Definition world_safe {A} (o : Prop) (P : E -> links -> Prop) (k : M exn (world E G) A) (R : E -> links -> Prop) : Prop :=
  safe o (fun w => P (me w) (port w)) k (fun _ w => R (me w) (port w)).

Implicit Types P Q R : E -> links -> Prop.

Lemma world_ret {A} o P (a : A) : world_safe o P (mret a) P.
Proof. by apply safe_ret. Qed.

Lemma world_then {A B} o P Q R (m : M exn (world E G) A) (k : A -> M exn (world E G) B) :
  world_safe o P m Q -> (forall a, world_safe o Q (k a) R) -> world_safe o P (m ≫= k) R.
Proof. intros Hm Hk. eapply safe_bind; [exact Hm|]. exact Hk. Qed.

Lemma world_when o P b (k : M exn (world E G) unit) : world_safe o P k P -> world_safe o P (when b k) P.
Proof. intros Hk. by apply safe_when. Qed.

Lemma world_modify o P Q (f : world E G -> world E G) :
  (forall w, P (me w) (port w) -> Q (me (f w)) (port (f w))) -> world_safe o P (modify f) Q.
Proof. intros Hf. by apply safe_modify. Qed.

Lemma world_weaken {A} o P P' Q Q' (k : M exn (world E G) A) :
  world_safe o P' k Q' -> (forall h l, P h l -> P' h l) -> (forall h l, Q' h l -> Q h l) -> world_safe o P k Q.
Proof. intros Hk HP HQ. eapply safe_weaken; [exact Hk|intros w; apply HP|intros a w; apply HQ]. Qed.

Lemma world_exists {A T} o (P : T -> E -> links -> Prop) R (k : M exn (world E G) A) :
  (forall t, world_safe o (P t) k R) -> world_safe o (fun h l => exists t, P t h l) k R.
Proof. intros Hk. by apply safe_exists. Qed.

Lemma world_pure {A} o (F : Prop) P R (k : M exn (world E G) A) :
  (F -> world_safe o P k R) -> world_safe o (fun h l => F /\ P h l) k R.
Proof. intros Hk. by apply safe_pure. Qed.

Lemma world_fuel {A} (o o' : Prop) P R (k : M exn (world E G) A) :
  world_safe o P k R -> (o -> o') -> world_safe o' P k R.
Proof. apply safe_fuel. Qed.

(** What always holds may be added. *)
Lemma world_always {A} o P R (J : E -> links -> Prop) (k : M exn (world E G) A) :
  world_safe o P k R -> always (fun w => J (me w) (port w)) k (fun _ => True) ->
  world_safe o (fun h l => P h l /\ J h l) k (fun h l => R h l /\ J h l).
Proof.
  intros Hk HJ w [HP Hw]. specialize (Hk w HP). destruct (HJ w Hw) as [Hw' _].
  destruct (k w) as [[a| | | | |] w']; done.
Qed.

Lemma world_random o P n : world_safe o P (zoom random set_random (random_bool n)) P.
Proof.
  intros w Hw. unfold zoom. by destruct (random_bool_runs n (random w)) as (b & g & ->).
Qed.

End worlds.

(** ** Hosts *)

Section host.

Context {G : Type}.
Context (p : endpoint).

Import TileLinkHost.

Abbreviation W := (world host G).
Abbreviation queue_c := (list (bool * tl_b)).
Abbreviation queue_e := (list (bool * tl_d)).

Record host_parts (Pa : sender tl_a unit -> wires tl_a -> Prop) (Pb : Receiver.receiver -> wires tl_b -> Prop)
    (Pc : sender tl_c queue_c -> wires tl_c -> Prop) (Pd : Receiver.receiver -> wires tl_d -> Prop)
    (Pe : sender tl_e queue_e -> wires tl_e -> Prop) (h : host) (l : links) : Prop := {
  host_endpoint : TileLinkHost.endpoint h = p;
  host_a : Pa (a h) (link_a l);
  host_b : Pb (b h) (link_b l);
  host_c : Pc (c h) (link_c l);
  host_d : Pd (d h) (link_d l);
  host_e : Pe (e h) (link_e l);
}.

Context (Pa : sender tl_a unit -> wires tl_a -> Prop) (Pb : Receiver.receiver -> wires tl_b -> Prop).
Context (Pc : sender tl_c queue_c -> wires tl_c -> Prop) (Pd : Receiver.receiver -> wires tl_d -> Prop).
Context (Pe : sender tl_e queue_e -> wires tl_e -> Prop).

Lemma on_a_safe {A} o (k : M exn (state tl_a unit G) A) Qa :
  sender_safe o Pa k Qa ->
  world_safe o (host_parts Pa Pb Pc Pd Pe) (on_a k) (host_parts Qa Pb Pc Pd Pe).
Proof.
  intros Hk. apply safe_zoom. intros w [He Ha Hb Hc Hd He']. eapply safe_weaken; [exact Hk| |].
  - by intros t ->.
  - intros x t Hx. by split.
Qed.

Lemma on_c_safe {A} o (k : M exn (state tl_c queue_c G) A) Qc :
  sender_safe o Pc k Qc ->
  world_safe o (host_parts Pa Pb Pc Pd Pe) (on_c k) (host_parts Pa Pb Qc Pd Pe).
Proof.
  intros Hk. apply safe_zoom. intros w [He Ha Hb Hc Hd He']. eapply safe_weaken; [exact Hk| |].
  - by intros t ->.
  - intros x t Hx. by split.
Qed.

Lemma on_e_safe {A} o (k : M exn (state tl_e queue_e G) A) Qe :
  sender_safe o Pe k Qe ->
  world_safe o (host_parts Pa Pb Pc Pd Pe) (on_e k) (host_parts Pa Pb Pc Pd Qe).
Proof.
  intros Hk. apply safe_zoom. intros w [He Ha Hb Hc Hd He']. eapply safe_weaken; [exact Hk| |].
  - by intros t ->.
  - intros x t Hx. by split.
Qed.

(** The endpoint is read before each access to the parameters. *)
Lemma host_gets {A} o (k : TlEndpoint.endpoint -> M exn W A) Q :
  world_safe o (host_parts Pa Pb Pc Pd Pe) (k p) Q ->
  world_safe o (host_parts Pa Pb Pc Pd Pe) (x ← gets (fun w => TileLinkHost.endpoint (me w)); k x) Q.
Proof. intros Hk w Hw. rewrite bind_run. cbn. rewrite (host_endpoint _ _ _ _ _ _ _ Hw). by apply Hk. Qed.

End host.

(** ** Devices *)

Section device.

Context {G : Type}.
Context (p : endpoint).

Import TileLinkDevice.

Abbreviation W := (world device G).
Abbreviation queue_b := (list (bool * tl_a)).

Record device_parts (Pa : Receiver.receiver -> wires tl_a -> Prop) (Pb : sender tl_b queue_b -> wires tl_b -> Prop)
    (Pc : Receiver.receiver -> wires tl_c -> Prop) (Pd : sender tl_d queue_d -> wires tl_d -> Prop)
    (Pe : Receiver.receiver -> wires tl_e -> Prop) (h : device) (l : links) : Prop := {
  device_endpoint : TileLinkDevice.endpoint h = p;
  device_a : Pa (a h) (link_a l);
  device_b : Pb (b h) (link_b l);
  device_c : Pc (c h) (link_c l);
  device_d : Pd (d h) (link_d l);
  device_e : Pe (e h) (link_e l);
}.

Context (Pa : Receiver.receiver -> wires tl_a -> Prop) (Pb : sender tl_b queue_b -> wires tl_b -> Prop).
Context (Pc : Receiver.receiver -> wires tl_c -> Prop) (Pd : sender tl_d queue_d -> wires tl_d -> Prop).
Context (Pe : Receiver.receiver -> wires tl_e -> Prop).

Lemma on_b_safe {A} o (k : M exn (state tl_b queue_b G) A) Qb :
  sender_safe o Pb k Qb ->
  world_safe o (device_parts Pa Pb Pc Pd Pe) (on_b k) (device_parts Pa Qb Pc Pd Pe).
Proof.
  intros Hk. apply safe_zoom. intros w [He Ha Hb Hc Hd He']. eapply safe_weaken; [exact Hk| |].
  - by intros t ->.
  - intros x t Hx. by split.
Qed.

Lemma on_d_safe {A} o (k : M exn (state tl_d queue_d G) A) Qd :
  sender_safe o Pd k Qd ->
  world_safe o (device_parts Pa Pb Pc Pd Pe) (on_d k) (device_parts Pa Pb Pc Qd Pe).
Proof.
  intros Hk. apply safe_zoom. intros w [He Ha Hb Hc Hd He']. eapply safe_weaken; [exact Hk| |].
  - by intros t ->.
  - intros x t Hx. by split.
Qed.

Lemma device_gets {A} o (k : TlEndpoint.endpoint -> M exn W A) Q :
  world_safe o (device_parts Pa Pb Pc Pd Pe) (k p) Q ->
  world_safe o (device_parts Pa Pb Pc Pd Pe) (x ← gets (fun w => TileLinkDevice.endpoint (me w)); k x) Q.
Proof. intros Hk w Hw. rewrite bind_run. cbn. rewrite (device_endpoint _ _ _ _ _ _ _ Hw). by apply Hk. Qed.

End device.

(** ** Getting the inputs leaves the signals alone *)

Section signals_kept.

Context {G : Type} `{Random G}.
Context (l : links).

(** Senders that only handle requests and end transactions. *)
Definition channel_kept {C Q A} (k : M exn (state C Q G) A) : Prop :=
  forall c, always (fun t => channel t = c) k (fun _ => True).

Lemma inputs_channel {C Q} r : channel_kept (C := C) (Q := Q) (get_inputs r).
Proof.
  intros c. eapply always_then; [by apply always_gets|]. intros w. apply always_when. intros _. by apply always_modify.
Qed.

Lemma end_channel {C Q} id : channel_kept (C := C) (Q := Q) (end_transaction id).
Proof.
  intros c. eapply always_then; [by apply always_gets|]. intros s.
  eapply always_then; [by apply always_fail|]. intros ids. by apply always_modify.
Qed.

Lemma request_channel {C Q R} (view : Q -> list R) update rq : channel_kept (C := C) (handle_request view update rq).
Proof. intros c. by apply always_modify. Qed.

Abbreviation port_kept k := (always (E := exn) (fun w => port w = l) k (fun _ => True)).

Lemma receiver_port {E C} (self : world E G -> Receiver.receiver) set_self (channel : world E G -> wires C) handle r :
  (forall x w, port (set_self x w) = port w) -> (forall b, port_kept (handle r b)) ->
  port_kept (Receiver.get_inputs self set_self channel random set_random handle r).
Proof.
  intros Hset Hh. eapply always_then; [by apply always_gets|]. intros x.
  eapply always_then; [by apply always_gets|]. intros c.
  eapply always_then; [by apply always_when|]. intros _.
  eapply always_then.
  { destruct r; [|by apply always_ret]. eapply always_zoom with (PT := fun _ => True); [done|done|]. by intros g _. }
  intros next. apply always_modify. intros w Hw. by rewrite Hset.
Qed.

Lemma modify_port {E} (f : world E G -> world E G) : (forall w, port (f w) = port w) -> port_kept (modify f).
Proof. intros Hf. apply always_modify. intros w Hw. by rewrite Hf. Qed.

Lemma endpoint_port {E A} (f : world E G -> A) : port_kept (gets f).
Proof. by apply always_gets. Qed.

(** Code of a sender that keeps its channel [c]. *)
Ltac signals_stay c :=
  match goal with Hk : channel_kept _ |- _ =>
    eapply always_weaken with (Q := fun _ => True);
      [eapply always_zoom with (PT := fun t => channel t = c);
        [by intros w <-|intros w t Hw Ht; cbn; rewrite Hw, Ht; by destruct l|apply Hk]|done]
  end.

Lemma host_a_port {A} (k : M exn (state tl_a unit G) A) : channel_kept k -> port_kept (TileLinkHost.on_a k).
Proof. intros Hk. signals_stay (link_a l). Qed.
Lemma host_c_port {A} (k : M exn (state tl_c (list (bool * tl_b)) G) A) : channel_kept k -> port_kept (TileLinkHost.on_c k).
Proof. intros Hk. signals_stay (link_c l). Qed.
Lemma host_e_port {A} (k : M exn (state tl_e (list (bool * tl_d)) G) A) : channel_kept k -> port_kept (TileLinkHost.on_e k).
Proof. intros Hk. signals_stay (link_e l). Qed.
Lemma device_b_port {A} (k : M exn (state tl_b (list (bool * tl_a)) G) A) : channel_kept k -> port_kept (TileLinkDevice.on_b k).
Proof. intros Hk. signals_stay (link_b l). Qed.
Lemma device_d_port {A} (k : M exn (state tl_d queue_d G) A) : channel_kept k -> port_kept (TileLinkDevice.on_d k).
Proof. intros Hk. signals_stay (link_d l). Qed.

Create HintDb port.
#[local] Hint Resolve host_a_port host_c_port host_e_port device_b_port device_d_port inputs_channel end_channel
  request_channel endpoint_port : port.

(** The steps of the code that handles a beat. *)
Ltac keeps_port :=
  repeat first
    [ by eauto with port | by apply modify_port | by apply always_ret | by apply always_fail | apply always_assert
    | apply always_when; intros _ | eapply always_then; [|intros ?] | case_match ].

Lemma host_inputs_port r : port_kept (TileLinkHost.get_inputs r).
Proof.
  unfold TileLinkHost.get_inputs.
  repeat (eapply always_then; [|intros _]); try (by eauto with port); apply receiver_port; try done; intros b.
  - unfold TileLinkHost.handle_b. keeps_port.
  - unfold TileLinkHost.handle_d, TileLinkHost.arrived_d, TileLinkHost.all_arrived_d. keeps_port.
Qed.

Lemma device_inputs_port r : port_kept (TileLinkDevice.get_inputs r).
Proof.
  unfold TileLinkDevice.get_inputs.
  repeat (eapply always_then; [|intros _]); try (by eauto with port); apply receiver_port; try done; intros b.
  - unfold TileLinkDevice.handle_a, TileLinkDevice.arrived_a, TileLinkDevice.all_arrived_a, TileLinkDevice.answer_a_on_d. keeps_port.
  - unfold TileLinkDevice.handle_c, TileLinkDevice.arrived_c, TileLinkDevice.all_arrived_c, TileLinkDevice.answer_c_on_d,
      TileLinkDevice.end_probe. keeps_port.
  - unfold TileLinkDevice.handle_e. keeps_port.
Qed.

End signals_kept.

(** ** A simulation of one host and one device *)

Section simulation.

Context {X G : Type} `{Random G} `{Indeterminate} `{Wrapper X} `{TraceFormats}.

Import TileLinkSimulation.

(** Traffic is random if [r]; [P] relates the device under test, the host, its port, the
    device and its port. *)
Definition pair_of (r : bool) (P : X -> TileLinkHost.host -> links -> TileLinkDevice.device -> links -> Prop)
    (s : simulation X G) : Prop :=
  exists h lh dv ld, randomise s = r /\ hosts s = [h] /\ devices s = [dv] /\ host_ports (under_test s) = [lh]
    /\ device_ports (under_test s) = [ld] /\ P (rtl (under_test s)) h lh dv ld.

Context {r : bool}.

Abbreviation P_host := (TileLinkHost.host -> links -> Prop).
Abbreviation P_device := (TileLinkDevice.device -> links -> Prop).
Abbreviation both T Ph Pd := (pair_of r (fun x h lh dv ld => T x /\ Ph h lh /\ Pd dv ld)).

Implicit Types T : X -> Prop.

Lemma on_host_safe o T (Ph Qh : P_host) (Pd : P_device) k :
  world_safe o Ph k Qh ->
  safe o (both T Ph Pd) (on_host (A := unit) 0 k) (fun _ => both T Qh Pd).
Proof.
  intros Hk s (h & lh & dv & ld & Er & Eh & Ed & Elh & Eld & HT & HPh & HPd). unfold on_host. rewrite Eh, Elh. cbn.
  specialize (Hk (World h lh (generator s)) HPh).
  destruct (k (World h lh (generator s))) as [[[]| | | | |] w]; try done.
  by exists (me w), (port w), dv, ld.
Qed.

Lemma on_device_safe o T (Ph : P_host) (Pd Qd : P_device) k :
  world_safe o Pd k Qd ->
  safe o (both T Ph Pd) (on_device (A := unit) 0 k) (fun _ => both T Ph Qd).
Proof.
  intros Hk s (h & lh & dv & ld & Er & Eh & Ed & Elh & Eld & HT & HPh & HPd). unfold on_device. rewrite Ed, Eld. cbn.
  specialize (Hk (World dv ld (generator s)) HPd).
  destruct (k (World dv ld (generator s))) as [[[]| | | | |] w]; try done.
  by exists h, lh, (me w), (port w).
Qed.

Lemma both_safe o T (Ph Qh : P_host) (Pd Qd : P_device) kh kd :
  world_safe o Ph kh Qh ->
  world_safe o Pd kd Qd ->
  safe o (both T Ph Pd) (all_endpoints kh kd) (fun _ => both T Qh Qd).
Proof.
  intros Hh Hd. unfold all_endpoints. eapply safe_bind with (Q := fun x s => x = s /\ both T Ph Pd s).
  { by intros s Hs. }
  intros x s [-> Hs]. pose proof Hs as (h & lh & dv & ld & _ & -> & -> & _). cbn [length for_each].
  revert s Hs. change (safe o (both T Ph Pd) ((on_host 0 kh;; mret tt);; on_device 0 kd;; mret tt) (fun _ => both T Qh Qd)).
  eapply safe_then with (Q := both T Qh Pd).
  - eapply safe_then; [by apply on_host_safe|]. intros _. by apply safe_ret.
  - intros _. eapply safe_then; [by apply on_device_safe|]. intros _. by apply safe_ret.
Qed.

Lemma dut_safe o P Q (f : dut X -> dut X) :
  (forall h lh dv ld x, P x h lh dv ld -> exists lh' ld' x',
     f (Dut [lh] [ld] x) = Dut [lh'] [ld'] x' /\ Q x' h lh' dv ld') ->
  safe (E := exn) o (pair_of r P) (modify (on_dut (G := G) f)) (fun _ => pair_of r Q).
Proof.
  intros Hf. apply safe_modify. intros s (h & lh & dv & ld & Er & Eh & Ed & Elh & Eld & HP).
  destruct (under_test s) as [hp dp x] eqn:Et. cbn in Elh, Eld, HP. subst hp dp.
  destruct (Hf h lh dv ld x HP) as (lh' & ld' & x' & Hx & HQ). exists h, lh', dv, ld'.
  cbn. rewrite Et, Hx. done.
Qed.

Lemma dump_safe o f (P : Simulation.simulation unit -> Prop) :
  (forall b b', P b -> P b') -> safe o P (Simulation.dump_waves f) (fun _ => P).
Proof.
  intros HP. apply safe_run. intros b Hb. unfold Simulation.dump_waves, Simulation.if_waves.
  erewrite bind_ok by done. destruct (Simulation.compiled_in f); [|by eexists tt, _; split].
  case_match; eexists tt, _; split; try done. by eapply HP.
Qed.

Lemma trace_safe o P : safe o (pair_of r P) (on_base (X := X) (G := G) Simulation.base_trace_state_change) (fun _ => pair_of r P).
Proof.
  apply safe_zoom. intros s Hs. eapply safe_weaken with (P' := fun _ => True) (Q' := fun _ _ => True);
    [|done|intros a b _; exact Hs].
  eapply safe_then; [by apply dump_safe|]. intros _. by apply dump_safe.
Qed.

Lemma half_cycle_safe o P : safe o (pair_of r P) (half_cycle (X := X) (G := G)) (fun _ => pair_of r P).
Proof. apply safe_zoom. intros s Hs. by apply safe_modify. Qed.

End simulation.
