(* ===== verification/TlResponder.v ===== *)
(** * TileLink devices: every request is answered

    The sender of channel D. Its output buffer is locked exactly while the last
    response waits for further beats of its request, and a request whose beats have
    all been received becomes one complete response. *)

From S2P Require Import Prelude Exceptions TileLink TlEndpoint TlMessages TlMessagesTheorems.
From S2P Require Import TlChannels TlHarness TlSender TlSenderTheorems TlReceiver.

Import Sender.

(** ** The loop that answers requests *)

Section answering.

Context {C Q G R : Type}.

Variables (view : Q -> list R) (update : list R -> Q -> Q) (in_order : bool).
Variable respond1 : R -> M exn (state C Q G) unit.

Implicit Types w : state C Q G.

Definition pop_front w : state C Q G :=
  on_self (fun s => set_requests (update (drop 1 (view (requests s))) (requests s)) s) w.

Lemma answer_step n r rs w w1 :
  view (requests (self w)) = r :: rs -> respond1 r w = (Ok tt, w1) ->
  answer view update in_order respond1 (S n) w = answer view update in_order respond1 n (pop_front w1).
Proof.
  intros Hq Hr. cbn [answer]. erewrite bind_ok by done. cbv beta. rewrite Hq.
  assert (Hn : no_identifier_left (respond1 r) w = (Ok false, w1)).
  { unfold no_identifier_left, try_catch. by erewrite bind_ok by exact Hr. }
  erewrite bind_ok by exact Hn. cbn [andb when]. erewrite bind_ok by done. by erewrite bind_ok by done.
Qed.

Lemma answer_one r w w1 :
  view (requests (self w)) = [r] -> respond1 r w = (Ok tt, w1) ->
  answer_all view update in_order respond1 w = (Ok true, pop_front w1).
Proof.
  intros Hq Hr. unfold answer_all. erewrite bind_ok by done. cbv beta. rewrite Hq.
  cbn [length]. erewrite answer_step by (exact Hq || exact Hr). done.
Qed.

End answering.

Lemma start_transaction_run {C Q G} (id : Z) (w : state C Q G) :
  id ∉ ids_in_use (self w) ->
  start_transaction id w = (Ok tt, on_self (set_ids ({[id]} ∪ ids_in_use (self w))) w).
Proof.
  intros Hid. unfold start_transaction. erewrite bind_ok by done. cbv beta.
  unfold TransactionId.start_transaction, TransactionId.available.
  by rewrite bool_decide_eq_true_2.
Qed.

Section responder.

Context {G : Type} `{Random G} `{Indeterminate}.
Context (fuel : nat) (e : endpoint).

Implicit Types (w : state tl_d queue_d G) (m : tl_message tl_d).

(** ** Creating the response *)

(** The fields of a state that a response changes. *)
Record answered w w' (l : list (tl_message tl_d)) (lock : bool) : Prop := {
  answered_to_send : to_send (self w') = l;
  answered_lock : lock_output_buffer (requests (self w')) = lock;
  answered_a : a_requests (requests (self w')) = a_requests (requests (self w));
  answered_c : c_requests (requests (self w')) = c_requests (requests (self w));
  answered_channel : channel w' = channel w;
}.

(** The identifiers in use once a response is queued: its sink is, until channel E
    acknowledges it. *)
Definition granted (ids : gset Z) (response : tl_d) : gset Z :=
  if d_requires_response (d_opcode response) then {[d_sink response]} ∪ ids else ids.

(** The response to the first beat of a request. *)
Definition response_for (ids : gset Z) (request : tl_a) m : Prop :=
  answers_request e ids request (header m) /\ beats_generated m = 0
  /\ beats_to_send m = data_beats (d_has_payload (d_opcode (header m))) (a_size request) (width_bytes e)
  /\ beats_ready m = (match a_opcode request with
                      | LogicalData | ArithmeticData => 1
                      | _ => beats_to_send m
                      end).

(** A request that the endpoint can answer. *)
Record answerable (request : tl_a) : Prop := {
  answerable_opcode n : a_opcode request <> A_OTHER n;
  answerable_size : 0 <= a_size request < 28;
  answerable_ids : first_id e <= last_id e;
  answerable_width : bit_width e = 8 * width_bytes e /\ 0 < width_bytes e;
}.

(** How the creation of a response ends. *)
Lemma new_response_run r request w :
  answerable request -> ids_ok e (ids_in_use (self w)) ->
  lock_output_buffer (requests (self w)) = false ->
  match new_response_a fuel e (r, request) w with
  | (Ok _, w') => exists m, response_for (ids_in_use (self w)) request m
      /\ answered w w' (to_send (self w) ++ [m]) (negb (complete m))
      /\ ids_in_use (self w') = granted (ids_in_use (self w)) (header m)
  | (Throw NoAvailableIDException, w') =>
      (acquires request /\ no_identifier e (ids_in_use (self w)))
      /\ self w' = self w /\ channel w' = channel w
  | (OutOfFuel, _) => acquires request /\ bad_draws fuel e (ids_in_use (self w))
  | _ => False
  end.
Proof.
  intros [Hop Hs Hr [_ Hw]] Hids Hlock. unfold new_response_a. erewrite bind_ok by done. cbv beta.
  rewrite Hlock. erewrite bind_ok by done. rewrite bind_run. unfold create.
  rewrite bind_run. cbn [gets self]. unfold draw, zoom.
  pose proof (d_response_run fuel e (ids_in_use (self w)) request r Hop Hids Hr ltac:(lia) Hw
    (generator w)) as Hrun. cbn [fst snd].
  destruct (d_response_a _ _ _ _ _ _) as [[m|[]| | | |] g]; cbn in Hrun |- *; try done.
  destruct Hrun as (Ha & Hrest). pose proof (answer_sink _ _ _ _ Ha) as [_ Hsink].
  unfold granted. destruct (d_requires_response (d_opcode (header m))) eqn:Hreq; cbn [when];
    erewrite bind_ok by done; erewrite bind_ok by done.
  - rewrite start_transaction_run by (cbn; auto). exists m. rewrite Hreq. split; [by split|]. split; [by split|done].
  - exists m. rewrite Hreq. split; [by split|]. split; [by split|done].
Qed.

(** Later beats of an atomic request make the response's beats ready. *)
Lemma more_response_run r request w l m :
  atomic (a_opcode request) = true -> to_send (self w) = l ++ [m] ->
  beats_ready m < beats_to_send m ->
  exists w' m', respond_d_to_a fuel e (r, request) w = (Ok tt, w')
    /\ new_beat_ready m = Ok m' /\ answered w w' (l ++ [m']) (negb (complete m'))
    /\ ids_in_use (self w') = ids_in_use (self w).
Proof.
  intros Hat Hq Hlt. unfold respond_d_to_a. erewrite bind_ok by done. cbv beta. cbn [snd]. rewrite Hat.
  unfold unfinished_back. rewrite Hq, last_snoc. unfold complete at 1.
  rewrite (proj2 (Z.eqb_neq _ _)) by lia.
  assert (Hm : exists m', new_beat_ready m = Ok m').
  { unfold new_beat_ready. rewrite (proj2 (Z.ltb_lt _ _)) by lia. eauto. }
  destruct Hm as [m' Hm]. rewrite Hm. eexists _, m'. split; [by rewrite bind_run|].
  split; [done|]. split; [|done]. split; try done. cbn. by rewrite Hq, removelast_last.
Qed.

(** ** The queue of requests *)

Abbreviation pop_a w := (pop_front a_requests set_a_requests w).

(** The remaining beats of an atomic request, one for each beat that is not ready. *)
Lemma answer_rest bs : forall w r l m,
  Forall (fun b => atomic (a_opcode b) = true) bs ->
  a_requests (requests (self w)) = map (pair r) bs ->
  to_send (self w) = l ++ [m] -> lock_output_buffer (requests (self w)) = negb (complete m) ->
  beats_ready m + Z.of_nat (length bs) = beats_to_send m ->
  exists w' m', answer a_requests set_a_requests (fifo e) (respond_d_to_a fuel e) (length bs) w = (Ok true, w')
    /\ to_send (self w') = l ++ [m'] /\ advanced m m' /\ complete m' = true
    /\ a_requests (requests (self w')) = [] /\ lock_output_buffer (requests (self w')) = false
    /\ c_requests (requests (self w')) = c_requests (requests (self w))
    /\ ids_in_use (self w') = ids_in_use (self w).
Proof.
  induction bs as [|b bs IH]; intros w r l m Hat Hq Hl Hlock Hready.
  - cbn [length Z.of_nat] in Hready. exists w, m.
    assert (Hc : complete m = true) by (apply Z.eqb_eq; lia). rewrite Hc in Hlock.
    repeat split; try done; lia.
  - pose proof (Forall_inv Hat) as Hb. pose proof (Forall_inv_tail Hat) as Hat'.
    rewrite length_cons in Hready.
    destruct (more_response_run r b w l m Hb Hl ltac:(lia)) as (w1 & m1 & Hrun & Hm1 & Ha & Hids).
    rewrite length_cons. erewrite answer_step by (exact Hq || exact Hrun).
    unfold new_beat_ready in Hm1. destruct (_ <? _) in Hm1; [|done]. injection Hm1 as Hm1.
    destruct Ha as [Hts Hlk Hqa Hqc _].
    destruct (IH (pop_a w1) r l m1) as (w' & m' & Hrun' & Hts' & Hadv & Hcomp & Hqa' & Hlk' & Hqc' & Hids').
    + done.
    + cbn. by rewrite Hqa, Hq.
    + done.
    + done.
    + rewrite <- Hm1. cbn. lia.
    + exists w', m'. split; [exact Hrun'|]. split; [done|]. split.
      * etrans; [|exact Hadv]. rewrite <- Hm1. split; cbn; [done|done|lia].
      * repeat split; try done; [rewrite Hqc'; exact Hqc|rewrite Hids'; exact Hids].
Qed.

(** A complete response is alone in the buffer, nothing else is left to answer. *)
Record response_ready (ids : gset Z) (request : tl_a) (s : sender tl_d queue_d) m : Prop := {
  ready_alone : to_send s = [m];
  ready_complete : complete m = true;
  ready_unstarted : beats_generated m = 0;
  ready_answers : answers_request e ids request (header m);
  ready_queue : a_requests (requests s) = [];
  ready_unlocked : lock_output_buffer (requests s) = false;
  ready_ids : ids_in_use s = granted ids (header m);
  ready_count : beats_to_send m
    = data_beats (d_has_payload (d_opcode (header m))) (a_size request) (width_bytes e);
}.

(** The request waits for an identifier. *)
Record request_waits (r : bool) (ids : gset Z) (request : tl_a) (s : sender tl_d queue_d) : Prop := {
  waits_acquires : acquires request /\ no_identifier e ids;
  waits_empty : to_send s = [];
  waits_queue : a_requests (requests s) = [(r, request)];
  waits_unlocked : lock_output_buffer (requests s) = false;
}.

(** The queue holds the beats of one request that are answered: all of an atomic
    operation, the last one of any other. *)
Record one_request (r : bool) (b : tl_a) (bs : list tl_a) (s : sender tl_d queue_d) : Prop := {
  one_queue : a_requests (requests s) = map (pair r) (b :: bs);
  one_empty : to_send s = [];
  one_unlocked : lock_output_buffer (requests s) = false;
  one_ids : ids_ok e (ids_in_use s);
  one_answerable : answerable b;
  one_atomic : Forall (fun b => atomic (a_opcode b) = true) bs;
  one_count : Z.of_nat (length (b :: bs))
    = if atomic (a_opcode b) then data_beats true (a_size b) (width_bytes e) else 1;
}.

Lemma first_response r b bs w :
  one_request r b bs (self w) ->
  respond_d_to_a fuel e (r, b) w = new_response_a fuel e (r, b) w.
Proof.
  intros Hone. unfold respond_d_to_a. erewrite bind_ok by done. cbv beta.
  unfold unfinished_back. rewrite (one_empty _ _ _ _ Hone). cbn. by destruct (atomic _).
Qed.

(** The response has as many beats as were queued, if they come one by one. *)
Lemma response_count r b bs w m :
  one_request r b bs (self w) -> response_for (ids_in_use (self w)) b m ->
  beats_ready m + Z.of_nat (length bs) = beats_to_send m.
Proof.
  intros Hone (Hans & _ & Htotal & Hready). pose proof (one_count _ _ _ _ Hone) as Hn.
  rewrite length_cons in Hn. pose proof (answer_opcode _ _ _ _ Hans) as Hop.
  rewrite Hready, Htotal. destruct (a_opcode b); cbn [atomic] in Hn; try lia;
    assert (d_opcode (header m) = AccessAckData) as -> by (by inversion Hop); cbn [d_has_payload]; lia.
Qed.

Lemma answer_request_run r b bs w :
  one_request r b bs (self w) ->
  match answer_all a_requests set_a_requests (fifo e) (respond_d_to_a fuel e) w with
  | (Ok finished, w') =>
      c_requests (requests (self w')) = c_requests (requests (self w))
      /\ ((finished = true /\ exists m, response_ready (ids_in_use (self w)) b (self w') m)
          \/ request_waits r (ids_in_use (self w)) b (self w'))
  | (OutOfFuel, _) => acquires b /\ bad_draws fuel e (ids_in_use (self w))
  | _ => False
  end.
Proof.
  intros Hone. pose proof Hone as [Hq He Hl Hids Hans Hat Hn]. unfold answer_all.
  erewrite bind_ok by done. cbv beta. rewrite Hq, length_map, length_cons. cbn [map] in Hq.
  pose proof (new_response_run r b w Hans Hids Hl) as Hnew.
  destruct (new_response_a fuel e (r, b) w) as [o w1] eqn:Hrun.
  rewrite <- (first_response r b bs w Hone) in Hrun.
  destruct o as [[]|[]| | | |]; try done.
  - destruct Hnew as (m & Hm & [Hts Hlk Hqa Hqc _] & Hi1). rewrite He in Hts.
    erewrite answer_step by (exact Hq || exact Hrun).
    destruct (answer_rest bs (pop_a w1) r [] m Hat) as (w' & m' & Hrest & Hts' & Hadv & Hc & Hqa' & Hlk' & Hqc' & Hi').
    + cbn. by rewrite Hqa, Hq.
    + exact Hts.
    + exact Hlk.
    + by eapply response_count.
    + rewrite Hrest. split; [by rewrite Hqc'; cbn; rewrite Hqc|]. left. split; [done|]. exists m'.
      destruct Hm as (Hm & Hg & Hcount & _). destruct Hadv as [Hid Hgen _].
      assert (header m' = header m /\ beats_to_send m' = beats_to_send m) as [Hh Ht]
        by (unfold identity in Hid; split; congruence).
      split; rewrite ?Hh; try done; [congruence|rewrite Hi'; exact Hi1|congruence].
  - destruct Hnew as (Hacq & Hs & Hch).
    assert (bs = []) as ->.
    { destruct Hacq as [Hacq _]. unfold acquires in Hacq. rewrite length_cons in Hn.
      destruct (a_opcode b); try discriminate Hacq; cbn in Hn; destruct bs; [done|cbn in Hn; lia|done|cbn in Hn; lia]. }
    cbn [length answer]. erewrite bind_ok by done. cbv beta. rewrite Hq.
    assert (Hno : no_identifier_left (respond_d_to_a fuel e (r, b)) w = (Ok true, w1)).
    { unfold no_identifier_left, try_catch. erewrite bind_throw by exact Hrun. by rewrite bool_decide_eq_true_2. }
    erewrite bind_ok by exact Hno. destruct (fifo e); cbn [andb when].
    + cbn. rewrite Hs. split; [done|]. right. by split.
    + erewrite bind_ok by done. erewrite bind_ok by done. cbn. rewrite Hs, Hq. split; [done|].
      right. split; cbn; rewrite ?Hs; done.
  - assert (Hno : no_identifier_left (respond_d_to_a fuel e (r, b)) w = (OutOfFuel, w1)).
    { unfold no_identifier_left, try_catch. by rewrite bind_run, Hrun. }
    cbn [answer]. erewrite bind_ok by done. cbv beta. rewrite Hq. by rewrite bind_run, Hno.
Qed.

(** Without requests on channel C, [respond] only answers those on A. *)
Lemma respond_d_run r b bs w :
  one_request r b bs (self w) -> c_requests (requests (self w)) = [] ->
  match respond_d fuel e w with
  | (Ok _, w') => (exists m, response_ready (ids_in_use (self w)) b (self w') m)
                  \/ request_waits r (ids_in_use (self w)) b (self w')
  | (OutOfFuel, _) => acquires b /\ bad_draws fuel e (ids_in_use (self w))
  | _ => False
  end.
Proof.
  intros Hone Hc. pose proof (answer_request_run r b bs w Hone) as Hrun. unfold respond_d.
  rewrite bind_run. destruct (answer_all _ _ _ _ w) as [[fin|[]| | | |] w']; try done.
  destruct Hrun as [Hqc Hrun]. erewrite bind_ok by done.
  assert (Hnone : answer_all c_requests set_c_requests (fifo e) (respond_d_to_c e) w' = (Ok true, w')).
  { unfold answer_all. erewrite bind_ok by done. cbv beta. by rewrite Hqc, Hc. }
  destruct (fin && negb _); cbn [when]; [erewrite bind_ok by exact Hnone|]; cbn;
    (destruct Hrun as [[_ Hm]|Hw]; [by left|by right]).
Qed.

End responder.

(** ** From the beats on channel A to the response *)

Section requests.

Context {G : Type} `{Random G} `{Indeterminate}.

Import TileLinkDevice.

Implicit Types (w : world device G) (h : device).

(** The beats of a message on channel A, as the sender delivers them ([beat_of_a]),
    on a channel of the endpoint's width. *)
Record message_a (p : TlEndpoint.endpoint) (rq : tl_a) (bs : list tl_a) : Prop := {
  message_a_beats i b : bs !! i = Some b -> beat_of_a rq (Z.of_nat i) b;
  message_a_count :
    Z.of_nat (length bs) = num_beats (a_has_payload (a_opcode rq)) (a_size rq) (width_bytes p);
}.

(** No message is being received or answered on channels A and D. *)
Record quiescent h : Prop := {
  quiet_receiver : Receiver.beats_remaining (a h) = 0;
  quiet_a : a_requests (requests (d h)) = [];
  quiet_c : c_requests (requests (d h)) = [];
  quiet_to_send : to_send (d h) = [];
  quiet_lock : lock_output_buffer (requests (d h)) = false;
  quiet_ids : ids_ok (endpoint h) (ids_in_use (d h));
}.

Lemma message_a_same p rq bs :
  message_a p rq bs ->
  Forall (fun b => a_opcode b = a_opcode rq /\ a_size b = a_size rq /\ a_source b = a_source rq) bs.
Proof.
  intros [Hb _]. apply Forall_forall. intros b Hin.
  apply list_elem_of_In, list_elem_of_lookup_1 in Hin as [i Hi].
  destruct (Hb i b Hi) as (? & _ & ? & ? & _). done.
Qed.

Lemma message_a_snoc p rq bs :
  answerable p rq -> message_a p rq bs ->
  exists bs' b, bs = bs' ++ [b] /\ Z.of_nat (length bs) = request_beats p rq.
Proof.
  intros [_ Hs _ [Hw Hw']] [_ Hn]. destruct bs as [|b bs _] using rev_ind.
  - exfalso. unfold num_beats in Hn. destruct (a_has_payload _); cbn in Hn; lia.
  - exists bs, b. split; [done|]. rewrite Hn. unfold request_beats.
    destruct (a_has_payload (a_opcode rq)); [|done]. symmetry. by apply beats_of_size_data.
Qed.

Lemma answerable_same p rq b :
  answerable p rq -> a_opcode b = a_opcode rq -> a_size b = a_size rq -> answerable p b.
Proof. intros [Ho Hs Hr Hw] Heo Hes. split; rewrite ?Heo, ?Hes; done. Qed.

Lemma answers_same p ids rq b m :
  a_opcode b = a_opcode rq -> a_size b = a_size rq -> a_source b = a_source rq ->
  answers_request p ids b m -> answers_request p ids rq m.
Proof. intros Ho Hs Hr [Ao Ac As Ap Ad Acr]. split; rewrite <- ?Ho, <- ?Hs, <- ?Hr; done. Qed.

(** The queue that the received beats leave on channel D. *)
Lemma queued_request r p rq bs' b h :
  p = endpoint h -> quiescent h -> answerable p rq -> message_a p rq (bs' ++ [b]) ->
  exists b0 rest, one_request p r b0 rest (d (request_effect r (bs' ++ [b]) b h))
    /\ c_requests (requests (d (request_effect r (bs' ++ [b]) b h))) = []
    /\ ids_in_use (d (request_effect r (bs' ++ [b]) b h)) = ids_in_use (d h)
    /\ a_opcode b0 = a_opcode rq /\ a_size b0 = a_size rq /\ a_source b0 = a_source rq.
Proof.
  intros -> [Hz Hqa Hqc Hts Hlk Hids] Hans Hmsg. pose proof (message_a_same _ _ _ Hmsg) as Hsame.
  pose proof Hsame as [_ Hb]%Forall_app. apply Forall_inv in Hb as (Hop & Hsz & Hsrc).
  pose proof (message_a_count _ _ _ Hmsg) as Hn. pose proof Hans as [Hno Hs _ [_ Hw]].
  unfold request_effect. rewrite Hop.
  destruct (a_opcode rq) eqn:Hrq; try (by edestruct Hno); cbn [a_has_payload] in Hn.
  3, 4: destruct (bs' ++ [b]) as [|b0 rest] eqn:Hbs; [by destruct bs'|];
    exists b0, rest; pose proof (Forall_inv Hsame) as (Ho0 & Hs0 & Hr0);
    (split; [|done]); split; cbn; rewrite ?Hqa, ?Hts, ?Hlk; try done;
    [by eapply answerable_same; rewrite ?Hrq
    |eapply Forall_impl; [|exact (Forall_inv_tail Hsame)]; by intros x (-> & _)
    |rewrite Ho0; cbn [atomic]; rewrite Hs0; rewrite num_beats_run in Hn by lia; exact Hn].
  all: exists b, []; split; [|done]; split; cbn; rewrite ?Hqa, ?Hts, ?Hlk, ?Hop; try done;
    by eapply answerable_same; rewrite ?Hrq.
Qed.

(** C16: Requests are answered. When the beats of any message on channel A arrive at a
    device that is not busy, no assertion fails, and [respond] then leaves exactly
    one response on channel D, complete (all its beats ready, the output buffer
    unlocked) and matching the request in opcode, size, source and identifier; or
    the request is an acquire for which no identifier was available, and waits in
    the queue. A put is answered after its last beat, an atomic operation from all
    of its beats. *)
Theorem request_answered fuel r rq bs w :
  quiescent (me w) -> answerable (endpoint (me w)) rq -> message_a (endpoint (me w)) rq bs ->
  exists w1, each (handle_a r) bs w = (Ok tt, w1)
  /\ let ids := ids_in_use (d (me w)) in
     match on_d (respond_d fuel (endpoint (me w))) w1 with
     | (Ok _, w2) =>
         (exists m, response_ready (endpoint (me w)) ids rq (d (me w2)) m)
         \/ (acquires rq /\ no_identifier (endpoint (me w)) ids /\ to_send (d (me w2)) = []
             /\ exists b, a_requests (requests (d (me w2))) = [(r, b)]
                  /\ a_opcode b = a_opcode rq /\ a_size b = a_size rq /\ a_source b = a_source rq)
     | (OutOfFuel, _) => acquires rq /\ bad_draws fuel (endpoint (me w)) ids
     | _ => False
     end.
Proof.
  intros Hq Hans Hmsg. destruct (message_a_snoc _ _ _ Hans Hmsg) as (bs' & b & -> & Hn).
  eexists. split; [apply (request_run r rq); [apply Hq| |exact Hn]|].
  { eapply Forall_impl; [|exact (message_a_same _ _ _ Hmsg)]. by intros x (? & ? & _). }
  cbv zeta. unfold on_d, zoom. cbn [me set_me port random].
  destruct (queued_request r _ rq bs' b (me w) eq_refl Hq Hans Hmsg)
    as (b0 & rest & Hone & Hc & Hids & Hop & Hsz & Hsrc).
  set (s1 := State (d (request_effect r (bs' ++ [b]) b (me w))) (link_d (port w)) (random w)).
  pose proof (respond_d_run fuel (endpoint (me w)) r b0 rest s1 Hone Hc) as Hrun.
  change (self s1) with (d (request_effect r (bs' ++ [b]) b (me w))) in Hrun. rewrite Hids in Hrun.
  assert (Hacq : acquires b0 -> acquires rq) by (unfold acquires; by rewrite Hop).
  destruct (respond_d fuel (endpoint (me w)) s1) as [[[]|[]| | | |] s2]; try done.
  - cbn [me set_d d]. destruct Hrun as [[m [Hts Hcm Hg Ha Hqu Hlk Hi Hcount]]|[[Hwa Hno] Hts Hqu _]].
    + left. exists m. split; try done; [by eapply answers_same|by rewrite <- Hsz].
    + right. split; [auto|]. split; [done|]. split; [done|]. by exists b0.
  - destruct Hrun. auto.
Qed.

End requests.

(** ** Witness, and a request that is not answered *)

Module ResponderExample.

#[local] Existing Instance MessagesExample.linear.
#[local] Existing Instance MessagesExample.zero_data.

Import TileLinkDevice.

Definition wires0 {C} (c : C) : wires C := Wires false false c.
Definition links0 : links :=
  Links (wires0 (BeatA Get 0 0 0 0 0 false 0)) (wires0 (BeatB ProbeBlock 0 0 0 0))
    (wires0 (BeatC ProbeAck 0 0 0 0 false 0)) (wires0 (BeatD AccessAck 0 0 0 0 false false 0))
    (wires0 (BeatE 0)).

(** A device on a 64-bit channel. *)
Definition params : TlEndpoint.endpoint :=
  Endpoint 0 TL_C 64 0 3 5 false true (RoutingTable.Table [4; 6] [1; 1] [1; 2]).
Definition fresh_device : world device Z := World (make params) links0 42.

(** An arithmetic operation on 16 bytes, and its two beats. *)
Definition add (i : Z) : tl_a := BeatA ArithmeticData 4 4 2 0x3000 0xFF false (100 + i).

Lemma request_answered_witness :
  exists w1, each (handle_a false) [add 0; add 1] fresh_device = (Ok tt, w1)
  /\ match on_d (respond_d 10 params) w1 with
     | (Ok _, w2) => (exists m, response_ready params ∅ (add 0) (d (me w2)) m)
         \/ (acquires (add 0) /\ no_identifier params ∅ /\ to_send (d (me w2)) = []
             /\ exists b, a_requests (requests (d (me w2))) = [(false, b)]
                  /\ a_opcode b = ArithmeticData /\ a_size b = 4 /\ a_source b = 2)
     | (OutOfFuel, _) => acquires (add 0) /\ bad_draws 10 params ∅
     | _ => False
     end.
Proof.
  apply (request_answered 10 false (add 0) [add 0; add 1] fresh_device).
  - split; done.
  - split; try done.
  - split; [|done]. intros i b Hi. destruct i as [|[|i]]; cbn in Hi; [injection Hi as <-..|done].
    all: repeat split; by left.
Defined.

(** A block acquire, on a device of which all sink identifiers are in use. *)
Definition acquire : tl_a := BeatA AcquireBlock 0 4 1 0x3000 0xFF false 0.
Definition busy_sender (l : list tl_a) : state tl_d queue_d Z :=
  State (Sender {[0; 1; 2; 3]} [] [] false (QueueD (map (pair false) l) [] false))
    (wires0 (BeatD AccessAck 0 0 0 0 false false 0)) 42.

(** While the acquire waits for an identifier, the first beat of an atomic request
    is answered and locks the output buffer; the second beat comes after the
    waiting acquire in the queue, for which [respond] then asserts that the buffer
    is not locked. *)
Example waiting_acquire_asserts :
  exists w1, respond_d 10 params (busy_sender [acquire; add 0]) = (Ok tt, w1)
    /\ a_requests (requests (self w1)) = [(false, acquire)]
    /\ lock_output_buffer (requests (self w1)) = true
    /\ fst ((handle_request a_requests set_a_requests (false, add 1);; respond_d 10 params) w1)
       = AssertFail.
Proof. eexists. split; [vm_compute; reflexivity|]. repeat split. Qed.

End ResponderExample.
