(* ===== verification/TlExchange.v ===== *)
(** * TileLink exchanges: transactions end at both sides

    A response from a device ([TlResponder]) reaches the host that made the request:
    the host's transaction ends, and if the response asks for it, the host's
    acknowledgement on channel E ends the device's. *)

From S2P Require Import Prelude Exceptions TileLink TlEndpoint TlMessages TlMessagesTheorems.
From S2P Require Import TlChannels TlHarness TlSender TlSenderTheorems TlReceiver TlResponder.

Import Sender.

Section exchange.

Context {G : Type} `{Random G} `{Indeterminate}.

Implicit Types (wh : world TileLinkHost.host G) (wd : world TileLinkDevice.device G).

(** The beats of a complete response, as the sender delivers them. *)
Record message_d (m : tl_message tl_d) (bs : list tl_d) : Prop := {
  message_d_beats i b : bs !! i = Some b -> beat_of_d (header m) (Z.of_nat i) b;
  message_d_count : Z.of_nat (length bs) = beats_to_send m;
}.

(** A host that waits for the response to [rq] and has nothing else to do. *)
Record awaiting (rq : tl_a) (h : TileLinkHost.host) : Prop := {
  await_receiver : Receiver.beats_remaining (TileLinkHost.d h) = 0;
  await_source : a_source rq ∈ ids_in_use (TileLinkHost.a h);
  await_acks : requests (TileLinkHost.e h) = [] /\ to_send (TileLinkHost.e h) = [];
  await_protocol : acquires rq -> protocol_value TL_UH < protocol_value (protocol (TileLinkHost.endpoint h));
}.

(** Both ends have channels of the same width. *)
Definition same_width (p q : endpoint) : Prop :=
  bit_width p = bit_width q /\ bit_width p = 8 * width_bytes p /\ 0 < width_bytes p.

Lemma message_d_same m bs :
  message_d m bs ->
  Forall (fun b => same_response (header m) b /\ d_sink b = d_sink (header m)) bs.
Proof.
  intros [Hb _]. apply Forall_forall. intros b Hin.
  apply list_elem_of_In, list_elem_of_lookup_1 in Hin as [i Hi].
  destruct (Hb i b Hi) as (? & _ & ? & ? & ? & _). done.
Qed.

(** The response to a request on a device of the same width has the beats that the
    host expects. *)
Lemma response_length p q ids rq s m bs :
  same_width q p -> 0 <= a_size rq < 28 -> response_ready p ids rq s m -> message_d m bs -> Z.of_nat (length bs) = response_beats q (header m).
Proof.
  intros (Hw & Hq & Hpos) Hs Hready [_ Hn]. rewrite Hn, (ready_count _ _ _ _ _ Hready). unfold response_beats.
  destruct (answer_copied _ _ _ _ (ready_answers _ _ _ _ _ Hready)) as [-> _].
  assert (width_bytes p = width_bytes q) as -> by (unfold width_bytes; congruence).
  destruct (d_has_payload _); [|done]. rewrite beats_of_size_data by (done || lia).
  by rewrite num_beats_run by (done || lia).
Qed.

Lemma answers_awaited rq h op :
  d_answers (a_opcode rq) op -> awaited op h = ids_in_use (TileLinkHost.a h).
Proof. intros Ha. by inversion Ha. Qed.

(** The host's part, up to its acknowledgement. *)
Lemma host_receives r p ids rq s m bs wh :
  response_ready p ids rq s m -> 0 <= a_size rq < 28 -> same_width (TileLinkHost.endpoint (me wh)) p ->
  awaiting rq (me wh) -> message_d m bs ->
  exists b, d_sink b = d_sink (header m)
    /\ each (TileLinkHost.handle_d r) bs wh
       = (Ok tt, set_me ((if d_requires_response (d_opcode (header m))
                          then acknowledge r b else id) (end_a (a_source rq) (me wh))) wh).
Proof.
  intros Hready Hs Hw [Hz Hsrc _ _] Hmsg.
  pose proof (ready_answers _ _ _ _ _ Hready) as Hans.
  destruct (answer_copied _ _ _ _ Hans) as [_ Hcopy]. pose proof (answer_opcode _ _ _ _ Hans) as Hop.
  pose proof (message_d_same _ _ Hmsg) as Hsame.
  pose proof (response_length _ _ _ _ _ _ _ Hw Hs Hready Hmsg) as Hlen.
  destruct bs as [|b bs' _] using rev_ind.
  { exfalso. pose proof (message_d_count _ _ Hmsg) as Hn. rewrite (ready_count _ _ _ _ _ Hready) in Hn.
    unfold data_beats in Hn. cbn in Hn. destruct (d_has_payload _); lia. }
  pose proof Hsame as [_ Hb]%Forall_app. apply Forall_inv in Hb as [(Hob & _ & Hsb) Hsink].
  exists b. split; [done|]. rewrite (response_run r (header m) bs' b wh); try done.
  - unfold response_effect. rewrite Hob, Hsb, Hcopy. by inversion Hop.
  - eapply Forall_impl; [|exact Hsame]. by intros x [? _].
  - by rewrite (answers_awaited rq), Hcopy.
Qed.

(** The acknowledgement is one message with the sink of the response. *)
Lemma acknowledged r b wh :
  let p := TileLinkHost.endpoint (me wh) in
  requests (TileLinkHost.e (me wh)) = [(r, b)] -> to_send (TileLinkHost.e (me wh)) = [] ->
  protocol_value TL_UH < protocol_value (protocol p) -> 0 < width_bytes p ->
  exists wh', TileLinkHost.on_e (respond (SenderMethods := methods_e p)) wh = (Ok tt, wh')
    /\ to_send (TileLinkHost.e (me wh')) = [Message (width_bytes p) 1 1 0 (BeatE (d_sink b))]
    /\ requests (TileLinkHost.e (me wh')) = [].
Proof.
  cbv zeta. intros Hq Hts Hp Hw. set (p := TileLinkHost.endpoint (me wh)) in *.
  set (w := State (TileLinkHost.e (me wh)) (link_e (port wh)) (random wh)).
  set (m := Message (width_bytes p) 1 1 0 (BeatE (d_sink b))).
  assert (Hrun : respond_e_to_d p (r, b) w = (Ok tt, on_self (fun s => set_to_send (to_send s ++ [m]) s) w)).
  { unfold respond_e_to_d. rewrite (proj2 (Z.ltb_lt _ _)) by done. erewrite bind_ok by done.
    unfold draw, zoom, e_response, make_message. cbn [snd fst].
    rewrite bind_run. unfold fail. rewrite (proj2 (Z.ltb_lt 0 (width_bytes p))) by done. done. }
  eexists. split.
  - unfold TileLinkHost.on_e, zoom. fold w. cbn [respond methods_e].
    erewrite bind_ok by (by eapply answer_one; [exact Hq|exact Hrun]). reflexivity.
  - cbn. by rewrite Hts, Hq.
Qed.

(** The device's part: the transaction of the sink ends. *)
Lemma sink_freed r sink wd :
  protocol (TileLinkDevice.endpoint (me wd)) = TL_C -> sink ∈ ids_in_use (TileLinkDevice.d (me wd)) ->
  exists wd', TileLinkDevice.handle_e r (BeatE sink) wd = (Ok tt, wd')
    /\ ids_in_use (TileLinkDevice.d (me wd')) = ids_in_use (TileLinkDevice.d (me wd)) ∖ {[sink]}.
Proof.
  intros Hp Hin. unfold TileLinkDevice.handle_e. erewrite bind_ok by done.
  rewrite bool_decide_eq_true_2 by done. erewrite bind_ok by done. unfold TileLinkDevice.on_d, zoom.
  rewrite end_transaction_run by done. by eexists.
Qed.

(** The acknowledgement of a response that asks for one: the host queues one message
    on channel E, which ends the device's transaction. *)
Definition acknowledgement_ends (ids : gset Z) wh wd : Prop :=
  exists wh' m, TileLinkHost.on_e (respond (SenderMethods := methods_e (TileLinkHost.endpoint (me wh)))) wh
                = (Ok tt, wh')
    /\ to_send (TileLinkHost.e (me wh')) = [m] /\ complete m = true /\ beats_to_send m = 1
    /\ exists wd', TileLinkDevice.handle_e false (header m) wd = (Ok tt, wd')
         /\ ids_in_use (TileLinkDevice.d (me wd')) = ids.

Lemma exchange_run r p ids rq m bs wh wd :
  response_ready p ids rq (TileLinkDevice.d (me wd)) m -> 0 <= a_size rq < 28 ->
  protocol (TileLinkDevice.endpoint (me wd)) = TL_C \/ ~ acquires rq ->
  same_width (TileLinkHost.endpoint (me wh)) p -> awaiting rq (me wh) -> message_d m bs ->
  exists wh1, each (TileLinkHost.handle_d r) bs wh = (Ok tt, wh1)
    /\ ids_in_use (TileLinkHost.a (me wh1)) = ids_in_use (TileLinkHost.a (me wh)) ∖ {[a_source rq]}
    /\ if d_requires_response (d_opcode (header m)) then acknowledgement_ends ids wh1 wd
       else ids_in_use (TileLinkDevice.d (me wd)) = ids.
Proof.
  intros Hready Hs Hp Hw Hwait Hmsg.
  destruct (host_receives r p ids rq _ m bs wh Hready Hs Hw Hwait Hmsg) as (b & Hsink & Hrun).
  eexists. split; [exact Hrun|]. pose proof (ready_ids _ _ _ _ _ Hready) as Hids.
  destruct (answer_sink _ _ _ _ (ready_answers _ _ _ _ _ Hready)) as [_ Hfresh].
  pose proof (answer_opcode _ _ _ _ (ready_answers _ _ _ _ _ Hready)) as Hop.
  unfold granted in Hids. destruct (d_requires_response (d_opcode (header m))) eqn:Hreq; [|done].
  split; [done|]. assert (Hacq : acquires rq) by (unfold acquires; destruct Hop; done).
  destruct Hp as [Hp|Hp]; [|done]. destruct Hwait as [_ _ [Hrq Hts] Hproto].
  destruct Hw as (_ & _ & Hpos). set (wh1 := set_me _ wh).
  destruct (acknowledged r b wh1) as (wh' & Hack & Hts' & _); try done.
  { cbn. by rewrite Hrq. }
  { by apply Hproto. }
  exists wh', (Message (width_bytes (TileLinkHost.endpoint (me wh1))) 1 1 0 (BeatE (d_sink b))).
  split; [exact Hack|]. split; [exact Hts'|]. split; [done|]. split; [done|].
  destruct (sink_freed false (d_sink b) wd Hp) as (wd' & Hfree & Hids').
  { rewrite Hids, Hsink. set_solver. }
  exists wd'. split; [exact Hfree|]. rewrite Hids', Hids, Hsink. specialize (Hfresh eq_refl).
  apply set_eq. intros x. set_solver.
Qed.

End exchange.

(** ** The claim *)

Section claim.

Context {G : Type} `{Random G} `{Indeterminate}.

(** C17: Exchanges end their transactions. When the beats of the response to a request
    (the one that [request_answered] gives) reach the host that waits for it, no
    assertion fails, and exactly the request's identifier is free again at the
    host. For a grant the host then queues exactly one acknowledgement, of one
    beat, and when it reaches the device, the identifiers in use there are those
    from before the request; for any other response they already are. *)
Theorem exchange_completes r p ids rq m bs
    (wh : world TileLinkHost.host G) (wd : world TileLinkDevice.device G) :
  response_ready p ids rq (TileLinkDevice.d (me wd)) m -> 0 <= a_size rq < 28 ->
  protocol (TileLinkDevice.endpoint (me wd)) = TL_C \/ ~ acquires rq ->
  same_width (TileLinkHost.endpoint (me wh)) p -> awaiting rq (me wh) -> message_d m bs ->
  exists wh1, each (TileLinkHost.handle_d r) bs wh = (Ok tt, wh1)
    /\ ids_in_use (TileLinkHost.a (me wh1)) = ids_in_use (TileLinkHost.a (me wh)) ∖ {[a_source rq]}
    /\ if d_requires_response (d_opcode (header m)) then acknowledgement_ends ids wh1 wd
       else ids_in_use (TileLinkDevice.d (me wd)) = ids.
Proof. apply exchange_run. Qed.

End claim.

(** ** Witness *)

Module ExchangeExample.

#[local] Existing Instance MessagesExample.linear.
#[local] Existing Instance MessagesExample.zero_data.

Import ResponderExample.

Definition host_params : endpoint := Endpoint 0 TL_C 64 0 3 5 false true (RoutingTable.Table [] [] []).

(** A host whose request with source 1 is outstanding. *)
Definition waiting_host : world TileLinkHost.host Z :=
  World (TileLinkHost.set_a (Sender {[1]} [] [] false tt) (TileLinkHost.make host_params)) links0 5.

(** A device that has answered an acquire with sink 2. *)
Definition grant : tl_message tl_d := Message 8 1 1 0 (BeatD Grant 0 4 1 2 false false 7).
Definition granting_device : world TileLinkDevice.device Z :=
  World (TileLinkDevice.set_d (Sender {[2]} [grant] [] false (QueueD [] [] false))
           (TileLinkDevice.make params)) links0 5.

Lemma exchange_completes_witness :
  exists wh1, each (TileLinkHost.handle_d true) [BeatD Grant 0 4 1 2 false false 7] waiting_host = (Ok tt, wh1)
    /\ ids_in_use (TileLinkHost.a (me wh1)) = {[1]} ∖ {[1]}
    /\ acknowledgement_ends ∅ wh1 granting_device.
Proof.
  apply (exchange_completes true params ∅ acquire grant [BeatD Grant 0 4 1 2 false false 7]
    waiting_host granting_device); try done.
  - split; try done. split; try done. constructor.
  - by left.
  - split; [|done]. intros [|i] b Hi; [|done]. injection Hi as <-. repeat split. by left.
Defined.

End ExchangeExample.
