(* ===== verification/TlProbes.v ===== *)
(** * TileLink devices: probes on channel B

    A device's spontaneous probes are sent to all hosts with caches or to none;
    routing identifiers lead back to the host they were chosen for. *)

From S2P Require Import Prelude Exceptions TileLink TlEndpoint TlMessages TlMessagesTheorems.
From S2P Require Import TlChannels TlHarness TlSender TlSenderTheorems TlResponder.

Import Sender.

(** ** Routing *)

Section routing.

Implicit Types (t : RoutingTable.table) (e : endpoint).

Lemma search_id_run n t link i j :
  RoutingTable.search_id n t link i = Ok j ->
  i <= j < i + Z.of_nat n /\ RoutingTable.get_owner t j = link
  /\ forall k, i <= k < j -> RoutingTable.get_owner t k <> link.
Proof.
  revert i. induction n as [|n IH]; intros i; cbn [RoutingTable.search_id]; [done|].
  destruct (Z.eqb_spec (RoutingTable.get_owner t i) link) as [Ho|Ho].
  - intros [= <-]. repeat split; (lia || done).
  - intros Hj. destruct (IH _ Hj) as (Hr & Hown & Hleast). repeat split; try lia; try done.
    intros k Hk. destruct (decide (k = i)) as [->|]; [done|]. apply Hleast. lia.
Qed.

(** The search fails only if there is no such identifier below 1024. *)
Lemma search_id_fails n t link i :
  RoutingTable.search_id n t link i = AssertFail <->
  forall k, i <= k < i + Z.of_nat n -> RoutingTable.get_owner t k <> link.
Proof.
  revert i. induction n as [|n IH]; intros i; cbn [RoutingTable.search_id]; [split; [lia|done]|].
  destruct (Z.eqb_spec (RoutingTable.get_owner t i) link) as [Ho|Ho].
  - split; [done|]. intros Hk. by destruct (Hk i ltac:(lia)).
  - rewrite IH. split; intros Hk k Hr; [|apply Hk; lia].
    destruct (decide (k = i)) as [->|]; [done|]. apply Hk. lia.
Qed.

Lemma search_id_outcome n t link i :
  RoutingTable.search_id n t link i = AssertFail \/ exists j, RoutingTable.search_id n t link i = Ok j.
Proof.
  revert i. induction n as [|n IH]; intros i; cbn [RoutingTable.search_id]; [by left|].
  destruct (_ =? _); [right; by eexists|apply IH].
Qed.

(** A position that fits next to the 12 address bits of a probe's identifier. *)
Definition position_ok (i : Z) : Prop := 0 <= i < 2 ^ 14.

Lemma get_b_id_run e source address :
  position_ok (RoutingTable.get_owner (routing e) source) ->
  get_b_id e source address
  = address mod 2 ^ 12 + RoutingTable.get_owner (routing e) source * 2 ^ 16.
Proof.
  unfold position_ok, get_b_id. intros Ho. remember (RoutingTable.get_owner _ _) as o eqn:Eo. clear Eo.
  change 0xFFF with (Z.ones 12). rewrite Z.land_ones, Z.shiftl_mul_pow2 by lia.
  pose proof (Z.mod_pos_bound address (2 ^ 12) ltac:(lia)).
  unfold s32. rewrite (signed_small 32 (o * _)) by lia. unfold u64. rewrite wrap_small by lia.
  apply signed_small; lia.
Qed.

End routing.

(** ** Filtered lists *)

Section filtered.

Context {A B : Type} (f : A -> B) (P : A -> Prop) `{!forall a, Decision (P a)}.

Lemma NoDup_map_filter l : NoDup (map f l) -> NoDup (map f (filter P l)).
Proof.
  induction l as [|a l IH]; [done|]. rewrite filter_cons, map_cons.
  intros [Ha Hl]%list.NoDup_cons. destruct (decide (P a)); [|auto]. rewrite map_cons.
  apply list.NoDup_cons. split; [|auto]. intros Hin. apply Ha.
  apply list_elem_of_In, in_map_iff in Hin as (x & <- & Hx).
  apply list_elem_of_In, list_elem_of_filter in Hx as [_ Hx].
  by apply list_elem_of_In, in_map, list_elem_of_In.
Qed.

Lemma Forall_filter_kept (Q : A -> Prop) l : Forall Q l -> Forall Q (filter P l).
Proof.
  induction 1 as [|a l Ha _ IH]; [constructor|]. rewrite filter_cons.
  destruct (decide (P a)); [by constructor|done].
Qed.

End filtered.

(** ** Probes *)

Section probes.

Context {G : Type} `{Random G} `{Indeterminate}.
Context (fuel : nat) (net : network) (e : endpoint).

Abbreviation queue_b := (list (bool * tl_a)).

Implicit Types (w : state tl_b queue_b G) (m : tl_message tl_b) (h : endpoint).

Definition probe_id m : Z := get_b_id e (b_source (header m)) (b_address (header m)).

(** [m] probes host [h] as [request] says. *)
Record probes request h m : Prop := {
  probe_owner : RoutingTable.get_owner (routing e) (b_source (header m)) = position h;
  probe_same : m = set_b_source (b_source (header m)) request;
}.

Lemma probe_for_run h request m id :
  probe_for e h request = Ok (m, id) -> probes request h m /\ id = probe_id m.
Proof.
  unfold probe_for, device_routing_id, RoutingTable.get_any_id.
  destruct (RoutingTable.search_id _ _ _ _) as [s| | | | |] eqn:Hs; intros [= <- <-].
  destruct (search_id_run _ _ _ _ _ Hs) as (_ & Ho & _). by repeat split.
Qed.

Lemma probes_trans request h m h' m' : probes request h m -> probes m h' m' -> probes request h' m'.
Proof. intros [_ Hm] [Ho Hm']. split; [done|]. rewrite Hm', Hm. done. Qed.

(** The first loop finds a probe for each host with a cache, all available. *)
Lemma pending_probes_run ids l request ms :
  pending_probes e ids l request = Ok (Some ms) ->
  Forall2 (probes request) (filter (fun h => probed h = true) l) ms
  /\ Forall (fun m => probe_id m ∉ ids) ms.
Proof.
  revert request ms. induction l as [|h l IH]; intros request ms; cbn [pending_probes].
  { intros [= <-]. by split. }
  rewrite filter_cons. destruct (probed h) eqn:Hp; [|rewrite decide_False by done; apply IH].
  rewrite decide_True by done.
  destruct (probe_for e h request) as [[m id]| | | | |] eqn:Hf; try done.
  destruct (probe_for_run _ _ _ _ Hf) as [Hm ->].
  destruct (TransactionId.available ids (probe_id m)) eqn:Ha; [|done].
  destruct (pending_probes e ids l m) as [[ms'|]| | | | |] eqn:Hl; try done. intros [= <-].
  destruct (IH _ _ Hl) as [Hms Hids]. apply available_spec in Ha. split; [|by constructor].
  constructor; [done|]. eapply Forall2_impl; [|exact Hms]. intros h' m'. by apply (probes_trans request h m).
Qed.

(** The second loop sends them: their identifiers are different. *)
Lemma send_probes_run ms w :
  NoDup (map probe_id ms) -> Forall (fun m => probe_id m ∉ ids_in_use (self w)) ms ->
  exists w', send_probes e ms w = (Ok tt, w')
    /\ to_send (self w') = to_send (self w) ++ ms
    /\ ids_in_use (self w') = list_to_set (map probe_id ms) ∪ ids_in_use (self w)
    /\ requests (self w') = requests (self w) /\ channel w' = channel w.
Proof.
  revert w. induction ms as [|m ms IH]; intros w Hnd Hids;
    rewrite ?map_cons in *; cbn [send_probes].
  { exists w. rewrite app_nil_r. repeat split; try done. cbn. set_solver. }
  apply list.NoDup_cons in Hnd as [Hm Hnd]. apply Forall_cons_1 in Hids as [Hid Hids].
  erewrite bind_ok by done. erewrite bind_ok by (apply start_transaction_run; exact Hid). cbn [self on_self].
  set (w1 := on_self _ (on_self _ w)). destruct (IH w1) as (w' & Hrun & Hts & Hi & Hq & Hc).
  - done.
  - apply Forall_forall. intros m' Hm'. rewrite Forall_forall in Hids. cbn. rewrite elem_of_union.
    intros [Heq%elem_of_singleton|Hin]; [|by apply (Hids m')].
    apply Hm. fold (probe_id m) in Heq. rewrite <- Heq.
    apply list_elem_of_In. by apply in_map.
  - exists w'. split; [exact Hrun|]. rewrite Hts, Hi, Hq, Hc.
    split; [cbn; by rewrite <- app_assoc|]. split; [|done]. apply set_eq. intros x.
    change (ids_in_use (self w1)) with ({[probe_id m]} ∪ ids_in_use (self w)).
    rewrite !elem_of_union, !elem_of_list_to_set, elem_of_cons, elem_of_singleton. tauto.
Qed.

(** Probes of different hosts have different identifiers. *)
Lemma probe_ids_different request l ms :
  NoDup (map position l) -> Forall (fun h => position_ok (position h)) l ->
  Forall2 (probes request) l ms -> NoDup (map probe_id ms).
Proof.
  intros Hnd Hpos Hms. induction Hms as [|h m l ms [Ho Hm] Hms IH]; [constructor|].
  rewrite !map_cons in *. apply list.NoDup_cons in Hnd as [Hh Hnd]. apply Forall_cons_1 in Hpos as [Hp Hpos].
  constructor; [|by apply IH]. intros Hin. apply Hh.
  apply list_elem_of_In, in_map_iff in Hin as (m' & Heq & Hm').
  apply list_elem_of_In, list_elem_of_lookup_1 in Hm' as [i Hi].
  destruct (Forall2_lookup_r _ _ _ _ _ Hms Hi) as (h' & Hh' & [Ho' Hm'']).
  assert (position h' = position h) as <-.
  { assert (Hp' : position_ok (position h')) by exact (Forall_lookup_1 _ _ _ _ Hpos Hh').
    unfold probe_id in Heq. rewrite get_b_id_run in Heq by (by rewrite Ho').
    rewrite get_b_id_run in Heq by (by rewrite Ho). rewrite Ho, Ho' in Heq.
    pose proof (Z.mod_pos_bound (b_address (header m)) (2 ^ 12) ltac:(lia)).
    pose proof (Z.mod_pos_bound (b_address (header m')) (2 ^ 12) ltac:(lia)). lia. }
  apply list_elem_of_In, in_map, list_elem_of_In. by eapply list_elem_of_lookup_2.
Qed.

(** The hosts that a probe goes to. *)
Definition cached_hosts : list endpoint := filter (fun h => probed h = true) (hosts net).

(** C23: Probes go to all caches or to none. However [queue_request] of channel B ends
    (nothing to do, an identifier in use, or a failure while the request is
    created), the device is unchanged, or it has queued exactly one probe for each
    host with a cache, in the order of the hosts, equal but for the source, which
    the routing table leads back to that host; their identifiers were not in use,
    are different, and are in use now. *)
Theorem probes_all_or_none randomise requirements w o w' :
  NoDup (map position (hosts net)) -> Forall (fun h => position_ok (position h)) (hosts net) ->
  queue_request_b fuel net e randomise requirements w = (o, w') ->
  self w' = self w
  \/ exists request ms,
       o = Ok tt /\ to_send (self w') = to_send (self w) ++ ms
       /\ Forall2 (probes request) cached_hosts ms
       /\ NoDup (map probe_id ms) /\ Forall (fun m => probe_id m ∉ ids_in_use (self w)) ms
       /\ ids_in_use (self w') = list_to_set (map probe_id ms) ∪ ids_in_use (self w).
Proof.
  intros Hnd Hpos Hrun. unfold queue_request_b in Hrun. erewrite bind_ok in Hrun by done.
  cbv beta in Hrun. destruct (_ && _); [|left; by injection Hrun as _ <-].
  rewrite bind_run in Hrun. unfold create in Hrun. rewrite bind_run in Hrun. cbn [gets] in Hrun.
  unfold draw, zoom in Hrun. destruct (b_request _ _ _ _ _ _ _) as [o1 g] in Hrun.
  destruct o1 as [request| | | | |]; try (left; by injection Hrun as _ <-).
  erewrite bind_ok in Hrun by done. cbv beta in Hrun. cbn [self] in Hrun. rewrite bind_run in Hrun.
  destruct (pending_probes e (ids_in_use (self w)) (hosts net) request) as [[ms|]| | | | |] eqn:Hp;
    cbn in Hrun; try (left; by injection Hrun as _ <-).
  destruct (pending_probes_run _ _ _ _ Hp) as [Hms Hids].
  assert (Hnd' : NoDup (map probe_id ms)).
  { eapply probe_ids_different; [| |exact Hms];
      [by apply NoDup_map_filter|by apply Forall_filter_kept]. }
  destruct (send_probes_run ms (State (self w) (channel w) g) Hnd' Hids) as (w2 & H2 & Hts & Hi & _).
  rewrite H2 in Hrun. injection Hrun as <- <-. right. by exists request, ms.
Qed.

End probes.

(** ** Witness, and probes that are sent twice *)

Module ProbesExample.

#[local] Existing Instance MessagesExample.linear.
#[local] Existing Instance MessagesExample.zero_data.

(** Two hosts with caches and one without, and the device's routing table. *)
Definition no_table : RoutingTable.table := RoutingTable.Table [] [] [].
Definition host0 : endpoint := Endpoint 0 TL_C 64 0 3 5 false true no_table.
Definition host1 : endpoint := Endpoint 1 TL_C 64 4 5 5 false true no_table.
Definition host2 : endpoint := Endpoint 2 TL_UL 64 6 7 5 true true no_table.
Definition params : endpoint :=
  Endpoint 0 TL_C 64 0 3 5 false true (RoutingTable.Table [4; 6] [1; 1] [1; 2]).
Definition three_hosts : network := Network [host0; host1; host2] [params].

Definition start (ids : gset Z) (q : list (bool * tl_a)) : state tl_b (list (bool * tl_a)) Z :=
  State (Sender ids [] [] false q) (ResponderExample.wires0 (BeatB ProbeBlock 0 0 0 0)) 42.

Lemma probes_all_or_none_witness :
  exists w', queue_request_b 10 three_hosts params true ∅ (start ∅ []) = (Ok tt, w')
  /\ (self w' = self (start ∅ [])
      \/ exists request ms,
           Ok (E := exn) tt = Ok tt /\ to_send (self w') = [] ++ ms
           /\ Forall2 (probes params request) (cached_hosts three_hosts) ms
           /\ NoDup (map (probe_id params) ms) /\ Forall (fun m => probe_id params m ∉ (∅ : gset Z)) ms
           /\ ids_in_use (self w') = list_to_set (map (probe_id params) ms) ∪ ∅).
Proof.
  assert (Hok : fst (queue_request_b 10 three_hosts params true ∅ (start ∅ [])) = Ok tt)
    by (vm_compute; reflexivity).
  destruct (queue_request_b 10 three_hosts params true ∅ (start ∅ [])) as [o w'] eqn:Hrun.
  cbn [fst] in Hok. subst o. exists w'. split; [reflexivity|].
  apply (probes_all_or_none 10 three_hosts params true ∅ (start ∅ []) (Ok tt) w').
  - apply (bool_decide_eq_true_1 _). by vm_compute.
  - repeat constructor; cbn; lia.
  - exact Hrun.
Defined.

(** An acquire whose probe of the second host has to wait. *)
Definition acquire : tl_a := BeatA AcquireBlock 0 4 1 0x3000 0xFF false 0.
Definition second_in_use : gset Z := {[ 2 ^ 16 ]}.

(** [respond] sends the first host's probe and keeps the request; when both
    identifiers are free again, it probes the first host once more. *)
Example first_host_probed_twice :
  let r := respond (SenderMethods := methods_b three_hosts params) in
  let w1 := snd (r (start second_in_use [(false, acquire)])) in
  let w2 := snd (r (on_self (set_ids ∅) w1)) in
  map (fun m => b_source (header m)) (to_send (self w1)) = [0]
  /\ requests (self w1) = [(false, acquire)]
  /\ map (fun m => b_source (header m)) (to_send (self w2)) = [0; 0; 4]
  /\ requests (self w2) = [].
Proof. by vm_compute. Qed.

End ProbesExample.
