(* ===== verification/TlMain.v ===== *)
(** * The TileLink tester as a program

    [tl_harness.h]: the constructor of [TileLinkSimulation], its command line,
    [init] and [run_tests]; and [main] of [tl_main.cc]. The directed tests are the
    argument of the constructor. *)

From S2P Require Import Prelude Exceptions Text MainMemory ArgumentParser BinaryParser Simulation.
From S2P Require Import TileLink TlEndpoint TlMessages TlConfig TlChannels TlHarness.
From Stdlib Require Import Ascii.

Open Scope Z_scope.

(** [srand] of the C library: the state of the generator for a seed. *)
Class Seed (G : Type) : Type := { srand : Z -> G }.

(** A file as text. *)
Definition string_of_bytes (bs : list Z) : string :=
  String.string_of_list_ascii ((fun b => ascii_of_N (Z.to_N b)) <$> bs).
Definition file_text `{FileSystem} (filename : string) : option string :=
  string_of_bytes <$> file_content filename.

Module Tester.

(** [tl_test]. *)
Record tl_test (X G : Type) : Type := Test {
  function : M exn (TileLinkSimulation.simulation X G) unit;
  description : string;
}.
Arguments Test {X G} function description.
Arguments function {X G} t.
Arguments description {X G} t.

(** [TileLinkSimulation] with the members that its arguments set. *)
Record tester (X G : Type) : Type := Tester {
  sim : TileLinkSimulation.simulation X G;
  tests_to_run : list Z;
  sim_duration : Z;
  config_file : string;
}.
Arguments Tester {X G} sim tests_to_run sim_duration config_file.
Arguments sim {X G} t.
Arguments tests_to_run {X G} t.
Arguments sim_duration {X G} t.
Arguments config_file {X G} t.

Section operations.

Context {X G : Type} `{Random G} `{Seed G} `{Indeterminate} `{Wrapper X}.
Context `{TraceFormats} `{FileSystem}.
Context (fuel : nat).

(** The tests that the program knows. *)
Variable tests : list (tl_test X G).

Implicit Types s : tester X G.

Abbreviation M := (M exn (tester X G)).

Definition set_sim (x : TileLinkSimulation.simulation X G) s : tester X G :=
  Tester x (tests_to_run s) (sim_duration s) (config_file s).
Definition add_test (n : Z) s : tester X G :=
  Tester (sim s) (tests_to_run s ++ [n]) (sim_duration s) (config_file s).
Definition set_duration (n : Z) s : tester X G :=
  Tester (sim s) (tests_to_run s) n (config_file s).
Definition set_config (f : string) s : tester X G :=
  Tester (sim s) (tests_to_run s) (sim_duration s) f.

Definition on_sim {A} (k : Prelude.M exn (TileLinkSimulation.simulation X G) A) : M A :=
  zoom sim set_sim k.
Definition on_base {A} (k : Prelude.M exn (Simulation.simulation unit) A) : M A :=
  on_sim (TileLinkSimulation.on_base k).

(** Output on [cout]. *)
Definition print (text : string) : M unit := on_base (modify (Simulation.print text)).

(** *** Construction *)

Definition declared_arguments (name : string) : ArgumentParser.parser :=
  let add := ArgumentParser.add_argument in
  let a := ArgumentParser.set_description ("Usage: " +:+ name +:+ " [simulator args] [tests to run]")
             Simulation.common_arguments in
  let a := add "--list-tests" "List all available tests" ArgumentParser.ARGS_NONE a in
  let a := add "--config" "Load host/device configuration from a file" ArgumentParser.ARGS_ONE a in
  let a := add "--random-seed" "Set the random seed" ArgumentParser.ARGS_ONE a in
  add "--run" "Generate random traffic for the given duration (in cycles)" ArgumentParser.ARGS_ONE a.

(** [t] is the device under test after its construction, [g] the generator before any
    call of [srand]. *)
Definition make (name : string) (t : dut X) (g : G) : tester X G :=
  Tester
    (TileLinkSimulation.Sim [] [] t g false
       (Simulation.Sim (declared_arguments name) Simulation.initial_settings 0 0 "" [] "" None 0 tt
          (Machine ∅ (Host 0 0 0 false []))))
    [] 0 "configs/default/config.yaml".

(** *** Arguments *)

Definition tab : string := String "009" "".

Fixpoint test_lines (i : Z) (l : list (tl_test X G)) : string :=
  match l with
  | [] => ""
  | t :: l => tab +:+ decimal i +:+ tab +:+ description t +:+ ArgumentParser.newline +:+ test_lines (i + 1) l
  end.
Definition list_tests : M unit := print (test_lines 0 tests).

(** [if (args.found_arg(name)) ...]. *)
Definition if_found (name : string) (k : M unit) : M unit :=
  b ← gets (fun s => TileLinkSimulation.base (sim s));
  when (ArgumentParser.found_arg name (Simulation.args b)) k.
Definition get_arg (name : string) : M string := on_base (Simulation.on_args (ArgumentParser.get_arg name)).

(** A number of a test; the comparison with [tests.size()] is unsigned. *)
Definition select_test (arg : string) : M unit :=
  n ← fail (atoi arg);
  assert_that (u64 n <? Z.of_nat (length tests));;
  modify (add_test n).

(** The selected tests, from [argv[i]] on. *)
Definition selected (argc : Z) (argv : list string) (i : Z) : list string :=
  drop (Z.to_nat i) (take (Z.to_nat argc) argv).

Definition parse_args (argc : Z) (argv : list string) : M unit :=
  (if argc =? 0 then on_base Simulation.show_help else mret tt);;
  on_base (Simulation.parse_common argc argv);;
  if_found "--list-tests" (list_tests;; fail (ExitWith 0));;
  if_found "--config" (v ← get_arg "--config"; modify (set_config v));;
  if_found "--random-seed"
    (v ← get_arg "--random-seed";
     n ← fail (stoi v);
     on_sim (modify (TileLinkSimulation.set_generator (srand (u32 n)))));;
  if_found "--run"
    (v ← get_arg "--run";
     n ← fail (stoi v);
     modify (set_duration n));;
  b ← gets (fun s => TileLinkSimulation.base (sim s));
  each select_test (selected argc argv (ArgumentParser.get_args_parsed (Simulation.args b))).

(** *** [init] *)

(** [new TileLinkHost(dut, position, config)] for each configuration. *)
Fixpoint push_hosts (position : Z) (l : list tl_endpoint_config_t) : M unit :=
  match l with
  | [] => mret tt
  | c :: l =>
      e ← fail (endpoint_of position c);
      on_sim (modify (TileLinkSimulation.add_host (TileLinkHost.make e)));;
      push_hosts (position + 1) l
  end.
Fixpoint push_devices (position : Z) (l : list tl_endpoint_config_t) : M unit :=
  match l with
  | [] => mret tt
  | c :: l =>
      e ← fail (endpoint_of position c);
      on_sim (modify (TileLinkSimulation.add_device (TileLinkDevice.make e)));;
      push_devices (position + 1) l
  end.

Definition init : M unit :=
  s ← get;
  config ← fail (read_config (file_text (config_file s)));
  push_hosts 0 (cfg_hosts config);;
  push_devices 0 (cfg_devices config);;
  on_sim (modify (TileLinkSimulation.on_dut (set_clk_i 1)));;
  on_sim (modify (TileLinkSimulation.on_dut (set_rst_ni 1)));;
  on_base Simulation.base_trace_init.

(** *** [run_tests] *)

(** [tests[test]]: undefined outside of the vector. *)
Definition run_test (n : Z) : M unit :=
  test ← fail (match tests !! Z.to_nat n with Some t => if n <? 0 then Undefined else Ok t | None => Undefined end);
  print ("Test selected: " +:+ description test +:+ ArgumentParser.newline);;
  on_sim (function test);;
  on_sim (TileLinkSimulation.cycles fuel 100).

Definition run_tests : M unit :=
  on_sim (modify (TileLinkSimulation.set_randomise false));;
  s ← get;
  each run_test (tests_to_run s);;
  when (0 <? sim_duration s) (on_sim (TileLinkSimulation.run fuel true (sim_duration s) 1000));;
  on_sim TileLinkSimulation.end_simulation;;
  on_base Simulation.base_trace_close;;
  print ("No assertions triggered" +:+ ArgumentParser.newline).

(** [main] on a simulation that was constructed. *)
Definition run_program (argc : Z) (argv : list string) : M Z :=
  parse_args argc argv;;
  init;;
  on_sim TileLinkSimulation.reset;;
  run_tests;;
  mret 0.

(** [main]; the first argument is the simulator's own name. *)
Definition main (argc : Z) (argv : list string) (t : dut X) (g : G) : outcome exn Z * tester X G :=
  run_program (argc - 1) (drop 1 argv) (make "tilelink" t g).

End operations.

End Tester.
