(* ===== verification/TlAssertions.v ===== *)
(** * The assertions of the TileLink checker

    [rtl/tl_assert.sv] is the checker that watches a port during a run of the tester:
    the register files of pending requests, the sequences on the five channels, and the
    assertions made of them for the port of a host and of a device. Signals have two
    values here, so that the sequences that look for unknown data are always true. *)

From S2P Require Import Prelude Exceptions TileLink TlChannels TlHarness.

Open Scope Z_scope.

(** [$countones] of the lowest [n] bits. *)
Fixpoint countones (n : nat) (z : Z) : Z :=
  match n with
  | O => 0
  | S n => countones n z + Z.b2z (Z.testbit z (Z.of_nat n))
  end.

Definition one_of (l : list tl_a_op_e) (op : tl_a_op_e) : bool := bool_decide (op ∈ l).
Definition within (lo hi z : Z) : bool := (lo <=? z) && (z <=? hi).

Module Assertions.

Section checker.

(** The parameters of the module: the protocol and the width of a beat in bytes. *)
Context (protocol : tl_protocol_e) (DataWidthInBytes : Z).

Definition lanes : nat := Z.to_nat DataWidthInBytes.

Definition expected_beats (size : Z) : Z :=
  if Z.shiftl 1 size <? DataWidthInBytes then 1 else Z.shiftl 1 size / DataWidthInBytes.

(** *** Channel A: single beats *)

Definition aLegalOpcodeTLUL (b : tl_a) : bool := one_of [PutFullData; PutPartialData; Get] (a_opcode b).
Definition aLegalOpcodeTLUH (b : tl_a) : bool :=
  aLegalOpcodeTLUL b || one_of [ArithmeticData; LogicalData; Intent] (a_opcode b).
Definition aLegalOpcodeTLC (b : tl_a) : bool :=
  aLegalOpcodeTLUH b || one_of [AcquireBlock; AcquirePerm] (a_opcode b).
Definition aLegalOpcode (b : tl_a) : bool :=
  if bool_decide (protocol = TL_UL) then aLegalOpcodeTLUL b
  else if bool_decide (protocol = TL_UH) then aLegalOpcodeTLUH b
  else aLegalOpcodeTLC b.

Definition aHasPayload (b : tl_a) : bool :=
  one_of [PutFullData; PutPartialData; ArithmeticData; LogicalData] (a_opcode b).

Definition aLegalParam (b : tl_a) : bool :=
  (one_of [PutFullData; PutPartialData; Get] (a_opcode b) && (a_param b =? 0))
  || (one_of [ArithmeticData] (a_opcode b) && within 0 4 (a_param b))
  || (one_of [LogicalData] (a_opcode b) && within 0 3 (a_param b))
  || (one_of [Intent] (a_opcode b) && within 0 1 (a_param b))
  || (one_of [AcquireBlock; AcquirePerm] (a_opcode b) && within 0 2 (a_param b)).

Definition aSizeLTEBusWidth (b : tl_a) : bool :=
  negb (bool_decide (protocol = TL_UL)) || (Z.shiftl 1 (a_size b) <=? DataWidthInBytes).
Definition aSizeGTEMask (b : tl_a) : bool := countones lanes (a_mask b) <=? Z.shiftl 1 (a_size b).
Definition aSizeMatchesMask (b : tl_a) : bool :=
  negb (bool_decide (protocol = TL_UL))
  || one_of [PutPartialData; Get] (a_opcode b)
  || (Z.shiftl 1 (a_size b) =? countones lanes (a_mask b)).

Definition aAddrSizeAligned (b : tl_a) : bool :=
  Z.land (a_address b) (Z.shiftl 1 (a_size b) - 1) =? 0.

Definition implies (p q : bool) : bool := if p then q else true.

(** [{mask[$bits(mask)-2:0], 1'b0}] is the mask shifted by one lane; what leaves the
    width is not counted. *)
Definition aContigMask_pre (b : tl_a) : bool :=
  one_of [Get; PutFullData; AcquireBlock; AcquirePerm] (a_opcode b).
Definition aContigMask (b : tl_a) : bool :=
  implies (aContigMask_pre b)
    (countones lanes (Z.lxor (a_mask b) (Z.shiftl (a_mask b) 1)) <=? 2).

Definition aFullBusUsed (b : tl_a) : bool := DataWidthInBytes <=? Z.shiftl 1 (a_size b).
Definition aFullMaskUsed (b : tl_a) : bool :=
  implies (aFullBusUsed b && aContigMask_pre b) (a_mask b =? Z.ones DataWidthInBytes).

Definition aMaxMask (b : tl_a) : Z :=
  Z.shiftl (Z.ones (Z.shiftl 1 (a_size b))) (Z.land (a_address b) (DataWidthInBytes - 1)).
Definition aMaskAligned (b : tl_a) : bool :=
  implies (negb (aFullBusUsed b)) (Z.ldiff (a_mask b) (aMaxMask b) =? 0).

Definition aLegalCorrupt (b : tl_a) : bool := implies (negb (aHasPayload b)) (negb (a_corrupt b)).

(** The assertions on an accepted beat that do not look at other beats. *)
Definition beat_assertions : list (tl_a -> bool) :=
  [ aLegalOpcode; aLegalParam; aSizeLTEBusWidth; aSizeGTEMask; aSizeMatchesMask; aAddrSizeAligned;
    aContigMask; aFullMaskUsed; aMaskAligned; aLegalCorrupt ].
Definition beat_passes (b : tl_a) : bool := forallb (fun f => f b) beat_assertions.

(** *** Pending requests

    The entries of the three register files; an identifier that is not in a map has the
    value after the reset. *)
Record a_req_t : Type := AReq { pend : bool; beats : Z; resps : Z; tl : tl_a }.
Record c_req_t : Type := CReq { c_pend : bool; c_beats : Z; c_tl : tl_c }.
Record d_req_t : Type := DReq { d_pend : bool; d_beats : Z; d_tl : tl_d }.

Definition no_a : tl_a := BeatA PutFullData 0 0 0 0 0 false 0.
Definition no_c : tl_c := BeatC (C_OTHER 0) 0 0 0 0 false 0.
Definition no_d : tl_d := BeatD AccessAck 0 0 0 0 false false 0.

Definition no_request : a_req_t := AReq false 0 0 no_a.
Definition no_c_request : c_req_t := CReq false 0 no_c.
Definition no_d_request : d_req_t := DReq false 0 no_d.

(** The register files, the signals at the last clock edge, and the signals of channel
    D at the edge before. *)
Record monitor : Type := Monitor {
  a_pending : gmap Z a_req_t;
  c_pending : gmap Z c_req_t;
  d_pending : gmap Z d_req_t;
  signals : links;
  prev_tl_d : tl_d;
}.

Definition no_links : links :=
  Links (Wires false false no_a) (Wires false false (BeatB (B_OTHER 0) 0 0 0 0))
    (Wires false false no_c) (Wires false false no_d) (Wires false false (BeatE 0)).
Definition reset_monitor : monitor := Monitor ∅ ∅ ∅ no_links no_d.

Definition pending (m : monitor) (source : Z) : a_req_t := default no_request (a_pending m !! source).
Definition pending_c (m : monitor) (source : Z) : c_req_t := default no_c_request (c_pending m !! source).
Definition pending_d (m : monitor) (sink : Z) : d_req_t := default no_d_request (d_pending m !! sink).

Definition set_pending (source : Z) (r : a_req_t) (m : monitor) : monitor :=
  Monitor (<[source := r]> (a_pending m)) (c_pending m) (d_pending m) (signals m) (prev_tl_d m).
Definition set_pending_c (source : Z) (r : c_req_t) (m : monitor) : monitor :=
  Monitor (a_pending m) (<[source := r]> (c_pending m)) (d_pending m) (signals m) (prev_tl_d m).
Definition set_pending_d (sink : Z) (r : d_req_t) (m : monitor) : monitor :=
  Monitor (a_pending m) (c_pending m) (<[sink := r]> (d_pending m)) (signals m) (prev_tl_d m).

(** The beat that is accepted, if one is. *)
Definition accepted {C} (w : wires C) : option C := if valid w && ready w then Some (data w) else None.

Definition c_is_request (b : tl_c) : bool := bool_decide (c_opcode b ∈ [Release; ReleaseData]).
Definition d_is_request (d : tl_d) : bool := bool_decide (d_opcode d ∈ [Grant; GrantData]).
Definition is_c_response (d : tl_d) : bool := bool_decide (d_opcode d = ReleaseAck).
Definition is_a_response (d : tl_d) : bool := negb (is_c_response d).

(** Clear the requests that the beats of the last edge have completed. *)
Definition clear_d (m : monitor) : monitor :=
  match accepted (link_d (signals m)) with
  | None => m
  | Some d =>
      let r := pending m (d_source d) in
      let rc := pending_c m (d_source d) in
      match d_opcode d with
      | ReleaseAck => set_pending_c (d_source d) (CReq false 0 (c_tl rc)) m
      | AccessAck | HintAck | Grant => set_pending (d_source d) (AReq false 0 0 (tl r)) m
      | _ => if resps r =? expected_beats (a_size (tl r))
             then set_pending (d_source d) (AReq false 0 0 (tl r)) m else m
      end
  end.
Definition clear_e (m : monitor) : monitor :=
  match accepted (link_e (signals m)) with
  | None => m
  | Some b => set_pending_d (e_sink b) (DReq false 0 (d_tl (pending_d m (e_sink b)))) m
  end.

Definition capture (l : links) (m : monitor) : monitor :=
  Monitor (a_pending m) (c_pending m) (d_pending m) l (data (link_d (signals m))).

Definition count_request (b : tl_a) (m : monitor) : monitor :=
  let r := pending m (a_source b) in
  let r := if pend r then r else AReq true 0 0 b in
  set_pending (a_source b) (AReq (pend r) (beats r + 1) (resps r) (tl r)) m.
Definition count_release (b : tl_c) (m : monitor) : monitor :=
  if c_is_request b then
    let r := pending_c m (c_source b) in
    let r := if c_pend r then r else CReq true 0 b in
    set_pending_c (c_source b) (CReq (c_pend r) (c_beats r + 1) (c_tl r)) m
  else m.
Definition count_grant (d : tl_d) (m : monitor) : monitor :=
  if d_is_request d then
    let r := pending_d m (d_sink d) in
    let r := if d_pend r then r else DReq true 0 d in
    set_pending_d (d_sink d) (DReq (d_pend r) (d_beats r + 1) (d_tl r)) m
  else m.
Definition count_response (d : tl_d) (m : monitor) : monitor :=
  if is_a_response d then
    let r := pending m (d_source d) in
    set_pending (d_source d) (AReq (pend r) (beats r) (resps r + 1) (tl r)) m
  else m.

Definition on_accepted {C} (w : wires C) (f : C -> monitor -> monitor) (m : monitor) : monitor :=
  match accepted w with Some b => f b m | None => m end.

(** A clock edge at which the signals of the port are [l]. *)
Definition clock_edge (l : links) (m : monitor) : monitor :=
  let m := capture l (clear_e (clear_d m)) in
  let m := on_accepted (link_a l) count_request m in
  let m := on_accepted (link_c l) count_release m in
  on_accepted (link_d l) (fun d m => count_response d (count_grant d m)) m.

(** *** Channel A: messages of several beats *)

Definition aNumBeats (m : monitor) (b : tl_a) : bool :=
  implies (aHasPayload b) (beats (pending m (a_source b)) <=? expected_beats (a_size b)).

Definition aMultibeatCtrlConst (m : monitor) (b : tl_a) : bool :=
  let r := pending m (a_source b) in
  implies (1 <? beats r)
    ((a_address b =? a_address (tl r)) && bool_decide (a_opcode b = a_opcode (tl r))
     && (a_param b =? a_param (tl r)) && (a_size b =? a_size (tl r)) && (a_source b =? a_source (tl r))).

Definition request_passes (m : monitor) (b : tl_a) : bool :=
  beat_passes b && aNumBeats m b && aMultibeatCtrlConst m b.

(** *** Channel B

    The opcodes 0 to 5 are those of channel A, which [tilelink.h] does not name. *)
Definition bEnabled : bool := bool_decide (protocol = TL_C).
Definition bLegalOpcode (b : tl_b) : bool :=
  match b_opcode b with ProbeBlock | ProbePerm => true | B_OTHER op => within 0 5 op end.
Definition bLegalParam (b : tl_b) : bool :=
  match b_opcode b with
  | ProbeBlock | ProbePerm => within 0 2 (b_param b)
  | B_OTHER 0 | B_OTHER 1 | B_OTHER 4 => b_param b =? 0
  | B_OTHER 2 => within 0 4 (b_param b)
  | B_OTHER 3 => within 0 3 (b_param b)
  | B_OTHER 5 => within 0 1 (b_param b)
  | B_OTHER _ => false
  end.

Definition probe_passes (b : tl_b) : bool := bEnabled && bLegalOpcode b && bLegalParam b.

(** *** Channel C

    The opcodes 0 to 2 are the responses [AccessAck], [AccessAckData] and [HintAck]. *)
Definition c_one_of (l : list tl_c_op_e) (b : tl_c) : bool := bool_decide (c_opcode b ∈ l).

Definition cEnabled : bool := bool_decide (protocol = TL_C).
Definition cLegalOpcode : tl_c -> bool :=
  c_one_of [C_OTHER 1; C_OTHER 0; C_OTHER 2; ProbeAck; ProbeAckData; Release; ReleaseData].
Definition cHasPayload : tl_c -> bool := c_one_of [C_OTHER 1; ProbeAckData; ReleaseData].
Definition cLegalParam (b : tl_c) : bool :=
  (c_one_of [C_OTHER 1; C_OTHER 0; C_OTHER 2] b && (c_param b =? 0))
  || (c_one_of [ProbeAck; ProbeAckData; Release; ReleaseData] b && within 0 5 (c_param b)).
Definition cNumBeats (m : monitor) (b : tl_c) : bool :=
  implies (cHasPayload b && c_is_request b)
    (c_beats (pending_c m (c_source b)) <=? expected_beats (c_size b)).
Definition cAddrSizeAligned (b : tl_c) : bool :=
  Z.land (c_address b) (Z.shiftl 1 (c_size b) - 1) =? 0.
Definition cMultibeatCtrlConst (m : monitor) (b : tl_c) : bool :=
  let r := pending_c m (c_source b) in
  implies (c_is_request b && (1 <? c_beats r))
    ((c_address b =? c_address (c_tl r)) && bool_decide (c_opcode b = c_opcode (c_tl r))
     && (c_param b =? c_param (c_tl r)) && (c_size b =? c_size (c_tl r)) && (c_source b =? c_source (c_tl r))).
Definition cLegalCorrupt (b : tl_c) : bool := implies (negb (cHasPayload b)) (negb (c_corrupt b)).

Definition release_passes (m : monitor) (b : tl_c) : bool :=
  cEnabled && cLegalOpcode b && cLegalParam b && cNumBeats m b && cAddrSizeAligned b
  && cMultibeatCtrlConst m b && cLegalCorrupt b.

(** *** Channel D *)

Definition d_one_of (l : list tl_d_op_e) (d : tl_d) : bool := bool_decide (d_opcode d ∈ l).

Definition dLegalOpcodeTLUL : tl_d -> bool := d_one_of [AccessAckData; AccessAck].
Definition dLegalOpcodeTLUH (d : tl_d) : bool := dLegalOpcodeTLUL d || d_one_of [HintAck] d.
Definition dLegalOpcodeTLC (d : tl_d) : bool :=
  dLegalOpcodeTLUH d || d_one_of [Grant; GrantData; ReleaseAck] d.
Definition dLegalOpcode (d : tl_d) : bool :=
  if bool_decide (protocol = TL_UL) then dLegalOpcodeTLUL d
  else if bool_decide (protocol = TL_UH) then dLegalOpcodeTLUH d
  else dLegalOpcodeTLC d.
Definition dHasPayload : tl_d -> bool := d_one_of [AccessAckData; GrantData].

Definition dMatchingOpcode (m : monitor) (d : tl_d) : bool :=
  let op := a_opcode (tl (pending m (d_source d))) in
  match d_opcode d with
  | AccessAckData => one_of [Get; ArithmeticData; LogicalData] op
  | AccessAck => one_of [PutFullData; PutPartialData] op
  | HintAck => one_of [Intent] op
  | Grant => one_of [AcquireBlock; AcquirePerm] op
  | GrantData => one_of [AcquireBlock] op
  | ReleaseAck => c_is_request (c_tl (pending_c m (d_source d)))
  | D_OTHER _ => false
  end.
Definition dRespMustHaveReq (m : monitor) (d : tl_d) : bool :=
  (is_a_response d && pend (pending m (d_source d)))
  || (is_c_response d && c_pend (pending_c m (d_source d))).

Definition a_expected_beats (b : tl_a) : Z := if aHasPayload b then expected_beats (a_size b) else 1.
Definition c_expected_beats (b : tl_c) : Z :=
  if c_one_of [ProbeAckData; ReleaseData] b then expected_beats (c_size b) else 1.
Definition d_expected_beats (d : tl_d) : Z := if dHasPayload d then expected_beats (d_size d) else 1.

Definition dCompleteResp (m : monitor) (d : tl_d) : bool :=
  is_c_response d || (resps (pending m (d_source d)) =? d_expected_beats d).
Definition dCompleteReq (m : monitor) (d : tl_d) : bool :=
  let r := pending m (d_source d) in
  let rc := pending_c m (d_source d) in
  (is_a_response d && (beats r =? a_expected_beats (tl r)))
  || (is_c_response d && (c_beats rc =? c_expected_beats (c_tl rc))).
Definition dCompleteReqResp (m : monitor) (d : tl_d) : bool :=
  implies (dCompleteResp m d) (dCompleteReq m d).

Definition d_in_progress (m : monitor) (d : tl_d) : bool :=
  let r := pending m (d_source d) in
  is_a_response d && (0 <? resps r) && (resps r <? d_expected_beats d).
Definition dNoInterleaving (m : monitor) (d : tl_d) : bool :=
  implies (negb (d_source d =? d_source (prev_tl_d m))) (negb (d_in_progress m (prev_tl_d m))).

Definition dLegalParam (d : tl_d) : bool :=
  match d_opcode d with
  | AccessAckData | AccessAck | HintAck | ReleaseAck => d_param d =? 0
  | Grant | GrantData => within 0 2 (d_param d)
  | D_OTHER _ => false
  end.
Definition dSizeEqReqSize (m : monitor) (d : tl_d) : bool :=
  (is_a_response d && (d_size d =? a_size (tl (pending m (d_source d)))))
  || (is_c_response d && (d_size d =? c_size (c_tl (pending_c m (d_source d))))).
Definition dNumBeats (m : monitor) (d : tl_d) : bool :=
  implies (dHasPayload d && d_is_request d)
    (resps (pending m (d_source d)) <=? expected_beats (d_size d)).
Definition dLegalCorrupt (d : tl_d) : bool := implies (negb (dHasPayload d)) (negb (d_corrupt d)).
Definition dLegalDenied (d : tl_d) : bool := implies (is_c_response d) (negb (d_denied d)).
Definition dDeniedImpliesCorrupt (d : tl_d) : bool :=
  negb (dHasPayload d) || implies (d_denied d) (d_corrupt d).

(** The assertions that are the same at both kinds of port. *)
Definition response_passes (m : monitor) (d : tl_d) : bool :=
  dLegalOpcode d && dMatchingOpcode m d && dNoInterleaving m d && dLegalParam d && dCompleteReqResp m d
  && dSizeEqReqSize m d && dNumBeats m d && dLegalCorrupt d && dLegalDenied d && dDeniedImpliesCorrupt d.

(** *** Channel E *)

Definition eEnabled : bool := bool_decide (protocol = TL_C).
Definition eMatchingOpcode (m : monitor) (b : tl_e) : bool :=
  valid (link_e (signals m)) && d_is_request (d_tl (pending_d m (e_sink b))).
Definition eRespMustHaveReq (m : monitor) (b : tl_e) : bool := d_pend (pending_d m (e_sink b)).
Definition eCompleteReqResp (m : monitor) (b : tl_e) : bool :=
  let r := pending_d m (e_sink b) in d_beats r =? d_expected_beats (d_tl r).

Definition acknowledgement_passes (m : monitor) (b : tl_e) : bool :=
  eEnabled && eMatchingOpcode m b && eCompleteReqResp m b.

(** *** The assertions of a port

    A host may see responses that are for other hosts, and a device acknowledgements
    for other devices: those are ignored. *)
Inductive endpoint_type : Type := Host | Device.

Definition response_asserted (type : endpoint_type) (m : monitor) (d : tl_d) : bool :=
  match type with
  | Host => implies (dRespMustHaveReq m d) (response_passes m d)
  | Device => dRespMustHaveReq m d && response_passes m d
  end.
Definition acknowledgement_asserted (type : endpoint_type) (m : monitor) (b : tl_e) : bool :=
  match type with
  | Host => eRespMustHaveReq m b && acknowledgement_passes m b
  | Device => implies (eRespMustHaveReq m b) (acknowledgement_passes m b)
  end.

Definition if_accepted {C} (w : wires C) (f : C -> bool) : bool :=
  match accepted w with Some b => f b | None => true end.

(** All assertions after a clock edge. *)
Definition monitor_passes (type : endpoint_type) (m : monitor) : bool :=
  let l := signals m in
  if_accepted (link_a l) (request_passes m)
  && if_accepted (link_b l) probe_passes
  && if_accepted (link_c l) (release_passes m)
  && if_accepted (link_d l) (response_asserted type m)
  && if_accepted (link_e l) (acknowledgement_asserted type m).

(** [TlDbw_A]. *)
Definition width_passes : bool := 8 * DataWidthInBytes <=? 64.

(** [aNoOutstandingReqsAtEndOfSim_A] and those of channels C and D. *)
Definition none_outstanding (m : monitor) : bool :=
  forallb (fun r => negb (pend (snd r))) (map_to_list (a_pending m))
  && forallb (fun r => negb (c_pend (snd r))) (map_to_list (c_pending m))
  && forallb (fun r => negb (d_pend (snd r))) (map_to_list (d_pending m)).

End checker.

End Assertions.
