(* ===== verification/TlTests.v ===== *)
(** * The directed tests of the TileLink tester

    [tl_tests.cc], with the functions of [tl_channels.h] that only the tests call:
    [await] of a receiver and [send] of a sender. *)

From S2P Require Import Prelude Exceptions MainMemory Simulation.
From S2P Require Import TileLink TlEndpoint TlMessages TlChannels TlHarness TlMain.
From Stdlib Require Import Ascii.

Open Scope Z_scope.

Module TlTests.

Section tests.

Context {X G : Type} `{Random G} `{Indeterminate} `{Wrapper X} `{TraceFormats}.
Context (fuel : nat).

Import TileLinkSimulation.

Abbreviation M := (M exn (simulation X G)).
Abbreviation updates := (gmap string Z).

(** *** References to hosts and devices *)

(** [sim.host(i)] and [sim.device(i)]: undefined outside of the vectors. *)
Definition host (i : nat) : M unit :=
  s ← get; fail (if bool_decide (i < length (hosts s))%nat then Ok tt else Undefined).
Definition device (i : nat) : M unit :=
  s ← get; fail (if bool_decide (i < length (devices s))%nat then Ok tt else Undefined).

(** Code on [sim.host(i).a] and on [sim.device(i).d]. *)
Definition host_a {A} (i : nat)
    (k : network -> endpoint -> Prelude.M exn (Sender.state tl_a unit G) A) : M A :=
  s ← get;
  on_host i (p ← gets (fun w => TileLinkHost.endpoint (me w)); TileLinkHost.on_a (k (endpoints s) p)).
Definition device_d {A} (i : nat)
    (k : network -> endpoint -> Prelude.M exn (Sender.state tl_d queue_d G) A) : M A :=
  s ← get;
  on_device i (p ← gets (fun w => TileLinkDevice.endpoint (me w)); TileLinkDevice.on_d (k (endpoints s) p)).

(** [tl_message<tl_a> message(host.a, false, requirements)]. *)
Definition new_message (i : nat) (requirements : updates) : M (tl_message tl_a) :=
  host_a i (fun net p => create (fun ids => a_request fuel net p ids false requirements)).

(** [message.next_beat(false)], of a message that is not used again. *)
Definition next_beat (i : nat) (m : tl_message tl_a) : M tl_a :=
  r ← host_a i (fun _ _ => Sender.draw (next_beat_a false m));
  mret (fst r).

(** [host.a.send(beat)]: a message of one beat. *)
Definition send (i : nat) (beat : tl_a) : M unit :=
  host_a i (fun _ p =>
    m ← fail (make_message (width_bytes p) 1 1 beat);
    Sender.push m).

Definition start_transaction (i : nat) (id : Z) : M unit :=
  host_a i (fun _ _ => Sender.start_transaction id).
Definition change_next_beat (i : nat) (u : updates) : M unit :=
  host_a i (fun _ _ => Sender.change_next_beat u).
Definition queue_request (i : nat) (requirements : updates) : M unit :=
  host_a i (fun net p => queue_request_a fuel net p false requirements).

(** [tl_message<tl_d> response(device.d, request, false)] and [device.d.send(response.next_beat(false))]. *)
Definition send_response (i : nat) (request : tl_a) : M unit :=
  device_d i (fun net p =>
    m ← create (fun ids => d_response_a fuel p ids request false);
    r ← Sender.draw (next_beat_d false m);
    m ← fail (make_message (width_bytes p) 1 1 (fst r));
    Sender.push m).
Definition change_next_response (i : nat) (u : updates) : M unit :=
  device_d i (fun _ _ => Sender.change_next_beat u).

(** *** [await] *)

(** The loop: at most [timeout] cycles. *)
Fixpoint wait_valid (timeout : nat) (valid : M bool) : M unit :=
  v ← valid;
  match timeout with
  | O => mret tt
  | S timeout => when (negb v) (next_cycle fuel;; wait_valid timeout valid)
  end.

Definition await {C} (valid : M bool) (set_ready : M unit) (data : M C) : M C :=
  wait_valid 100 valid;;
  v ← valid;
  assert_that v;;
  set_ready;;
  data.

(** [sim.device(i).a.await()] and [sim.host(i).d.await()]. *)
Definition await_a (i : nat) : M tl_a :=
  await (on_device i (gets (fun w => valid (link_a (port w)))))
    (on_device i (modify (fun w =>
       set_me (TileLinkDevice.set_a
         (Receiver.Receiver (Receiver.beats_remaining (TileLinkDevice.a (me w))) true) (me w)) w)))
    (on_device i (gets (fun w => data (link_a (port w))))).
Definition await_d (i : nat) : M tl_d :=
  await (on_host i (gets (fun w => valid (link_d (port w)))))
    (on_host i (modify (fun w =>
       set_me (TileLinkHost.set_d
         (Receiver.Receiver (Receiver.beats_remaining (TileLinkHost.d (me w))) true) (me w)) w)))
    (on_host i (gets (fun w => data (link_d (port w))))).

(** [next_cycle] of [tl_main.cc]. *)
Definition cycle : M unit := next_cycle fuel.

(** The steps that most tests share: a first beat made from [requirements], sent. *)
Definition first_beat (i : nat) (requirements : updates) : M tl_a :=
  m ← new_message i requirements;
  next_beat i m.
Definition send_request (i : nat) (requirements : updates) : M tl_a :=
  request ← first_beat i requirements;
  start_transaction i (a_source request);;
  send i request;;
  mret request.

Definition same (x y : Z) : M unit := assert_that (x =? y).
Definition same_op (x y : tl_a_op_e) : M unit := assert_that (bool_decide (x = y)).

(** *** The opcodes as integers *)

Definition put_full_data : Z := 0.
Definition arithmetic_data : Z := 2.
Definition get_data : Z := 4.
Definition hint_ack : Z := 2.

(** *** Tests that pass *)

Definition valid_response (d : tl_d) : M unit :=
  assert_that (negb (d_denied d));; assert_that (negb (d_corrupt d)).

Definition valid_write_operation : M unit :=
  host 0;; device 0;;
  request ← send_request 0 {["opcode"%string := put_full_data]};
  req_received ← await_a 0;
  same (a_address req_received) (a_address request);;
  same_op (a_opcode req_received) (a_opcode request);;
  same (a_mask req_received) (a_mask request);;
  same (a_data req_received) (a_data request);;
  resp_received ← await_d 0;
  valid_response resp_received;;
  same (d_source resp_received) (a_source request);;
  assert_that (bool_decide (d_opcode resp_received = AccessAck)).

Definition valid_read_operation : M unit :=
  host 1;; device 0;;
  request ← send_request 1 {["opcode"%string := get_data]};
  change_next_response 0 {["data"%string := 0x1234]};;
  req_received ← await_a 0;
  same (a_address req_received) (a_address request);;
  same_op (a_opcode req_received) (a_opcode request);;
  same (a_mask req_received) (a_mask request);;
  resp_received ← await_d 1;
  valid_response resp_received;;
  same (d_data resp_received) 0x1234;;
  same (d_source resp_received) (a_source request);;
  assert_that (bool_decide (d_opcode resp_received = AccessAckData)).

(** [get_address] of a sender, converted to the [int] of a map of updates. *)
Definition at_device (address i : Z) : Z := s32 (get_address address i).

Definition valid_dev1_operation : M unit :=
  host 1;; device 1;;
  request ← send_request 1 {["address"%string := at_device 0x3000 1]};
  req_received ← await_a 1;
  same (a_address req_received) (a_address request);;
  same_op (a_opcode req_received) (a_opcode request);;
  same (a_mask req_received) (a_mask request);;
  same (a_data req_received) (a_data request);;
  resp_received ← await_d 1;
  valid_response resp_received;;
  same (d_source resp_received) (a_source request);;
  assert_that (bool_decide (d_opcode resp_received = AccessAck)).

Definition multiple_valid_requests : M unit :=
  host 0;; host 1;; device 0;; device 1;;
  dev0_request ← send_request 0 ∅;
  dev1_request ← send_request 1 {["address"%string := at_device 0x3000 1]};
  _ ← await_a 0;
  _ ← await_a 1;
  dev0_d ← await_d 0;
  valid_response dev0_d;;
  same (d_source dev0_d) (a_source dev0_request);;
  assert_that (bool_decide (d_opcode dev0_d = AccessAck));;
  dev1_d ← await_d 1;
  valid_response dev1_d;;
  same (d_source dev1_d) (a_source dev1_request);;
  assert_that (bool_decide (d_opcode dev1_d = AccessAck)).

(** Another beat with an address 8 bytes further. *)
Definition following_beat (b : tl_a) (data : Z) : tl_a :=
  BeatA (a_opcode b) (a_param b) (a_size b) (a_source b) (u64 (a_address b + 8)) (a_mask b)
    (a_corrupt b) data.

Definition two_beats : updates := {["opcode"%string := put_full_data; "size"%string := 4]}.

Definition multibeat_tlc : M unit :=
  host 0;; device 0;;
  request ← send_request 0 two_beats;
  req_received ← await_a 0;
  same (a_data req_received) (a_data request);;
  let request2 := following_beat request 0x87654321 in
  send 0 request2;;
  cycle;;
  req2_received ← await_a 0;
  same (a_data req2_received) (a_data request2);;
  _ ← await_d 0;
  mret tt.

Definition multibeat_tlul : M unit :=
  host 0;; device 2;;
  request ← send_request 0 (<["address"%string := at_device 0x3000 2]> two_beats);
  let request2 := following_beat request 0x87654321 in
  send 0 request2;;
  req_received ← await_a 2;
  same (a_data req_received) (a_data request);;
  cycle;;
  req2_received ← await_a 2;
  same (a_data req2_received) (a_data request2);;
  _ ← await_d 0;
  mret tt.

Definition a_corrupt_payload : M unit :=
  host 0;; device 0;;
  _ ← send_request 0 {["opcode"%string := put_full_data; "corrupt"%string := 1]};
  _ ← await_a 0;
  _ ← await_d 0;
  mret tt.

Definition all_passing_tests : M unit :=
  valid_write_operation;;
  valid_read_operation;;
  valid_dev1_operation;;
  multiple_valid_requests;;
  multibeat_tlc;;
  multibeat_tlul;;
  a_corrupt_payload.

(** *** Tests that should trigger an assertion *)

Definition idle_run : M unit := run fuel false 1000 100.
Definition request_and_run (requirements : updates) : M unit :=
  host 0;; queue_request 0 requirements;; idle_run.
Definition change_and_run (requirements : updates) (changes : list updates) : M unit :=
  host 0;; queue_request 0 requirements;; each (change_next_beat 0) changes;; idle_run.

Definition a_illegal_opcode : M unit :=
  request_and_run {["opcode"%string := arithmetic_data; "address"%string := at_device 0x3000 2]}.
Definition a_illegal_param : M unit :=
  request_and_run {["opcode"%string := put_full_data; "param"%string := 2]}.
Definition a_size_too_small : M unit :=
  request_and_run {["opcode"%string := get_data; "size"%string := 1; "mask"%string := 0xF]}.
Definition a_size_mask_mismatch : M unit :=
  request_and_run {["opcode"%string := put_full_data; "size"%string := 3; "mask"%string := 0xF]}.
Definition a_unaligned_address : M unit :=
  request_and_run {["size"%string := 3; "address"%string := 0x3001]}.
Definition a_multibeat_addr_inc : M unit :=
  host 0;; device 0;;
  change_and_run (<["address"%string := 0x3000]> two_beats) [∅; {["address"%string := 0x3000]}].
Definition a_multibeat_ctrl_const : M unit :=
  change_and_run two_beats [∅; {["size"%string := 3]}].

(** The first beat of a message is sent without starting a transaction. *)
Definition send_alone (i : nat) (requirements : updates) : M tl_a :=
  request ← first_beat i requirements;
  send i request;;
  mret request.

Definition a_too_many_beats : M unit :=
  host 0;; device 0;;
  request ← send_alone 0 two_beats;
  req_received ← await_a 0;
  same (a_data req_received) (a_data request);;
  let request2 := following_beat request 0x87654321 in
  send 0 request2;;
  cycle;;
  req2_received ← await_a 0;
  same (a_data req2_received) (a_data request2);;
  let request3 := following_beat request2 0x18273645 in
  send 0 request3;;
  cycle;;
  req3_received ← await_a 0;
  same (a_data req3_received) (a_data request3);;
  send_response 0 req3_received;;
  _ ← await_d 0;
  mret tt.

Definition a_too_few_beats : M unit :=
  host 0;; device 0;;
  request ← send_alone 0 two_beats;
  req_received ← await_a 0;
  same (a_data req_received) (a_data request);;
  send_response 0 req_received;;
  _ ← await_d 0;
  mret tt.

Definition a_noncontiguous_mask : M unit :=
  request_and_run {["opcode"%string := get_data; "size"%string := 2; "mask"%string := 0x33]}.
Definition a_multibeat_bad_mask : M unit :=
  change_and_run two_beats [∅; {["mask"%string := 0xF0]}].
Definition a_misaligned_mask : M unit :=
  request_and_run {["opcode"%string := put_full_data; "size"%string := 0; "address"%string := 0x3001;
                    "mask"%string := 0x4]}.
Definition a_corrupt_without_payload : M unit :=
  host 0;; device 0;; request_and_run {["opcode"%string := get_data; "corrupt"%string := 1]}.

Definition respond_and_run (requirements : updates) (changes : list updates) : M unit :=
  host 0;; device 0;;
  queue_request 0 requirements;; each (change_next_response 0) changes;; idle_run.

Definition d_illegal_opcode : M unit :=
  respond_and_run {["opcode"%string := put_full_data]} [{["opcode"%string := hint_ack]}].
Definition d_illegal_param : M unit :=
  respond_and_run {["opcode"%string := put_full_data]} [{["param"%string := 2]}].
Definition d_size_mismatch : M unit :=
  respond_and_run {["size"%string := 3]} [{["size"%string := 2]}].
Definition d_too_many_beats : M unit :=
  respond_and_run {["opcode"%string := get_data; "size"%string := 4; "address"%string := 0x3000]}
    [∅; {["duplicate_beat"%string := 0]}; {["address"%string := 0x3010]}].
Definition d_too_few_beats : M unit :=
  respond_and_run {["opcode"%string := get_data; "size"%string := 4]} [∅; {["drop_beat"%string := 0]}].
Definition d_response_without_request : M unit :=
  respond_and_run ∅ [{["source"%string := 1]}].
Definition d_denied_without_corrupt : M unit :=
  respond_and_run {["opcode"%string := get_data]} [{["denied"%string := 1; "corrupt"%string := 0]}].

(** *** The table *)

Definition quoted (s : string) : string := String "034"%char (s +:+ String "034"%char "").

Definition tests : list (Tester.tl_test X G) :=
  let t f d := Tester.Test f d in
  [ t all_passing_tests "All tests which should trigger no assertions";
    t valid_write_operation "Valid write operation (should pass)";
    t valid_read_operation "Valid read operation (should pass)";
    t valid_dev1_operation "Non-default host/device (should pass)";
    t multiple_valid_requests "Concurrent requests (should pass)";
    t multibeat_tlc "Multibeat request (should pass)";
    t multibeat_tlul "Multibeat request on TL-UL (should pass)";
    t a_corrupt_payload "Request with payload is marked corrupt (should pass)";
    t a_illegal_opcode "Illegal opcode on A channel";
    t a_illegal_param "Illegal parameter on A channel";
    t a_size_too_small "Request size smaller than mask";
    t a_size_mask_mismatch ("Request size doesn't match mask for " +:+ quoted "full" +:+ " access");
    t a_unaligned_address "Misaligned request address";
    t a_multibeat_addr_inc "Multibeat requests must increment the address";
    t a_multibeat_ctrl_const "Multibeat requests must keep control signals constant";
    t a_too_many_beats "Multibeat request with too many beats";
    t a_too_few_beats "Multibeat request with too few beats";
    t a_noncontiguous_mask ("Noncontiguous mask for a " +:+ quoted "full" +:+ " request");
    t a_multibeat_bad_mask "Multibeat request with incomplete mask";
    t a_misaligned_mask "Mask is correct size but in wrong position";
    t a_corrupt_without_payload "Request without payload is marked corrupt";
    t d_illegal_opcode "Illegal opcode on D channel";
    t d_illegal_param "Illegal parameter on D channel";
    t d_size_mismatch "Response size differs from request size";
    t d_too_many_beats "Multibeat response with too many beats";
    t d_too_few_beats "Multibeat response with too few beats";
    t d_response_without_request "Response received with no matching request";
    t d_denied_without_corrupt "Response denied but not marked corrupt" ].

End tests.
End TlTests.
