(* ===== verification/TlTraffic.v ===== *)
(** * TileLink traffic of the whole simulation

    What the simulation guarantees to the network that it tests: whatever the
    device under test does, every request that a host puts on channel A is one that
    TileLink allows. *)

From S2P Require Import Prelude Exceptions TileLink TlEndpoint TlMessages TlMessagesTheorems.
From S2P Require Import Simulation TlChannels TlHarness TlSender.

Import Sender.

(** ** The sender of channel A *)

Section sender.

Context {G : Type} `{Random G} `{Indeterminate}.
Context (fuel : nat) (net : network).

(** The base-2 logarithm of the bytes of a beat. *)
Definition lanes (e : endpoint) : Z := Z.log2 (bit_width e / 8).

Definition legal_beat (e : endpoint) (b : tl_a) : Prop := legal_a net e ∅ (lanes e) b.

Definition legal_message (e : endpoint) (m : tl_message tl_a) : Prop :=
  legal_beat e (header m) /\ channel_width_bytes m = 2 ^ lanes e.

(** The messages to send are legal, and so is the beat on the channel. *)
Record legal_sender (e : endpoint) (s : sender tl_a unit) (c : wires tl_a) : Prop := {
  sender_unmodified : modifications s = [];
  sender_ids : ids_ok e (ids_in_use s);
  sender_queue : Forall (legal_message e) (to_send s);
  sender_beat : valid c = true -> legal_beat e (data c);
}.

Definition legal_state e (w : state tl_a unit G) : Prop := legal_sender e (self w) (channel w).

(** A host that the configuration describes. *)
Record ordinary (e : endpoint) : Prop := {
  ordinary_fuel : (1 <= fuel)%nat;
  ordinary_configuration : configuration net e (lanes e);
  ordinary_ids : 0 <= last_id e - first_id e + 1 < 2 ^ 31;
}.

Lemma legal_without_ids e ids c r : legal_a net e ids c r -> legal_a net e ∅ c r.
Proof. intros [? ? ? [? _] ? ? ?]. by split. Qed.

(** What a legal request says about its address, size and lanes. *)
Lemma legal_bounds e r :
  ordinary e -> legal_beat e r ->
  0 <= lanes e < 5 /\ 0 <= a_size r <= 12 /\ 0 <= a_address r /\ a_address r mod 2 ^ a_size r = 0.
Proof.
  intros [_ [_ Hpos [_ Hc] Hsz] _] [(d & Hd & _ & _ & [Hin Hal]) _ Hsize _ _ _ _].
  pose proof (Hpos d Hd). split; [lia|]. split; [lia|]. split; [|done]. lia.
Qed.

(** The header with another mask, flag and data. *)
Lemma legal_changed e r mask corrupt data :
  legal_beat e r ->
  (mask = a_mask r \/ a_opcode r = PutPartialData /\
     forall i, 0 <= i -> Z.testbit mask i = true -> lane_used (a_address r) (a_size r) (lanes e) i) ->
  (corrupt = a_corrupt r \/ a_has_payload (a_opcode r) = true) ->
  legal_beat e (BeatA (a_opcode r) (a_param r) (a_size r) (a_source r) (a_address r) mask corrupt data).
Proof.
  intros [Ht Hp Hs Hi Hl Hf Hk] Hm Hc. split; try done; cbn.
  - destruct Hm as [->|[_ Hm]]; auto.
  - intros i Hop. destruct Hm as [->|[Hop' _]]; [by apply Hf|done].
  - destruct Hc as [->|Hc]; auto.
Qed.

(** Masks of beats are drawn within the lanes of the access; the flag for corrupt
    data is drawn for beats with data. *)
Lemma next_beat_a_legal e r m :
  ordinary e -> legal_message e m ->
  hoare (fun _ => True) (next_beat_a (G := G) r m) (fun x _ => legal_beat e (fst x) /\ legal_message e (snd x)).
Proof.
  intros He [Hm Hw]. destruct (legal_bounds e (header m) He Hm) as (Hlanes & Hsize & Haddr & Hal).
  unfold next_beat_a. eapply hoare_bind with (Q := fun mask _ =>
    mask = a_mask (header m) \/ a_opcode (header m) = PutPartialData /\ forall i, 0 <= i ->
      Z.testbit mask i = true -> lane_used (a_address (header m)) (a_size (header m)) (lanes e) i).
  - destruct (r && bool_decide (a_opcode (header m) = PutPartialData)) eqn:Hr; [|by apply hoare_ret; left].
    apply andb_true_iff in Hr as [_ Hop%bool_decide_eq_true].
    eapply hoare_bind with (Q := fun _ _ => True); [done|]. intros k. apply hoare_ret. intros g _. right.
    split; [done|]. rewrite int_shl_pow, Hw by lia. set (full := complete_mask _ _ _).
    assert (Hfull : forall i, 0 <= i -> Z.testbit full i = true -> lane_used (a_address (header m))
      (a_size (header m)) (lanes e) i) by (intros i Hi; apply complete_mask_bits; lia).
    intros i Hi. rewrite s32_mask.
    + rewrite Z.land_spec, andb_true_iff. intros [Hb _]. by apply Hfull.
    + apply Z.land_nonneg. left. apply complete_mask_nonneg.
    + intros j Hj. rewrite Z.land_spec. unfold full. rewrite complete_mask_high by lia. done.
  - intros mask. eapply hoare_bind with (Q := fun corrupt _ =>
      (mask = a_mask (header m) \/ a_opcode (header m) = PutPartialData /\ forall i, 0 <= i ->
        Z.testbit mask i = true -> lane_used (a_address (header m)) (a_size (header m)) (lanes e) i)
      /\ (corrupt = a_corrupt (header m) \/ a_has_payload (a_opcode (header m)) = true)).
    + intros g corrupt g' Hmask Hc. split; [exact Hmask|].
      destruct (r && a_has_payload (a_opcode (header m))) eqn:Hr.
      * right. by apply andb_true_iff in Hr as [_ Hr].
      * injection Hc as <- _. by left.
    + intros corrupt. apply hoare_ret. intros g [Hmask Hc]. cbn [fst snd].
      split; [by apply legal_changed|by split].
Qed.

(** *** The operations of the sender *)

Abbreviation keeps e k := (always (E := exn) (legal_state e) k (fun _ => True)).

Lemma keeps_self e (f : sender tl_a unit -> sender tl_a unit) :
  (forall s c, legal_sender e s c -> legal_sender e (f s) c) ->
  keeps e (modify (on_self (G := G) f)).
Proof. intros Hf. apply always_modify. intros w. apply Hf. Qed.

Lemma keeps_channel e (f : wires tl_a -> wires tl_a) :
  (forall s c, legal_sender e s c -> legal_sender e s (f c)) ->
  keeps e (modify (on_channel (Q := unit) (G := G) f)).
Proof. intros Hf. apply always_modify. intros w. apply Hf. Qed.

Lemma keeps_draw {A} e (k : M exn G A) (R : A -> Prop) :
  hoare (fun _ => True) k (fun a _ => R a) -> always (legal_state e) (draw k) R.
Proof.
  intros Hk w Hw. unfold draw, zoom. destruct (k (generator w)) as [o g] eqn:Ho. split; [exact Hw|].
  intros a Ha. cbn in Ha. subst o. by eapply Hk.
Qed.

(** The queue may change as long as its messages stay legal. *)
Lemma keeps_queue e s c l :
  legal_sender e s c -> Forall (legal_message e) l -> legal_sender e (set_to_send l s) c.
Proof. intros [Hm Hi _ Hb] Hl. by split. Qed.

Lemma keeps_ids e s c ids :
  legal_sender e s c -> ids_ok e ids -> legal_sender e (set_ids ids s) c.
Proof. intros [Hm _ Hq Hb] Hl. by split. Qed.

Lemma keeps_invalid e s c : legal_sender e s c -> legal_sender e s (set_valid false c).
Proof. intros [Hm Hi Hq _]. by split. Qed.

Lemma keeps_accepted e b s c : legal_sender e s c -> legal_sender e (set_accepted b s) c.
Proof. intros [Hm Hi Hq Hb]. by split. Qed.

Lemma flow_control_keeps e : keeps e (set_flow_control (C := tl_a) (Q := unit) (G := G)).
Proof.
  eapply always_then; [by apply always_gets|]. intros s.
  eapply always_then; [apply always_when; intros _; apply keeps_channel, keeps_invalid|].
  intros _. apply keeps_self. intros. by apply keeps_accepted.
Qed.

Lemma get_inputs_keeps e r : keeps e (get_inputs (C := tl_a) (Q := unit) (G := G) r).
Proof.
  eapply always_then; [by apply always_gets|]. intros c.
  apply always_when. intros _. apply keeps_self. intros. by apply keeps_accepted.
Qed.

Lemma end_transaction_keeps e id : keeps e (end_transaction (C := tl_a) (Q := unit) (G := G) id).
Proof.
  eapply always_bind with (Q := fun s => ids_ok e (ids_in_use s)).
  { apply always_gets. intros w Hw. apply Hw. }
  intros s Hs. eapply always_bind with (Q := ids_ok e).
  - apply always_fail. intros ids. unfold TransactionId.end_transaction.
    destruct (TransactionId.available _ _); [done|]. intros [= <-]. destruct Hs as [Hr Hc].
    split; [|done]. intros x Hx. apply Hr. set_solver.
  - intros ids Hids. apply keeps_self. intros. by apply keeps_ids.
Qed.

Lemma start_transaction_keeps e id :
  in_range e id -> keeps e (start_transaction (C := tl_a) (Q := unit) (G := G) id).
Proof.
  intros Hid. eapply always_bind with (Q := fun s => ids_ok e (ids_in_use s)).
  { apply always_gets. intros w Hw. apply Hw. }
  intros s Hs. eapply always_bind with (Q := ids_ok e).
  - apply always_fail. intros ids. unfold TransactionId.start_transaction.
    destruct (TransactionId.available _ _); [|done]. intros [= <-]. destruct Hs as [Hr Hc].
    split; [|done]. intros x [->%elem_of_singleton|Hx]%elem_of_union; [done|by apply Hr].
  - intros ids Hids. apply keeps_self. intros. by apply keeps_ids.
Qed.

(** The front of the queue and assignments to it. *)
Lemma front_legal e : always (legal_state e) front (legal_message e).
Proof.
  eapply always_bind with (Q := fun s => Forall (legal_message e) (to_send s)).
  { apply always_gets. intros w Hw. apply Hw. }
  intros s Hs. destruct Hs; [by apply always_fail|by apply always_ret].
Qed.

Lemma set_front_keeps e m : legal_message e m -> keeps e (set_front (Q := unit) (G := G) m).
Proof.
  intros Hm. apply keeps_self. intros s c Hs. apply keeps_queue; [done|].
  destruct (sender_queue _ _ _ Hs); by constructor.
Qed.

Lemma push_keeps e m : legal_message e m -> keeps e (push (Q := unit) (G := G) m).
Proof.
  intros Hm. apply keeps_self. intros s c Hs. apply keeps_queue; [done|].
  apply Forall_app. split; [apply Hs|by constructor].
Qed.

Lemma retract_keeps e : keeps e (retract (C := tl_a) (Q := unit) (G := G)).
Proof.
  eapply always_then; [apply keeps_channel, keeps_invalid|]. intros _.
  eapply always_bind; [apply front_legal|]. intros m Hm. by apply set_front_keeps.
Qed.

Lemma pop_finished_keeps e : keeps e (pop_finished (C := tl_a) (Q := unit) (G := G)).
Proof.
  eapply always_then; [by apply always_gets|]. intros s. destruct (to_send s); [by apply always_ret|].
  apply always_when. intros _.
  eapply always_bind with (Q := fun s => Forall (legal_message e) (to_send s)).
  { apply always_gets. intros w Hw. apply Hw. }
  intros s' Hs'. destruct Hs'; [by apply always_fail|]. apply keeps_self. intros. by apply keeps_queue.
Qed.

Lemma reorder_keeps e p : keeps e (reorder_all (methods := methods_a p)).
Proof.
  eapply always_then.
  { apply keeps_self. intros s c [Hm Hi Hq Hb]. by split. }
  intros _. apply keeps_self. intros s c Hs. apply keeps_queue; [done|].
  eapply Permutation_Forall; [symmetry; apply reorder_perm|apply Hs].
Qed.

Lemma chance_keeps e r p : always (legal_state e) (chance r p) (fun _ => True).
Proof. unfold chance. destruct r; [by apply keeps_draw|by apply always_ret]. Qed.

Lemma modification_keeps e p b :
  always (legal_state e) (apply_modification (methods := methods_a p) b) (fun r => fst r = b).
Proof.
  eapply always_bind with (Q := fun s => modifications s = []).
  { apply always_gets. intros w Hw. apply Hw. }
  intros s ->. by apply always_ret.
Qed.

Lemma send_beat_keeps e p r : ordinary e -> keeps e (send_beat (methods := methods_a p) r).
Proof.
  intros He. eapply always_bind; [apply front_legal|]. intros m Hm.
  eapply always_bind; [by apply keeps_draw, next_beat_a_legal|]. intros x [Hb Hm'].
  eapply always_then; [by apply set_front_keeps|]. intros _.
  eapply always_bind; [apply modification_keeps|]. intros y ->.
  eapply always_then; [apply always_when; intros _; by apply set_front_keeps|]. intros _.
  apply always_when. intros _ w [Hmo Hi Hq _]. by split.
Qed.

(** A host sends legal beats in every cycle; it has no requests to answer. *)
Lemma set_outputs_keeps e r : ordinary e -> keeps e (Sender.set_outputs (methods := methods_a e) r).
Proof.
  intros He. eapply always_then; [by apply always_gets|]. intros c.
  eapply always_then.
  { destruct (valid c); [|by apply always_ret].
    eapply always_then; [by apply always_gets|]. intros s.
    eapply always_then; [apply always_assert|]. intros _.
    eapply always_then; [apply chance_keeps|]. intros []; [|by apply always_ret].
    eapply always_then; [apply retract_keeps|]. intros _. by apply always_ret. }
  intros []; [by apply always_ret|].
  eapply always_then; [apply pop_finished_keeps|]. intros _.
  eapply always_then; [destruct is_fifo; [by apply always_ret|apply chance_keeps]|]. intros shuffle.
  eapply always_then; [apply always_when; intros _; apply reorder_keeps|]. intros _.
  eapply always_then; [destruct r; [by apply keeps_draw|by apply always_ret]|]. intros answer.
  eapply always_then; [apply always_when; intros _; by apply always_ret|]. intros _.
  eapply always_then.
  { eapply always_then; [by apply always_gets|]. intros s. destruct (to_send s); by apply always_ret. }
  intros []; [|by apply always_ret].
  eapply always_then; [apply chance_keeps|]. intros stall.
  apply always_when. intros _. by apply send_beat_keeps.
Qed.

(** A random request of a host is legal, and its identifier is the host's. *)
Lemma request_legal e ids :
  ordinary e -> ids_ok e ids ->
  hoare (fun _ => True) (a_request (G := G) fuel net e ids true ∅)
    (fun m _ => legal_message e m /\ in_range e (a_source (header m))).
Proof.
  intros [Hf Hconf _] Hids. unfold a_request.
  eapply hoare_bind with (Q := fun h _ => legal_a net e ids (lanes e) h).
  - intros g h g' _ Hrun. pose proof (new_a_request_run fuel net e ids (lanes e) Hconf Hids Hf g) as Ho.
    rewrite Hrun in Ho. exact Ho.
  - intros h. eapply hoare_bind with (Q := fun _ _ => legal_a net e ids (lanes e) h).
    { by apply hoare_assert. }
    intros []. eapply hoare_bind with (Q := fun _ _ => legal_a net e ids (lanes e) h).
    { by apply hoare_assert. }
    intros []. apply hoare_ret. intros g Hl. cbn [header].
    assert (Hh : modify_a h ∅ = h) by (destruct h; done). rewrite Hh.
    split; [|apply (legal_source _ _ _ _ _ Hl)].
    split; [by eapply legal_without_ids|]. cbn [channel_width_bytes]. unfold width_bytes.
    destruct Hconf as [_ _ [Hw Hc] _]. by rewrite Hw, Z.mul_comm, Z.quot_mul by lia.
Qed.

Lemma queue_request_keeps e : ordinary e -> keeps e (TlChannels.queue_request_a fuel net e true ∅).
Proof.
  intros He. eapply always_then; [by apply always_gets|]. intros s.
  destruct (TransactionId.can_start_new_transaction _ _); [|by apply always_ret].
  eapply always_bind with (Q := fun m => legal_message e m /\ in_range e (a_source (header m))).
  - eapply always_bind with (Q := fun s => ids_ok e (ids_in_use s)).
    { apply always_gets. intros w Hw. apply Hw. }
    intros s' Hs'. by apply keeps_draw, request_legal.
  - intros m [Hm Hid]. eapply always_then; [by apply push_keeps|]. intros _. by apply start_transaction_keeps.
Qed.

(** ** Hosts *)

Abbreviation host := TileLinkHost.host.

Definition legal_host (e : endpoint) (w : world host G) : Prop :=
  TileLinkHost.endpoint (me w) = e /\ legal_sender e (TileLinkHost.a (me w)) (link_a (port w)).

Abbreviation host_keeps e k := (always (E := exn) (legal_host e) k (fun _ => True)).

Lemma on_a_keeps e (k : M exn (state tl_a unit G) unit) : keeps e k -> host_keeps e (TileLinkHost.on_a k).
Proof.
  intros Hk. eapply always_zoom with (PT := legal_state e); [| |exact Hk].
  - by intros w [_ Hw].
  - intros w s [He _] Hs. by split.
Qed.

(** Code that does not touch the sender of channel A. *)
Lemma on_c_keeps e {A} (k : M exn (state tl_c (list (bool * tl_b)) G) A) : host_keeps e (TileLinkHost.on_c k).
Proof. eapply always_zoom with (PT := fun _ => True); [done|done|]. by intros s _. Qed.

Lemma on_e_keeps e {A} (k : M exn (state tl_e (list (bool * tl_d)) G) A) : host_keeps e (TileLinkHost.on_e k).
Proof. eapply always_zoom with (PT := fun _ => True); [done|done|]. by intros s _. Qed.

Lemma random_keeps e {A} (k : M exn G A) : host_keeps e (zoom random set_random k).
Proof. eapply always_zoom with (PT := fun _ => True); [done|done|]. by intros s _. Qed.

Lemma modify_keeps e (f : world host G -> world host G) :
  (forall w, TileLinkHost.endpoint (me (f w)) = TileLinkHost.endpoint (me w) /\ TileLinkHost.a (me (f w)) = TileLinkHost.a (me w)
             /\ link_a (port (f w)) = link_a (port w)) ->
  host_keeps e (modify f).
Proof.
  intros Hf. apply always_modify. intros w [He Hs]. destruct (Hf w) as (H1 & H2 & H3).
  split; [congruence|]. by rewrite H2, H3.
Qed.

Lemma handle_b_keeps e r b : host_keeps e (TileLinkHost.handle_b r b).
Proof. unfold TileLinkHost.handle_b. destruct (b_opcode b); [apply on_c_keeps|apply on_c_keeps|by apply always_fail]. Qed.

Lemma handle_d_keeps e r b : host_keeps e (TileLinkHost.handle_d r b).
Proof.
  unfold TileLinkHost.handle_d.
  assert (Hend : host_keeps e (TileLinkHost.on_a (end_transaction (d_source b)))) by apply on_a_keeps, end_transaction_keeps.
  assert (Hack : host_keeps e (TileLinkHost.on_a (end_transaction (d_source b));; TileLinkHost.on_e (handle_request id (fun q _ => q) (r, b)))).
  { eapply always_then; [exact Hend|]. intros _. apply on_e_keeps. }
  assert (Harr : forall k, host_keeps e k ->
    host_keeps e (TileLinkHost.arrived_d (d_size b);; last ← TileLinkHost.all_arrived_d; when last k)).
  { intros k Hk. eapply always_then; [by apply modify_keeps|]. intros _.
    eapply always_then; [by apply always_gets|]. intros last. by apply always_when. }
  destruct (d_opcode b); first [exact Hend | apply Harr, Hend | apply on_c_keeps | exact Hack
    | apply Harr, Hack | by apply always_ret].
Qed.

Lemma receiver_keeps {C} e (self : world host G -> Receiver.receiver) set_self (channel : world host G -> wires C)
    (handle : bool -> C -> M exn (world host G) unit) r :
  (forall x w, TileLinkHost.endpoint (me (set_self x w)) = TileLinkHost.endpoint (me w)
               /\ TileLinkHost.a (me (set_self x w)) = TileLinkHost.a (me w) /\ link_a (port (set_self x w)) = link_a (port w)) ->
  (forall b, host_keeps e (handle r b)) ->
  host_keeps e (Receiver.get_inputs self set_self channel random set_random handle r).
Proof.
  intros Hset Hh. eapply always_then; [by apply always_gets|]. intros x.
  eapply always_then; [by apply always_gets|]. intros c.
  eapply always_then; [apply always_when; intros _; apply Hh|]. intros _.
  eapply always_then; [destruct r; [apply random_keeps|by apply always_ret]|]. intros next.
  apply modify_keeps. intros w. apply Hset.
Qed.

Lemma host_flow_keeps e : host_keeps e TileLinkHost.set_flow_control.
Proof.
  repeat (eapply always_then; [first [apply on_a_keeps, flow_control_keeps | apply on_c_keeps
    | by apply modify_keeps]|]; intros _). apply on_e_keeps.
Qed.

Lemma host_inputs_keeps e r : host_keeps e (TileLinkHost.get_inputs r).
Proof.
  eapply always_then; [apply on_a_keeps, get_inputs_keeps|]. intros _.
  eapply always_then; [apply receiver_keeps; [done|intros; apply handle_b_keeps]|]. intros _.
  eapply always_then; [apply on_c_keeps|]. intros _.
  eapply always_then; [apply receiver_keeps; [done|intros; apply handle_d_keeps]|]. intros _.
  apply on_e_keeps.
Qed.

Lemma host_outputs_keeps e r : ordinary e -> host_keeps e (TileLinkHost.set_outputs fuel net r).
Proof.
  intros He.
  assert (Hgets : always (E := exn) (legal_host e) (gets (fun w => TileLinkHost.endpoint (me w))) (fun p => p = e))
    by by apply always_gets; intros w [Hw _].
  eapply always_then.
  { apply always_when. intros _. eapply always_then; [apply random_keeps|]. intros x.
    eapply always_then.
    - apply always_when. intros _. eapply always_bind; [exact Hgets|]. intros p ->.
      by apply on_a_keeps, queue_request_keeps.
    - intros _. eapply always_then; [apply random_keeps|]. intros y. apply always_when. intros _.
      eapply always_then; [eapply always_weaken; [exact Hgets|done]|]. intros p. apply on_c_keeps. }
  intros _. eapply always_bind; [exact Hgets|]. intros p ->.
  eapply always_then; [by apply on_a_keeps, set_outputs_keeps|]. intros _.
  eapply always_then; [by apply always_ret|]. intros _. eapply always_then; [apply on_c_keeps|]. intros _.
  eapply always_then; [by apply always_ret|]. intros _. apply on_e_keeps.
Qed.

(** ** Devices *)

Abbreviation device := TileLinkDevice.device.

(** Nothing changes the parameters of a device. *)
Definition same_device (e : endpoint) (w : world device G) : Prop := TileLinkDevice.endpoint (me w) = e.

Abbreviation device_keeps e k := (always (E := exn) (same_device e) k (fun _ => True)).

Lemma on_b_same e {A} (k : M exn (state tl_b (list (bool * tl_a)) G) A) :
  device_keeps e (TileLinkDevice.on_b k).
Proof. eapply always_zoom with (PT := fun _ => True); [done|done|]. by intros s _. Qed.

Lemma on_d_same e {A} (k : M exn (state tl_d queue_d G) A) : device_keeps e (TileLinkDevice.on_d k).
Proof. eapply always_zoom with (PT := fun _ => True); [done|done|]. by intros s _. Qed.

Lemma random_same e {A} (k : M exn G A) : device_keeps e (zoom random set_random k).
Proof. eapply always_zoom with (PT := fun _ => True); [done|done|]. by intros s _. Qed.

Lemma modify_same e (f : world device G -> world device G) :
  (forall w, TileLinkDevice.endpoint (me (f w)) = TileLinkDevice.endpoint (me w)) ->
  device_keeps e (modify f).
Proof. intros Hf. apply always_modify. intros w Hw. unfold same_device in *. by rewrite Hf. Qed.

Ltac keep_device_step :=
  first
    [ apply on_b_same | apply on_d_same | apply random_same | by apply modify_same
    | apply always_when; intros _ | apply always_assert
    | by apply always_gets | by apply always_ret | by apply always_fail
    | eapply always_then; [|intros ?] ].
Ltac keep_device := repeat keep_device_step.

Lemma handle_a_same e r b : device_keeps e (TileLinkDevice.handle_a r b).
Proof. unfold TileLinkDevice.handle_a. destruct (a_opcode b); keep_device. Qed.

Lemma handle_c_same e r b : device_keeps e (TileLinkDevice.handle_c r b).
Proof. unfold TileLinkDevice.handle_c. keep_device. destruct (c_opcode b); keep_device. Qed.

Lemma handle_e_same e r b : device_keeps e (TileLinkDevice.handle_e r b).
Proof. unfold TileLinkDevice.handle_e. keep_device. Qed.

Lemma device_flow_same e : device_keeps e TileLinkDevice.set_flow_control.
Proof. unfold TileLinkDevice.set_flow_control, Receiver.set_flow_control. keep_device. Qed.

Lemma device_inputs_same e r : device_keeps e (TileLinkDevice.get_inputs r).
Proof.
  unfold TileLinkDevice.get_inputs, Receiver.get_inputs.
  destruct r; repeat first [apply handle_a_same | apply handle_c_same | apply handle_e_same | keep_device_step].
Qed.

Lemma device_outputs_same e r n : device_keeps e (TileLinkDevice.set_outputs fuel n r).
Proof. unfold TileLinkDevice.set_outputs. keep_device. Qed.

End sender.

(** ** The simulation *)

(** What the traffic needs of the device under test: it does not drive the signals
    of channel A that hosts drive. *)
Definition same_requests {X} (t t' : dut X) : Prop :=
  forall i l', host_ports t' !! i = Some l' ->
    exists l, host_ports t !! i = Some l
      /\ valid (link_a l') = valid (link_a l) /\ data (link_a l') = data (link_a l).

Class InputsKept (X : Type) `{Wrapper X} : Prop := {
  eval_keeps t : same_requests t (eval t);
  final_keeps t : same_requests t (final t);
  clk_keeps v t : same_requests t (set_clk_i v t);
  rst_keeps v t : same_requests t (set_rst_ni v t);
}.

Section simulation.

Context {X G : Type} `{Random G} `{Indeterminate} `{InputsKept X} `{TraceFormats}.
Context (fuel : nat) (net : network).

Hypothesis hosts_ordinary : forall e, e ∈ TlMessages.hosts net -> ordinary fuel net e.

#[local] Set Default Proof Using "All".

Import TileLinkSimulation.

Implicit Types s : simulation X G.

Abbreviation host_at s i := (TileLinkSimulation.hosts s !! i).

Record legal_traffic s : Prop := {
  traffic_endpoints : endpoints s = net;
  traffic_hosts i h l :
    host_at s i = Some h -> host_ports (under_test s) !! i = Some l ->
    legal_sender net (TileLinkHost.endpoint h) (TileLinkHost.a h) (link_a l);
}.

Abbreviation traffic_kept k := (always (E := exn) legal_traffic k (fun _ => True)).

Lemma endpoint_insert {E} (f : E -> endpoint) (l : list E) i x y :
  l !! i = Some x -> f y = f x -> map f (<[i := y]> l) = map f l.
Proof.
  intros Hx Hf. rewrite list_fmap_insert. apply list_insert_id. rewrite list_lookup_fmap, Hx. cbn. by rewrite Hf.
Qed.

Lemma host_kept i (k : M exn (world TileLinkHost.host G) unit) :
  (forall e, ordinary fuel net e -> always (E := exn) (legal_host net e) k (fun _ => True)) ->
  traffic_kept (on_host i k).
Proof.
  intros Hk s Hs. split; [|done]. unfold on_host.
  destruct (host_at s i) as [h|] eqn:Hh; [|done].
  destruct (host_ports (under_test s) !! i) as [l|] eqn:Hl; [|done].
  destruct Hs as [He Hhosts].
  assert (Hin : TileLinkHost.endpoint h ∈ TlMessages.hosts net).
  { rewrite <- He. cbn. apply list_elem_of_In, in_map, list_elem_of_In. by eapply list_elem_of_lookup_2. }
  destruct (Hk (TileLinkHost.endpoint h) (hosts_ordinary _ Hin) (World h l (generator s))) as [[Hme Hsender] _].
  { split; [done|]. by apply Hhosts with i. }
  destruct (k (World h l (generator s))) as [o w]. cbn in Hme, Hsender |- *. split.
  - rewrite <- He. unfold endpoints. cbn. f_equal. by eapply endpoint_insert.
  - cbn. intros j h' l' Hh' Hl'. destruct (decide (i = j)) as [<-|Hij].
    + rewrite list_lookup_insert_eq in Hh' by (by eapply lookup_lt_Some).
      rewrite list_lookup_insert_eq in Hl' by (by eapply lookup_lt_Some). simplify_eq. by rewrite Hme.
    + rewrite list_lookup_insert_ne in Hh' by done. rewrite list_lookup_insert_ne in Hl' by done. by eapply Hhosts.
Qed.

Lemma device_kept i (k : M exn (world TileLinkDevice.device G) unit) :
  (forall e, always (E := exn) (same_device e) k (fun _ => True)) -> traffic_kept (on_device i k).
Proof.
  intros Hk s Hs. split; [|done]. unfold on_device.
  destruct (TileLinkSimulation.devices s !! i) as [d|] eqn:Hd; [|done].
  destruct (device_ports (under_test s) !! i) as [l|] eqn:Hl; [|done].
  destruct Hs as [He Hhosts].
  destruct (Hk (TileLinkDevice.endpoint d) (World d l (generator s))) as [Hme _]; [done|].
  destruct (k (World d l (generator s))) as [o w]. cbn in Hme |- *. split; [|exact Hhosts].
  rewrite <- He. unfold endpoints. cbn. f_equal. by eapply endpoint_insert.
Qed.

Lemma for_each_kept n i (k : nat -> M exn (simulation X G) unit) :
  (forall i, traffic_kept (k i)) -> traffic_kept (for_each n i k).
Proof.
  intros Hk. revert i. induction n as [|n IH]; intros i; [by apply always_ret|].
  cbn [for_each]. eapply always_then; [apply Hk|]. intros _. apply IH.
Qed.

Lemma all_kept kh kd :
  (forall e, ordinary fuel net e -> always (E := exn) (legal_host net e) kh (fun _ => True)) ->
  (forall e, always (E := exn) (same_device e) kd (fun _ => True)) ->
  traffic_kept (all_endpoints kh kd).
Proof.
  intros Hh Hd. eapply always_then; [by apply always_gets|]. intros s.
  eapply always_then; [apply for_each_kept; intros i; by apply host_kept|]. intros _.
  apply for_each_kept. intros i. by apply device_kept.
Qed.

Lemma flow_kept : traffic_kept set_flow_control.
Proof. apply all_kept; [intros e _; apply host_flow_keeps|apply device_flow_same]. Qed.

Lemma inputs_kept : traffic_kept get_inputs.
Proof.
  eapply always_then; [by apply always_gets|]. intros s.
  apply all_kept; [intros e _; apply host_inputs_keeps|intros e; apply device_inputs_same].
Qed.

Lemma outputs_kept : traffic_kept (set_outputs fuel).
Proof.
  eapply always_bind with (Q := fun s => endpoints s = net).
  { apply (always_gets _ id). by intros s []. }
  intros s ->. apply all_kept; [intros e He; by apply host_outputs_keeps|intros e; apply device_outputs_same].
Qed.

Lemma same_requests_trans (t1 t2 t3 : dut X) :
  same_requests t1 t2 -> same_requests t2 t3 -> same_requests t1 t3.
Proof.
  intros Ha Hb i l3 Hl3. destruct (Hb i l3 Hl3) as (l2 & Hl2 & Hv & Hd).
  destruct (Ha i l2 Hl2) as (l1 & Hl1 & Hv' & Hd'). exists l1. rewrite Hv, Hd. auto.
Qed.

(** The device under test leaves the traffic alone. *)
Lemma dut_kept (f : dut X -> dut X) : (forall t, same_requests t (f t)) -> traffic_kept (modify (on_dut f)).
Proof.
  intros Hf. apply always_modify. intros s [He Hh]. split; [exact He|]. cbn. intros i h l' Hi Hl'.
  destruct (Hf (under_test s) i l' Hl') as (l & Hl & Hv & Hd).
  destruct (Hh i h l Hi Hl) as [Hm Hids Hq Hb]. split; try done. rewrite Hv, Hd. exact Hb.
Qed.

(** So does the base class. *)
Lemma base_kept {A} (k : M exn (Simulation.simulation unit) A) : traffic_kept (on_base k).
Proof.
  intros s Hs. split; [|done]. unfold on_base, zoom.
  destruct (k (base s)) as [o b]. by destruct Hs.
Qed.

Lemma next_cycle_kept : traffic_kept (next_cycle fuel).
Proof.
  eapply always_then; [apply dut_kept, clk_keeps|]. intros _.
  eapply always_then.
  { eapply always_then; [apply dut_kept, eval_keeps|]. intros _.
    eapply always_then; [apply flow_kept|]. intros _. apply outputs_kept. }
  intros _. eapply always_then; [apply base_kept|]. intros _.
  eapply always_then; [apply base_kept|]. intros _.
  eapply always_then; [apply dut_kept, clk_keeps|]. intros _.
  eapply always_then.
  { eapply always_then; [apply dut_kept, eval_keeps|]. intros _. apply inputs_kept. }
  intros _. eapply always_then; [apply base_kept|]. intros _. apply base_kept.
Qed.

Lemma cycles_kept n : traffic_kept (cycles fuel n).
Proof.
  induction n as [|n IH]; [by apply always_ret|]. cbn [cycles].
  eapply always_then; [apply next_cycle_kept|]. by intros _.
Qed.

Lemma run_kept r duration drain : traffic_kept (run fuel r duration drain).
Proof.
  eapply always_then; [by apply always_modify; intros s []|]. intros _.
  eapply always_then; [apply cycles_kept|]. intros _.
  eapply always_then; [by apply always_modify; intros s []|]. intros _. apply cycles_kept.
Qed.

Lemma toggle_keeps n t : same_requests t (toggle_clock n t).
Proof.
  revert t. induction n as [|n IH]; intros t; [by intros i l Hl; exists l|]. cbn [toggle_clock].
  repeat (eapply same_requests_trans; [|apply IH || apply eval_keeps || apply clk_keeps]).
  by intros i l Hl; exists l.
Qed.

Lemma reset_kept : traffic_kept reset.
Proof.
  eapply always_then; [apply dut_kept, rst_keeps|]. intros _.
  eapply always_then; [apply dut_kept, toggle_keeps|]. intros _. apply dut_kept, rst_keeps.
Qed.

Lemma end_kept : traffic_kept end_simulation.
Proof. apply dut_kept, final_keeps. Qed.

End simulation.
