(* ===== verification/TlAssertionsTheorems.v ===== *)
(** * Legal requests pass the checker

    What [TlMessagesTheorems] and [TlTraffic] call a legal request has none of the
    faults that the assertions of [rtl/tl_assert.sv] look for. *)

From S2P Require Import Prelude Exceptions TileLink TlEndpoint TlMessages TlMessagesTheorems.
From S2P Require Import TlAssertions TlTraffic.

Open Scope Z_scope.

Import Assertions.

(** ** Counting *)

Lemma countones_mono n x y :
  (forall i, 0 <= i -> Z.testbit x i = true -> Z.testbit y i = true) -> countones n x <= countones n y.
Proof.
  intros Hsub. induction n as [|n IH]; cbn [countones]; [lia|].
  pose proof (Hsub (Z.of_nat n) ltac:(lia)) as Hn.
  destruct (Z.testbit x (Z.of_nat n)); [rewrite Hn by done|]; destruct (Z.testbit y (Z.of_nat n)); cbn; lia.
Qed.

Lemma land_low a n : 0 <= n -> Z.land a (2 ^ n - 1) = a mod 2 ^ n.
Proof.
  intros Hn. rewrite <- Z.land_ones by done. f_equal. rewrite Z.ones_equiv. lia.
Qed.

(** ** The masks of all accesses within a beat *)

Definition narrow_mask (s r : Z) : Z := Z.shiftl (Z.ones (2 ^ s)) r.

(** The checks on the mask of an access of [2 ^ s] bytes at offset [r] of a beat of
    [2 ^ c] bytes. *)
Definition mask_checks (c s r : Z) : bool :=
  let n := Z.to_nat (2 ^ c) in
  let m := narrow_mask s r in
  (countones n m =? 2 ^ s) && (countones n (Z.lxor m (Z.shiftl m 1)) <=? 2).

Definition full_checks (c : Z) : bool :=
  let n := Z.to_nat (2 ^ c) in
  let m := Z.ones (2 ^ c) in
  (countones n m =? 2 ^ c) && (countones n (Z.lxor m (Z.shiftl m 1)) <=? 2).

Definition upto (n : Z) : list Z := seqZ 0 n.

Lemma all_mask_checks :
  forallb (fun c => full_checks c && forallb (fun s =>
    forallb (fun r => negb (r mod 2 ^ s =? 0) || mask_checks c s r) (upto (2 ^ c))) (upto c)) (upto 5) = true.
Proof. by vm_compute. Qed.

Lemma forallb_upto f n i : forallb f (upto n) = true -> 0 <= i < n -> f i = true.
Proof. rewrite forallb_forall. intros H Hi. apply H, list_elem_of_In, elem_of_seqZ. lia. Qed.

Lemma mask_checked c s r :
  0 <= c < 5 -> 0 <= s < c -> 0 <= r < 2 ^ c -> r mod 2 ^ s = 0 ->
  countones (Z.to_nat (2 ^ c)) (narrow_mask s r) = 2 ^ s
  /\ countones (Z.to_nat (2 ^ c)) (Z.lxor (narrow_mask s r) (Z.shiftl (narrow_mask s r) 1)) <= 2.
Proof.
  intros Hc Hs Hr Hal. pose proof (forallb_upto _ _ c all_mask_checks Hc) as H.
  apply andb_true_iff in H as [_ H]. pose proof (forallb_upto _ _ s H Hs) as H1.
  pose proof (forallb_upto _ _ r H1 Hr) as H2. cbv beta in H2. rewrite Hal in H2. cbn [Z.eqb negb orb] in H2.
  apply andb_true_iff in H2 as [H2%Z.eqb_eq H3%Z.leb_le]. done.
Qed.

Lemma full_checked c :
  0 <= c < 5 ->
  countones (Z.to_nat (2 ^ c)) (Z.ones (2 ^ c)) = 2 ^ c
  /\ countones (Z.to_nat (2 ^ c)) (Z.lxor (Z.ones (2 ^ c)) (Z.shiftl (Z.ones (2 ^ c)) 1)) <= 2.
Proof.
  intros Hc. pose proof (forallb_upto _ _ c all_mask_checks Hc) as H.
  apply andb_true_iff in H as [H _]. apply andb_true_iff in H as [H1%Z.eqb_eq H2%Z.leb_le]. done.
Qed.

(** ** The mask of a legal request *)

Definition access_mask (a s c : Z) : Z :=
  if decide (c <= s) then Z.ones (2 ^ c) else narrow_mask s (a mod 2 ^ c).

Lemma access_mask_bits a s c i :
  0 <= s -> 0 <= c < 5 -> a mod 2 ^ s = 0 -> 0 <= i ->
  Z.testbit (access_mask a s c) i = true <-> lane_used a s c i.
Proof.
  intros Hs Hc Hal Hi. unfold access_mask. case_decide as Hle.
  - rewrite Z.testbit_ones_nonneg, Z.ltb_lt by (try apply Z.pow_nonneg; lia).
    split; [intros; apply all_lanes_used; lia|]. intros Hl. apply (lane_in_channel a s c); [lia|done].
  - rewrite (narrow_lanes a s c i ltac:(lia) Hal). unfold narrow_mask.
    pose proof (aligned_offset a s c ltac:(lia) Hal). pose proof (Z.mod_pos_bound a (2 ^ c) ltac:(lia)).
    pose proof (Z.pow_nonneg 2 s ltac:(lia)). rewrite Z.shiftl_spec by lia.
    destruct (decide (a mod 2 ^ c <= i)).
    + rewrite Z.testbit_ones_nonneg, Z.ltb_lt by lia. lia.
    + rewrite Z.testbit_neg_r by lia. split; [done|lia].
Qed.

(** What the access mask has, whatever the size. *)
Lemma access_mask_checked a s c :
  0 <= s -> 0 <= c < 5 -> a mod 2 ^ s = 0 ->
  countones (Z.to_nat (2 ^ c)) (access_mask a s c) = 2 ^ Z.min s c
  /\ countones (Z.to_nat (2 ^ c)) (Z.lxor (access_mask a s c) (Z.shiftl (access_mask a s c) 1)) <= 2.
Proof.
  intros Hs Hc Hal. unfold access_mask. case_decide as Hle.
  - rewrite Z.min_r by lia. by apply full_checked.
  - rewrite Z.min_l by lia. apply mask_checked; try lia; [apply Z.mod_pos_bound; lia|].
    replace (2 ^ c) with (2 ^ (c - s) * 2 ^ s) by (rewrite <- Z.pow_add_r by lia; f_equal; lia).
    rewrite <- Hal, Z.mul_comm, Z.rem_mul_r by lia.
    rewrite Hal at 1. rewrite Z.mul_comm, Z.add_0_l. by rewrite Z_mod_mult, Hal.
Qed.

Section legal.

Context (fuel : nat) (net : network) (e : endpoint) (b : tl_a).
Hypothesis host_ordinary : ordinary fuel net e.
Hypothesis beat_legal : legal_beat net e b.

#[local] Set Default Proof Using "All".

Abbreviation c := (TlTraffic.lanes e).
Abbreviation size := (a_size b).
Abbreviation mask := (a_mask b).

Lemma legal_numbers : 0 <= c < 5 /\ 0 <= size <= 12 /\ 0 <= a_address b /\ a_address b mod 2 ^ size = 0.
Proof. by apply (legal_bounds fuel net). Qed.

Lemma legal_mask_sub i :
  0 <= i -> Z.testbit mask i = true -> Z.testbit (access_mask (a_address b) size c) i = true.
Proof.
  pose proof legal_numbers. intros Hi Hm. apply access_mask_bits; try lia.
  by apply (legal_lanes _ _ _ _ _ beat_legal).
Qed.

Lemma legal_mask : a_opcode b <> PutPartialData -> mask = access_mask (a_address b) size c.
Proof.
  pose proof legal_numbers. intros Hop. apply Z.bits_inj'. intros i Hi. apply eq_true_iff_eq.
  split; [by apply legal_mask_sub|]. rewrite access_mask_bits by lia.
  by apply (legal_full _ _ _ _ _ beat_legal).
Qed.

Lemma shift_one : Z.shiftl 1 size = 2 ^ size.
Proof. pose proof legal_numbers. by rewrite Z.shiftl_1_l. Qed.

Lemma legal_count : countones (Z.to_nat (2 ^ c)) mask <= 2 ^ Z.min size c.
Proof.
  pose proof legal_numbers as (Hc & Hs & Ha & Hal).
  destruct (access_mask_checked (a_address b) size c ltac:(lia) Hc Hal) as [<- _].
  apply countones_mono. intros i Hi. by apply legal_mask_sub.
Qed.

(** ** Each assertion *)

Context (p : tl_protocol_e).
Hypothesis covers : protocol_level (protocol e) <= protocol_level p.

Lemma passes_opcode : aLegalOpcode p b = true.
Proof.
  destruct beat_legal as [(d & _ & Hs & _) _ _ _ _ _ _]. unfold supports in Hs.
  unfold aLegalOpcode, aLegalOpcodeTLC, aLegalOpcodeTLUH, aLegalOpcodeTLUL.
  destruct p, (a_opcode b); cbn in *; try done; lia.
Qed.

Lemma passes_param : aLegalParam b = true.
Proof.
  pose proof (legal_param _ _ _ _ _ beat_legal) as Hp. unfold a_param_ok in Hp.
  destruct beat_legal as [(d & _ & Hs & _) _ _ _ _ _ _]. unfold supports in Hs.
  assert (Hlevel : protocol_level (protocol e) <= 2) by (by destruct (protocol e)).
  assert (Hrange : forall hi, 0 <= a_param b <= hi -> within 0 hi (a_param b) = true)
    by (intros hi ?; apply andb_true_iff; split; apply Z.leb_le; lia).
  unfold aLegalParam. destruct (a_opcode b) as [| | | | | | | |op]; cbn in Hp, Hs; try lia;
    try (replace (a_param b) with 0 by lia; done); by rewrite (Hrange _ Hp).
Qed.

Lemma passes_aligned : aAddrSizeAligned b = true.
Proof.
  pose proof legal_numbers as (_ & Hs & Ha & Hal). unfold aAddrSizeAligned. rewrite shift_one.
  rewrite land_low by lia. by apply Z.eqb_eq.
Qed.

Lemma passes_size_mask : aSizeGTEMask (2 ^ c) b = true.
Proof.
  pose proof legal_numbers as (Hc & Hs & _). unfold aSizeGTEMask, lanes. rewrite shift_one.
  apply Z.leb_le. etrans; [apply legal_count|]. apply Z.pow_le_mono_r; lia.
Qed.

Lemma passes_contiguous : aContigMask (2 ^ c) b = true.
Proof.
  pose proof legal_numbers as (Hc & Hs & Ha & Hal). unfold aContigMask, implies, lanes.
  destruct (aContigMask_pre b) eqn:Hpre; [|done].
  rewrite legal_mask by (intros Hop; unfold aContigMask_pre in Hpre; by rewrite Hop in Hpre).
  apply Z.leb_le. by apply access_mask_checked; lia.
Qed.

Lemma passes_full_mask : aFullMaskUsed (2 ^ c) b = true.
Proof.
  pose proof legal_numbers as (Hc & Hs & Ha & Hal). unfold aFullMaskUsed, implies, aFullBusUsed.
  rewrite shift_one. destruct (_ && _) eqn:Hpre; [|done].
  apply andb_true_iff in Hpre as [Hw%Z.leb_le Hpre].
  rewrite legal_mask by (intros Hop; unfold aContigMask_pre in Hpre; by rewrite Hop in Hpre).
  apply Z.eqb_eq. unfold access_mask. rewrite decide_True; [done|]. by apply (Z.pow_le_mono_r_iff 2); lia.
Qed.

Lemma passes_mask_aligned : aMaskAligned (2 ^ c) b = true.
Proof.
  pose proof legal_numbers as (Hc & Hs & Ha & Hal). unfold aMaskAligned, implies, aFullBusUsed, aMaxMask.
  rewrite shift_one. destruct (Z.leb_spec (2 ^ c) (2 ^ size)) as [|Hlt]; [done|]. cbn [negb].
  assert (size < c) by (by apply (Z.pow_lt_mono_r_iff 2); lia).
  rewrite land_low by lia. apply Z.eqb_eq, Z.bits_inj'. intros i Hi.
  rewrite Z.ldiff_spec, Z.bits_0. destruct (Z.testbit mask i) eqn:Hm; [|done].
  apply legal_mask_sub in Hm; [|done]. unfold access_mask, narrow_mask in Hm.
  rewrite decide_False in Hm by lia. by rewrite Hm.
Qed.

Lemma passes_corrupt : aLegalCorrupt b = true.
Proof.
  pose proof (legal_corrupt _ _ _ _ _ beat_legal) as Hp. unfold aLegalCorrupt, implies, aHasPayload.
  destruct (a_corrupt b); [|by case_match]. specialize (Hp eq_refl). by destruct (a_opcode b).
Qed.

(** TL-UL has no messages of several beats. *)
Hypothesis single_beat : p = TL_UL -> size <= c.

Lemma passes_size_bus : aSizeLTEBusWidth p (2 ^ c) b = true.
Proof.
  pose proof legal_numbers as (Hc & Hs & _). unfold aSizeLTEBusWidth. rewrite shift_one.
  case_bool_decide as Hp; [|done]. apply Z.leb_le, Z.pow_le_mono_r; [lia|]. by apply single_beat.
Qed.

Lemma passes_size_matches : aSizeMatchesMask p (2 ^ c) b = true.
Proof.
  pose proof legal_numbers as (Hc & Hs & Ha & Hal). unfold aSizeMatchesMask, lanes. rewrite shift_one.
  case_bool_decide as Hp; [|done]. pose proof (single_beat Hp). cbn [negb orb].
  destruct (one_of [PutPartialData; Get] (a_opcode b)) eqn:Hop; [done|].
  rewrite legal_mask by (intros Hpart; by rewrite Hpart in Hop).
  destruct (access_mask_checked (a_address b) size c ltac:(lia) Hc Hal) as [-> _].
  rewrite Z.min_l by lia. apply Z.eqb_refl.
Qed.

End legal.

(** Each of the assertions, on a port of any protocol that includes that of the host. *)
Lemma assertion_passes fuel net e b p f :
  ordinary fuel net e -> legal_beat net e b ->
  protocol_level (protocol e) <= protocol_level p -> (p = TL_UL -> a_size b <= TlTraffic.lanes e) ->
  In f (beat_assertions p (2 ^ TlTraffic.lanes e)) -> f b = true.
Proof.
  intros He Hb Hp Hsize Hf.
  repeat destruct Hf as [<-|Hf]; [..|done];
    eauto using passes_opcode, passes_param, passes_size_bus, passes_size_mask, passes_size_matches,
      passes_aligned, passes_contiguous, passes_full_mask, passes_mask_aligned, passes_corrupt.
Qed.


Module AssertionsExample.

Import MessagesExample.

#[local] Existing Instance linear.
#[local] Existing Instance zero_data.

Lemma host_ordinary : ordinary 10 net host.
Proof.
  split; [lia| |by vm_compute].
  split; [done| |by vm_compute|by vm_compute]. intros d ->%list_elem_of_singleton. by vm_compute.
Qed.

(** A request that the tester draws. *)
Definition drawn_request : outcome exn tl_a := fst (new_a_request 10 net host used true 42).

Lemma drawn_legal r : drawn_request = Ok r -> legal_beat net host r.
Proof.
  intros Hr. pose proof (a_request_legal 10 net host used 3 42 (ordinary_configuration _ _ _ host_ordinary)
    used_ok ltac:(lia)) as Hl.
  unfold drawn_request in Hr. rewrite Hr in Hl. by apply (legal_without_ids net host used 3).
Qed.


End AssertionsExample.
