(* ===== verification/TlWired.v ===== *)
(** * A host and a device that are wired together

    What the queues of a host and a device have in common when the network between them
    is wires: which identifiers are in use, how far a message on channel A has been
    handed over, and what the device still has to answer. The lemmas say how these
    invariants change when a beat is accepted, on channel A and on channel D. *)

From S2P Require Import Prelude Exceptions TileLink TlEndpoint TlMessages TlMessagesTheorems.
From S2P Require Import TlChannels TlSender TlSenderTheorems TlQueue TlTraffic TlAssertions.

Open Scope Z_scope.

(** The registers of a checker: for each identifier, the request, and the numbers of its
    beats and of those of its response. *)
Abbreviation registers := (Z -> Assertions.a_req_t).

Section wired.

(** The bytes of a beat, the same at both ends, the size of the largest message, and the
    level of the host's protocol. *)
Context (width limit level : Z).
Hypothesis width_pos : 0 < width.
Hypothesis limit_small : limit < 28.

#[local] Set Default Proof Using "All".

(** ** Entries *)

(** Requests that need no cache, and among them those whose beats are counted. *)
Definition uncached (op : tl_a_op_e) : bool :=
  match op with AcquireBlock | AcquirePerm | A_OTHER _ => false | _ => true end.
Definition put (op : tl_a_op_e) : bool :=
  match op with PutFullData | PutPartialData => true | _ => false end.

Definition request_ok (b : tl_a) : Prop :=
  uncached (a_opcode b) = true /\ 0 <= a_size b <= limit /\ a_level (a_opcode b) <= level.

Definition beats_a (b : tl_a) : Z := num_beats (a_has_payload (a_opcode b)) (a_size b) width.
Definition beats_d (b : tl_d) : Z := num_beats (d_has_payload (d_opcode b)) (d_size b) width.

Record a_entry_ok (k : entry tl_a) : Prop := {
  a_entry_request : request_ok (e_header k);
  a_entry_total : e_total k = beats_a (e_header k);
  a_entry_ready : e_ready k = e_total k;
}.

Record d_entry_ok (k : entry tl_d) : Prop := {
  d_entry_opcode : d_opcode (e_header k) = AccessAck \/ d_opcode (e_header k) = AccessAckData
    \/ d_opcode (e_header k) = HintAck;
  d_entry_size : 0 <= d_size (e_header k) <= limit;
  d_entry_total : e_total k = beats_d (e_header k);
  d_entry_ready : 0 < e_ready k <= e_total k;
  d_entry_param : d_param (e_header k) = 0;
  d_entry_corrupt : d_corrupt (e_header k) = true -> d_has_payload (d_opcode (e_header k)) = true;
  d_entry_denied : d_denied (e_header k) = true -> d_has_payload (d_opcode (e_header k)) = true ->
    d_corrupt (e_header k) = true;
}.

Lemma num_beats_pos payload size : 1 <= num_beats payload size width.
Proof using Type. unfold num_beats. destruct payload; lia. Qed.

(** The beats of the longest message. *)
Definition most : Z := num_beats true limit width.

Lemma num_beats_most payload size : 0 <= size <= limit -> num_beats payload size width <= most.
Proof using width_pos limit_small.
  intros Hs. unfold most, num_beats. rewrite (int_shl_pow limit) by lia. destruct payload; [|lia].
  rewrite int_shl_pow by lia. apply Z.max_le_compat_l, Z.quot_le_mono; [lia|]. apply Z.pow_le_mono_r; lia.
Qed.

(** The beats of all messages that are to come. *)
Definition load {C} (ks : list (entry C)) (bs : list C) : Z :=
  foldr (fun k n => e_total k + n) 0 ks - Z.of_nat (length bs).

(** ** Messages on the way *)

Definition started {C} (bs : list C) : bool := match bs with [] => false | _ => true end.

(** The beats that are to come of the first message, if it is one of those counted and
    has been started. *)
Definition rest {C} (counted : C -> bool) (ks : list (entry C)) (bs : list C) : Z :=
  match ks with
  | k :: _ => if counted (e_header k) && started bs then e_total k - Z.of_nat (length bs) else 0
  | [] => 0
  end.

Definition atomic_a (b : tl_a) : bool := atomic (a_opcode b).
Definition put_a (b : tl_a) : bool := put (a_opcode b).
Definition data_d (b : tl_d) : bool := d_has_payload (d_opcode b).

Abbreviation source_a k := (a_source (e_header k)).
Abbreviation source_d k := (d_source (e_header k)).

(** The requests that the device does not know of: an atomic operation is handed over
    with its first beat, any other request with its last one. *)
Definition waiting (ks : list (entry tl_a)) (bs : list tl_a) : list Z :=
  match ks with
  | k :: ks => (if atomic_a (e_header k) && started bs then [] else [source_a k])
               ++ map (fun k => source_a k) ks
  | [] => []
  end.

Definition handed_over (k : entry tl_a) (bs : list tl_a) : bool :=
  if atomic_a (e_header k) then negb (started bs) else Z.of_nat (length bs) + 1 =? e_total k.

(** *** What a checker has seen

    [v] are the registers of a checker when the requests that have been answered are
    cleared. *)

Definition same_request (x y : tl_a) : Prop :=
  a_opcode x = a_opcode y /\ a_param x = a_param y /\ a_size x = a_size y
  /\ a_source x = a_source y /\ a_address x = a_address y.

(** The checker has the request that a beat belongs to, and the one that is answered. *)
Definition held (v : registers) (b : tl_a) : Prop := same_request (Assertions.tl (v (a_source b))) b.
Definition answering_held (v : registers) (k : entry tl_d) : Prop :=
  let request := Assertions.tl (v (source_d k)) in
  d_answers (a_opcode request) (d_opcode (e_header k)) /\ d_size (e_header k) = a_size request.

(** The request of which some beats were taken. *)
Definition partial (ks : list (entry tl_a)) (bs : list tl_a) : option Z :=
  match ks with k :: _ => if started bs then Some (source_a k) else None | [] => None end.

(** Requests are pending from their first beat on; those that were handed over have all
    their beats, but for the one of which further beats are to come. *)
Record requests_seen (v : registers) (away : list Z) (ks : list (entry tl_a)) (bs : list tl_a) : Prop := {
  seen_idle s : s ∉ away ->
    Assertions.resps (v s) = 0 /\ (partial ks bs <> Some s -> Assertions.pend (v s) = false);
  seen_away s : s ∈ away ->
    Assertions.pend (v s) = true /\ request_ok (Assertions.tl (v s))
    /\ (partial ks bs <> Some s -> Assertions.beats (v s) = beats_a (Assertions.tl (v s)));
  seen_partial s : partial ks bs = Some s ->
    Assertions.pend (v s) = true /\ Assertions.beats (v s) = Z.of_nat (length bs)
    /\ from_option (fun k => same_request (Assertions.tl (v s)) (e_header k)) False (head ks);
}.

(** Beats of a response were seen for the first one in the queue only. *)
Record responses_seen (v : registers) (away : list Z) (ks : list (entry tl_d)) (bs : list tl_d) : Prop := {
  seen_answers : Forall (answering_held v) ks;
  seen_beats s : s ∈ away -> Assertions.resps (v s)
    = match ks with k :: _ => if decide (source_d k = s) then Z.of_nat (length bs) else 0 | [] => 0 end;
}.

(** The beats that the device has queued: [queued k l ss k'] if [k] beats of an atomic
    operation are expected before the beats of [l], [k'] after them, and [ss] are the
    sources of the requests that begin in between. *)
Definition more (b : tl_a) : Z := if atomic_a b then beats_a b - 1 else 0.

Inductive queued (v : registers) : Z -> list (bool * tl_a) -> list Z -> Z -> Prop :=
  | queued_nil k : queued v k [] [] k
  | queued_more k r b l ss k' :
      0 < k -> atomic_a b = true -> queued v (k - 1) l ss k' -> queued v k ((r, b) :: l) ss k'
  | queued_first r b l ss k' :
      request_ok b -> held v b -> queued v (more b) l ss k' -> queued v 0 ((r, b) :: l) (a_source b :: ss) k'.

Lemma queued_app v k1 l1 ss1 k2 l2 ss2 k3 :
  queued v k1 l1 ss1 k2 -> queued v k2 l2 ss2 k3 -> queued v k1 (l1 ++ l2) (ss1 ++ ss2) k3.
Proof.
  induction 1; cbn; [done|intros; apply queued_more; auto|intros; apply queued_first; auto].
Qed.

Lemma held_same v v' b :
  Assertions.tl (v' (a_source b)) = Assertions.tl (v (a_source b)) -> held v b -> held v' b.
Proof. unfold held. by intros ->. Qed.

Lemma queued_same v v' k l ss k' :
  (forall s, s ∈ ss -> Assertions.tl (v' s) = Assertions.tl (v s)) ->
  queued v k l ss k' -> queued v' k l ss k'.
Proof.
  intros Hv. induction 1 as [k|k r b l ss k' Hk Hat _ IH|r b l ss k' Hok Hh _ IH].
  - constructor.
  - apply queued_more; auto.
  - apply queued_first; [done| |apply IH; intros s Hs; apply Hv; by apply list_elem_of_further].
    eapply held_same; [|exact Hh]. apply Hv, list_elem_of_here.
Qed.

(** ** The host: channel A

    [coming] and [counting] are the beats that are to come of an atomic operation and of
    a put; [away] are the sources of the requests that have been handed over, of which the
    first is that of the operation of which beats are to come. [effort]
    is the work that the requests of the queue are: their beats, and those of the longest
    response for each of them. *)
Record host_queue (p : endpoint) (v : registers) (coming counting : Z) (away : list Z) (effort : Z)
    (ks : list (entry tl_a)) (bs : list tl_a) (q : unit) (ids : gset Z) : Prop := {
  host_entries : Forall a_entry_ok ks;
  host_unique : NoDup (waiting ks bs ++ away);
  host_ids : ids = list_to_set (waiting ks bs ++ away);
  host_range : ids_ok p ids;
  host_coming : rest atomic_a ks bs = coming;
  host_current : 0 < coming -> head away = (fun k => source_a k) <$> head ks;
  host_counting : rest put_a ks bs = counting;
  host_effort : load ks bs + most * Z.of_nat (length (waiting ks bs)) = effort;
  host_seen : requests_seen v away ks bs;
}.

(** ** The device: channel D

    [receiving] are the beats that are to come of a response with data; [effort] bounds
    the work: the beats of the responses in the queue, and those of the longest response
    for each request that has none yet. *)
Definition missing (ks : list (entry tl_d)) : Z :=
  match list.last ks with Some k => e_total k - e_ready k | None => 0 end.

Record device_queue (v : registers) (coming receiving : Z) (away : list Z) (effort : Z)
    (ks : list (entry tl_d)) (bs : list tl_d) (q : queue_d) (ids : gset Z) : Prop := {
  device_entries : Forall d_entry_ok ks;
  device_complete : Forall (fun k => e_complete k = true) (removelast ks);
  device_lock : lock_output_buffer q = (0 <? missing ks);
  device_queued : exists ss, queued v (missing ks) (a_requests q) ss coming
    /\ map (fun k => source_d k) ks ++ ss ≡ₚ away
    /\ (0 < coming -> list.last (map (fun k => source_d k) ks ++ ss) = head away);
  device_releases : c_requests q = [];
  device_receiving : rest data_d ks bs = receiving;
  device_ids : ids = ∅;
  device_effort : load ks bs + most * (Z.of_nat (length away) - Z.of_nat (length ks)) <= effort;
  device_seen : responses_seen v away ks bs;
}.

(** Only the values of the registers matter. *)
Lemma host_queue_ext p v v' coming counting away effort ks bs q ids :
  (forall s, v' s = v s) -> host_queue p v coming counting away effort ks bs q ids ->
  host_queue p v' coming counting away effort ks bs q ids.
Proof.
  intros Hv [He Hn Hi Hr Hc Hcur Hk Hf [Hidle Haway Hpart]]. split; try done.
  split; intros s; rewrite Hv; auto.
Qed.

Lemma device_queue_ext v v' coming receiving away effort ks bs q ids :
  (forall s, v' s = v s) -> device_queue v coming receiving away effort ks bs q ids ->
  device_queue v' coming receiving away effort ks bs q ids.
Proof.
  intros Hv [De Dc Dl (ss & Dq & Dp) Dr Drec Di Df [Dans Dbeats]]. split; try done.
  - exists ss. split; [|done]. eapply queued_same; [|exact Dq]. intros s _. by rewrite Hv.
  - split; [|intros s; rewrite Hv; auto]. eapply Forall_impl; [|exact Dans]. intros k. unfold answering_held. by rewrite Hv.
Qed.

(** ** A beat on channel A *)

Lemma rest_nil {C} counted (ks : list (entry C)) : rest counted ks [] = 0.
Proof using Type. unfold rest. destruct ks; [done|]. by rewrite andb_false_r. Qed.

Lemma waiting_unstarted ks : waiting ks [] = map (fun k => source_a k) ks.
Proof. destruct ks; [done|]. cbn. by rewrite andb_false_r. Qed.

(** The state after the next beat. *)
Definition after {C} (b : C) (k : entry C) (ks : list (entry C)) (bs : list C) : list (entry C) * list C :=
  if Z.of_nat (length bs) + 1 =? e_total k then (ks, []) else (k :: ks, bs ++ [b]).

Lemma started_app {C} (bs : list C) b : started (bs ++ [b]) = true.
Proof using Type. by destruct bs. Qed.

Lemma waiting_after b k ks bs :
  waiting (k :: ks) bs
  ≡ₚ (if handed_over k bs then [source_a k] else []) ++ waiting (fst (after b k ks bs)) (snd (after b k ks bs)).
Proof.
  unfold after, handed_over. destruct (Z.eqb_spec (Z.of_nat (length bs) + 1) (e_total k)) as [Heq|Hne]; cbn [fst snd].
  - rewrite waiting_unstarted. unfold waiting. destruct (atomic_a (e_header k)); [|done]. by destruct bs.
  - unfold waiting. rewrite started_app. destruct (atomic_a (e_header k)); [|done]. by destruct bs.
Qed.

Lemma load_after {C} (b : C) k ks bs :
  let x := after b k ks bs in load (fst x) (snd x) = load (k :: ks) bs - 1.
Proof using Type.
  unfold after, load. destruct (Z.eqb_spec (Z.of_nat (length bs) + 1) (e_total k)); cbn [fst snd foldr length];
    rewrite ?length_app; cbn [length]; lia.
Qed.

(** The response to a request is work that the device takes over. *)
Definition handed (k : entry tl_a) (bs : list tl_a) : Z := if handed_over k bs then most else 0.

Lemma waiting_handed b k ks bs :
  let x := after b k ks bs in
  most * Z.of_nat (length (waiting (fst x) (snd x))) = most * Z.of_nat (length (waiting (k :: ks) bs)) - handed k bs.
Proof.
  intros x. pose proof (Permutation_length (waiting_after b k ks bs)) as Hl. rewrite length_app in Hl.
  fold x in Hl. rewrite Hl. unfold handed. destruct (handed_over k bs); cbn [length]; lia.
Qed.

Definition away_after (k : entry tl_a) (bs : list tl_a) (away : list Z) : list Z :=
  (if handed_over k bs then [source_a k] else []) ++ away.

Lemma away_after_length k bs away :
  most * Z.of_nat (length (away_after k bs away)) = most * Z.of_nat (length away) + handed k bs.
Proof. unfold away_after, handed. rewrite length_app. destruct (handed_over k bs); cbn [length]; lia. Qed.

(** The checker counts the next beat of the request. *)
Definition request_seen (b : tl_a) (v : registers) : registers := fun s =>
  if decide (s = a_source b) then
    let r := if Assertions.pend (v s) then v s else Assertions.AReq true 0 0 b in
    Assertions.AReq (Assertions.pend r) (Assertions.beats r + 1) (Assertions.resps r) (Assertions.tl r)
  else v s.

(** [b] is the next beat of the request of [k], of which [bs] were taken. *)
Record next_of (k : entry tl_a) (bs : list tl_a) (b : tl_a) : Prop := {
  next_entry : a_entry_ok k;
  next_fewer : Z.of_nat (length bs) < e_total k;
  next_same : same_request b (e_header k);
}.

Lemma next_source k bs b : next_of k bs b -> a_source b = source_a k.
Proof. by intros [_ _ (_ & _ & _ & Hs & _)]. Qed.

Lemma same_trans x y z : same_request x z -> same_request y z -> same_request x y.
Proof. unfold same_request. intuition congruence. Qed.

Lemma same_ok x y : same_request x y -> request_ok y -> request_ok x.
Proof. unfold same_request, request_ok. by intros (-> & _ & -> & _). Qed.

Lemma same_beats x y : same_request x y -> beats_a x = beats_a y.
Proof. unfold same_request, beats_a. by intros (-> & _ & -> & _). Qed.

Lemma same_held v k bs b :
  next_of k bs b -> same_request (Assertions.tl (v (source_a k))) (e_header k) -> held v b.
Proof. intros Hnext Hs. unfold held. rewrite (next_source k bs b Hnext). eapply same_trans; [exact Hs|apply Hnext]. Qed.

(** The identifier of a message that has not been handed over is not away; that of an
    atomic operation of which beats are to come is. *)
Lemma front_away p v coming counting away effort k ks bs q ids :
  host_queue p v coming counting away effort (k :: ks) bs q ids -> Z.of_nat (length bs) < e_total k ->
  if atomic_a (e_header k) && started bs then source_a k ∈ away /\ 0 < coming else source_a k ∉ away.
Proof.
  intros HA Hlt. pose proof (host_unique _ _ _ _ _ _ _ _ _ _ HA) as Hn.
  pose proof (host_coming _ _ _ _ _ _ _ _ _ _ HA) as Hc. pose proof (host_current _ _ _ _ _ _ _ _ _ _ HA) as Hcur.
  cbn [rest waiting] in Hc, Hn. destruct (_ && _).
  - assert (Hpos : 0 < coming) by lia. split; [|done]. specialize (Hcur Hpos). destruct away; [done|].
    injection Hcur as ->. apply list_elem_of_here.
  - intros Hin. apply list.NoDup_app in Hn as (_ & Hn & _). apply (Hn (source_a k)); [|done].
    apply elem_of_app. left. apply list_elem_of_here.
Qed.

(** What the beat shows of its request. *)
Record shown (v v' : registers) (away : list Z) (k : entry tl_a) (bs : list tl_a) : Prop := {
  shown_other s : s <> source_a k -> v' s = v s;
  shown_pending : Assertions.pend (v' (source_a k)) = true;
  shown_beats : Assertions.beats (v' (source_a k)) = Z.of_nat (length bs) + 1;
  shown_request : same_request (Assertions.tl (v' (source_a k))) (e_header k);
  shown_new : source_a k ∉ away -> Assertions.resps (v' (source_a k)) = 0;
  shown_old : source_a k ∈ away -> Assertions.tl (v' (source_a k)) = Assertions.tl (v (source_a k))
    /\ Assertions.resps (v' (source_a k)) = Assertions.resps (v (source_a k));
}.

Lemma host_shows p v v' coming counting away effort k ks bs b q ids :
  host_queue p v coming counting away effort (k :: ks) bs q ids -> next_of k bs b ->
  (forall s, v' s = request_seen b v s) -> shown v v' away k bs.
Proof.
  intros HA Hnext Hv. pose proof (host_seen _ _ _ _ _ _ _ _ _ _ HA) as [Hidle Haway Hpart].
  pose proof (front_away _ _ _ _ _ _ _ _ _ _ _ HA (next_fewer _ _ _ Hnext)) as Hfront.
  pose proof (next_source k bs b Hnext) as Hsrc. unfold request_seen in Hv. rewrite Hsrc in Hv.
  pose proof (Hv (source_a k)) as Hs. rewrite decide_True in Hs by done.
  assert (Hother : forall s, s <> source_a k -> v' s = v s) by (intros s Hne; by rewrite Hv, decide_False).
  destruct bs as [|b0 bs].
  - rewrite andb_false_r in Hfront. destruct (Hidle _ Hfront) as [_ Hp]. rewrite Hp in Hs by done.
    split; try done; rewrite Hs; try done. apply Hnext.
  - destruct (Hpart (source_a k) eq_refl) as (Hp & Hb & Hsame). rewrite Hp in Hs.
    split; try done; rewrite Hs; cbn [Assertions.pend Assertions.beats Assertions.resps Assertions.tl]; try done.
    + by rewrite Hb.
    + intros Hout. by apply Hidle.
Qed.

Lemma partial_after b k ks bs :
  let x := after b k ks bs in
  partial (fst x) (snd x) = if Z.of_nat (length bs) + 1 =? e_total k then None else Some (source_a k).
Proof. unfold after. destruct (_ =? _); cbn; [by destruct ks|]. by rewrite started_app. Qed.

Lemma partial_front k ks bs s : s <> source_a k -> partial (k :: ks) bs <> Some s.
Proof. cbn. destruct (started bs); [|done]. intros Hne [= Heq]. by apply Hne. Qed.

Lemma requests_after p v v' coming counting away effort k ks bs b q ids :
  host_queue p v coming counting away effort (k :: ks) bs q ids -> next_of k bs b -> shown v v' away k bs ->
  let x := after b k ks bs in requests_seen v' (away_after k bs away) (fst x) (snd x).
Proof.
  intros HA Hnext [Hother Hp Hb Hsame Hnew Hold] x. pose proof (host_seen _ _ _ _ _ _ _ _ _ _ HA) as [Hidle Haway Hpart].
  pose proof (front_away _ _ _ _ _ _ _ _ _ _ _ HA (next_fewer _ _ _ Hnext)) as Hfront.
  destruct Hnext as [[Hok Ht _] _ _]. split; unfold x, away_after; setoid_rewrite partial_after.
  - intros s [Hs1 Hs2]%not_elem_of_app. destruct (decide (s = source_a k)) as [->|Hne].
    + split; [by apply Hnew|]. unfold handed_over in Hs1.
      destruct (atomic_a (e_header k)), (started bs), (_ =? _); cbn in *; try tauto; try set_solver.
    + rewrite Hother by done. split; [by apply Hidle|]. intros _. apply Hidle; [done|]. by apply partial_front.
  - intros s Hs. destruct (decide (s = source_a k)) as [->|Hne].
    + split; [done|]. split; [by eapply same_ok|]. intros Hlast. rewrite Hb, (same_beats _ _ Hsame), <- Ht.
      destruct (Z.eqb_spec (Z.of_nat (length bs) + 1) (e_total k)); done.
    + assert (Hin : s ∈ away) by (destruct (handed_over k bs); set_solver).
      destruct (Haway s Hin) as (H1 & H2 & H3). rewrite Hother by done. split; [done|]. split; [done|].
      intros _. by apply H3, partial_front.
  - intros s Hs. unfold after. destruct (_ =? _); [done|]. injection Hs as <-. cbn. rewrite length_app. cbn.
    split; [done|]. split; [lia|done].
Qed.

Lemma host_sends p v v' coming counting away effort k ks bs b q ids :
  host_queue p v coming counting away effort (k :: ks) bs q ids -> next_of k bs b -> shown v v' away k bs ->
  let x := after b k ks bs in
  host_queue p v' (rest atomic_a (fst x) (snd x)) (rest put_a (fst x) (snd x)) (away_after k bs away)
    (effort - 1 - handed k bs) (fst x) (snd x) q ids.
Proof.
  intros HA Hnext Hshown x. pose proof (requests_after _ _ _ _ _ _ _ _ _ _ _ _ _ HA Hnext Hshown) as Hseen.
  pose proof (front_away _ _ _ _ _ _ _ _ _ _ _ HA (next_fewer _ _ _ Hnext)) as Hfront.
  destruct HA as [He Hn Hi Hr _ Hcur _ Hf _].
  assert (Hp : waiting (k :: ks) bs ++ away ≡ₚ waiting (fst x) (snd x) ++ away_after k bs away).
  { rewrite (waiting_after b). unfold away_after, x. rewrite <- app_assoc. apply Permutation_app_swap_app. }
  split; try done.
  - unfold x, after. apply Forall_cons_1 in He as [Hk He]. destruct (_ =? _); [done|by constructor].
  - by rewrite <- Hp.
  - rewrite Hi. apply leibniz_equiv. by rewrite Hp.
  - unfold x, after, away_after, handed_over. destruct (_ =? _); cbn [fst snd]; [rewrite rest_nil; lia|].
    cbn [rest]. destruct (atomic_a (e_header k)); [|by cbn; lia]. intros _.
    destruct (started bs); cbn in *; [|done]. apply Hcur, Hfront.
  - unfold x. rewrite (load_after b), (waiting_handed b). lia.
Qed.

(** The beats that a device queues: of a put only the last one. *)
Definition queues (k : entry tl_a) (bs : list tl_a) : bool :=
  if put_a (e_header k) then Z.of_nat (length bs) + 1 =? e_total k else true.

Definition queue_after (r : bool) (b : tl_a) (k : entry tl_a) (bs : list tl_a) (q : queue_d) : queue_d :=
  if queues k bs then set_a_requests (a_requests q ++ [(r, b)]) q else q.

Lemma next_request k bs b : next_of k bs b -> request_ok b.
Proof. intros [[Hok _ _] _ Hsame]. exact (same_ok _ _ Hsame Hok). Qed.

Lemma next_counts k bs b : next_of k bs b -> atomic_a b = atomic_a (e_header k) /\ beats_a b = e_total k.
Proof. intros [[_ -> _] _ Hsame]. split; [|by apply same_beats]. unfold atomic_a. by destruct Hsame as (-> & _). Qed.

(** The source of a request that was handed over joins those that wait for an answer. *)
Lemma joins_away k bs ds ss away :
  map (fun k => source_d k) ds ++ ss ≡ₚ away ->
  map (fun k => source_d k) ds ++ ss ++ (if handed_over k bs then [source_a k] else []) ≡ₚ away_after k bs away.
Proof. intros Hp. unfold away_after. rewrite app_assoc, Hp. apply Permutation_app_comm. Qed.

(** A beat of an atomic operation is queued. *)
Lemma takes_atomic v r k ks bs b m l ss :
  next_of k bs b -> held v b -> atomic_a (e_header k) = true -> queued v m l ss (rest atomic_a (k :: ks) bs) ->
  let x := after b k ks bs in
  queued v m (l ++ [(r, b)]) (ss ++ if handed_over k bs then [source_a k] else []) (rest atomic_a (fst x) (snd x)).
Proof.
  intros Hnext Hheld Hat Hq. pose proof (next_request _ _ _ Hnext) as Hok. pose proof (next_fewer _ _ _ Hnext) as Hlt.
  pose proof (next_source _ _ _ Hnext) as Hsrc. destruct (next_counts _ _ _ Hnext) as [Hatb Hmore].
  rewrite Hat in Hatb. assert (Hm : more b = e_total k - 1) by (unfold more; by rewrite Hatb, Hmore).
  assert (Hrest : let x := after b k ks bs in rest atomic_a (fst x) (snd x) = e_total k - Z.of_nat (length bs) - 1).
  { unfold after. destruct (Z.eqb_spec (Z.of_nat (length bs) + 1) (e_total k)); cbn [fst snd]; [rewrite rest_nil; lia|].
    cbn [rest]. rewrite Hat, started_app, length_app. cbn. lia. }
  cbv zeta in Hrest |- *. rewrite Hrest. eapply queued_app; [exact Hq|]. cbn [rest]. unfold handed_over. rewrite Hat.
  destruct bs as [|b0 bs]; cbn [started negb andb].
  - rewrite <- Hsrc. apply queued_first; [done|done|]. rewrite Hm. cbn [length].
    replace (e_total k - Z.of_nat 0 - 1) with (e_total k - 1) by lia. constructor.
  - apply queued_more; [lia|done|constructor].
Qed.

(** Any other request is queued with its last beat. *)
Lemma takes_other v r k ks bs b m q ss :
  next_of k bs b -> held v b -> atomic_a (e_header k) = false ->
  queued v m (a_requests q) ss (rest atomic_a (k :: ks) bs) ->
  let x := after b k ks bs in
  queued v m (a_requests (queue_after r b k bs q)) (ss ++ if handed_over k bs then [source_a k] else [])
    (rest atomic_a (fst x) (snd x)).
Proof.
  intros Hnext Hheld Hat Hq x. pose proof (next_request _ _ _ Hnext) as Hok. pose proof (next_source _ _ _ Hnext) as Hsrc.
  destruct (next_counts _ _ _ Hnext) as [Hatb _]. destruct Hnext as [[_ Ht _] Hlt _].
  assert (Hzero : forall y bs', rest atomic_a (k :: y) bs' = 0) by (intros; cbn; by rewrite Hat).
  assert (Hx : rest atomic_a (fst x) (snd x) = 0).
  { unfold x, after. destruct (_ =? _); [apply rest_nil|apply Hzero]. }
  assert (Hqueues : queues k bs = (Z.of_nat (length bs) + 1 =? e_total k)).
  { unfold queues. destruct (put_a (e_header k)) eqn:Hput; [done|]. symmetry. apply Z.eqb_eq.
    assert (Hpay : a_has_payload (a_opcode (e_header k)) = false)
      by (unfold atomic_a, put_a in *; by destruct (a_opcode (e_header k))).
    unfold beats_a in Ht. rewrite Hpay in Ht. cbn in Ht. lia. }
  rewrite Hzero in Hq. rewrite Hx. unfold queue_after, handed_over. rewrite Hat, Hqueues.
  destruct (_ =? _); [|by rewrite app_nil_r]. eapply queued_app; [exact Hq|]. rewrite <- Hsrc.
  apply queued_first; [done|done|]. assert (Hm : more b = 0) by (unfold more; by rewrite Hatb, Hat).
  rewrite Hm. constructor.
Qed.

(** What the checker knows of the requests that wait for an answer stays. *)
Lemma shown_away v v' away k bs s :
  shown v v' away k bs -> s ∈ away ->
  Assertions.tl (v' s) = Assertions.tl (v s) /\ Assertions.resps (v' s) = Assertions.resps (v s).
Proof.
  intros Hshown Hs. destruct (decide (s = source_a k)) as [->|Hne]; [by apply (shown_old _ _ _ _ _ Hshown)|].
  by rewrite (shown_other _ _ _ _ _ Hshown).
Qed.

Lemma answering_same v v' k :
  Assertions.tl (v' (source_d k)) = Assertions.tl (v (source_d k)) -> answering_held v k -> answering_held v' k.
Proof. unfold answering_held. by intros ->. Qed.

Lemma responses_after v v' away k bs ds dbs ss :
  shown v v' away k bs -> map (fun k => source_d k) ds ++ ss ≡ₚ away -> responses_seen v away ds dbs ->
  responses_seen v' (away_after k bs away) ds dbs.
Proof.
  intros Hshown Hp [Hans Hbeats].
  assert (Hin : forall k', k' ∈ ds -> source_d k' ∈ away).
  { intros k' Hk'. rewrite <- Hp. apply elem_of_app. left. by apply (list_elem_of_fmap_2 (fun k => source_d k)). }
  split.
  - apply Forall_forall. intros k' Hk'%list_elem_of_In. eapply answering_same; [by eapply shown_away; [|apply Hin]|].
    rewrite Forall_forall in Hans. by apply Hans, list_elem_of_In.
  - intros s Hs. destruct (decide (s ∈ away)) as [Ha|Ha].
    + rewrite <- Hbeats by done. by eapply shown_away.
    + assert (s = source_a k) as -> by (unfold away_after in Hs; destruct (handed_over k bs); set_solver).
      rewrite (shown_new _ _ _ _ _ Hshown) by done. destruct ds as [|k' ds]; [done|].
      rewrite decide_False; [done|]. intros Heq. apply Ha. rewrite <- Heq. apply Hin, list_elem_of_here.
Qed.

(** The operation of which beats are to come is the last one of the device. *)
Lemma current_after b k ks bs ds ss away coming :
  rest atomic_a (k :: ks) bs = coming -> Z.of_nat (length bs) < e_total k ->
  (0 < coming -> list.last (map (fun k => source_d k) ds ++ ss) = head away) ->
  let x := after b k ks bs in 0 < rest atomic_a (fst x) (snd x) ->
  list.last (map (fun k => source_d k) ds ++ ss ++ (if handed_over k bs then [source_a k] else []))
  = head (away_after k bs away).
Proof.
  intros <- Hlt Hcur x. unfold x, after, away_after, handed_over. destruct (_ =? _); cbn [fst snd]; [rewrite rest_nil; lia|].
  cbn [rest] in *. destruct (atomic_a (e_header k)); [|by cbn; lia]. intros _. rewrite app_assoc.
  destruct (started bs); cbn in *; [rewrite app_nil_r; apply Hcur; lia|by rewrite last_snoc].
Qed.

Lemma device_takes v v' coming receiving away effort k ks bs r b ds dbs q ids :
  device_queue v coming receiving away effort ds dbs q ids ->
  rest atomic_a (k :: ks) bs = coming -> next_of k bs b -> shown v v' away k bs ->
  let x := after b k ks bs in
  device_queue v' (rest atomic_a (fst x) (snd x)) receiving (away_after k bs away) (effort + handed k bs) ds dbs
    (queue_after r b k bs q) ids.
Proof.
  intros [De Dc Dl (ss & Dq & Dp & Dcur) Dr Drec Di Df Ds] Hcoming Hnext Hshown x.
  pose proof (same_held v' k bs b Hnext (shown_request _ _ _ _ _ Hshown)) as Hheld.
  pose proof (current_after b k ks bs ds ss away coming Hcoming (next_fewer _ _ _ Hnext) Dcur) as Hcur.
  apply (queued_same v v') in Dq.
  2: { intros s Hs. eapply shown_away; [exact Hshown|]. rewrite <- Dp. apply elem_of_app. by right. }
  rewrite <- Hcoming in Dq.
  assert (Hq : queued v' (missing ds) (a_requests (queue_after r b k bs q))
    (ss ++ if handed_over k bs then [source_a k] else []) (rest atomic_a (fst x) (snd x))).
  { destruct (atomic_a (e_header k)) eqn:Hat; [|by apply takes_other].
    unfold queue_after, queues. assert (put_a (e_header k) = false) as ->
      by (unfold atomic_a, put_a in *; by destruct (a_opcode (e_header k))). by apply takes_atomic. }
  pose proof (joins_away k bs ds ss away Dp) as Hp. pose proof (away_after_length k bs away) as Hl.
  assert (Hlock : lock_output_buffer (queue_after r b k bs q) = lock_output_buffer q)
    by (unfold queue_after; by destruct (queues k bs)).
  assert (Hrel : c_requests (queue_after r b k bs q) = c_requests q)
    by (unfold queue_after; by destruct (queues k bs)).
  split; try done; [by rewrite Hlock|by eexists|by rewrite Hrel|lia|by eapply responses_after].
Qed.

(** ** A beat on channel D *)

Lemma missing_complete k ks :
  Forall (fun k => e_complete k = true) (removelast (k :: ks)) -> ks <> [] \/ e_complete k = true ->
  missing ks = missing (k :: ks) /\ Forall (fun k => e_complete k = true) (removelast ks).
Proof.
  unfold missing. destruct ks as [|k' ks].
  - intros _ [|Hk]; [done|]. unfold e_complete in Hk. apply Z.eqb_eq in Hk. cbn. split; [lia|done].
  - intros Hc _. split; [done|]. change (removelast (k :: k' :: ks)) with (k :: removelast (k' :: ks)) in Hc.
    by apply Forall_cons_1 in Hc as [_ Hc].
Qed.

(** The checker counts a beat of a response, and clears the request after the last one. *)
Definition response_seen (d : tl_d) (v : registers) : registers := fun s =>
  let r := v s in
  if decide (s = d_source d) then
    Assertions.AReq (Assertions.pend r) (Assertions.beats r) (Assertions.resps r + 1) (Assertions.tl r)
  else r.
Definition response_cleared (d : tl_d) (v : registers) : registers := fun s =>
  let r := v s in
  let cleared := Assertions.AReq false 0 0 (Assertions.tl r) in
  if decide (s = d_source d) then
    match d_opcode d with
    | AccessAck | HintAck | Grant => cleared
    | ReleaseAck => r
    | _ => if Assertions.resps r =? Assertions.expected_beats width (a_size (Assertions.tl r)) then cleared else r
    end
  else r.

(** What the next beat of the response [k] shows of its request. *)
Record replied (v v' : registers) (k : entry tl_d) (bs : list tl_d) : Prop := {
  replied_other s : s <> source_d k -> v' s = v s;
  replied_last : Z.of_nat (length bs) + 1 = e_total k ->
    Assertions.pend (v' (source_d k)) = false /\ Assertions.resps (v' (source_d k)) = 0;
  replied_more : Z.of_nat (length bs) + 1 <> e_total k ->
    v' (source_d k) = Assertions.AReq (Assertions.pend (v (source_d k))) (Assertions.beats (v (source_d k)))
                        (Z.of_nat (length bs) + 1) (Assertions.tl (v (source_d k)));
}.

Lemma expected_run size : 0 <= size <= limit -> Assertions.expected_beats width size = num_beats true size width.
Proof using width_pos limit_small.
  intros Hs. unfold Assertions.expected_beats, num_beats. rewrite Z.shiftl_1_l, int_shl_pow by lia.
  pose proof (Z.pow_pos_nonneg 2 size ltac:(lia) ltac:(lia)). rewrite Z.quot_div_nonneg by lia.
  destruct (Z.ltb_spec (2 ^ size) width) as [Hlt|Hge]; [rewrite Z.div_small by lia; lia|].
  pose proof (Z.div_le_lower_bound (2 ^ size) width 1 ltac:(lia) ltac:(lia)). lia.
Qed.

(** The first response in the queue is to a request that waits for it. *)
Lemma first_away v coming receiving away effort k ks bs q ids :
  device_queue v coming receiving away effort (k :: ks) bs q ids ->
  source_d k ∈ away /\ Assertions.resps (v (source_d k)) = Z.of_nat (length bs) /\ answering_held v k.
Proof.
  intros HD. destruct (device_queued _ _ _ _ _ _ _ _ _ HD) as (ss & _ & Hp & _).
  destruct (device_seen _ _ _ _ _ _ _ _ _ HD) as [Hans Hbeats].
  assert (Hin : source_d k ∈ away) by (rewrite <- Hp; apply list_elem_of_here).
  split; [done|]. split; [|by apply Forall_cons_1 in Hans as [? _]].
  rewrite Hbeats by done. by rewrite decide_True.
Qed.

Lemma device_replies v v' coming receiving away effort k ks bs d q ids :
  device_queue v coming receiving away effort (k :: ks) bs q ids -> Z.of_nat (length bs) < e_total k ->
  d_opcode d = d_opcode (e_header k) -> d_source d = source_d k ->
  (forall s, v' s = response_cleared d (response_seen d v) s) -> replied v v' k bs.
Proof.
  intros HD Hlt Hop Hsrc Hv. pose proof (first_away _ _ _ _ _ _ _ _ _ _ HD) as (_ & Hresps & _ & Hsize).
  pose proof (device_entries _ _ _ _ _ _ _ _ _ HD) as [[Ho Hs Ht _ _ _ _] _]%Forall_cons_1.
  unfold response_cleared, response_seen in Hv. rewrite Hop, Hsrc in Hv. pose proof (Hv (source_d k)) as Hk.
  rewrite !decide_True in Hk by done. cbn [Assertions.resps Assertions.tl Assertions.pend Assertions.beats] in Hk.
  rewrite Hresps, <- Hsize, expected_run in Hk by done. unfold beats_d in Ht.
  split.
  - intros s Hne. by rewrite Hv, !decide_False.
  - intros Hlast. rewrite Hk.
    destruct Ho as [Ho|[Ho|Ho]]; rewrite Ho in *; cbn [d_has_payload] in Ht; try done.
    by rewrite (proj2 (Z.eqb_eq _ _)) by lia.
  - intros Hmore. rewrite Hk.
    destruct Ho as [Ho|[Ho|Ho]]; rewrite Ho in *; cbn [d_has_payload] in Ht; try (cbn in Ht; lia).
    by rewrite (proj2 (Z.eqb_neq _ _)) by lia.
Qed.

Lemma last_to_front {A} (l : list A) : exists l', l ≡ₚ l' /\ list.last l = head l'.
Proof using Type.
  destruct l as [|x l _] using rev_ind; [by exists []|]. exists (x :: l).
  split; [by rewrite Permutation_app_comm|by rewrite last_snoc].
Qed.

(** The identifier of a response that is wholly sent is no longer away. *)
Lemma device_sends v v' coming receiving away effort b k ks bs q ids :
  device_queue v coming receiving away effort (k :: ks) bs q ids -> Z.of_nat (length bs) < e_ready k ->
  NoDup away -> replied v v' k bs ->
  let x := after b k ks bs in
  exists away', (if Z.of_nat (length bs) + 1 =? e_total k then away ≡ₚ source_d k :: away' else away' = away)
    /\ (0 < coming -> head away' = head away)
    /\ device_queue v' coming (rest data_d (fst x) (snd x)) away' (effort - 1) (fst x) (snd x) q ids.
Proof.
  intros [De Dc Dl (ss & Dq & Dp & Dcur) Dr Drec Di Df [Dans Dbeats]] Hlt Hn [Hother Hlast Hmore] x.
  pose proof (load_after b k ks bs) as Hload. cbv zeta in Hload. revert Hload. unfold x, after.
  pose proof De as [Hk De']%Forall_cons_1. destruct Hk as [_ _ _ [Hr1 Hr2] _ _ _].
  destruct (Z.eqb_spec (Z.of_nat (length bs) + 1) (e_total k)) as [Heq|Hne]; cbn [fst snd]; intros Hload.
  - destruct (missing_complete k ks Dc) as [Hm Hc].
    { right. unfold e_complete. apply Z.eqb_eq. lia. }
    destruct (last_to_front (map (fun k => source_d k) ks ++ ss)) as (away' & Hp' & Hfront).
    assert (Hp : away ≡ₚ source_d k :: away') by (by rewrite <- Dp; cbn; rewrite Hp').
    assert (Hsame : forall s, s ∈ away' -> v' s = v s).
    { intros s Hs. apply Hother. intros ->. rewrite Hp in Hn. by apply list.NoDup_cons in Hn as [Hn _]. }
    exists away'. split; [done|]. split.
    + intros Hpos. rewrite <- (Dcur Hpos), <- Hfront. cbn [map app].
      destruct (map (fun k => source_d k) ks ++ ss) eqn:Hl; [|done].
      apply app_eq_nil in Hl as [Hks ->]. apply map_eq_nil in Hks as ->. rewrite <- Hm in Dq. inversion Dq; cbn in *; lia.
    + split; rewrite ?Hm; try done.
      * exists ss. split; [|by split]. eapply queued_same; [|exact Dq]. intros s Hs. rewrite Hsame; [done|].
        rewrite <- Hp'. apply elem_of_app. by right.
      * apply Permutation_length in Hp. cbn [length] in *. lia.
      * apply Forall_cons_1 in Dans as [_ Dans]. split.
        -- apply Forall_forall. intros k' Hk'%list_elem_of_In. rewrite Forall_forall in Dans.
           eapply answering_same; [|by apply Dans, list_elem_of_In]. rewrite Hsame; [done|].
           rewrite <- Hp'. apply elem_of_app. left. by apply (list_elem_of_fmap_2 (fun k => source_d k)).
        -- intros s Hs. rewrite Hsame, Dbeats by (done || rewrite Hp; by apply list_elem_of_further).
           rewrite decide_False. { destruct ks; [done|]. by destruct (decide _). }
           intros Hks. rewrite Hp in Hn. apply list.NoDup_cons in Hn as [Hn _]. congruence.
  - exists away. split; [done|]. split; [done|]. specialize (Hmore Hne).
    assert (Hsame : forall s, Assertions.tl (v' s) = Assertions.tl (v s)).
    { intros s. destruct (decide (s = source_d k)) as [->|Hs]; [by rewrite Hmore|by rewrite Hother]. }
    split; try done; [|cbn [length] in *; lia|].
    + exists ss. split; [|by split]. eapply queued_same; [|exact Dq]. auto.
    + split.
      * eapply Forall_impl; [|exact Dans]. intros k'. by apply answering_same.
      * intros s Hs. case_decide as Hks; [subst s; rewrite Hmore, length_app; cbn; lia|].
        rewrite Hother, Dbeats by done. by rewrite decide_False.
Qed.

(** A response of which all beats are ready is to a request with all its beats. *)
Lemma answered_whole p v coming counting receiving away effort effort' ks bs ids k ds dbs q idsd :
  host_queue p v coming counting away effort ks bs tt ids -> accepted_fewer ks bs ->
  device_queue v coming receiving away effort' (k :: ds) dbs q idsd -> e_ready k = e_total k ->
  partial ks bs <> Some (source_d k).
Proof.
  intros HA Ha HD Hready Hpart. pose proof (first_away _ _ _ _ _ _ _ _ _ _ HD) as (Hin & _).
  destruct ks as [|k0 ks]; [done|]. cbn [partial] in Hpart. destruct (started bs) eqn:Hst; [|done]. injection Hpart as Hs.
  pose proof (front_away _ _ _ _ _ _ _ _ _ _ _ HA Ha) as Hfront. rewrite Hst, andb_true_r in Hfront.
  destruct (atomic_a (e_header k0)); [|by rewrite Hs in Hfront]. destruct Hfront as [_ Hpos].
  pose proof (host_current _ _ _ _ _ _ _ _ _ _ HA Hpos) as Hcur. cbn in Hcur. rewrite Hs in Hcur.
  destruct (device_queued _ _ _ _ _ _ _ _ _ HD) as (ss & Hq & Hp & Hlast).
  specialize (Hlast Hpos). rewrite Hcur in Hlast. cbn [map app] in Hlast, Hp.
  pose proof (host_unique _ _ _ _ _ _ _ _ _ _ HA) as Hn. apply list.NoDup_app in Hn as (_ & _ & Hn).
  rewrite <- Hp in Hn. apply list.NoDup_cons in Hn as [Hn _].
  destruct (map (fun k => source_d k) ds ++ ss) as [|y l] eqn:Hl; [|by apply Hn; apply last_Some_elem_of].
  apply app_eq_nil in Hl as [Hds ->]. apply map_eq_nil in Hds as ->.
  unfold missing in Hq. cbn in Hq. rewrite Hready, Z.sub_diag in Hq. inversion Hq; lia.
Qed.

(** A beat of a response that is not the last one. *)
Lemma host_replied p v v' coming counting away effort k dbs ks bs q ids :
  host_queue p v coming counting away effort ks bs q ids -> source_d k ∈ away ->
  replied v v' k dbs -> Z.of_nat (length dbs) + 1 <> e_total k ->
  host_queue p v' coming counting away effort ks bs q ids.
Proof.
  intros [He Hn Hi Hr Hc Hcur Hk Hf [Hidle Haway Hpart]] Hin [Hother _ Hmore] Hne. specialize (Hmore Hne).
  split; try done. split.
  - intros s Hs. rewrite Hother by (intros ->; done). by apply Hidle.
  - intros s Hs. destruct (decide (s = source_d k)) as [->|Hks]; [rewrite Hmore|rewrite Hother by done]; by apply Haway.
  - intros s Hs. destruct (decide (s = source_d k)) as [->|Hks]; [rewrite Hmore|rewrite Hother by done]; by apply Hpart.
Qed.

Lemma host_ends p v v' coming counting away away' effort k dbs ks bs q ids :
  host_queue p v coming counting away effort ks bs q ids -> away ≡ₚ source_d k :: away' ->
  (0 < coming -> head away' = head away) -> partial ks bs <> Some (source_d k) ->
  replied v v' k dbs -> Z.of_nat (length dbs) + 1 = e_total k ->
  source_d k ∈ ids /\ host_queue p v' coming counting away' effort ks bs q (ids ∖ {[source_d k]}).
Proof.
  intros [He Hn Hi [Hr1 Hr2] Hc Hcur Hk Hf [Hidle Haway Hpart]] Hp Hhead Hwhole [Hother Hlast _] Heq.
  set (s := source_d k) in *. destruct (Hlast Heq) as [Hl1 Hl2].
  assert (Hp' : waiting ks bs ++ away ≡ₚ s :: (waiting ks bs ++ away')).
  { rewrite Hp. by rewrite Permutation_middle. }
  rewrite Hp' in Hn. apply list.NoDup_cons in Hn as [Hs Hn].
  assert (Hids : ids = {[s]} ∪ list_to_set (waiting ks bs ++ away')).
  { rewrite Hi. apply leibniz_equiv. by rewrite Hp', list_to_set_cons. }
  split; [rewrite Hids; set_solver|]. split; try done.
  - rewrite Hids. apply leibniz_equiv. intros x. rewrite elem_of_difference, elem_of_union, elem_of_singleton, elem_of_list_to_set.
    split; [by intros [[|] ?]|]. intros Hx. split; [by right|]. by intros ->.
  - split; [|done]. intros x Hx. apply Hr1. set_solver.
  - intros Hpos. rewrite Hhead by done. by apply Hcur.
  - split.
    + intros x Hx. destruct (decide (x = s)) as [->|Hxs]; [done|]. rewrite Hother by done. apply Hidle. by rewrite Hp, not_elem_of_cons.
    + intros x Hx. rewrite Hother by (intros ->; apply Hs, elem_of_app; by right).
      apply Haway. rewrite Hp. by apply list_elem_of_further.
    + intros x Hx. rewrite Hother by (intros ->; by apply Hwhole). by apply Hpart.
Qed.

(** ** The sender of the host *)

Lemma load_snoc {C} (k : entry C) ks bs : load (ks ++ [k]) bs = load ks bs + e_total k.
Proof using Type.
  unfold load. induction ks as [|k' ks IH]; cbn [app foldr]; [lia|]. cbn in IH. lia.
Qed.

Lemma load_rotate {C} (k : entry C) ks : load (ks ++ [k]) [] = load (k :: ks) [].
Proof using Type. rewrite load_snoc. unfold load. cbn. lia. Qed.

Lemma host_rotates p v coming counting away effort k ks q ids :
  host_queue p v coming counting away effort (k :: ks) [] q ids ->
  host_queue p v coming counting away effort (ks ++ [k]) [] q ids.
Proof.
  intros [He Hn Hi Hr Hc Hcur Hk Hf Hseen]. rewrite rest_nil in Hc, Hk.
  assert (Hp : waiting (ks ++ [k]) [] ≡ₚ waiting (k :: ks) []).
  { rewrite !waiting_unstarted, map_app. cbn. by rewrite Permutation_app_comm. }
  split; rewrite ?rest_nil; try done.
  - apply Forall_cons_1 in He as [Hk' He]. apply Forall_app. split; [done|by constructor].
  - by rewrite Hp.
  - rewrite Hi. apply leibniz_equiv. by rewrite Hp.
  - lia.
  - by rewrite Hp, load_rotate.
  - destruct Hseen as [Hidle Haway Hpart]. split; try done.
    all: intros s; destruct (ks ++ [k]) eqn:Hl; try done; auto.
Qed.

(** A new request, with an identifier that is not in use. *)
Lemma host_adds p v coming counting away effort ks bs k q ids :
  host_queue p v coming counting away effort ks bs q ids -> (ks = [] -> bs = []) -> a_entry_ok k ->
  source_a k ∉ ids -> in_range p (source_a k) ->
  host_queue p v coming counting away (effort + e_total k + most) (ks ++ [k]) bs q ({[source_a k]} ∪ ids).
Proof.
  intros [He Hn Hi [Hr1 Hr2] Hc Hcur Hk Hf Hseen] Hbs Hok Hs Hrange.
  assert (Hp : waiting (ks ++ [k]) bs ≡ₚ source_a k :: waiting ks bs).
  { destruct ks as [|k0 ks].
    - rewrite Hbs by done. cbn. by rewrite andb_false_r.
    - cbn [waiting app]. rewrite map_app. cbn [map]. rewrite app_assoc. by rewrite Permutation_app_comm. }
  assert (Hrest : forall f, rest f (ks ++ [k]) bs = rest f ks bs).
  { intros f. destruct ks; [rewrite Hbs by done; by rewrite !rest_nil|done]. }
  split; rewrite ?Hrest; try done.
  - apply Forall_app. split; [done|by constructor].
  - rewrite Hp. cbn. apply list.NoDup_cons. split; [|done]. by rewrite <- (elem_of_list_to_set (C := gset Z)), <- Hi.
  - apply leibniz_equiv. rewrite Hp. cbn. by rewrite <- Hi.
  - split; [|done]. intros x [->%elem_of_singleton|Hx]%elem_of_union; [done|by apply Hr1].
  - intros Hpos. rewrite Hcur by done. destruct ks; [|done]. rewrite Hbs, rest_nil in Hc by done. lia.
  - rewrite Hp, load_snoc. cbn [length]. lia.
  - destruct Hseen as [Hidle Haway Hpart].
    destruct ks as [|k0 ks]; [rewrite Hbs in * by done|]; by split.
Qed.

(** ** The sender of the device *)

Lemma all_complete ks :
  Forall (fun k => e_complete k = true) (removelast ks) -> missing ks = 0 ->
  Forall (fun k => e_complete k = true) ks.
Proof using Type.
  destruct ks as [|k ks _] using rev_ind; [done|]. unfold missing. rewrite removelast_last, last_snoc.
  intros Hc Hm. apply Forall_app. split; [done|]. constructor; [|done]. apply Z.eqb_eq. lia.
Qed.

Lemma device_rotates v coming receiving away effort k ks q ids :
  device_queue v coming receiving away effort (k :: ks) [] q ids ->
  from_option e_complete false (list.last (k :: ks)) = true ->
  device_queue v coming receiving away effort (ks ++ [k]) [] q ids.
Proof.
  intros [De Dc Dl (ss & Dq & Dp & Dcur) Dr Drec Di Df [Dans Dbeats]] Hl. rewrite rest_nil in Drec.
  assert (Hm : missing (k :: ks) = 0).
  { unfold missing. destruct (list.last (k :: ks)); [|done]. apply Z.eqb_eq in Hl. lia. }
  pose proof (all_complete _ Dc Hm) as [Hk Hks]%Forall_cons_1.
  assert (Hm' : missing (ks ++ [k]) = 0).
  { unfold missing. rewrite last_snoc. apply Z.eqb_eq in Hk. lia. }
  split; rewrite ?removelast_last, ?rest_nil, ?Hm'; try done.
  - apply Forall_cons_1 in De as [Hk' De]. apply Forall_app. split; [done|by constructor].
  - by rewrite Dl, Hm.
  - exists ss. split; [by rewrite <- Hm|]. split.
    + rewrite <- Dp, map_app. cbn. by rewrite (Permutation_app_comm _ [_]).
    + intros Hpos. rewrite <- Dcur by done. rewrite Hm in Dq. destruct ss as [|s ss _] using rev_ind.
      * inversion Dq; lia.
      * by rewrite !app_assoc, !last_snoc.
  - rewrite load_rotate, length_app. cbn [length] in *. lia.
  - apply Forall_cons_1 in Dans as [Dk Dans]. split.
    + apply Forall_app. split; [done|by constructor].
    + intros s Hs. rewrite Dbeats by done. cbn. destruct (decide _), (ks ++ [k]); try done; by destruct (decide _).
Qed.

(** A last request that is not atomic is whole. *)
Lemma queued_last v k l ss k' r b :
  queued v k l ss k' -> list.last l = Some (r, b) -> atomic_a b = false -> k' = 0.
Proof.
  assert (Hnext : forall (x y : bool * tl_a) l, list.last (x :: l) = Some y -> l = [] /\ x = y \/ list.last l = Some y).
  { intros x y [|z l0] Hy; [left; by injection Hy|by right]. }
  induction 1 as [k|k r' b' l ss k' _ Hat _ IH|r' b' l ss k' _ _ Hq IH]; intros Hl Hb; [done|..];
    (apply Hnext in Hl as [[-> [= -> ->]]|Hl]; [|by apply IH]); [congruence|].
  unfold more in Hq. rewrite Hb in Hq. by inversion Hq.
Qed.

(** Requests that are moved to the end of the queue are whole, and so is the one they
    are moved behind. *)
Lemma device_reorders v coming receiving away effort ks bs q ids :
  device_queue v coming receiving away effort ks bs q ids ->
  device_queue v coming receiving away effort ks bs (reorder_requests_d q) ids.
Proof.
  intros [De Dc Dl (ss & Dq & Dp & Dcur) Dr Drec Di Df Ds]. split; try done; cbn; [|by rewrite Dr].
  destruct (a_requests q) as [|[r b] l] eqn:Hq; [by exists ss|].
  destruct (list.last ((r, b) :: l)) as [[r' b']|] eqn:Hl; [|by exists ss].
  destruct (atomic (a_opcode b)) eqn:Hb; [by exists ss|]. destruct (atomic (a_opcode b')) eqn:Hb'; [by exists ss|].
  pose proof (queued_last _ _ _ _ _ _ _ Dq Hl Hb') as Hc. cbn [orb rotate].
  inversion Dq as [|k0 r0 b0 l0 ss0 k1 _ Hat _|r0 b0 l0 ss' k1 Hok Hheld Hrest]; subst; [unfold atomic_a in Hat; congruence|].
  assert (Hm : more b = 0) by (unfold more, atomic_a; by rewrite Hb). rewrite Hm in Hrest.
  exists (ss' ++ [a_source b]). split.
  - eapply queued_app; [exact Hrest|]. apply queued_first; [done|done|]. rewrite Hm. constructor.
  - split; [by rewrite (Permutation_app_comm ss')|lia].
Qed.

(** ** The end of the work *)

Lemma most_pos : 1 <= most.
Proof using Type. apply num_beats_pos. Qed.

Lemma host_done p v coming counting away effort ks bs q ids :
  host_queue p v coming counting away effort ks bs q ids -> accepted_fewer ks bs -> blocked ks bs ->
  coming = 0 /\ effort = 0.
Proof.
  intros [He _ _ _ Hc _ _ Hf _] Ha Hb. destruct ks as [|k ks].
  - cbn in Ha. subst bs coming effort. rewrite rest_nil. unfold load. cbn. lia.
  - apply Forall_cons_1 in He as [[_ _ Hr] _]. cbn in Ha, Hb. lia.
Qed.

(** When all requests are answered and no further beats come, a device that cannot send
    has nothing to send. *)
Lemma device_done v receiving away effort ks bs q ids :
  device_queue v 0 receiving away effort ks bs q ids -> a_requests q = [] -> accepted_fewer ks bs -> blocked ks bs ->
  device_queue v 0 receiving away 0 ks bs q ids.
Proof.
  intros [De Dc Dl (ss & Dq & Dp & Dcur) Dr Drec Di Df Ds] Hq Ha Hb. rewrite Hq in Dq.
  assert (Hm : missing ks = 0 /\ ss = []) by (by inversion Dq). destruct Hm as [Hm ->].
  pose proof (all_complete ks Dc Hm) as Hall. destruct ks as [|k ks].
  - cbn in Dp, Ha. subst bs. apply Permutation_nil in Dp. subst away.
    split; try done; [by exists []; rewrite Hq|]. unfold load. cbn. lia.
  - apply Forall_inv in Hall. apply Z.eqb_eq in Hall. cbn in Ha, Hb. lia.
Qed.

Lemma load_bounds {C} (n : Z) (ks : list (entry C)) bs :
  Forall (fun k => 1 <= e_total k <= n) ks -> accepted_fewer ks bs ->
  0 <= load ks bs <= n * Z.of_nat (length ks) /\ (load ks bs = 0 -> ks = []).
Proof using Type.
  intros Hall Ha. assert (Hsum : forall l, Forall (fun k : entry C => 1 <= e_total k <= n) l ->
    0 <= foldr (fun k n => e_total k + n) 0 l <= n * Z.of_nat (length l)).
  { induction 1 as [|k l Hk _ IH]; cbn [foldr length]; [lia|]. rewrite Nat2Z.inj_succ, Z.mul_succ_r. lia. }
  unfold load. destruct ks as [|k ks]; [cbn in Ha; subst bs; split; [cbn; lia|done]|].
  apply Forall_cons_1 in Hall as [Hk Hks]. specialize (Hsum ks Hks). cbn [foldr length] in *. cbn in Ha.
  rewrite Nat2Z.inj_succ, Z.mul_succ_r. split; [lia|]. intros. lia.
Qed.

Lemma host_load p v coming counting away effort ks bs q ids :
  host_queue p v coming counting away effort ks bs q ids -> accepted_fewer ks bs ->
  0 <= load ks bs <= most * Z.of_nat (length ks) /\ (load ks bs = 0 -> ks = []).
Proof.
  intros HA. apply load_bounds. eapply Forall_impl; [|apply (host_entries _ _ _ _ _ _ _ _ _ _ HA)].
  intros k [[_ [Hs _]] -> _]. unfold beats_a. split; [apply num_beats_pos|by apply num_beats_most].
Qed.

Lemma device_load v coming receiving away effort ks bs q ids :
  device_queue v coming receiving away effort ks bs q ids -> accepted_fewer ks bs ->
  0 <= load ks bs <= most * Z.of_nat (length ks) /\ (load ks bs = 0 -> ks = [])
  /\ Z.of_nat (length ks) <= Z.of_nat (length away).
Proof.
  intros HD Ha. pose proof (device_entries _ _ _ _ _ _ _ _ _ HD) as He.
  assert (Hl : 0 <= load ks bs <= most * Z.of_nat (length ks) /\ (load ks bs = 0 -> ks = [])).
  { apply load_bounds; [|done]. eapply Forall_impl; [|exact He].
    intros k [_ Hs -> _ _ _ _]. unfold beats_d. split; [apply num_beats_pos|by apply num_beats_most]. }
  split; [apply Hl|]. split; [apply Hl|].
  destruct (device_queued _ _ _ _ _ _ _ _ _ HD) as (ss & _ & Hp & _). apply Permutation_length in Hp.
  rewrite length_app, length_map in Hp. lia.
Qed.

(** Without work that is left, all queues are empty and no identifier is in use. *)
Lemma no_effort p v coming counting receiving away eh ed ks bs q ids ds dbs qd idsd :
  host_queue p v coming counting away eh ks bs q ids -> device_queue v coming receiving away ed ds dbs qd idsd ->
  accepted_fewer ks bs -> accepted_fewer ds dbs -> eh + ed <= 0 ->
  ids = ∅ /\ ks = [] /\ ds = [] /\ a_requests qd = [].
Proof.
  intros HA HD Ha Hd He. pose proof most_pos as Hm.
  destruct (host_load _ _ _ _ _ _ _ _ _ _ HA Ha) as [[Hl _] Hks].
  destruct (device_load _ _ _ _ _ _ _ _ _ HD Hd) as ([Hld _] & Hnil & Hn).
  pose proof (host_effort _ _ _ _ _ _ _ _ _ _ HA) as Heh. pose proof (device_effort _ _ _ _ _ _ _ _ _ HD) as Hed.
  assert (Hw : length (waiting ks bs) = 0%nat) by nia.
  assert (Haw : Z.of_nat (length away) = Z.of_nat (length ds)) by nia.
  assert (ds = []) as -> by (apply Hnil; nia). destruct away; [|done].
  split; [rewrite (host_ids _ _ _ _ _ _ _ _ _ _ HA); by destruct (waiting ks bs)|].
  split; [apply Hks; nia|]. split; [done|].
  destruct (device_queued _ _ _ _ _ _ _ _ _ HD) as (ss & Hq & Hp & _). cbn [map app] in Hp.
  symmetry in Hp. apply Permutation_nil in Hp. subst ss. inversion Hq; [done|unfold missing in *; cbn in *; lia].
Qed.

(** The work is bounded by the number of identifiers. *)
Lemma effort_bound p v coming counting receiving away eh ed ks bs q ids ds dbs qd idsd :
  host_queue p v coming counting away eh ks bs q ids -> device_queue v coming receiving away ed ds dbs qd idsd ->
  accepted_fewer ks bs -> accepted_fewer ds dbs ->
  exists ed', device_queue v coming receiving away ed' ds dbs qd idsd
    /\ eh + ed' <= most * (2 * (last_id p - first_id p + 1) + 1).
Proof.
  intros HA HD Ha Hd. pose proof most_pos as Hm.
  destruct (host_load _ _ _ _ _ _ _ _ _ _ HA Ha) as [[_ Hl] _].
  destruct (device_load _ _ _ _ _ _ _ _ _ HD Hd) as ([_ Hld] & _ & Hn).
  exists (load ds dbs + most * (Z.of_nat (length away) - Z.of_nat (length ds))).
  split; [destruct HD; by split|]. rewrite <- (host_effort _ _ _ _ _ _ _ _ _ _ HA).
  assert (Hks : Z.of_nat (length ks) <= Z.of_nat (length (waiting ks bs)) + 1).
  { destruct ks as [|k ks]; [cbn; lia|]. unfold waiting. rewrite length_app, length_map. cbn [length]. lia. }
  assert (Hids : Z.of_nat (length (waiting ks bs)) + Z.of_nat (length away) <= last_id p - first_id p + 1).
  { pose proof (host_unique _ _ _ _ _ _ _ _ _ _ HA) as Hu. destruct (host_range _ _ _ _ _ _ _ _ _ _ HA) as [Hr Hc].
    rewrite (host_ids _ _ _ _ _ _ _ _ _ _ HA) in Hr.
    assert (Hsub : (list_to_set (waiting ks bs ++ away) : gset Z) ⊆ all_ids p).
    { intros x Hx. apply elem_of_all_ids. by apply Hr. }
    apply subseteq_size in Hsub. rewrite size_list_to_set in Hsub by done. rewrite length_app in Hsub.
    pose proof (size_all_ids p ltac:(lia)). lia. }
  nia.
Qed.

End wired.
