(* ===== verification/TlWiredSenders.v ===== *)
(** * The senders of a host and a device that are wired together

    The invariants of [TlWired] are kept by the sender of channel A, when it queues a
    request and in a cycle, and by the sender of channel D, when it answers requests and
    in a cycle; neither can fail. *)

From S2P Require Import Prelude Exceptions TileLink TlEndpoint TlMessages TlMessagesTheorems.
From S2P Require Import TlChannels TlHarness TlSender TlSenderTheorems TlQueue TlResponder TlTraffic TlWired.

Import Sender.
Open Scope Z_scope.

(** A host and a device without caches, of the same width. *)
Record wired_endpoints (fuel : nat) (p d : endpoint) : Prop := {
  wired_host : ordinary fuel (Network [p] [d]) p;
  wired_host_protocol : protocol_level (protocol p) <= 1;
  wired_device_protocol : protocol_level (protocol d) <= 1;
  wired_width : bit_width d = bit_width p;
  wired_device_ids : first_id d <= last_id d < first_id d + 2 ^ 31 - 1;
}.

Section senders.

Context {G : Type} `{Random G} `{Indeterminate}.
Context (fuel : nat) (p d : endpoint).
Hypothesis endpoints : wired_endpoints fuel p d.

#[local] Set Default Proof Using "All".

Abbreviation net := (Network [p] [d]).
Abbreviation width := (width_bytes p).
Abbreviation level := (protocol_level (protocol p)).

Lemma host_width : bit_width p = 8 * width /\ 0 < width.
Proof using endpoints.
  destruct endpoints as [[_ [_ _ [Hw Hc] _] _] _ _ _ _]. unfold width_bytes. rewrite Hw.
  rewrite Z.mul_comm, Z.quot_mul by lia. split; [lia|]. apply Z.pow_pos_nonneg; lia.
Qed.

Lemma host_limit : 0 <= max_size p < 28.
Proof using endpoints. destruct endpoints as [[_ [_ _ _ Hs] _] _ _ _ _]. lia. Qed.

Lemma device_width : bit_width d = 8 * width_bytes d /\ width_bytes d = width.
Proof using endpoints.
  assert (Hw : width_bytes d = width) by (unfold width_bytes; by rewrite (wired_width _ _ _ endpoints)).
  split; [|done]. rewrite Hw, (wired_width _ _ _ endpoints). apply host_width.
Qed.

(** ** Beats *)

(** Code that cannot fail. *)
Lemma ends_runs {A} (k : M exn G A) P :
  ends False False k P -> forall g, exists a g', k g = (Ok a, g') /\ P a.
Proof.
  intros Hk g. specialize (Hk g). destruct (k g) as [[a|[]| | | |] g']; try done. by exists a, g'.
Qed.

Lemma next_beat_a_ends r m : ends False False (next_beat_a (G := G) r m) (fun _ => True).
Proof.
  eapply ends_bind with (P := fun _ => True).
  { destruct (_ && _); [|by apply ends_ret]. eapply ends_bind; [apply ends_rand|]. intros n _. by apply ends_ret. }
  intros mask _. eapply ends_bind with (P := fun _ => True); [|by intros c _; apply ends_ret].
  destruct (_ && _); [apply ends_random_bool|by apply ends_ret].
Qed.

(** ** Requests *)

Lemma legal_request_ok r : legal_beat net p r -> request_ok (max_size p) level r.
Proof.
  intros Hl. destruct Hl as [(e & _ & Hp & _) _ Hs _ _ _ _]. pose proof (wired_host_protocol _ _ _ endpoints).
  unfold supports in Hp. split; [|split; [lia|done]]. destruct (a_opcode r); cbn in Hp |- *; try done; lia.
Qed.

(** A new request is created, if there is an identifier for it. *)
Lemma request_created ids :
  ids_ok p ids -> TransactionId.can_start_new_transaction p ids = true ->
  safe True (fun _ => True) (a_request (G := G) fuel net p ids true ∅)
    (fun m _ => fresh m /\ a_entry_ok width (max_size p) level (entry_of m) /\ in_range p (a_source (header m))
                /\ a_source (header m) ∉ ids).
Proof.
  intros Hids Hcan g _. destruct host_width as [_ Hw].
  pose proof (a_request_fresh fuel net p ids true ∅ g) as Hfresh.
  destruct (wired_host _ _ _ endpoints) as [Hf Hconf _].
  pose proof (new_a_request_run fuel net p ids (lanes p) Hconf Hids Hf g) as Hrun.
  unfold a_request in Hfresh |- *. rewrite bind_run in Hfresh |- *.
  destruct (new_a_request fuel net p ids true g) as [[r|[]| | | |] g1]; cbn [fst] in Hrun; try done.
  - assert (Hr : modify_a r ∅ = r) by (destruct r; done). rewrite Hr in *.
    pose proof (num_beats_pos width (a_has_payload (a_opcode r)) (a_size r)) as Hn.
    assert (Hs : sized_message (G := G) p (num_beats (a_has_payload (a_opcode r)) (a_size r) width)
        (num_beats (a_has_payload (a_opcode r)) (a_size r) width) r g1
      = (Ok (Message width (num_beats (a_has_payload (a_opcode r)) (a_size r) width)
               (num_beats (a_has_payload (a_opcode r)) (a_size r) width) 0 r), g1)).
    { unfold sized_message. rewrite (proj2 (Z.ltb_lt _ _) Hw), (proj2 (Z.ltb_lt 0 _)) by lia. done. }
    rewrite Hs in Hfresh |- *. split; [by eapply Hfresh|]. cbn [header entry_of].
    destruct (legal_source _ _ _ _ _ Hrun) as [Hin Hout]. split; [|done].
    split; cbn; [|done|done]. apply legal_request_ok. by eapply legal_without_ids.
  - exfalso. apply (can_start_spec p ids Hids) in Hcan as (id & Hin & Hout). by apply Hout, Hrun.
Qed.

Section host.

Context (v : registers) (coming counting : Z) (away : list Z).

Abbreviation I effort := (host_queue width (max_size p) level p v coming counting away effort).
Abbreviation kept_a effort := (kept_outputs (methods := methods_a p) (G := G) (I effort)).

Lemma host_invariant effort : queue_invariant (methods := methods_a p) (G := G) (I effort) (I effort).
Proof.
  split.
  - intros k ks q ids _ Hk _. by apply host_rotates; [apply host_width|apply host_limit|].
  - by intros ks bs q ids _ Hk.
  - by apply safe_ret.
  - done.
  - intros r m ks bs q ids g _ _ _. destruct (ends_runs _ _ (next_beat_a_ends r m) g) as ([b m'] & g' & ? & _).
    by exists b, m', g'.
Qed.

(** A new request joins the queue. *)
Lemma queue_request_safe effort :
  safe True (kept_a effort) (TlChannels.queue_request_a (G := G) fuel net p true ∅)
    (fun _ w => exists effort', kept_a effort' w).
Proof.
  intros w [(ks & bs & Hh & HI) Ha]. unfold TlChannels.queue_request_a. erewrite bind_ok by done. cbv beta.
  destruct (TransactionId.can_start_new_transaction p (ids_in_use (self w))) eqn:Hcan;
    [|by exists effort; split; [exists ks, bs|]].
  pose proof (request_created _ (host_range _ _ _ _ _ _ _ _ _ _ _ _ _ HI) Hcan (generator w) Logic.I) as Hc.
  rewrite bind_run. unfold create. rewrite bind_run. cbn [gets fst snd]. unfold draw, zoom.
  destruct (a_request fuel net p (ids_in_use (self w)) true ∅ (generator w)) as [[m| | | | |] g]; try done.
  destruct Hc as (Hm & Hok & Hin & Hout). cbn [fst snd]. erewrite bind_ok by done.
  rewrite start_transaction_run by exact Hout.
  match goal with |- exists effort', kept_a effort' ?w' => set (w1 := w') end.
  destruct (holds_push w w1 ks bs m Hh Hm) as [Hh1 Hbs]; try done.
  eexists. split; [|done]. exists (ks ++ [entry_of m]), bs. split; [exact Hh1|].
  apply (host_adds width (max_size p) level (proj2 host_width) (proj2 host_limit) p v coming counting away effort ks bs (entry_of m));
    try done.
Qed.

End host.

(** ** The sender of the device *)

Section device.

Context (v : registers) (coming receiving : Z) (away : list Z) (effort : Z) (bs : list tl_d).

Implicit Types w : state tl_d queue_d G.

Abbreviation I := (device_queue width (max_size p) level v coming receiving away effort).
Abbreviation pop_a w := (pop_front a_requests set_a_requests w).

(** What the loop that answers requests keeps. *)
Record answering w : Prop := {
  answering_queue : I (map entry_of (to_send (self w))) bs (requests (self w)) (ids_in_use (self w));
  answering_started : to_send (self w) = [] -> bs = [];
}.

Lemma last_entry w : list.last (map entry_of (to_send (self w))) = entry_of <$> list.last (to_send (self w)).
Proof. apply (fmap_last entry_of). Qed.

(** Another beat of an atomic operation. *)
Lemma more_answered w r b l ss :
  answering w -> a_requests (requests (self w)) = (r, b) :: l ->
  0 < missing (map entry_of (to_send (self w))) -> atomic_a b = true ->
  queued width (max_size p) level v (missing (map entry_of (to_send (self w))) - 1) l ss coming ->
  map (fun k => d_source (e_header k)) (map entry_of (to_send (self w))) ++ ss ≡ₚ away ->
  (0 < coming -> list.last (map (fun k => d_source (e_header k)) (map entry_of (to_send (self w))) ++ ss) = head away) ->
  exists w1, respond_d_to_a fuel d (r, b) w = (Ok tt, w1) /\ answering (pop_a w1)
    /\ a_requests (requests (self (pop_a w1))) = l.
Proof.
  intros [[De Dc Dl _ Dr Drec Di Df [Dans Dbeats]] Hbs] Hq Hm Hat Hqueued Hp Hcur.
  destruct (to_send (self w)) as [|m l0 _] eqn:Hts using rev_ind; [by cbn in Hm|].
  unfold missing in Hm, Hqueued. rewrite map_app in *. cbn [map] in *. rewrite last_snoc in Hm, Hqueued.
  cbn [entry_of e_total e_ready] in Hm, Hqueued. rewrite removelast_last in Dc.
  destruct (more_response_run fuel d r b w l0 m Hat Hts ltac:(lia)) as (w1 & m1 & Hrun & Hm1 & [Ats Alk Aqa Aqc _] & Aids).
  exists w1. split; [exact Hrun|]. unfold new_beat_ready in Hm1. destruct (_ <? _) eqn:Hlt in Hm1; [|done].
  injection Hm1 as Hm1. apply Z.ltb_lt in Hlt.
  assert (He : entry_of m1 = Entry (header m) (beats_to_send m) (beats_ready m + 1)) by (by rewrite <- Hm1).
  assert (Hql : a_requests (requests (self (pop_a w1))) = l) by (cbn; by rewrite Aqa, Hq).
  split; [|exact Hql]. split; cbn [self pop_front on_self to_send set_requests requests ids_in_use];
    rewrite ?Ats, ?map_app; cbn [map]; rewrite ?He.
  2: by destruct l0.
  apply Forall_app in De as [De [[Do Ds Dt [Dr1 Dr2] Dpar Dcor Dden] _]%Forall_cons_1]. cbn in Do, Ds, Dt, Dr1, Dr2.
  split; rewrite ?removelast_last; unfold missing; rewrite ?last_snoc; cbn [e_total e_ready].
  - apply Forall_app. split; [done|]. constructor; [|done]. split; cbn; try done; lia.
  - done.
  - cbn. rewrite Alk. unfold complete. rewrite <- Hm1. cbn.
    destruct (Z.eqb_spec (beats_to_send m) (beats_ready m + 1)) as [Heq|Hne]; cbn;
      [symmetry; apply Z.ltb_ge|symmetry; apply Z.ltb_lt]; lia.
  - exists ss. split; [|by rewrite map_app in Hp, Hcur |- *].
    replace (beats_to_send m - (beats_ready m + 1)) with (beats_to_send m - beats_ready m - 1) by lia.
    cbn. rewrite Aqa, Hq. exact Hqueued.
  - cbn. by rewrite Aqc.
  - rewrite <- Drec. by destruct l0.
  - by rewrite Aids.
  - rewrite !map_app in *. cbn [map] in *. rewrite load_snoc, length_app in *. exact Df.
  - rewrite ?map_app in *. cbn [map] in *. apply Forall_app in Dans as [Dans [Dk _]%Forall_cons_1].
    split; [apply Forall_app; split; [done|by constructor]|]. intros s Hs. rewrite Dbeats by done. by destruct l0.
Qed.

(** The response to a request that the device has not answered yet. *)
Record new_entry (b : tl_a) (m : tl_message tl_d) : Prop := {
  new_entry_ok : d_entry_ok width (max_size p) (entry_of m);
  new_entry_source : d_source (header m) = a_source b;
  new_entry_missing : beats_to_send m - beats_ready m = more width b;
  new_entry_acks : granted ∅ (header m) = ∅;
  new_entry_answers : d_answers (a_opcode b) (d_opcode (header m)) /\ d_size (header m) = a_size b;
}.

Lemma response_entry b m : request_ok (max_size p) level b -> response_for d ∅ b m -> new_entry b m.
Proof.
  intros [Hu [Hs _]] (Hans & Hg & Htotal & Hready). pose proof device_width as [Hdw Hdp].
  pose proof host_width as [_ Hw]. pose proof host_limit as Hlimit.
  destruct Hans as [Aop [Asize Asource] _ Apar Aden Acor].
  assert (Hop : d_opcode (header m) = AccessAck \/ d_opcode (header m) = AccessAckData \/ d_opcode (header m) = HintAck).
  { destruct (a_opcode b); inversion Aop; try done; auto. }
  assert (Htot : beats_to_send m = beats_d width (header m)).
  { unfold beats_d. rewrite Asize, Htotal, Hdp. symmetry. apply num_beats_run; lia. }
  pose proof (num_beats_pos width (d_has_payload (d_opcode (header m))) (d_size (header m))) as Hpos.
  change (1 <= beats_d width (header m)) in Hpos. rewrite <- Htot in Hpos.
  split; [|done| |unfold granted; by destruct Hop as [-> | [-> | ->]]|done].
  - split; cbn; try done; [by rewrite Asize| | |].
    + rewrite Hready. destruct (a_opcode b); lia.
    + destruct Hop as [Hop|[Hop|Hop]]; rewrite Hop in Apar; cbn in Apar; lia.
    + intros Hd. by apply Aden.
  - rewrite Hready, Htot. unfold more, beats_a, beats_d, atomic_a. rewrite Asize.
    destruct (a_opcode b); inversion Aop; cbn [atomic a_has_payload d_has_payload]; try done; lia.
Qed.

(** No message in the queue waits for beats. *)
Lemma respond_new w r b :
  Forall (fun k => e_complete k = true) (map entry_of (to_send (self w))) ->
  respond_d_to_a fuel d (r, b) w = new_response_a fuel d (r, b) w.
Proof.
  intros Hc. unfold respond_d_to_a. erewrite bind_ok by done. cbv beta. unfold unfinished_back.
  destruct (list.last (to_send (self w))) as [m|] eqn:Hlast; [|by destruct (atomic _)].
  assert (complete m = true) as ->; [|by destruct (atomic _)].
  rewrite Forall_forall in Hc. apply (Hc (entry_of m)), in_map, list_elem_of_In. by apply last_Some_elem_of.
Qed.

Lemma response_runs w r b :
  Forall (fun k => e_complete k = true) (map entry_of (to_send (self w))) -> request_ok (max_size p) level b ->
  lock_output_buffer (requests (self w)) = false -> ids_in_use (self w) = ∅ ->
  exists m w1, respond_d_to_a fuel d (r, b) w = (Ok tt, w1) /\ new_entry b m
    /\ answered w w1 (to_send (self w) ++ [m]) (negb (complete m)) /\ ids_in_use (self w1) = ∅.
Proof.
  intros Hc Hok Hlock Hnone. rewrite respond_new by done. pose proof Hok as [Hu [Hs _]].
  pose proof device_width as [Hdw Hdp]. pose proof host_width as [_ Hw]. pose proof host_limit as Hlimit.
  assert (Hans : answerable d b).
  { split; [by intros n Hn; rewrite Hn in Hu|lia|apply (wired_device_ids _ _ _ endpoints)|].
    split; [done|]. lia. }
  assert (Hids : ids_ok d (ids_in_use (self w))).
  { rewrite Hnone. pose proof (wired_device_ids _ _ _ endpoints). split; [by apply set_Forall_empty|lia]. }
  pose proof (new_response_run fuel d r b w Hans Hids Hlock) as Hrun.
  assert (Hnot : ~ acquires b) by (unfold acquires; by destruct (a_opcode b)).
  destruct (new_response_a fuel d (r, b) w) as [[[]|[]| | | |] w1]; [|exfalso; tauto..].
  destruct Hrun as (m & Hm & Hans' & Hgrant). rewrite Hnone in Hm, Hgrant.
  exists m, w1. split; [done|]. pose proof (response_entry b m Hok Hm) as Hentry.
  split; [exact Hentry|]. split; [exact Hans'|]. by rewrite Hgrant, (new_entry_acks _ _ Hentry).
Qed.

Lemma first_answered w r b l ss :
  answering w -> a_requests (requests (self w)) = (r, b) :: l ->
  missing (map entry_of (to_send (self w))) = 0 -> request_ok (max_size p) level b -> held v b ->
  queued width (max_size p) level v (more width b) l ss coming ->
  map (fun k => d_source (e_header k)) (map entry_of (to_send (self w))) ++ a_source b :: ss ≡ₚ away ->
  (0 < coming -> list.last (map (fun k => d_source (e_header k)) (map entry_of (to_send (self w))) ++ a_source b :: ss) = head away) ->
  exists w1, respond_d_to_a fuel d (r, b) w = (Ok tt, w1) /\ answering (pop_a w1)
    /\ a_requests (requests (self (pop_a w1))) = l.
Proof.
  intros [[De Dc Dl _ Dr Drec Di Df [Dans Dbeats]] Hbs] Hq Hm Hok Hheld Hqueued Hp Hcur. pose proof host_limit as Hlimit.
  rewrite Hm in Dl. pose proof (all_complete _ Dc Hm) as Hcomplete.
  destruct (response_runs w r b Hcomplete Hok Dl Di)
    as (m & w1 & Hrun & [Hentry Hsource Hmissing _ Hanswers] & [Ats Alk Aqa Aqc _] & Aids).
  exists w1. split; [done|]. pose proof Hentry as [_ Hsize Htotal [Hr1 Hr2] _ _ _]. cbn in Hsize, Htotal, Hr1, Hr2.
  assert (Hmost : beats_to_send m <= most width (max_size p)).
  { rewrite Htotal. apply num_beats_most; [apply host_width|lia|done]. }
  assert (Hql : a_requests (requests (self (pop_a w1))) = l) by (cbn; by rewrite Aqa, Hq).
  split; [|exact Hql]. split; cbn [self pop_front on_self to_send set_requests requests ids_in_use];
    rewrite ?Ats, ?map_app; cbn [map].
  2: by destruct (to_send (self w)).
  split; rewrite ?removelast_last; unfold missing; rewrite ?last_snoc; cbn [entry_of e_total e_ready].
  - apply Forall_app. split; [done|]. by constructor.
  - done.
  - cbn. rewrite Alk. unfold complete. destruct (Z.eqb_spec (beats_to_send m) (beats_ready m)) as [Heq|Hne]; cbn;
      [symmetry; apply Z.ltb_ge|symmetry; apply Z.ltb_lt]; lia.
  - exists ss. split; [cbn; rewrite Aqa, Hq, Hmissing; exact Hqueued|].
    rewrite map_app, <- app_assoc. cbn. by rewrite Hsource.
  - cbn. by rewrite Aqc.
  - rewrite <- Drec. destruct (to_send (self w)); [|done]. rewrite Hbs by done. cbn. by rewrite andb_false_r.
  - done.
  - rewrite load_snoc, length_app. cbn [entry_of e_total length]. lia.
  - split.
    + apply Forall_app. split; [done|]. constructor; [|done]. unfold answering_held. cbn. rewrite Hsource.
      destruct Hheld as (-> & _ & -> & _). exact Hanswers.
    + intros s Hs. rewrite Dbeats by done. destruct (to_send (self w)); [|done]. rewrite Hbs by done. cbn. by case_decide.
Qed.

(** All requests in the queue are answered. *)
Lemma queue_answered l : forall w, answering w -> a_requests (requests (self w)) = l ->
  exists w', answer a_requests set_a_requests (fifo d) (respond_d_to_a fuel d) (length l) w = (Ok true, w')
    /\ answering w' /\ a_requests (requests (self w')) = [].
Proof.
  induction l as [|[r b] l IH]; intros w Hw Hq; [by exists w|].
  destruct (device_queued _ _ _ _ _ _ _ _ _ _ _ _ (answering_queue w Hw)) as (ss & Hqueued & Hp & Hcur). rewrite Hq in Hqueued.
  assert (Hstep : exists w1, respond_d_to_a fuel d (r, b) w = (Ok tt, w1) /\ answering (pop_a w1)
    /\ a_requests (requests (self (pop_a w1))) = l).
  { inversion Hqueued as [|k r' b' l' ss' k' Hk Hat Hrest|r' b' l' ss' k' Hok Hheld Hrest]; subst.
    - by eapply more_answered.
    - by eapply first_answered. }
  destruct Hstep as (w1 & Hrun & Hw1 & Hq1). rewrite length_cons.
  erewrite answer_step by (exact Hq || exact Hrun). by apply IH.
Qed.

(** The whole of [respond]: there are no releases. *)
Lemma respond_answers w :
  answering w -> exists w', respond_d fuel d w = (Ok tt, w') /\ answering w' /\ a_requests (requests (self w')) = [].
Proof.
  intros Hw. destruct (queue_answered _ w Hw eq_refl) as (w' & Hrun & Hw' & Hnil).
  exists w'. split; [|done]. unfold respond_d. erewrite bind_ok by exact Hrun. erewrite bind_ok by done. cbv beta.
  unfold answer_all. pose proof (device_releases _ _ _ _ _ _ _ _ _ _ _ _ (answering_queue w' Hw')) as Hc.
  destruct (negb _); cbn [andb when]; [|done].
  erewrite bind_ok; [done|]. erewrite bind_ok by done. cbv beta. by rewrite Hc.
Qed.

End device.

Lemma resting_answering w v coming receiving away effort ks bs :
  resting (G := G) (methods := methods_d fuel d) w ks bs ->
  device_queue width (max_size p) level v coming receiving away effort ks bs (requests (self w)) (ids_in_use (self w)) ->
  answering v coming receiving away effort bs w.
Proof.
  intros [Hf _ _ ->] HI. split; [exact HI|]. intros Hnil. pose proof (flight_front _ _ Hf) as Ff.
  rewrite Hnil in Ff. by destruct Ff.
Qed.

(** Responding leaves the beat that comes next alone. *)
Lemma extends_resting w w' ks bs :
  extends w w' -> resting (G := G) (methods := methods_d fuel d) w ks bs ->
  resting (methods := methods_d fuel d) w' (map entry_of (to_send (self w'))) bs.
Proof.
  intros Hx [Hf Hu [Hv Ha] _]. destruct (extends_in_flight w w' bs Hx Hf) as [Hf' [new Hn]].
  split; [exact Hf'| |split; [rewrite (extends_valid _ _ Hx); exact Hv|rewrite (extends_accepted _ _ Hx); exact Ha]|done].
  unfold unsent in *. destruct (to_send (self w')) as [|m' l'] eqn:Hq'; [done|].
  destruct (to_send (self w)) as [|m l] eqn:Hq.
  - pose proof (flight_front _ _ Hf) as Ff. rewrite Hq in Ff. destruct Ff as [-> _].
    pose proof (flight_ok _ _ Hf') as Fo. rewrite Hq' in Fo. apply Forall_inv in Fo as [? ? ? ?]. cbn. lia.
  - cbn in Hn. unfold identity in Hn. injection Hn as _ -> _ _. done.
Qed.

Lemma next_beat_d_ends r m : ends False False (next_beat_d (G := G) r m) (fun _ => True).
Proof. by eapply ends_weaken; [apply next_beat_d_run|]. Qed.

(** All requests are answered. *)
Definition device_answered v coming receiving away effort ks bs (q : queue_d) ids : Prop :=
  device_queue width (max_size p) level v coming receiving away effort ks bs q ids /\ a_requests q = [].

Lemma device_invariant v coming receiving away effort :
  queue_invariant (methods := methods_d fuel d) (G := G)
    (device_queue width (max_size p) level v coming receiving away effort) (device_answered v coming receiving away effort).
Proof.
  split.
  - intros k ks q ids _ Hk Hl. by apply device_rotates; [apply host_width|apply host_limit|..].
  - intros ks bs q ids _ Hk. by apply device_reorders; [apply host_width|apply host_limit|..].
  - intros w (ks & bs & Hr & HI).
    destruct (respond_answers v coming receiving away effort bs w) as (w' & Hrun & [Hq _] & Hnil); [by eapply resting_answering|].
    cbn [respond methods_d]. rewrite Hrun. exists (map entry_of (to_send (self w'))), bs. split; [|by split].
    eapply extends_resting; [|exact Hr]. pose proof (respond_d_growing fuel d w) as [Hx _]. by rewrite Hrun in Hx.
  - by intros ks bs q ids [HI _].
  - intros r m ks bs q ids g _ _ _. destruct (ends_runs _ _ (next_beat_d_ends r m) g) as ([b m'] & g' & ? & _).
    by exists b, m', g'.
Qed.

End senders.
