(* ===== verification/TlWatched.v ===== *)
(** * The checker on the traffic of a host and a device

    A checker of [rtl/tl_assert.sv] at the wires between a host and a device without
    caches: what an edge of the clock does to its registers, and that none of its
    assertions fails for a beat that the queues of [TlWired] offer. *)

From S2P Require Import Prelude Exceptions TileLink TlEndpoint TlMessages TlMessagesTheorems.
From S2P Require Import TlChannels TlHarness TlSender TlSenderTheorems TlQueue TlTraffic.
From S2P Require Import TlAssertions TlAssertionsTheorems TlWired TlWiredSenders.

Import Assertions.
Open Scope Z_scope.

(** ** An edge of the clock *)

Section edge.

Context (width : Z).

Implicit Types (m : monitor) (l : links) (s : Z).

(** The registers of channel A when the requests that have been answered are cleared. *)
Definition registers_of m : registers := fun s => pending (clear_d width m) s.

Definition uncached_response (d : tl_d) : Prop :=
  d_opcode d = AccessAck \/ d_opcode d = AccessAckData \/ d_opcode d = HintAck.

(** Signals without traffic on the channels of caches. *)
Record uncached_signals l : Prop := {
  unused_b : valid (link_b l) = false;
  unused_c : valid (link_c l) = false;
  unused_e : valid (link_e l) = false;
  uncached_d d : accepted (link_d l) = Some d -> uncached_response d;
}.

(** A checker that has not seen any. *)
Record orderly m : Prop := {
  orderly_c : c_pending m = ∅;
  orderly_d : d_pending m = ∅;
  orderly_signals : uncached_signals (signals m);
}.

Lemma pending_set s r m s' : pending (set_pending s r m) s' = if decide (s' = s) then r else pending m s'.
Proof.
  unfold pending, set_pending. cbn. case_decide as Hs; [subst; by rewrite lookup_insert_eq|]. by rewrite lookup_insert_ne.
Qed.

Lemma not_accepted {C} (w : wires C) : valid w = false -> accepted w = None.
Proof. unfold accepted. by intros ->. Qed.

Definition counted {A} (o : option A) (f : A -> registers -> registers) (v : registers) : registers :=
  match o with Some a => f a v | None => v end.

Lemma count_request_pending b m s : pending (count_request b m) s = request_seen b (pending m) s.
Proof.
  unfold count_request, request_seen. rewrite pending_set. case_decide as Hs; [|done]. rewrite Hs.
  by destruct (pend _).
Qed.

Lemma count_response_pending d m s :
  is_a_response d = true -> pending (count_response d m) s = response_seen d (pending m) s.
Proof.
  intros Hd. unfold count_response, response_seen. rewrite Hd, pending_set. case_decide as Hs; [|done]. by rewrite Hs.
Qed.

Lemma uncached_is_response d : uncached_response d -> is_a_response d = true /\ d_is_request d = false.
Proof. unfold is_a_response, is_c_response, d_is_request. by intros [->|[->| ->]]. Qed.

Lemma clear_orderly m : orderly m ->
  let m' := clear_e (clear_d width m) in
  c_pending m' = ∅ /\ d_pending m' = ∅ /\ forall s, pending m' s = registers_of m s.
Proof.
  intros [Hc Hd [_ _ He Hop]].
  assert (Hm : c_pending (clear_d width m) = ∅ /\ d_pending (clear_d width m) = ∅ /\ signals (clear_d width m) = signals m).
  { unfold clear_d. destruct (accepted (link_d (signals m))) as [d|]; [|done].
    destruct (Hop d eq_refl) as [-> | [-> | ->]]; try done. by destruct (_ =? _). }
  destruct Hm as (Hmc & Hmd & Hms). unfold clear_e. rewrite Hms, (not_accepted (link_e (signals m))) by done. done.
Qed.

(** The registers after an edge: the beats that are accepted are counted. *)
Lemma edge_orderly l m : orderly m -> uncached_signals l ->
  orderly (clock_edge width l m) /\ signals (clock_edge width l m) = l
  /\ forall s, pending (clock_edge width l m) s
     = counted (accepted (link_d l)) response_seen (counted (accepted (link_a l)) request_seen (registers_of m)) s.
Proof.
  intros Hm Hl. destruct (clear_orderly m Hm) as (Hc & Hd & Hp). pose proof Hl as [Hb Hvc He Hop].
  unfold clock_edge. set (m1 := clear_e (clear_d width m)) in *.
  assert (Hcap : forall s, pending (capture l m1) s = registers_of m s) by exact Hp.
  unfold on_accepted. rewrite (not_accepted (link_c l)) by done.
  set (m2 := match accepted (link_a l) with Some b => count_request b (capture l m1) | None => capture l m1 end).
  assert (H2 : c_pending m2 = ∅ /\ d_pending m2 = ∅ /\ signals m2 = l
    /\ forall s, pending m2 s = counted (accepted (link_a l)) request_seen (registers_of m) s).
  { unfold m2. destruct (accepted (link_a l)) as [b|]; [|done]. split; [done|]. split; [done|]. split; [done|].
    intros s. rewrite count_request_pending. cbn [counted]. unfold request_seen. by rewrite Hcap. }
  destruct H2 as (Hc2 & Hd2 & Hs2 & Hp2). destruct (accepted (link_d l)) as [d|] eqn:Ed.
  - destruct (uncached_is_response d (Hop d eq_refl)) as [Hr1 Hr2]. unfold count_grant. rewrite Hr2.
    unfold count_response. rewrite Hr1. split; [by split; cbn; rewrite ?Hs2|]. split; [done|].
    intros s. cbn [counted]. unfold response_seen. rewrite pending_set. case_decide as Hs; [by rewrite Hs, Hp2|apply Hp2].
  - split; [split; rewrite ?Hs2; done|done].
Qed.

(** And when the requests that have been answered are cleared. *)
Lemma registers_orderly m s : orderly m ->
  registers_of m s = counted (accepted (link_d (signals m))) (response_cleared width) (pending m) s.
Proof.
  intros [_ _ [_ _ _ Hop]]. unfold registers_of, clear_d. destruct (accepted (link_d (signals m))) as [d|]; [|done].
  cbn [counted]. unfold response_cleared. destruct (Hop d eq_refl) as [-> | [-> | ->]].
  - rewrite pending_set. case_decide as Hs; [by rewrite Hs|done].
  - case_decide as Hs; [rewrite Hs|]; destruct (_ =? _); rewrite ?pending_set, ?decide_True by done; try done.
    by rewrite decide_False.
  - rewrite pending_set. case_decide as Hs; [by rewrite Hs|done].
Qed.

(** The registers are cleared of the response that is seen. *)
Definition replies (o : option tl_d) (v : registers) : registers :=
  counted o (response_cleared width) (counted o response_seen v).

Lemma edge_registers l m s : orderly m -> uncached_signals l ->
  registers_of (clock_edge width l m) s
  = replies (accepted (link_d l)) (counted (accepted (link_a l)) request_seen (registers_of m)) s.
Proof.
  intros Hm Hl. destruct (edge_orderly l m Hm Hl) as (Ho & Hs & Hp).
  rewrite registers_orderly, Hs by done. unfold replies. destruct (accepted (link_d l)) as [d|]; cbn [counted] in *; [|apply Hp].
  unfold response_cleared. by rewrite Hp.
Qed.

Lemma reset_orderly : orderly reset_monitor.
Proof. by split. Qed.

(** No request is pending. *)
Definition none_pending m : Prop := forall s, pend (pending m s) = false.

Lemma none_pending_outstanding m : orderly m -> none_pending m -> none_outstanding m = true.
Proof.
  intros [Hc Hd _] Hm. unfold none_outstanding. rewrite Hc, Hd, !map_to_list_empty. cbn. rewrite !andb_true_r.
  apply forallb_forall. intros [s r] Hin. apply list_elem_of_In, elem_of_map_to_list in Hin. cbn.
  specialize (Hm s). unfold pending in Hm. rewrite Hin in Hm. cbn in Hm. by rewrite Hm.
Qed.

End edge.

(** ** The assertions *)

Section assertions.

Context (fuel : nat) (p d : endpoint).
Hypothesis endpoints : wired_endpoints fuel p d.

#[local] Set Default Proof Using "All".

Abbreviation net := (Network [p] [d]).
Abbreviation width := (width_bytes p).
Abbreviation level := (protocol_level (protocol p)).
Abbreviation queue_on_a v := (host_queue width (max_size p) level p v).
Abbreviation queue_on_d v := (device_queue width (max_size p) level v).
Abbreviation entry_a := (a_entry_ok width (max_size p) level).

(** A checker for a protocol that includes that of the host; on TL-UL, the messages have
    one beat. *)
Record observes (proto : tl_protocol_e) : Prop := {
  observes_level : level <= protocol_level proto;
  observes_size : proto = TL_UL -> max_size p <= TlTraffic.lanes p;
}.

Lemma width_lanes : width = 2 ^ TlTraffic.lanes p.
Proof.
  destruct (wired_host _ _ _ endpoints) as [_ [_ _ [Hw Hc] _] _]. unfold width_bytes.
  rewrite Hw, Z.mul_comm, Z.quot_mul by lia. done.
Qed.

Context (proto : tl_protocol_e).
Hypothesis observed : observes proto.

(** *** Channel A *)

Lemma implied (a b : bool) : (a = true -> b = true) -> implies a b = true.
Proof using Type. unfold implies. destruct a; auto. Qed.

Lemma payload_same b : uncached (a_opcode b) = true -> aHasPayload b = a_has_payload (a_opcode b).
Proof using Type. unfold aHasPayload. by destruct (a_opcode b). Qed.

Lemma accepted_request_passes v v' away k bs b m :
  shown v v' away k bs -> next_of width (max_size p) level k bs b -> legal_beat net p b ->
  beats (pending m (a_source b)) = beats (v' (a_source b)) -> tl (pending m (a_source b)) = tl (v' (a_source b)) ->
  request_passes proto width m b = true.
Proof.
  intros Hshown Hnext Hlegal Hbeats Htl. unfold request_passes. pose proof (legal_size _ _ _ _ _ Hlegal) as Hsize.
  pose proof (host_limit _ _ _ endpoints) as Hlimit. pose proof (host_width _ _ _ endpoints) as [_ Hw].
  assert (Hpass : beat_passes proto width b = true).
  { rewrite width_lanes. apply forallb_forall. intros f.
    apply (assertion_passes fuel net); [apply (wired_host _ _ _ endpoints)|done|apply observed|].
    intros Hul. pose proof (observes_size _ observed Hul). lia. }
  pose proof (next_source width (max_size p) level Hw ltac:(lia) _ _ _ Hnext) as Hsrc.
  rewrite Hpass. cbn [andb]. apply andb_true_iff. split.
  - unfold aNumBeats. apply implied. intros Hpay. rewrite Hbeats, Hsrc, (shown_beats _ _ _ _ _ Hshown).
    rewrite (expected_run width (max_size p) Hw ltac:(lia)) by lia.
    destruct (next_counts width (max_size p) level Hw ltac:(lia) _ _ _ Hnext) as [_ Ht].
    pose proof (next_fewer _ _ _ _ _ _ Hnext) as Hlt.
    destruct (next_request width (max_size p) level Hw ltac:(lia) _ _ _ Hnext) as [Hu _].
    rewrite payload_same in Hpay by done. unfold beats_a in Ht. rewrite Hpay in Ht. apply Z.leb_le. lia.
  - unfold aMultibeatCtrlConst. apply implied. intros _. rewrite Htl, Hsrc.
    destruct (shown_request _ _ _ _ _ Hshown) as (-> & -> & -> & -> & ->).
    destruct (next_same _ _ _ _ _ _ Hnext) as (-> & -> & -> & _ & ->).
    rewrite !Z.eqb_refl. by case_bool_decide.
Qed.

(** *** Channel D *)

(** The registers of a request that is not the one of the first response. *)
Lemma other_resps v coming counting receiving away eh ed ks bs ids k ds dbs q idsd s :
  queue_on_a v coming counting away eh ks bs tt ids -> queue_on_d v coming receiving away ed (k :: ds) dbs q idsd ->
  s <> d_source (e_header k) -> resps (v s) = 0.
Proof using Type.
  intros HA HD Hs. destruct (decide (s ∈ away)) as [Hin|Hout].
  - destruct (device_seen _ _ _ _ _ _ _ _ _ _ _ _ HD) as [_ Hb]. rewrite Hb by done. by rewrite decide_False.
  - by apply (host_seen _ _ _ _ _ _ _ _ _ _ _ _ _ HA).
Qed.

(** The response to a request: its opcode, and its beats. *)
Lemma response_cases k :
  d_entry_ok width (max_size p) k ->
  forall op, d_answers op (d_opcode (e_header k)) ->
  d_opcode (e_header k) = AccessAck /\ (op = PutFullData \/ op = PutPartialData) /\ e_total k = 1
  \/ d_opcode (e_header k) = AccessAckData /\ (op = ArithmeticData \/ op = LogicalData \/ op = Get)
     /\ e_total k = expected_beats width (d_size (e_header k))
  \/ d_opcode (e_header k) = HintAck /\ op = Intent /\ e_total k = 1.
Proof using endpoints.
  intros [Hop Hs Ht _ _ _ _] op Hans. pose proof (host_limit _ _ _ endpoints) as Hlimit.
  pose proof (host_width _ _ _ endpoints) as [_ Hw]. rewrite (expected_run width (max_size p) Hw ltac:(lia)) by lia.
  unfold beats_d in Ht. destruct Hop as [Hop|[Hop|Hop]]; rewrite Hop in *; cbn [d_has_payload] in Ht; inversion Hans; auto 10.
Qed.

(** What the checker has of the request when a beat of its response comes. *)
Record request_known (m : monitor) (k : entry tl_d) (dbs : list tl_d) : Prop := {
  known_pending : pend (pending m (d_source (e_header k))) = true;
  known_resps : resps (pending m (d_source (e_header k))) = Z.of_nat (length dbs) + 1;
  known_answers : d_answers (a_opcode (tl (pending m (d_source (e_header k))))) (d_opcode (e_header k));
  known_size : d_size (e_header k) = a_size (tl (pending m (d_source (e_header k))));
  known_level : a_level (a_opcode (tl (pending m (d_source (e_header k))))) <= level;
  known_beats : Z.of_nat (length dbs) + 1 = e_total k ->
    beats (pending m (d_source (e_header k))) = a_expected_beats width (tl (pending m (d_source (e_header k))));
  known_others s : s <> d_source (e_header k) -> resps (pending m s) = 0;
}.

Lemma expected_request b : request_ok (max_size p) level b -> a_expected_beats width b = beats_a width b.
Proof using endpoints.
  intros [Hu [Hs _]]. pose proof (host_limit _ _ _ endpoints) as Hlimit. pose proof (host_width _ _ _ endpoints) as [_ Hw].
  unfold a_expected_beats, beats_a. rewrite payload_same, (expected_run width (max_size p) Hw ltac:(lia)) by done.
  by destruct (a_has_payload _).
Qed.

Lemma response_known v coming counting receiving away eh ed ks bs ids k ds dbs q idsd m (b : tl_d) :
  queue_on_a v coming counting away eh ks bs tt ids -> accepted_fewer ks bs ->
  queue_on_d v coming receiving away ed (k :: ds) dbs q idsd -> Z.of_nat (length dbs) < e_ready k ->
  d_source b = d_source (e_header k) -> (forall s, pending m s = response_seen b v s) -> request_known m k dbs.
Proof using endpoints.
  intros HA Ha HD Hlt Hsrc Hm. pose proof (host_limit _ _ _ endpoints) as Hlimit. pose proof (host_width _ _ _ endpoints) as [_ Hw].
  destruct (first_away width (max_size p) level Hw ltac:(lia) _ _ _ _ _ _ _ _ _ _ HD) as (Hin & Hresps & Hans & Hsize).
  pose proof (host_seen _ _ _ _ _ _ _ _ _ _ _ _ _ HA) as [_ Haway _]. destruct (Haway _ Hin) as (Hp & Hok & Hb).
  pose proof (Hm (d_source (e_header k))) as Hk. unfold response_seen in Hk, Hm. rewrite Hsrc in Hk, Hm.
  rewrite decide_True in Hk by done.
  split; rewrite ?Hk; cbn [pend resps tl beats]; try done; [by rewrite Hresps|apply Hok| |].
  - intros Hlast. rewrite expected_request by done. apply Hb.
    pose proof (device_entries _ _ _ _ _ _ _ _ _ _ _ _ HD) as [[_ _ _ [_ Hr] _ _ _] _]%Forall_cons_1.
    eapply (answered_whole width (max_size p) level Hw ltac:(lia)); [exact HA|exact Ha|exact HD|lia].
  - intros s Hs. rewrite Hm, decide_False by done. by eapply other_resps.
Qed.

(** Flags and parameters. *)
Lemma response_flags k n b :
  d_entry_ok width (max_size p) k -> beat_of_d (e_header k) n b ->
  dLegalCorrupt b = true /\ dDeniedImpliesCorrupt b = true /\ d_param b = 0.
Proof using Type.
  intros [_ _ _ _ Dpar Dcor Dden] (Bop & Bpar & _ & _ & _ & Bden & _ & Bcor).
  assert (Hpay : dHasPayload b = d_has_payload (d_opcode (e_header k))).
  { unfold dHasPayload, d_one_of. rewrite Bop. by destruct (d_opcode (e_header k)). }
  unfold dLegalCorrupt, dDeniedImpliesCorrupt, implies. rewrite Hpay, Bden, Bpar. split; [|split; [|done]].
  - destruct (d_has_payload _) eqn:Hp; [done|]. destruct Bcor as [->|[? _]]; [|done].
    destruct (d_corrupt (e_header k)); [specialize (Dcor eq_refl); congruence|done].
  - destruct (d_has_payload _) eqn:Hp; [|done]. destruct (d_denied (e_header k)); [|done]. cbn.
    destruct Bcor as [->|[_ ->]]; auto.
Qed.

(** Beats of other responses are not in between. *)
Lemma not_interleaved m k dbs b :
  request_known m k dbs -> d_source b = d_source (e_header k) -> dNoInterleaving width m b = true.
Proof using Type.
  intros Hk Bsrc. unfold dNoInterleaving. apply implied. intros Hne%negb_true_iff%Z.eqb_neq. rewrite Bsrc in Hne.
  unfold d_in_progress. rewrite (known_others _ _ _ Hk) by done. by rewrite andb_false_r.
Qed.

(** The opcode is one of the protocol. *)
Lemma response_opcode op b :
  d_answers op (d_opcode b) -> a_level op <= level -> uncached_response b -> dLegalOpcode proto b = true.
Proof.
  intros Hans Hlevel Hb. pose proof (observes_level _ observed) as Hproto.
  unfold dLegalOpcode, dLegalOpcodeTLC, dLegalOpcodeTLUH, dLegalOpcodeTLUL, d_one_of.
  destruct Hb as [Hb|[Hb|Hb]]; rewrite Hb in *; destruct proto; try done.
  all: inversion Hans; subst; cbn in *; lia.
Qed.

Lemma known_passes m k dbs b :
  d_entry_ok width (max_size p) k -> request_known m k dbs -> beat_of_d (e_header k) (Z.of_nat (length dbs)) b ->
  dRespMustHaveReq m b && response_passes proto width m b = true.
Proof.
  intros Hk Hknown Hbeat. pose proof Hbeat as (Bop & _ & Bsize & Bsrc & _).
  destruct (response_flags _ _ _ Hk Hbeat) as (Hlc & Hdc & Hpar). pose proof (not_interleaved _ _ _ _ Hknown Bsrc) as Hno.
  destruct Hknown as [Kp Kr Ka Ks Kl Kb _]. pose proof Ka as Ka'. rewrite <- Bop in Ka'.
  assert (Hb : uncached_response b) by (unfold uncached_response; rewrite Bop; apply Hk).
  destruct (uncached_is_response b Hb) as [Hr Hg]. pose proof (response_opcode _ _ Ka' Kl Hb) as Hop.
  assert (Hc : is_c_response b = false) by (unfold is_a_response in Hr; by apply negb_true_iff in Hr).
  assert (Hmatch : dMatchingOpcode m b = true /\ d_expected_beats width b = e_total k /\ dLegalParam b = true).
  { unfold dMatchingOpcode, d_expected_beats, dHasPayload, d_one_of, dLegalParam. rewrite Bop, Bsrc, Bsize, Hpar.
    destruct (response_cases k Hk _ Ka) as [(-> & Hrq & Ht)|[(-> & Hrq & Ht)|(-> & Hrq & Ht)]]; rewrite Ht; cbn;
      destruct_or? Hrq; rewrite Hrq; done. }
  destruct Hmatch as (Hm & He & Hlp).
  unfold dRespMustHaveReq, response_passes, dSizeEqReqSize, dNumBeats, dLegalDenied, dCompleteReqResp, dCompleteResp, dCompleteReq.
  rewrite Hr, Hc, Hg, Hop, Hm, Hno, Hlp, Hlc, Hdc, He, Bsrc, Bsize, Kp, Kr, Ks, Z.eqb_refl.
  cbn. rewrite !andb_true_r, andb_false_r, andb_true_r, orb_false_r.
  apply implied. intros Hlast%Z.eqb_eq. by apply Z.eqb_eq, Kb.
Qed.

(** *** All assertions *)

Lemma signals_pass type m :
  uncached_signals (signals m) ->
  (forall b, accepted (link_a (signals m)) = Some b -> request_passes proto width m b = true) ->
  (forall b, accepted (link_d (signals m)) = Some b -> dRespMustHaveReq m b && response_passes proto width m b = true) ->
  monitor_passes proto width type m = true.
Proof using Type.
  intros [Hb Hc He _] Ha Hd. unfold monitor_passes, if_accepted. rewrite (not_accepted _ Hb), (not_accepted _ Hc), (not_accepted _ He).
  rewrite !andb_true_r. apply andb_true_iff. split; [by destruct (accepted (link_a _)); auto|].
  destruct (accepted (link_d _)) as [b|]; [|done]. specialize (Hd b eq_refl). apply andb_true_iff in Hd as [Hr Hp].
  unfold response_asserted. rewrite Hr, Hp. by destruct type.
Qed.

End assertions.

(** ** Checkers without complaints *)

Section fine.

Context (p : endpoint).

(** A checker that has not seen traffic of caches, none of whose assertions fails. *)
Record fine (m : monitor) : Prop := {
  fine_orderly : orderly m;
  fine_passes proto type : observes p proto -> monitor_passes proto (width_bytes p) type m = true;
}.

End fine.
