(* ===== verification/TlWiredCycle.v ===== *)
(** * A cycle of a host and a device that are wired together

    The stages of a cycle on the worlds of the host and the device: setting the flow
    control signals, setting the outputs and getting the inputs. *)

From S2P Require Import Prelude Exceptions TileLink TlEndpoint TlMessages TlMessagesTheorems.
From S2P Require Import TlChannels TlHarness TlSender TlSenderTheorems TlReceiver TlQueue TlWorlds.
From S2P Require Import TlResponder TlTraffic TlAssertions TlWired TlWiredSenders TlWatched.

Import Sender.
Open Scope Z_scope.

(** Each signal has the value that its driver gives it. *)
Definition wire {C} (from to : wires C) : wires C := Wires (valid from) (ready to) (data from).

Definition joined (lh ld : links) : links :=
  Links (wire (link_a lh) (link_a ld)) (wire (link_b ld) (link_b lh)) (wire (link_c lh) (link_c ld))
    (wire (link_d ld) (link_d lh)) (wire (link_e lh) (link_e ld)).

Section cycle.

Context {G : Type} `{Random G} `{Indeterminate}.
Context (fuel : nat) (p d : endpoint).
Hypothesis endpoints : wired_endpoints fuel p d.

#[local] Set Default Proof Using "All".

Abbreviation net := (Network [p] [d]).
Abbreviation width := (width_bytes p).
Abbreviation level := (protocol_level (protocol p)).

(** ** Between cycles, and with all signals set *)

Abbreviation queue_on_a v coming counting away effort := (host_queue width (max_size p) level p v coming counting away effort).
Abbreviation queue_on_d v coming receiving away effort := (device_queue width (max_size p) level v coming receiving away effort).
Abbreviation answered_on_d v coming receiving away effort := (device_answered p v coming receiving away effort).

(** Channels without traffic. *)
Abbreviation sending_b := (sending (methods := methods_b net d) (G := G) (quiet_queue [])).
Abbreviation offering_b := (offering (methods := methods_b net d) (G := G) (quiet_queue [])).
Abbreviation sending_c := (sending (methods := methods_c p) (G := G) (quiet_queue [])).
Abbreviation offering_c := (offering (methods := methods_c p) (G := G) (quiet_queue [])).
Abbreviation sending_e := (sending (methods := methods_e p) (G := G) (quiet_queue [])).
Abbreviation offering_e := (offering (methods := methods_e p) (G := G) (quiet_queue [])).

(** Between two cycles, once the flow control signals are set, and once all signals
    are. The receivers are ready for beats if they are [live]; the senders offer a beat if
    they can and are [moves]. *)
Definition host_between (live : bool) (v : registers) (coming counting : Z) (away : list Z) (receiving effort : Z) :
    TileLinkHost.host -> links -> Prop :=
  host_parts p (sending (methods := methods_a p) (G := G) (queue_on_a v coming counting away effort)) anything
    sending_c (listening live receiving) sending_e.

Definition host_ready (live : bool) (v : registers) (coming counting : Z) (away : list Z) (receiving effort : Z) :
    TileLinkHost.host -> links -> Prop :=
  host_parts p (offering (methods := methods_a p) (G := G) (queue_on_a v coming counting away effort)) anything
    offering_c (taking live receiving) offering_e.

Definition host_set (moves live : bool) (v : registers) (coming counting : Z) (away : list Z) (receiving effort : Z) :
    TileLinkHost.host -> links -> Prop :=
  host_parts p (offering_if (methods := methods_a p) (G := G) moves (queue_on_a v coming counting away effort)
                  (queue_on_a v coming counting away effort)) anything
    offering_c (taking live receiving) offering_e.

Definition device_between (live : bool) (v : registers) (coming counting : Z) (away : list Z) (receiving effort : Z) :
    TileLinkDevice.device -> links -> Prop :=
  device_parts d (listening live counting) sending_b anything
    (sending (methods := methods_d fuel d) (G := G) (queue_on_d v coming receiving away effort)) anything.

Definition device_ready (live : bool) (v : registers) (coming counting : Z) (away : list Z) (receiving effort : Z) :
    TileLinkDevice.device -> links -> Prop :=
  device_parts d (taking live counting) offering_b anything
    (offering (methods := methods_d fuel d) (G := G) (queue_on_d v coming receiving away effort)) anything.

Definition device_set (moves live : bool) (v : registers) (coming counting : Z) (away : list Z) (receiving effort : Z) :
    TileLinkDevice.device -> links -> Prop :=
  device_parts d (taking live counting) offering_b anything
    (offering_if (methods := methods_d fuel d) (G := G) moves (queue_on_d v coming receiving away effort)
       (answered_on_d v coming receiving away effort)) anything.

(** ** Senders without traffic *)

Lemma answer_nothing {C Q R} (view : Q -> list R) update in_order respond1 (w : state C Q G) :
  view (requests (self w)) = [] ->
  (answer_all view update in_order respond1;; mret tt) w = (Ok tt, w).
Proof. intros Hq. unfold answer_all. erewrite bind_ok; [done|]. erewrite bind_ok by done. cbv beta. by rewrite Hq. Qed.

Lemma quiet_b : queue_invariant (methods := methods_b net d) (G := G) (quiet_queue []) (quiet_queue []).
Proof. apply quiet_invariant; [|done]. intros w Hw. by apply answer_nothing. Qed.
Lemma quiet_c : queue_invariant (methods := methods_c p) (G := G) (quiet_queue []) (quiet_queue []).
Proof. apply quiet_invariant; [|done]. intros w Hw. by apply answer_nothing. Qed.
Lemma quiet_e : queue_invariant (methods := methods_e p) (G := G) (quiet_queue []) (quiet_queue []).
Proof. apply quiet_invariant; [|done]. intros w Hw. by apply answer_nothing. Qed.

(** Neither endpoint has caches: there are no probes and no releases. *)
Lemma no_probes o P r req : safe o P (TlChannels.queue_request_b (G := G) fuel net d r req) (fun _ => P).
Proof.
  intros w Hw. unfold TlChannels.queue_request_b. erewrite bind_ok by done. cbv beta.
  rewrite bool_decide_eq_false_2; [done|]. intros Hp. pose proof (wired_device_protocol _ _ _ endpoints) as Hl.
  by rewrite Hp in Hl.
Qed.

Lemma no_releases o P r req : safe o P (TlChannels.queue_request_c (G := G) fuel net p r req) (fun _ => P).
Proof.
  intros w Hw. unfold TlChannels.queue_request_c. erewrite bind_ok by done. cbv beta.
  pose proof (wired_host_protocol _ _ _ endpoints) as Hl.
  rewrite !bool_decide_eq_false_2; [done|..]; intros Hp; by rewrite Hp in Hl.
Qed.

(** A quiet sender stays quiet. *)
Lemma quiet_outputs {C Q} `{!SenderMethods C Q G} `{!SenderLaws C Q G} (q : Q) r :
  queue_invariant (quiet_queue (C := C) q) (quiet_queue q) ->
  sender_safe (G := G) False (offering (quiet_queue q)) (set_outputs r) (offering (quiet_queue q)).
Proof.
  intros Hq. eapply safe_weaken; [by apply (outputs_safe (quiet_queue q) (quiet_queue q))|done|by intros a t [Ht _]].
Qed.

(** ** Flow control *)

Lemma host_flow_safe live v coming counting away receiving effort :
  world_safe (G := G) False (host_between live v coming counting away receiving effort) TileLinkHost.set_flow_control
    (host_ready live v coming counting away receiving effort).
Proof.
  eapply world_then; [apply on_a_safe, flow_safe|]. intros _.
  eapply world_then with (Q := host_parts p _ anything _ _ _).
  { apply world_modify. intros w [He Ha _ Hc Hd He']. split; [exact He|exact Ha|done|exact Hc|exact Hd|exact He']. }
  intros _. eapply world_then; [apply on_c_safe, flow_safe|]. intros _.
  eapply world_then with (Q := host_parts p _ anything _ (taking live receiving) _).
  { apply world_modify. intros w [He Ha _ Hc Hd He']. split; [exact He|exact Ha|done|exact Hc|by split|exact He']. }
  intros _. apply on_e_safe, flow_safe.
Qed.

Lemma device_flow_safe live v coming counting away receiving effort :
  world_safe (G := G) False (device_between live v coming counting away receiving effort) TileLinkDevice.set_flow_control
    (device_ready live v coming counting away receiving effort).
Proof.
  eapply world_then with (Q := device_parts d (taking live counting) _ anything _ anything).
  { apply world_modify. intros w [He Ha Hb _ Hd _]. split; [exact He|by split|exact Hb|done|exact Hd|done]. }
  intros _. eapply world_then; [apply on_b_safe, flow_safe|]. intros _.
  eapply world_then with (Q := device_parts d (taking live counting) _ anything _ anything).
  { apply world_modify. intros w [He Ha Hb _ Hd _]. split; [exact He|exact Ha|exact Hb|done|exact Hd|done]. }
  intros _. eapply world_then; [apply on_d_safe, flow_safe|]. intros _.
  apply world_modify. intros w [He Ha Hb _ Hd _]. split; [exact He|exact Ha|exact Hb|done|exact Hd|done].
Qed.

(** ** Outputs

    Only creating requests may exhaust the fuel. *)

Lemma host_inject_safe live v coming counting away receiving effort :
  world_safe (G := G) True (host_ready live v coming counting away receiving effort) (TileLinkHost.inject fuel net)
    (fun h l => exists effort', host_ready live v coming counting away receiving effort' h l).
Proof.
  eapply world_then; [apply world_random|]. intros new_a.
  eapply world_then with (Q := fun h l => exists effort', host_ready live v coming counting away receiving effort' h l).
  { destruct new_a; [|eapply world_weaken; [apply world_ret|done|by exists effort]].
    apply host_gets. eapply world_weaken with (P' := host_ready live v coming counting away receiving effort).
    - apply on_a_safe with (Qa := fun s c => exists effort', offering (methods := methods_a p) (G := G)
        (queue_on_a v coming counting away effort') s c).
      eapply safe_weaken; [by apply (queue_request_safe fuel p d endpoints v coming counting away effort)| |].
      + intros t [Ht Ha]. split; [by apply sending_kept|done].
      + intros _ t (effort' & Ht & Ha). exists effort'. split; [by apply kept_sending|done].
    - done.
    - intros h l [He [effort' Ha] Hb Hc Hd He']. exists effort'. by split. }
  intros _. eapply world_then; [apply world_random|]. intros new_c.
  apply world_exists. intros effort'. eapply world_weaken; [|done|intros h l Hw; exists effort'; exact Hw].
  apply world_when, host_gets, on_c_safe, no_releases.
Qed.

Lemma host_senders_safe live v coming counting away receiving effort r :
  world_safe (G := G) False (host_ready live v coming counting away receiving effort)
    (x ← gets (fun w => TileLinkHost.endpoint (me w));
     TileLinkHost.on_a (set_outputs (methods := methods_a x) r);; Receiver.set_outputs r;;
     TileLinkHost.on_c (set_outputs (methods := methods_c x) r);; Receiver.set_outputs r;;
     TileLinkHost.on_e (set_outputs (methods := methods_e x) r))
    (host_set (negb r) live v coming counting away receiving effort).
Proof.
  apply host_gets.
  eapply world_then; [apply on_a_safe, outputs_safe, (host_invariant fuel p d endpoints)|]. intros _.
  eapply world_then; [apply world_ret|]. intros _.
  eapply world_then; [apply on_c_safe, quiet_outputs, quiet_c|]. intros _.
  eapply world_then; [apply world_ret|]. intros _. apply on_e_safe, quiet_outputs, quiet_e.
Qed.

Lemma host_outputs_safe live v coming counting away receiving effort r :
  world_safe (G := G) (r = true) (host_ready live v coming counting away receiving effort) (TileLinkHost.set_outputs fuel net r)
    (fun h l => exists effort', (r = false -> effort' = effort)
       /\ host_set (negb r) live v coming counting away receiving effort' h l).
Proof.
  eapply world_then with (Q := fun h l => exists effort', (r = false -> effort' = effort)
    /\ host_ready live v coming counting away receiving effort' h l).
  - destruct r; [|eapply world_weaken; [apply world_ret|done|by exists effort]].
    eapply world_fuel with (o := True); [|done].
    eapply world_weaken; [apply (host_inject_safe live v coming counting away receiving effort)|done|].
    intros h l [effort' Hw]. by exists effort'.
  - intros _. apply world_exists. intros effort'. apply world_pure. intros He.
    eapply world_weaken; [eapply world_fuel; [apply host_senders_safe|done]|done|by exists effort'].
Qed.

Lemma device_outputs_safe live v coming counting away receiving effort r :
  world_safe (G := G) False (device_ready live v coming counting away receiving effort) (TileLinkDevice.set_outputs fuel net r)
    (device_set (negb r) live v coming counting away receiving effort).
Proof.
  eapply world_then; [apply world_when|].
  { eapply world_then; [apply world_random|]. intros new_b.
    apply world_when, device_gets, on_b_safe, no_probes. }
  intros _. apply device_gets. eapply world_then; [apply world_ret|]. intros _.
  eapply world_then; [apply on_b_safe, quiet_outputs, quiet_b|]. intros _.
  eapply world_then; [apply world_ret|]. intros _.
  eapply world_then; [apply on_d_safe, outputs_safe, (device_invariant fuel p d endpoints)|]. intros _.
  apply world_ret.
Qed.

(** ** Inputs *)

(** The count of the beats that are to come agrees with the sender's. *)
Lemma counted_rest {C} (counted : C -> bool) (e : endpoint) size k (ks : list (entry C)) bs b x :
  counted (e_header k) = true -> beats_of_size e size = e_total k -> Z.of_nat (length bs) < e_total k ->
  Receiver.beats_remaining x = rest counted (k :: ks) bs ->
  let y := after b k ks bs in let x' := Receiver.new_beat_arrived e size x in
  Receiver.beats_remaining x' = rest counted (fst y) (snd y)
  /\ Receiver.all_beats_arrived x' = (Z.of_nat (length bs) + 1 =? e_total k).
Proof.
  intros Hc Hsize Hlt Hx y x'.
  assert (Hr : Receiver.beats_remaining x' = e_total k - (Z.of_nat (length bs) + 1)).
  { unfold x', Receiver.new_beat_arrived, Receiver.all_beats_arrived. cbn. rewrite Hx, Hsize. cbn [rest]. rewrite Hc.
    destruct bs as [|b0 bs]; cbn [started andb]; [cbn; lia|]. rewrite (proj2 (Z.eqb_neq _ 0)) by lia. lia. }
  split.
  - rewrite Hr. unfold y, after. destruct (Z.eqb_spec (Z.of_nat (length bs) + 1) (e_total k)); cbn [fst snd].
    + rewrite rest_nil. lia.
    + cbn [rest]. rewrite Hc, started_app, length_app. cbn. lia.
  - unfold Receiver.all_beats_arrived. rewrite Hr. apply eq_true_iff_eq. rewrite !Z.eqb_eq. lia.
Qed.

(** *** The host takes a beat on channel D *)

Abbreviation sends_a := (sends (methods := methods_a p) (G := G)).
Abbreviation sends_d := (sends (methods := methods_d fuel d) (G := G)).

Definition host_step (taken : bool) (b : tl_d) (receiving : Z) (ids : gset Z) (receiving' : Z) (ids' : gset Z) : Prop :=
  if taken then forall ks bs r Pb Pc Pe,
    world_safe (G := G) False (host_parts p (sends_a ks bs tt ids) Pb Pc (listening false receiving) Pe)
      (TileLinkHost.handle_d r b) (host_parts p (sends_a ks bs tt ids') Pb Pc (listening false receiving') Pe)
  else receiving' = receiving /\ ids' = ids.

Lemma end_sends ks bs ids id :
  id ∈ ids -> sender_safe (G := G) False (sends_a ks bs tt ids) (end_transaction id) (sends_a ks bs tt (ids ∖ {[id]})).
Proof.
  intros Hid [s c g] Hs. pose proof Hs as (_ & _ & Hi). cbn in Hi. rewrite <- Hi in Hid.
  rewrite end_transaction_run by done. rewrite <- Hi.
  apply (sends_changed ks bs tt ids _ _ s); try done. cbn. by destruct (requests s).
Qed.

Lemma handle_d_step k ds dbs b ids :
  d_entry_ok width (max_size p) k -> Z.of_nat (length dbs) < e_total k -> beat_of_d (e_header k) (Z.of_nat (length dbs)) b ->
  let last := Z.of_nat (length dbs) + 1 =? e_total k in
  (last = true -> d_source (e_header k) ∈ ids) ->
  let x := after b k ds dbs in
  host_step true b (rest data_d (k :: ds) dbs) ids (rest data_d (fst x) (snd x))
    (if last then ids ∖ {[d_source (e_header k)]} else ids).
Proof.
  intros [Hop Hsize Htotal _ _ _ _] Hlt (Eop & _ & Esize & Esrc & _) last Hin x ks bs r Pb Pc Pe.
  destruct (host_width fuel p d endpoints) as [Hbits Hw]. pose proof (host_limit fuel p d endpoints) as Hlimit.
  unfold TileLinkHost.handle_d. rewrite Eop, Esize, Esrc. unfold beats_d in Htotal.
  destruct (d_has_payload (d_opcode (e_header k))) eqn:Hpay.
  - assert (Hbeats : beats_of_size p (d_size (e_header k)) = e_total k) by (rewrite beats_of_size_data by lia; lia).
    destruct Hop as [Hop|[Hop|Hop]]; rewrite Hop in *; try done.
    eapply safe_bind with (Q := fun _ w => host_parts p (sends_a ks bs tt ids) Pb Pc
      (fun x' c => listening false (rest data_d (fst x) (snd x)) x' c /\ Receiver.all_beats_arrived x' = last) Pe (me w) (port w)).
    { apply world_modify. intros w [He Ha Hb Hc [Hd _] He']. split; try done. cbn. rewrite He.
      destruct (counted_rest data_d p (d_size (e_header k)) k ds dbs b (TileLinkHost.d (me w))) as [Hr Hall]; try done.
      unfold data_d. by rewrite Hop. }
    intros _. eapply safe_bind with (Q := fun l w => host_parts p (sends_a ks bs tt ids) Pb Pc
      (listening false (rest data_d (fst x) (snd x))) Pe (me w) (port w) /\ l = last).
    { apply safe_gets. intros w [He Ha Hb Hc [Hd Hl] He']. by split. }
    intros l. apply safe_when.
    + intros ->. destruct last; [|by intros w [_ Hl]].
      eapply safe_weaken; [apply on_a_safe, end_sends; by apply Hin|by intros w [Hw' _]|by intros a w Hw'].
    + intros -> w [Hw' <-]. exact Hw'.
  - cbn [num_beats] in Htotal. assert (dbs = []) as -> by (destruct dbs; [done|cbn in Hlt; lia]).
    assert (Hl : last = true) by (apply Z.eqb_eq; cbn; lia). rewrite Hl.
    assert (Hx : x = (ds, [])) by (unfold x, after; fold last; by rewrite Hl). rewrite Hx. cbn [fst snd]. rewrite !rest_nil.
    destruct Hop as [Hop|[Hop|Hop]]; rewrite Hop in *; try done; apply on_a_safe, end_sends; auto.
Qed.

(** *** The device takes a beat on channel A *)

Definition device_step (r taken : bool) (b : tl_a) (counting : Z) (q : queue_d) (counting' : Z) (q' : queue_d) : Prop :=
  if taken then forall ds dbs ids (R : bool -> wires tl_d -> Prop) Pb Pc Pe,
    world_safe (G := G) False
      (device_parts d (listening false counting) Pb Pc (fun s c => sends_d ds dbs q ids s c /\ R (beat_accepted s) c) Pe)
      (TileLinkDevice.handle_a r b)
      (device_parts d (listening false counting') Pb Pc (fun s c => sends_d ds dbs q' ids s c /\ R (beat_accepted s) c) Pe)
  else counting' = counting /\ q' = q.

Lemma request_sends ds dbs q ids (R : bool -> wires tl_d -> Prop) rq :
  sender_safe (G := G) False (fun s c => sends_d ds dbs q ids s c /\ R (beat_accepted s) c)
    (handle_request a_requests set_a_requests rq)
    (fun s c => sends_d ds dbs (set_a_requests (a_requests q ++ [rq]) q) ids s c /\ R (beat_accepted s) c).
Proof.
  intros [s c g] [Hs HR]. split; [|exact HR]. pose proof Hs as (_ & Hq & Hi). cbn in Hq, Hi.
  apply (sends_changed ds dbs q ids _ _ s); try done. cbn. by rewrite Hq.
Qed.

Lemma handle_a_step r k ks bs b q :
  a_entry_ok width (max_size p) level k -> Z.of_nat (length bs) < e_total k -> beat_of_a (e_header k) (Z.of_nat (length bs)) b ->
  let x := after b k ks bs in
  device_step r true b (rest put_a (k :: ks) bs) q (rest put_a (fst x) (snd x)) (queue_after r b k bs q).
Proof.
  intros [[Hop [Hsize _]] Htotal _] Hlt (Eop & _ & Esize & _) x ds dbs ids R Pb Pc Pe.
  destruct (host_width fuel p d endpoints) as [_ Hw]. pose proof (host_limit fuel p d endpoints) as Hlimit. destruct (device_width fuel p d endpoints) as [Hbits Hwd].
  unfold TileLinkDevice.handle_a. rewrite Eop, Esize. unfold queue_after, queues, beats_a in *.
  destruct (put_a (e_header k)) eqn:Hput.
  - assert (Hpay : a_has_payload (a_opcode (e_header k)) = true) by (unfold put_a in Hput; by destruct (a_opcode (e_header k))).
    rewrite Hpay in Htotal.
    assert (Hbeats : beats_of_size d (a_size (e_header k)) = e_total k) by (rewrite beats_of_size_data, Hwd by lia; lia).
    assert (Hgoal : world_safe (G := G) False
      (device_parts d (listening false (rest put_a (k :: ks) bs)) Pb Pc (fun s c => sends_d ds dbs q ids s c /\ R (beat_accepted s) c) Pe)
      (TileLinkDevice.arrived_a (a_size (e_header k));; last ← TileLinkDevice.all_arrived_a;
       when last (TileLinkDevice.answer_a_on_d (r, b)))
      (device_parts d (listening false (rest put_a (fst x) (snd x))) Pb Pc (fun s c => sends_d ds dbs
         (if Z.of_nat (length bs) + 1 =? e_total k then set_a_requests (a_requests q ++ [(r, b)]) q else q) ids s c
         /\ R (beat_accepted s) c) Pe)).
    { set (last := _ =? e_total k). eapply safe_bind with (Q := fun _ w => device_parts d
        (fun x' c => listening false (rest put_a (fst x) (snd x)) x' c /\ Receiver.all_beats_arrived x' = last)
        Pb Pc (fun s c => sends_d ds dbs q ids s c /\ R (beat_accepted s) c) Pe (me w) (port w)).
      { apply world_modify. intros w [He [Ha _] Hb Hc Hd He']. split; try done. cbn. rewrite He.
        by destruct (counted_rest put_a d (a_size (e_header k)) k ks bs b (TileLinkDevice.a (me w))) as [Hr Hall]. }
      intros _. eapply safe_bind with (Q := fun l w => device_parts d (listening false (rest put_a (fst x) (snd x))) Pb Pc
        (fun s c => sends_d ds dbs q ids s c /\ R (beat_accepted s) c) Pe (me w) (port w) /\ l = last).
      { apply safe_gets. intros w [He [Ha Hl] Hb Hc Hd He']. by split. }
      intros l. apply safe_when.
      - intros ->. destruct last; [|by intros w [_ Hl]].
        eapply safe_weaken; [apply on_d_safe, request_sends|by intros w [Hw' _]|by intros a w Hw'].
      - intros -> w [Hw' <-]. exact Hw'. }
    unfold put_a in Hput. destruct (a_opcode (e_header k)); try done; exact Hgoal.
  - assert (Hrest : forall y bs', rest put_a (k :: y) bs' = 0) by (intros; cbn; by rewrite Hput).
    assert (Hx : rest put_a (fst x) (snd x) = 0).
    { unfold x, after. destruct (_ =? _); [apply rest_nil|apply Hrest]. }
    rewrite Hrest, Hx. unfold put_a in Hput.
    destruct (a_opcode (e_header k)); try done; apply on_d_safe, request_sends.
Qed.

(** *** Beats that cross the wires

    Each beat that is taken is a unit of the work. *)

Abbreviation host_facts l := (l width (max_size p) level (proj2 (host_width fuel p d endpoints)) (proj2 (host_limit fuel p d endpoints))).

(** The checkers that watch the wires. *)
Abbreviation watches proto := (observes p proto).

Lemma crosses_on_a r ks bs ids s c ry b v coming counting away receiving eh ed ds dbs q idsd :
  sends_a ks bs tt ids s c -> beat_accepted s = false -> data c = b -> (valid c = true -> legal_beat net p b) ->
  queue_on_a v coming counting away eh ks bs tt ids -> queue_on_d v coming receiving away ed ds dbs q idsd ->
  let x := accept (valid c && ry) b ks bs in
  let v' := counted (if valid c && ry then Some b else None) request_seen v in
  exists coming' counting' away' q' eh' ed', device_step r (valid c && ry) b counting q counting' q'
    /\ queue_on_a v' coming' counting' away' eh' (fst x) (snd x) tt ids
    /\ queue_on_d v' coming' receiving away' ed' ds dbs q' idsd
    /\ eh' + ed' = eh + ed - Z.b2z (valid c && ry)
    /\ (valid c && ry = true -> forall proto m, watches proto ->
         Assertions.beats (Assertions.pending m (a_source b)) = Assertions.beats (v' (a_source b)) ->
         Assertions.tl (Assertions.pending m (a_source b)) = Assertions.tl (v' (a_source b)) ->
         Assertions.request_passes proto width m b = true).
Proof.
  intros ([g Hh] & _ & _) Ha <- Hlegal HA HD x v'. subst x v'. destruct (valid c && ry) eqn:Ht.
  2: { exists coming, counting, away, q, eh, ed. repeat (split; [done|]). split; [cbn; lia|done]. }
  apply andb_true_iff in Ht as [Hv _].
  destruct (holds_offered (State s c g) ks bs Hh) as (k & ks' & -> & Hlt & Hle & Hb).
  { unfold offered. cbn. by rewrite Hv, Ha. }
  pose proof (host_entries _ _ _ _ _ _ _ _ _ _ _ _ _ HA) as [Hk _]%Forall_cons_1. pose proof Hb as (Hop & Hpar & Hsize & Hsrc & Haddr & _).
  assert (Hnext : next_of width (max_size p) level k bs (data c)) by (split; [done|lia|done]).
  pose proof (host_facts host_shows _ _ (counted (Some (data c)) request_seen v) _ _ _ _ _ _ _ _ _ _ HA Hnext ltac:(done)) as Hshown.
  pose proof (host_facts host_sends _ _ _ _ _ _ _ _ _ _ (data c) _ _ HA Hnext Hshown) as HA'.
  pose proof (host_facts device_takes _ _ _ _ _ _ k ks' bs r (data c) _ _ _ _ HD
    (host_coming _ _ _ _ _ _ _ _ _ _ _ _ _ HA) Hnext Hshown) as HD'.
  eexists _, _, _, _, _, _. split; [|split; [exact HA'|split; [exact HD'|split; [cbn; lia|]]]].
  - rewrite <- (host_counting _ _ _ _ _ _ _ _ _ _ _ _ _ HA). apply handle_a_step; [done|lia|done].
  - intros _ proto m Hp Hbeats Htl. by eapply (accepted_request_passes fuel p d endpoints proto Hp); [exact Hshown|exact Hnext|auto|..].
Qed.

Lemma crosses_on_d ks bs ids s c ry b v coming counting away receiving eh ed ds dbs q idsd :
  sends_d ds dbs q idsd s c -> beat_accepted s = false -> data c = b -> accepted_fewer ks bs ->
  queue_on_a v coming counting away eh ks bs tt ids -> queue_on_d v coming receiving away ed ds dbs q idsd ->
  let x := accept (valid c && ry) b ds dbs in
  let v' := replies width (if valid c && ry then Some b else None) v in
  exists away' receiving' ids', host_step (valid c && ry) b receiving ids receiving' ids'
    /\ queue_on_a v' coming counting away' eh ks bs tt ids'
    /\ queue_on_d v' coming receiving' away' (ed - Z.b2z (valid c && ry)) (fst x) (snd x) q idsd
    /\ (valid c && ry = true -> uncached_response b /\ forall proto m, watches proto ->
         (forall s, Assertions.pending m s = response_seen b v s) ->
         Assertions.dRespMustHaveReq m b && Assertions.response_passes proto width m b = true).
Proof.
  intros ([g Hh] & _ & _) Ha <- Hfewer HA HD x v'. subst x v'. destruct (valid c && ry) eqn:Ht.
  2: { exists away, receiving, ids. rewrite Z.sub_0_r. split; [by split|]. split; [exact HA|]. by split; [exact HD|]. }
  apply andb_true_iff in Ht as [Hv _].
  destruct (holds_offered (State s c g) ds dbs Hh) as (k & ds' & -> & Hlt & Hle & Hb).
  { unfold offered. cbn. by rewrite Hv, Ha. }
  change (beat_of_d (e_header k) (Z.of_nat (length dbs)) (data c)) in Hb.
  pose proof (device_entries _ _ _ _ _ _ _ _ _ _ _ _ HD) as [Hk _]%Forall_cons_1. pose proof Hb as (Hop & _ & _ & Hsrc & _).
  pose proof (host_unique _ _ _ _ _ _ _ _ _ _ _ _ _ HA) as Hn. apply list.NoDup_app in Hn as (_ & _ & Hn).
  set (v' := replies width (Some (data c)) v).
  pose proof (host_facts device_replies _ v' _ _ _ _ _ _ _ (data c) _ _ HD ltac:(lia) Hop Hsrc ltac:(done)) as Hrep.
  destruct (host_facts device_sends _ v' _ _ _ _ (data c) _ _ _ _ _ HD Hlt Hn Hrep) as (away' & Haway & Hhead & HD').
  pose proof (handle_d_step k ds' dbs (data c) ids Hk ltac:(lia) Hb) as Hstep. cbv zeta in Hstep.
  rewrite (device_receiving _ _ _ _ _ _ _ _ _ _ _ _ HD) in Hstep.
  assert (Hpass : uncached_response (data c) /\ forall proto m, watches proto ->
    (forall s, Assertions.pending m s = response_seen (data c) v s) ->
    Assertions.dRespMustHaveReq m (data c) && Assertions.response_passes proto width m (data c) = true).
  { split; [unfold uncached_response; rewrite Hop; apply Hk|]. intros proto m Hp Hm.
    pose proof (response_known fuel p d endpoints v coming counting receiving away eh ed ks bs ids k ds' dbs q idsd m (data c) HA Hfewer HD Hlt Hsrc Hm).
    by eapply (known_passes fuel p d endpoints proto Hp). }
  destruct (Z.eqb_spec (Z.of_nat (length dbs) + 1) (e_total k)) as [Hl|Hl].
  - pose proof (host_facts answered_whole _ _ _ _ _ _ _ _ _ _ _ _ _ _ _ _ HA Hfewer HD ltac:(lia)) as Hwhole.
    destruct (host_facts host_ends _ _ v' _ _ _ _ _ _ _ _ _ _ _ HA Haway Hhead Hwhole Hrep Hl) as [Hin HA'].
    eexists _, _, _. split; [|split; [exact HA'|split; [exact HD'|done]]]. by apply Hstep.
  - subst away'. pose proof (host_facts first_away _ _ _ _ _ _ _ _ _ _ HD) as (Hin & _).
    pose proof (host_facts host_replied _ _ v' _ _ _ _ _ _ _ _ _ _ HA Hin Hrep Hl) as HA'.
    eexists _, _, _. split; [|split; [exact HA'|split; [exact HD'|done]]]. by apply Hstep.
Qed.

(** *** Both ends of the wires *)

Abbreviation offers_a ks bs ids v ry b :=
  (fun s c => sends_a ks bs tt ids s c /\ beat_accepted s = false /\ signals v ry b c).
Abbreviation offers_d ks bs q ids v ry b :=
  (fun s c => sends_d ks bs q ids s c /\ beat_accepted s = false /\ signals v ry b c).
Abbreviation sees n v ry b :=
  (fun x c => listening false n x c /\ Receiver.ready_for_beat x = ry /\ valid c = v /\ data c = b).
Abbreviation unused := (fun _ c => valid c = false).

Lemma host_inputs_safe ks bs ids va ra ba receiving vd rd bd receiving' ids' r :
  host_step (vd && rd) bd receiving ids receiving' ids' ->
  let x := accept (va && ra) ba ks bs in
  world_safe (G := G) False
    (host_parts p (offers_a ks bs ids va ra ba) unused offering_c (sees receiving vd rd bd) offering_e)
    (TileLinkHost.get_inputs r)
    (host_parts p (sends_a (fst x) (snd x) tt ids') anything sending_c (listening (negb r) receiving') sending_e).
Proof.
  intros Hd x. eapply world_then; [apply on_a_safe, inputs_safe|]. intros _.
  eapply world_then with (Q := host_parts p (sends_a (fst x) (snd x) tt ids) anything offering_c
    (sees receiving vd rd bd) offering_e).
  { apply receiver_idle.
    - intros w [He Ha Hb Hc Hd' He']. split; [exact Hb|]. split; [exact He|exact Ha|done|exact Hc|exact Hd'|exact He'].
    - intros g w Hw. exact Hw.
    - intros next w [He Ha Hb Hc Hd' He']. by split. }
  intros _. eapply world_then; [apply on_c_safe, quiet_inputs|]. intros _.
  eapply world_then with (Q := host_parts p (sends_a (fst x) (snd x) tt ids') anything sending_c
    (listening (negb r) receiving') offering_e); [|intros _; apply on_e_safe, quiet_inputs].
  apply (receiver_safe _ _ _ _ _ _ _ _ (fun w => host_parts p (sends_a (fst x) (snd x) tt ids') anything sending_c
    (listening false receiving') offering_e (me w) (port w)) _ r vd rd bd).
  - intros w [He Ha Hb Hc (_ & Hr & Hv & Hb') He']. auto.
  - intros Ht. unfold host_step in Hd. rewrite Ht in Hd. eapply world_weaken; [apply Hd| |done].
    intros h l [He Ha Hb Hc [Hl _] He']. by split.
  - intros Ht w [He Ha Hb Hc [Hl _] He']. unfold host_step in Hd. rewrite Ht in Hd. destruct Hd as [-> ->]. by split.
  - intros g w Hw. exact Hw.
  - intros next w Hnext [He Ha Hb Hc [Hl _] He']. by split.
Qed.

Lemma device_inputs_safe ds dbs q idsd vd rd bd counting va ra ba counting' q' r :
  device_step r (va && ra) ba counting q counting' q' ->
  let x := accept (vd && rd) bd ds dbs in
  world_safe (G := G) False
    (device_parts d (sees counting va ra ba) offering_b unused (offers_d ds dbs q idsd vd rd bd) unused)
    (TileLinkDevice.get_inputs r)
    (device_parts d (listening (negb r) counting') sending_b anything (sends_d (fst x) (snd x) q' idsd) anything).
Proof.
  intros Ha x. pose (offers' := offers_d ds dbs q' idsd vd rd bd).
  eapply world_then with (Q := device_parts d (listening (negb r) counting') offering_b unused offers' unused).
  { apply (receiver_safe _ _ _ _ _ _ _ _ (fun w => device_parts d (listening false counting') offering_b unused
      offers' unused (me w) (port w)) _ r va ra ba).
    - intros w [He (_ & Hr & Hv & Hb') Hb Hc Hd He']. auto.
    - intros Ht. unfold device_step in Ha. rewrite Ht in Ha.
      eapply world_weaken; [apply (Ha ds dbs idsd (fun acc c => acc = false /\ signals vd rd bd c) offering_b unused unused)| |].
      + intros h l [He [Hl _] Hb Hc Hd He']. by split.
      + intros h l [He Hl Hb Hc Hd He']. by split.
    - intros Ht w [He [Hl _] Hb Hc Hd He']. unfold device_step in Ha. rewrite Ht in Ha.
      destruct Ha as [-> Hq]. subst offers'. rewrite Hq. by split.
    - intros g w Hw. exact Hw.
    - intros next w Hnext [He [Hl _] Hb Hc Hd He']. by split. }
  intros _. eapply world_then; [apply on_b_safe, quiet_inputs|]. intros _.
  eapply world_then with (Q := device_parts d (listening (negb r) counting') sending_b anything offers' unused).
  { apply receiver_idle.
    - intros w [He Ha' Hb Hc Hd He']. split; [exact Hc|]. split; [exact He|exact Ha'|exact Hb|done|exact Hd|exact He'].
    - intros g w Hw. exact Hw.
    - intros next w [He Ha' Hb Hc Hd He']. by split. }
  intros _. eapply world_then; [apply on_d_safe, inputs_safe|]. intros _.
  apply receiver_idle.
  - intros w [He Ha' Hb Hc Hd He']. split; [exact He'|]. split; [exact He|exact Ha'|exact Hb|done|exact Hd|done].
  - intros g w Hw. exact Hw.
  - intros next w [He Ha' Hb Hc Hd He']. by split.
Qed.

(** What the signals of a cycle do to the checkers [m]. *)
Definition edge (lh ld : links) (m : Assertions.monitor) : Assertions.monitor :=
  Assertions.clock_edge width (joined lh ld) m.

(** Code that gets the inputs is safe, at both ends, and leaves at most [work]; at the next
    edge of the clock no checker complains, and no request is pending if [idle]. *)
Definition meeting (idle : Prop) (work : Z) (m : Assertions.monitor) (h : TileLinkHost.host) (lh : links)
    (dv : TileLinkDevice.device) (ld : links) : Prop :=
  exists Ph Pd, Ph h lh /\ Pd dv ld /\ fine p (edge lh ld m) /\ (idle -> none_pending (edge lh ld m))
  /\ forall r, exists coming counting away receiving eh ed,
    let v := registers_of width (edge lh ld m) in
    world_safe (G := G) False Ph (TileLinkHost.get_inputs r) (host_between (negb r) v coming counting away receiving eh)
    /\ world_safe (G := G) False Pd (TileLinkDevice.get_inputs r) (device_between (negb r) v coming counting away receiving ed)
    /\ eh + ed <= work.

(** If both ends send what they can and take what comes, at least one beat crosses,
    unless there is no work. *)
Definition progress (moves live : bool) (before after : Z) : Prop :=
  before <= after \/ (moves = true /\ live = true /\ 0 <= after /\ before - 1 <= after).

Lemma work_left v moves live va ra vd rd coming counting away receiving eh ed work ks bs ids ds dbs q idsd :
  queue_on_a v coming counting away eh ks bs tt ids -> accepted_fewer ks bs ->
  queue_on_d v coming receiving away ed ds dbs q idsd -> accepted_fewer ds dbs ->
  (moves = true -> va = false -> blocked ks bs) ->
  (moves = true -> vd = false -> a_requests q = [] /\ blocked ds dbs) ->
  (live = true -> ra = true /\ rd = true) -> progress moves live (eh + ed) work ->
  exists ed', queue_on_d v coming receiving away ed' ds dbs q idsd
    /\ eh + ed' - Z.b2z (va && ra) - Z.b2z (vd && rd) <= work.
Proof.
  intros HA Ha HD Hd Hva Hvd Hlive Hwork.
  destruct Hwork as [Hle|(-> & -> & Hpos & Hle)].
  { exists ed. split; [exact HD|]. destruct (va && ra), (vd && rd); cbn; lia. }
  destruct (Hlive eq_refl) as [-> ->]. destruct va; [exists ed; split; [exact HD|destruct vd; cbn; lia]|].
  destruct vd; [exists ed; split; [exact HD|cbn; lia]|].
  destruct (host_facts host_done _ _ _ _ _ _ _ _ _ _ HA Ha (Hva eq_refl eq_refl)) as [-> ->].
  destruct (Hvd eq_refl eq_refl) as [Hq Hb].
  exists 0. split; [by eapply (host_facts device_done)|cbn; lia].
Qed.

(** Without work that is left no request is pending, and nothing is offered. *)
Lemma no_work v coming counting receiving away eh ed ks bs ids ds dbs q idsd :
  queue_on_a v coming counting away eh ks bs tt ids -> queue_on_d v coming receiving away ed ds dbs q idsd ->
  accepted_fewer ks bs -> accepted_fewer ds dbs -> eh + ed <= 0 ->
  ks = [] /\ forall s, Assertions.pend (v s) = false.
Proof.
  intros HA HD Ha Hd He. destruct (host_facts no_effort _ _ _ _ _ _ _ _ _ _ _ _ _ _ _ _ HA HD Ha Hd He) as (Hids & -> & _).
  split; [done|]. intros s. pose proof (host_ids _ _ _ _ _ _ _ _ _ _ _ _ _ HA) as Hi. rewrite Hids in Hi.
  apply (host_seen _ _ _ _ _ _ _ _ _ _ _ _ _ HA); [|done]. intros Hs.
  assert (Hin : s ∈ (∅ : gset Z)) by (rewrite Hi; apply elem_of_list_to_set, elem_of_app; by right). by apply not_elem_of_empty in Hin.
Qed.

(** The checkers at an edge at which the beats [oa] and [od] are accepted. *)
Lemma edge_fine lh ld m v (oa : option tl_a) (od : option tl_d) :
  orderly m -> uncached_signals (joined lh ld) ->
  Assertions.accepted (link_a (joined lh ld)) = oa -> Assertions.accepted (link_d (joined lh ld)) = od ->
  v = counted oa request_seen (registers_of width m) ->
  (forall b, oa = Some b -> forall proto m', watches proto ->
     Assertions.beats (Assertions.pending m' (a_source b)) = Assertions.beats (v (a_source b)) ->
     Assertions.tl (Assertions.pending m' (a_source b)) = Assertions.tl (v (a_source b)) ->
     Assertions.request_passes proto width m' b = true) ->
  (forall b, od = Some b -> forall proto m', watches proto -> (forall s, Assertions.pending m' s = response_seen b v s) ->
     Assertions.dRespMustHaveReq m' b && Assertions.response_passes proto width m' b = true) ->
  fine p (edge lh ld m).
Proof.
  intros Hm Hl Hoa Hod Hv Ha Hd. destruct (edge_orderly width (joined lh ld) m Hm Hl) as (Ho & Hs & Hp).
  rewrite Hoa, Hod, <- Hv in Hp. split; [done|]. intros proto type Hproto. apply (signals_pass p); unfold edge; rewrite Hs; [done|..].
  - rewrite Hoa. intros b Hb. apply Ha; [done|done|..]; rewrite Hp; destruct od; try done; cbn [counted];
      unfold response_seen; by case_decide.
  - rewrite Hod. intros b Hb. apply Hd; [done|done|]. intros s. rewrite Hp. by rewrite Hb.
Qed.

Lemma accept_fewer taken b ks bs :
  Forall (a_entry_ok width (max_size p) level) ks -> accepted_fewer ks bs ->
  accepted_fewer (fst (accept taken b ks bs)) (snd (accept taken b ks bs)).
Proof using Type.
  intros Hok Ha. destruct taken, ks as [|k ks]; try done. cbn in *.
  destruct (Z.eqb_spec (Z.of_nat (length bs) + 1) (e_total k)); cbn; [|rewrite length_app; cbn; lia].
  apply Forall_cons_1 in Hok as [_ Hok]. destruct ks as [|k' ks]; [done|]. apply Forall_cons_1 in Hok as [[_ Ht _] _].
  cbn. rewrite Ht. pose proof (num_beats_pos width (a_has_payload (a_opcode (e_header k'))) (a_size (e_header k'))).
  unfold beats_a. lia.
Qed.

(** Both ends at an edge: a beat may cross each of the two channels. *)
Lemma beats_cross r ks bs ids sa ca v coming counting receiving away eh ed ds dbs q idsd sd cd ra rd (m : Assertions.monitor) :
  let oa := if valid ca && ra then Some (data ca) else None in
  let od := if valid cd && rd then Some (data cd) else None in
  let v' := counted oa request_seen v in
  sends_a ks bs tt ids sa ca -> beat_accepted sa = false -> (valid ca = true -> legal_beat net p (data ca)) ->
  sends_d ds dbs q idsd sd cd -> beat_accepted sd = false ->
  queue_on_a v coming counting away eh ks bs tt ids -> queue_on_d v coming receiving away ed ds dbs q idsd ->
  exists coming' counting' away' receiving' q' ids' eh' ed',
    device_step r (valid ca && ra) (data ca) counting q counting' q'
    /\ host_step (valid cd && rd) (data cd) receiving ids receiving' ids'
    /\ queue_on_a (replies width od v') coming' counting' away' eh'
         (fst (accept (valid ca && ra) (data ca) ks bs)) (snd (accept (valid ca && ra) (data ca) ks bs)) tt ids'
    /\ queue_on_d (replies width od v') coming' receiving' away' ed'
         (fst (accept (valid cd && rd) (data cd) ds dbs)) (snd (accept (valid cd && rd) (data cd) ds dbs)) q' idsd
    /\ eh' + ed' = eh + ed - Z.b2z (valid ca && ra) - Z.b2z (valid cd && rd)
    /\ (forall b, oa = Some b -> forall proto m', watches proto ->
         Assertions.beats (Assertions.pending m' (a_source b)) = Assertions.beats (v' (a_source b)) ->
         Assertions.tl (Assertions.pending m' (a_source b)) = Assertions.tl (v' (a_source b)) ->
         Assertions.request_passes proto width m' b = true)
    /\ (forall b, od = Some b -> uncached_response b
         /\ forall proto m', watches proto -> (forall s, Assertions.pending m' s = response_seen b v' s) ->
         Assertions.dRespMustHaveReq m' b && Assertions.response_passes proto width m' b = true).
Proof.
  intros oa od v' Hsa Haa Hlegal Hsd Had HA HD.
  destruct (crosses_on_a r ks bs ids sa ca ra (data ca) v coming counting away receiving eh ed ds dbs q idsd Hsa Haa eq_refl Hlegal HA HD)
    as (coming' & counting' & away1 & q' & eh1 & ed1 & Hstepa & HA1 & HD1 & Hsum & Hpa).
  pose proof (accept_fewer (valid ca && ra) (data ca) ks bs (host_entries _ _ _ _ _ _ _ _ _ _ _ _ _ HA) (sends_fewer _ _ _ _ _ _ Hsa)) as Hfewer.
  assert (Hsd' : sends_d ds dbs q' idsd (set_requests q' sd) cd).
  { pose proof Hsd as (_ & _ & Hi). by eapply sends_changed. }
  destruct (crosses_on_d _ _ _ _ _ rd (data cd) _ _ _ _ _ _ _ ds dbs q' idsd Hsd' Had eq_refl Hfewer HA1 HD1)
    as (away2 & receiving' & ids' & Hstepd & HA2 & HD2 & Hpd).
  exists coming', counting', away2, receiving', q', ids', eh1, (ed1 - Z.b2z (valid cd && rd)).
  split; [exact Hstepa|]. split; [exact Hstepd|]. split; [exact HA2|]. split; [exact HD2|]. split; [lia|].
  unfold oa, od. split; [destruct (valid ca && ra)|destruct (valid cd && rd)]; intros b [= <-]; [|by apply Hpd].
  intros proto m' Hproto. by apply Hpa.
Qed.

(** When there is no work, no request is pending at the next edge either. *)
Lemma idle_edge m lh ld ks bs ids sa coming counting receiving away eh ed ds dbs q idsd :
  let ca := link_a lh in
  orderly m -> uncached_signals (joined lh ld) ->
  sends_a ks bs tt ids sa ca -> beat_accepted sa = false -> accepted_fewer ds dbs ->
  queue_on_a (registers_of width m) coming counting away eh ks bs tt ids ->
  queue_on_d (registers_of width m) coming receiving away ed ds dbs q idsd ->
  eh + ed <= 0 -> none_pending (edge lh ld m).
Proof.
  intros ca Hm Hl Hs Hacc Hfd HA HD Hnone s.
  destruct (no_work _ _ _ _ _ _ _ _ _ _ _ _ _ _ HA HD (sends_fewer _ _ _ _ _ _ Hs) Hfd Hnone) as [-> Hpend].
  destruct (edge_orderly width (joined lh ld) m Hm Hl) as (_ & _ & Hp). unfold edge. rewrite Hp.
  assert (Hv : valid ca = false).
  { destruct (valid ca) eqn:Hv; [|done]. destruct Hs as ([g Hh] & _ & _).
    destruct (holds_offered _ _ _ Hh) as (k & ks' & ? & _); [|done]. unfold offered. cbn. fold ca. by rewrite Hv, Hacc. }
  assert (Hoa : Assertions.accepted (link_a (joined lh ld)) = None) by (by apply not_accepted).
  rewrite Hoa. cbn [counted]. destruct (Assertions.accepted _); cbn [counted]; [|done].
  unfold response_seen. case_decide; cbn; done.
Qed.

Lemma ready_meets moves live m coming counting away receiving eh ed work h lh dv ld :
  orderly m -> legal_sender net p (TileLinkHost.a h) (link_a lh) ->
  host_set moves live (registers_of width m) coming counting away receiving eh h lh ->
  device_set moves live (registers_of width m) coming counting away receiving ed dv ld ->
  progress moves live (eh + ed) work ->
  meeting (eh + ed <= 0) work m h (joined lh ld) dv (joined lh ld).
Proof.
  intros Hm Hlegal [He Ha _ Hcq [[Hrec Hlive] Hry] Heq] [De [[Dcount Dlive] Dry] Hbq _ Dd _] Hwork.
  destruct (offering_sends _ _ _ _ _ (fun _ _ _ _ x => x) Ha) as (ks & bs & Hs & HA & Hidle).
  destruct (offering_sends _ _ _ _ _ (fun _ _ _ _ x => proj1 x) Dd) as (ds & dbs & Hsd & HD & Didle).
  destruct Ha as [[_ Hacc] _], Dd as [[_ Ddacc] _]. destruct (requests (TileLinkHost.a h)).
  pose proof (quiet_unused _ _ _ Hbq) as Hvb. pose proof (quiet_unused _ _ _ Hcq) as Hvc.
  pose proof (quiet_unused _ _ _ Heq) as Hve.
  destruct Hbq as [Db Dbacc], Hcq as [Hc Hcacc], Heq as [He' Heacc].
  set (ids := ids_in_use (TileLinkHost.a h)) in *. set (q := requests (TileLinkDevice.d dv)) in *.
  set (idsd := ids_in_use (TileLinkDevice.d dv)) in *.
  set (ca := link_a lh) in *. set (ra := ready (link_a ld)) in *.
  set (cd := link_d ld) in *. set (rd := ready (link_d lh)) in *.
  pose proof (sends_fewer _ _ _ _ _ _ Hs) as Hfa. pose proof (sends_fewer _ _ _ _ _ _ Hsd) as Hfd.
  assert (Hleft : exists ed', queue_on_d (registers_of width m) coming receiving away ed' ds dbs q idsd
    /\ eh + ed' - Z.b2z (valid ca && ra) - Z.b2z (valid cd && rd) <= work).
  { apply (work_left _ moves live (valid ca) ra (valid cd) rd coming counting away receiving eh ed work ks bs ids ds dbs q idsd HA Hfa
      HD Hfd); [|by intros Hmo Hv; destruct (Didle Hmo Hv) as [[_ Hq] Hb]| |exact Hwork].
    - intros Hmo Hv. by apply Hidle.
    - intros Hl. rewrite Dry, Hry. by split; [apply Dlive|apply Hlive]. }
  destruct Hleft as (ed' & HD' & Hleft).
  assert (Hcross : forall r, _) by exact (fun r => beats_cross r ks bs ids _ ca _ coming counting receiving away eh ed' ds dbs q idsd _ cd ra rd m
    Hs Hacc (sender_beat _ _ _ _ Hlegal) Hsd Ddacc HA HD').
  set (oa := if valid ca && ra then Some (data ca) else None) in *. set (od := if valid cd && rd then Some (data cd) else None) in *.
  assert (Hl : uncached_signals (joined lh ld)).
  { destruct (Hcross false) as (? & ? & ? & ? & ? & ? & ? & ? & _ & _ & _ & _ & _ & _ & Hpd). split; try done. intros b Hb. by apply Hpd. }
  exists (host_parts p (offers_a ks bs ids (valid ca) ra (data ca)) unused offering_c (sees receiving (valid cd) rd (data cd)) offering_e).
  exists (device_parts d (sees counting (valid ca) ra (data ca)) offering_b unused (offers_d ds dbs q idsd (valid cd) rd (data cd)) unused).
  change (edge (joined lh ld) (joined lh ld) m) with (edge lh ld m).
  split; [|split; [|split; [|split]]].
  - split; try done; [by split; [by eapply sends_wires|]|by split; [by eapply sending_wires|]|by split; [by eapply sending_wires|]].
  - split; try done; [by split; [by eapply sending_wires|]|by split; [by eapply sends_wires|]].
  - destruct (Hcross false) as (? & ? & ? & ? & ? & ? & ? & ? & _ & _ & _ & _ & _ & Hpa & Hpd).
    eapply (edge_fine lh ld m _ oa od); try done. intros b Hb. by apply Hpd.
  - intros Hnone. exact (idle_edge m lh ld ks bs ids _ coming counting receiving away eh ed ds dbs q idsd Hm Hl Hs Hacc Hfd HA HD Hnone).
  - intros r. destruct (Hcross r) as (coming' & counting' & away' & receiving' & q' & ids' & eh' & ed1 & Hstepa & Hstepd & HA2 & HD2 & Hsum & _).
    assert (Hregs : forall s, registers_of width (edge lh ld m) s = replies width od (counted oa request_seen (registers_of width m)) s)
      by (intros s; by apply edge_registers).
    exists coming', counting', away', receiving', eh', ed1. split; [|split; [|lia]].
    + eapply world_weaken; [by apply (host_inputs_safe ks bs ids (valid ca) ra (data ca) receiving (valid cd) rd (data cd))|done|].
      intros h' l' [He1 Ha1 Hb1 Hc1 Hd1 He1']. split; try done. eapply sends_sending; [exact Ha1|].
      by apply (host_facts host_queue_ext _ _ _ _ _ _ _ _ _ _ _ Hregs).
    + eapply world_weaken; [by apply (device_inputs_safe ds dbs q idsd (valid cd) rd (data cd) counting (valid ca) ra (data ca))|done|].
      intros h' l' [He1 Ha1 Hb1 Hc1 Hd1 He1']. split; try done. eapply sends_sending; [exact Hd1|].
      by apply (host_facts device_queue_ext _ _ _ _ _ _ _ _ _ _ Hregs).
Qed.

End cycle.
