(* ===== verification/TlWiredTheorems.v ===== *)
(** * A host and a device that are wired together: theorems

    The whole simulation of [tl_harness.h], with one host and one device without caches
    and wires for the device under test: it runs random traffic and then drains it, and
    nothing goes wrong. *)

From S2P Require Import Prelude Exceptions Simulation TileLink TlEndpoint TlMessages TlMessagesTheorems.
From S2P Require Import TlChannels TlHarness TlSender TlSenderTheorems TlReceiver TlQueue TlWorlds.
From S2P Require Import TlResponder TlTraffic TlAssertions TlWired TlWiredSenders TlWatched TlWiredCycle.

Import Sender.
Open Scope Z_scope.

(** A device under test that connects its only host to its only device. *)
Class Wired (X : Type) `{Wrapper X} : Prop := {
  eval_joins lh ld x : exists x', eval (Dut [lh] [ld] x) = Dut [joined lh ld] [joined lh ld] x';
  clk_leaves v lh ld x : exists x', set_clk_i v (Dut [lh] [ld] x) = Dut [lh] [ld] x';
}.

(** One that may also have checkers of the wires, on which the state [x] keeps track of
    the registers [m], with the clock as the last evaluation has [seen] it and as it is
    now. When it rises the checkers see the wires; when it falls, they evaluate their
    assertions. The laws are what the simulation needs: only that nothing happens if no
    assertion fails. *)
Class Watched (p : endpoint) (X : Type) `{Wrapper X} : Type := {
  tracks (seen clk : Z) (m : Assertions.monitor) (x : X) : Prop;
  eval_rising m lh ld x : tracks 0 1 m x ->
    exists x', eval (Dut [lh] [ld] x) = Dut [joined lh ld] [joined lh ld] x' /\ tracks 1 1 (edge p lh ld m) x';
  eval_falling m lh ld x : tracks 1 0 m x -> fine p m ->
    exists x', eval (Dut [lh] [ld] x) = Dut [joined lh ld] [joined lh ld] x' /\ tracks 0 0 m x';
  clk_tracks seen clk v m lh ld x : tracks seen clk m x ->
    exists x', set_clk_i v (Dut [lh] [ld] x) = Dut [lh] [ld] x' /\ tracks seen v m x';
}.

(** Wires without checkers. *)
Definition wired_watched (p : endpoint) (X : Type) `{Wired X} : Watched p X.
Proof.
  refine {| tracks _ _ _ _ := True |}.
  - intros m lh ld x _. destruct (eval_joins lh ld x) as [x' Hx]. by exists x'.
  - intros m lh ld x _ _. destruct (eval_joins lh ld x) as [x' Hx]. by exists x'.
  - intros seen clk v m lh ld x _. destruct (clk_leaves v lh ld x) as [x' Hx]. by exists x'.
Defined.

(** No beat is on a channel. *)
Record silent_host (l : links) : Prop := {
  silent_a : valid (link_a l) = false;
  silent_c : valid (link_c l) = false;
  silent_e : valid (link_e l) = false;
}.
Record silent_device (l : links) : Prop := {
  silent_b : valid (link_b l) = false;
  silent_d : valid (link_d l) = false;
}.

(** ** Accounting *)

(** An identifier is only in use while a request with it is in the queue of the host, or
    in that of the device, or a response to it is. *)
Definition accounted (h : TileLinkHost.host) (dv : TileLinkDevice.device) : Prop :=
  forall id, id ∈ ids_in_use (TileLinkHost.a h) ->
    (exists m, m ∈ to_send (TileLinkHost.a h) /\ a_source (header m) = id)
    \/ (exists r, r ∈ a_requests (requests (TileLinkDevice.d dv)) /\ a_source (snd r) = id)
    \/ (exists m, m ∈ to_send (TileLinkDevice.d dv) /\ d_source (header m) = id).

Section accounts.

Context {C Q G : Type} `{Random G} {methods : SenderMethods C Q G} `{!SenderLaws C Q G}.

Lemma holds_entries (w : state C Q G) ks bs k :
  holds w ks bs -> k ∈ ks -> exists m, m ∈ to_send (self w) /\ header m = e_header k.
Proof.
  assert (Hmap : forall l, k ∈ map entry_of l -> exists m : tl_message C, m ∈ l /\ header m = e_header k).
  { intros l Hk. apply list_elem_of_fmap in Hk as (m & -> & Hm). by exists m. }
  intros [bs' _ _|m l bs' _ Hq _] Hk; [by apply Hmap|]. rewrite Hq.
  apply Hmap in Hk as (m' & Hm' & Heq). exists m'. split; [by apply list_elem_of_further|done].
Qed.

End accounts.

Lemma queued_source width limit level v k l ss k' id :
  queued width limit level v k l ss k' -> id ∈ ss -> exists r, r ∈ l /\ a_source (snd r) = id.
Proof.
  induction 1 as [k|k r b l ss k' _ _ _ IH|r b l ss k' _ _ _ IH]; intros Hid; [by apply elem_of_nil in Hid|..].
  - destruct (IH Hid) as (x & Hx & Heq). exists x. split; [by apply list_elem_of_further|done].
  - apply elem_of_cons in Hid as [->|Hid]; [exists (r, b); split; [by apply list_elem_of_here|done]|].
    destruct (IH Hid) as (x & Hx & Heq). exists x. split; [by apply list_elem_of_further|done].
Qed.

Lemma waiting_source ks bs id :
  id ∈ waiting ks bs -> exists k, k ∈ ks /\ a_source (e_header k) = id.
Proof.
  destruct ks as [|k ks]; [by intros ?%elem_of_nil|]. cbn [waiting]. intros Hid.
  apply elem_of_app in Hid as [Hid|Hid].
  - exists k. split; [by apply list_elem_of_here|]. destruct (_ && _); [by apply elem_of_nil in Hid|].
    by apply list_elem_of_singleton in Hid.
  - apply list_elem_of_fmap in Hid as (k' & -> & Hk'). exists k'. split; [by apply list_elem_of_further|done].
Qed.

(** Everything has been sent, answered and received. *)
Record settled (h : TileLinkHost.host) (dv : TileLinkDevice.device) : Prop := {
  settled_ids : ids_in_use (TileLinkHost.a h) = ∅;
  settled_host : Forall (fun m => finished m = true) (to_send (TileLinkHost.a h));
  settled_requests : a_requests (requests (TileLinkDevice.d dv)) = [];
  settled_device : Forall (fun m => finished m = true) (to_send (TileLinkDevice.d dv));
}.

(** The beats that can be on their way: for each identifier a request and a response, and
    a request that is being answered before all of it was sent. *)
Definition work_bound (p : endpoint) : Z :=
  num_beats true (max_size p) (width_bytes p) * (2 * (last_id p - first_id p + 1) + 1).

Lemma work_bound_pos fuel p d : wired_endpoints fuel p d -> 0 < work_bound p.
Proof.
  intros He. pose proof (ordinary_ids _ _ _ (wired_host _ _ _ He)).
  pose proof (num_beats_pos (width_bytes p) true (max_size p)). unfold work_bound. nia.
Qed.

(** A beat crosses in a cycle if both ends do what they can. *)
Definition work_after (r live : bool) (work : Z) : Z := if negb r && live then work - 1 else work.

Section simulation.

Context {X G : Type} `{Random G} `{Indeterminate} `{Wrapper X} `{TraceFormats}.
Context (fuel : nat) (p d : endpoint) `{!Watched p X}.
Hypothesis endpoints : wired_endpoints fuel p d.

#[local] Set Default Proof Using "All".

Import TileLinkSimulation.

Abbreviation net := (Network [p] [d]).
Abbreviation width := (width_bytes p).
Abbreviation level := (protocol_level (protocol p)).
Abbreviation both r T Ph Pd := (pair_of r (fun x h lh dv ld => T x /\ Ph h lh /\ Pd dv ld)).
Abbreviation on_host := (TileLinkHost.host -> links -> Prop).
Abbreviation on_device := (TileLinkDevice.device -> links -> Prop).
Abbreviation host_state := (registers -> Z -> Z -> list Z -> Z -> Z -> on_host).
Abbreviation device_state := (registers -> Z -> Z -> list Z -> Z -> Z -> on_device).

(** The requests of the host are legal. *)
Definition legal (h : TileLinkHost.host) (l : links) : Prop :=
  TileLinkHost.endpoint h = p /\ legal_sender net p (TileLinkHost.a h) (link_a l).

Definition lawful (Ph : on_host) : on_host := fun h l => Ph h l /\ legal h l.

(** The invariant of the simulation after a rising edge of the clock: at most [work] is
    left; if that is negative, no request is pending at the checkers. *)
Definition stage (seen clk : Z) (r : bool) (Ph : host_state) (Pd : device_state) (work : Z) (s : simulation X G) : Prop :=
  exists m coming counting away receiving eh ed,
    let v := registers_of width m in
    fine p m /\ (work <= -1 -> none_pending m) /\ eh + ed <= Z.max 0 work
    /\ both r (tracks seen clk m) (lawful (Ph v coming counting away receiving eh))
         (Pd v coming counting away receiving ed) s.

(** And between two cycles, when the beats on the wires [lh] and [ld] are about to be
    seen by the checkers. *)
Definition between (clk : Z) (r live : bool) (work : Z) (s : simulation X G) : Prop :=
  exists m lh ld coming counting away receiving eh ed,
    let m' := edge p lh ld m in let v := registers_of width m' in
    orderly m /\ (work <= -2 -> none_pending m) /\ fine p m' /\ (work <= -1 -> none_pending m')
    /\ eh + ed <= Z.max 0 work
    /\ both r (tracks 0 clk m)
         (fun h l => l = lh /\ lawful (host_between (G := G) p live v coming counting away receiving eh) h l)
         (fun dv l => l = ld /\ device_between (G := G) fuel p d live v coming counting away receiving ed dv l) s.

Abbreviation risen r live := (stage 1 1 r (host_between (G := G) p live) (device_between (G := G) fuel p d live)).
Abbreviation readied r live := (stage 1 1 r (host_ready (G := G) p live) (device_ready (G := G) fuel p d live)).
Abbreviation set_up clk r live := (stage 1 clk r (host_set (G := G) p (negb r) live) (device_set (G := G) fuel p d (negb r) live)).

Lemma lawful_safe o Ph Qh k :
  world_safe (G := G) o Ph k Qh -> always (E := exn) (legal_host net p) k (fun _ => True) ->
  world_safe (A := unit) o (lawful Ph) k (lawful Qh).
Proof. intros Hk Hl. by apply world_always. Qed.

(** Flow control. *)
Lemma flow_stage r live work : safe False (risen r live work) set_flow_control (fun _ => readied r live work).
Proof.
  intros s (m & coming & counting & away & receiving & eh & ed & Hm & Hn & Hle & Hs). revert s Hs.
  eapply safe_weaken with (Q' := fun _ => both r (tracks 1 1 m)
    (lawful (host_ready (G := G) p live (registers_of width m) coming counting away receiving eh))
    (device_ready (G := G) fuel p d live (registers_of width m) coming counting away receiving ed)); [|done|].
  { apply both_safe; [apply lawful_safe; [apply (host_flow_safe fuel p d endpoints)|apply host_flow_keeps]|].
    apply (device_flow_safe fuel p d endpoints). }
  intros _ s Hs. by exists m, coming, counting, away, receiving, eh, ed.
Qed.

(** The endpoints that messages are created for. *)
Lemma endpoints_here r T live v coming counting away receiving eh ed (s : simulation X G) :
  both r T (lawful (host_ready (G := G) p live v coming counting away receiving eh))
    (device_ready (G := G) fuel p d live v coming counting away receiving ed) s ->
  TileLinkSimulation.endpoints s = net /\ randomise s = r.
Proof.
  intros (h & lh & dv & ld & Er & Eh & Ed & _ & _ & _ & [Hh _] & Hd). split; [|exact Er].
  unfold TileLinkSimulation.endpoints. rewrite Eh, Ed. cbn.
  by rewrite (host_endpoint _ _ _ _ _ _ _ _ Hh), (device_endpoint _ _ _ _ _ _ _ _ Hd).
Qed.

Lemma outputs_stage r live work :
  safe (r = true) (readied r live work) (set_outputs fuel)
    (fun _ s => exists work', (r = false -> work' = work) /\ set_up 1 r live work' s).
Proof.
  intros s (m & coming & counting & away & receiving & eh & ed & Hm & Hn & Hle & Hs).
  destruct (endpoints_here _ _ _ _ _ _ _ _ _ _ _ Hs) as [He Hr].
  unfold set_outputs. erewrite bind_ok by done. cbv beta. rewrite He, Hr.
  pose proof (both_safe (r = true) _ _ _ _ _ _ _
    (lawful_safe _ _ _ _ (host_outputs_safe fuel p d endpoints live _ coming counting away receiving eh r)
       (host_outputs_keeps fuel net p r (wired_host _ _ _ endpoints)))
    (world_fuel _ _ _ _ _ (device_outputs_safe fuel p d endpoints live _ coming counting away receiving ed r)
       (False_ind _)) s Hs) as Hrun.
  destruct (all_endpoints _ _ s) as [[[]| | | | |] s']; try done.
  destruct Hrun as (h & lh & dv & ld & Er & Eh & Ed & Elh & Eld & HT & [(eh' & Hsame & Hh) Hlegal] & Hd).
  exists (if r then Z.max 0 (eh' + ed) else work). split; [by intros ->|].
  exists m, coming, counting, away, receiving, eh', ed. split; [done|].
  split; [intros Hw; apply Hn; destruct r; lia|]. split; [destruct r; [lia|by rewrite Hsame]|].
  by exists h, lh, dv, ld.
Qed.

(** *** The wires *)

Lemma legal_wires h l l' :
  legal h l -> valid (link_a l') = valid (link_a l) -> data (link_a l') = data (link_a l) -> legal h l'.
Proof. intros [He [Hm Hi Hq Hb]] Hv Hd. split; [done|]. split; try done. by rewrite Hv, Hd. Qed.

(** The clock may be changed. *)
Lemma clock_dut r seen clk v m P :
  safe (E := exn) False (pair_of r (fun x h lh dv ld => tracks seen clk m x /\ P h lh dv ld))
    (modify (on_dut (X := X) (G := G) (set_clk_i v)))
    (fun _ => pair_of r (fun x h lh dv ld => tracks seen v m x /\ P h lh dv ld)).
Proof.
  apply dut_safe. intros h lh dv ld x [HT HP]. destruct (clk_tracks seen clk v m lh ld x HT) as (x' & Hx & HT').
  by exists lh, ld, x'.
Qed.

Lemma clock_high clk r live work :
  safe (E := exn) False (between clk r live work) (modify (on_dut (set_clk_i 1))) (fun _ => between 1 r live work).
Proof.
  intros s (m & lh & ld & c1 & c2 & a & c3 & eh & ed & Hm & Hn2 & Hf & Hn1 & Hle & Hs). revert s Hs.
  eapply safe_weaken; [apply (clock_dut r 0 clk 1 m)|intros s' Hs; exact Hs|]. intros [] s Hs.
  by exists m, lh, ld, c1, c2, a, c3, eh, ed.
Qed.

Lemma clock_low r live work :
  safe (E := exn) False (set_up 1 r live work) (modify (on_dut (set_clk_i 0))) (fun _ => set_up 0 r live work).
Proof.
  intros s (m & c1 & c2 & a & c3 & eh & ed & Hm & Hn & Hle & Hs). revert s Hs.
  eapply safe_weaken; [apply (clock_dut r 1 1 0 m)|intros s' Hs; exact Hs|]. intros [] s Hs.
  by exists m, c1, c2, a, c3, eh, ed.
Qed.

(** At a rising edge the checkers see the beats on the wires. *)
Lemma eval_rises r live work :
  safe (E := exn) False (between 1 r live work) (modify (on_dut eval)) (fun _ => risen r live work).
Proof.
  intros s (m & lh & ld & c1 & c2 & a & c3 & eh & ed & Hm & Hn2 & Hf & Hn1 & Hle & Hs). revert s Hs.
  eapply safe_weaken with (Q' := fun _ => both r (tracks 1 1 (edge p lh ld m))
    (lawful (host_between (G := G) p live (registers_of width (edge p lh ld m)) c1 c2 a c3 eh))
    (device_between (G := G) fuel p d live (registers_of width (edge p lh ld m)) c1 c2 a c3 ed)); [apply dut_safe|done|].
  - intros h lh' dv ld' x (HT & [-> [[He Ha Hb Hc Hd He'] Hlegal]] & [-> [De Da Db Dc Dd De']]).
    destruct (eval_rising m lh ld x HT) as (x' & Hx & HT'). exists (joined lh ld), (joined lh ld), x'.
    split; [exact Hx|]. split; [exact HT'|]. split; [split|]; [|by eapply legal_wires|]; split; try done; by eapply sending_wires.
  - intros _ s Hs. by exists (edge p lh ld m), c1, c2, a, c3, eh, ed.
Qed.

Lemma meeting_weaken (idle idle' : Prop) work work' m h lh dv ld :
  meeting (G := G) fuel p d idle work m h lh dv ld -> (idle' -> idle) -> work <= work' ->
  meeting (G := G) fuel p d idle' work' m h lh dv ld.
Proof.
  intros (Ph & Pd & Hh & Hd & Hf & Hn & Hr) Hi Hw. exists Ph, Pd. repeat (split; [auto|]).
  intros r. destruct (Hr r) as (c1 & c2 & a & c3 & eh & ed & Hkh & Hkd & Hle). exists c1, c2, a, c3, eh, ed.
  repeat (split; [done|]). lia.
Qed.

(** At a falling edge, the two ends meet. *)
Definition met (idle : Prop) (work : Z) (m : Assertions.monitor) : bool -> simulation X G -> Prop := fun r =>
  pair_of r (fun x h lh dv ld => tracks 0 0 m x /\ meeting (G := G) fuel p d idle work m h lh dv ld /\ legal h lh).

Lemma eval_meets r live work :
  safe (E := exn) False (set_up 0 r live work) (modify (on_dut eval))
    (fun _ s => exists m, orderly m /\ (work <= -1 -> none_pending m)
       /\ met (work <= 0) (Z.max 0 (work_after r live work)) m r s).
Proof.
  intros s (m & c1 & c2 & a & c3 & eh & ed & Hm & Hn & Hle & Hs). revert s Hs.
  eapply safe_weaken with (Q' := fun _ => met (work <= 0) (Z.max 0 (work_after r live work)) m r);
    [apply dut_safe|done|].
  - intros h lh dv ld x (HT & [Hh Hlegal] & Hd). destruct (eval_falling m lh ld x HT Hm) as (x' & Hx & HT').
    exists (joined lh ld), (joined lh ld), x'. split; [exact Hx|]. split; [exact HT'|]. split; [|by eapply legal_wires].
    eapply meeting_weaken; [apply (ready_meets fuel p d endpoints (negb r) live m c1 c2 a c3 eh ed); try done|lia|reflexivity].
    + apply Hm.
    + apply Hlegal.
    + unfold work_after. destruct (negb r), live; cbn; [right; repeat split; lia|left; lia..].
  - intros _ s Hs. exists m. split; [apply Hm|]. by split.
Qed.

(** Getting the inputs leaves the wires alone. *)
Lemma inputs_stage r idle work work' m :
  orderly m -> (work' <= -2 -> none_pending m) -> (work' <= -1 -> idle) -> work <= Z.max 0 work' ->
  safe False (met idle work m r) (get_inputs (X := X) (G := G)) (fun _ => between 0 r (negb r) work').
Proof.
  intros Hm Hn2 Hidle Hwork s Hs. unfold get_inputs. erewrite bind_ok by done. cbv beta.
  destruct Hs as (h & lh & dv & ld & Er & Eh & Ed & Elh & Eld & HT & (Ph & Pd & HPh & HPd & Hf & Hn1 & Hsafe) & Hlegal).
  rewrite Er. destruct (Hsafe r) as (c1 & c2 & a & c3 & eh & ed & Hh & Hd & Hle).
  assert (Hs : both r (tracks 0 0 m) (fun h l => lawful Ph h l /\ l = lh) (fun dv l => Pd dv l /\ l = ld) s)
    by (by exists h, lh, dv, ld).
  clear h dv Er Eh Ed Elh Eld HT HPh HPd Hlegal. revert s Hs.
  apply safe_weaken with
    (P' := both r (tracks 0 0 m) (fun h l => lawful Ph h l /\ l = lh) (fun dv l => Pd dv l /\ l = ld))
    (Q' := fun _ => both r (tracks 0 0 m)
    (fun h l => lawful (host_between (G := G) p (negb r) (registers_of width (edge p lh ld m)) c1 c2 a c3 eh) h l /\ l = lh)
    (fun dv l => device_between (G := G) fuel p d (negb r) (registers_of width (edge p lh ld m)) c1 c2 a c3 ed dv l /\ l = ld));
    [apply both_safe; apply world_always|done|].
  - apply lawful_safe; [exact Hh|apply host_inputs_keeps].
  - apply host_inputs_port.
  - exact Hd.
  - apply device_inputs_port.
  - intros _ s (h' & lh' & dv' & ld' & Er & Eh & Ed & Elh & Eld & HT & [Hh' ->] & [Hd' ->]).
    exists m, lh, ld, c1, c2, a, c3, eh, ed. repeat (split; [by auto|]). split; [lia|].
    by exists h', lh, dv', ld.
Qed.

(** ** Cycles *)

Lemma base_between {A} clk r live work (k : M exn (simulation X G) A) :
  (forall P, safe False (pair_of r P) k (fun _ => pair_of r P)) ->
  safe False (between clk r live work) k (fun _ => between clk r live work).
Proof.
  intros Hk s (m & lh & ld & c1 & c2 & a & c3 & eh & ed & Hm & Hn2 & Hf & Hn1 & Hle & Hs). revert s Hs.
  eapply safe_weaken; [apply Hk|intros s' Hs; exact Hs|]. intros x s Hs. by exists m, lh, ld, c1, c2, a, c3, eh, ed.
Qed.

Lemma base_stage {A} seen clk r Ph Pd work (k : M exn (simulation X G) A) :
  (forall P, safe False (pair_of r P) k (fun _ => pair_of r P)) ->
  safe False (stage seen clk r Ph Pd work) k (fun _ => stage seen clk r Ph Pd work).
Proof.
  intros Hk s (m & c1 & c2 & a & c3 & eh & ed & Hm & Hn & Hle & Hs). revert s Hs.
  eapply safe_weaken; [apply Hk|intros s' Hs; exact Hs|]. intros x s Hs. by exists m, c1, c2, a, c3, eh, ed.
Qed.

Lemma first_half_stage r live work :
  safe (r = true) (between 1 r live work) (cycle_first_half fuel)
    (fun _ s => exists work', (r = false -> work' = work) /\ set_up 1 r live work' s).
Proof.
  eapply safe_then; [eapply safe_fuel; [apply eval_rises|done]|]. intros _.
  eapply safe_then; [eapply safe_fuel; [apply flow_stage|done]|]. intros _. apply outputs_stage.
Qed.

Lemma second_half_stage r live work :
  safe False (set_up 0 r live work) cycle_second_half (fun _ => between 0 r (negb r) (work_after r live work)).
Proof.
  eapply safe_bind; [apply eval_meets|]. intros []. apply safe_exists. intros m.
  apply safe_pure. intros Hm. apply safe_pure. intros Hn.
  apply inputs_stage; [done|intros Hw; apply Hn| |done]; unfold work_after in *; destruct (negb r && live); lia.
Qed.

Lemma low_half_stage r live work :
  safe False (set_up 1 r live work)
    (on_base (X := X) (G := G) Simulation.base_trace_state_change;; half_cycle;; modify (on_dut (set_clk_i 0));;
     cycle_second_half;; on_base Simulation.base_trace_state_change;; half_cycle)
    (fun _ => between 0 r (negb r) (work_after r live work)).
Proof.
  eapply safe_then; [apply base_stage; intros; apply trace_safe|]. intros _.
  eapply safe_then; [apply base_stage; intros; apply half_cycle_safe|]. intros _.
  eapply safe_then; [apply clock_low|]. intros _.
  eapply safe_then; [apply second_half_stage|]. intros _.
  eapply safe_then; [apply base_between; intros; apply trace_safe|]. intros _.
  apply base_between. intros. apply half_cycle_safe.
Qed.

(** Random traffic may add work; otherwise a cycle does some of it. *)
Lemma cycle_stage clk r live work :
  safe (r = true) (between clk r live work) (next_cycle fuel)
    (fun _ s => exists after, (r = false -> after = work_after r live work) /\ between 0 r (negb r) after s).
Proof.
  eapply safe_then; [eapply safe_fuel; [apply clock_high|done]|]. intros _.
  eapply safe_then; [apply first_half_stage|]. intros _. apply safe_exists. intros work1. apply safe_pure. intros Hwork1.
  eapply safe_weaken with (Q' := fun _ => between 0 r (negb r) (work_after r live work1)).
  - eapply safe_fuel; [apply (low_half_stage r live)|done].
  - done.
  - intros [] s Hs. eexists. split; [|exact Hs]. intros Hr. by rewrite Hwork1.
Qed.

Lemma random_cycles r n :
  safe (r = true) (fun s => exists clk live work, between clk r live work s) (cycles fuel n)
    (fun _ s => exists clk live work, between clk r live work s).
Proof.
  induction n as [|n IH]; [by apply safe_ret|]. cbn [cycles]. eapply safe_then; [|by intros _].
  apply safe_exists. intros clk'. apply safe_exists. intros live. apply safe_exists. intros work.
  eapply safe_weaken; [apply (cycle_stage clk' r live work)|done|].
  intros [] s (work' & _ & Hs). by eexists _, _, _.
Qed.

Lemma quiet_cycles n work :
  safe False (between 0 false true work) (cycles fuel n) (fun _ => between 0 false true (work - Z.of_nat n)).
Proof.
  revert work. induction n as [|n IH]; intros work.
  - apply safe_ret. intros s. by rewrite Z.sub_0_r.
  - cbn [cycles]. eapply safe_then with (Q := between 0 false true (work - 1)).
    + eapply safe_weaken; [eapply safe_fuel; [apply (cycle_stage 0 false true work)|done]|done|].
      intros [] s (w & Hw & Hs). by rewrite Hw in Hs.
    + intros _. replace (work - Z.of_nat (S n)) with (work - 1 - Z.of_nat n) by lia. apply IH.
Qed.

(** ** The start and the end *)

(** A host and a device that have been created, on silent ports. *)
Definition start (lh ld : links) (x : X) (g : G) r b : simulation X G :=
  Sim [TileLinkHost.make p] [TileLinkDevice.make d] (Dut [lh] [ld] x) g r b.

(** Signals of channels without traffic, when they are joined. *)
Lemma silent_edge lh ld m : silent_host lh -> silent_device ld -> m = Assertions.reset_monitor ->
  fine p (edge p lh ld m) /\ none_pending (edge p lh ld m) /\ forall s, registers_of width (edge p lh ld m) s = Assertions.no_request.
Proof.
  intros [Ha Hc He] [Hb Hd] ->.
  assert (Hoa : Assertions.accepted (link_a (joined lh ld)) = None) by (by apply not_accepted).
  assert (Hod : Assertions.accepted (link_d (joined lh ld)) = None) by (by apply not_accepted).
  assert (Hl : uncached_signals (joined lh ld)) by (split; try done; by rewrite Hod).
  assert (Hp : forall s, Assertions.pending (edge p lh ld Assertions.reset_monitor) s = Assertions.no_request).
  { intros s. unfold edge. rewrite (proj2 (proj2 (edge_orderly width (joined lh ld) _ reset_orderly Hl))), Hoa, Hod. done. }
  split; [|split; intros s; [by rewrite Hp|unfold edge; by rewrite edge_registers, Hoa, Hod by (done || apply reset_orderly)]].
  by eapply (edge_fine fuel p d endpoints lh ld _ _ None None).
Qed.

(** The checkers have been reset. *)
Lemma start_between clk lh ld x g r b :
  silent_host lh -> silent_device ld -> tracks 0 clk Assertions.reset_monitor x -> between clk r true 0 (start lh ld x g r b).
Proof.
  intros Hh Hdv Hx. destruct (silent_edge lh ld _ Hh Hdv eq_refl) as (Hf & Hn & Hreg). destruct Hh as [Ha Hc He], Hdv as [Hb Hd].
  exists Assertions.reset_monitor, lh, ld, 0, 0, [], 0, 0, 0. split; [apply reset_orderly|]. split; [done|].
  split; [exact Hf|]. split; [done|]. split; [done|].
  exists (TileLinkHost.make p), lh, (TileLinkDevice.make d), ld. repeat (split; [done|]).
  split; [split; [done|split]|split; [done|]].
  - split; try done; exists g, [], [].
    + split; [by apply (make_holds (methods := methods_a p))|]. split; try done.
      * cbn. constructor.
      * split; [by apply set_Forall_empty|]. apply (ordinary_ids _ _ _ (wired_host _ _ _ endpoints)).
      * unfold load. cbn. lia.
      * split; [|by intros s ?%elem_of_nil|done]. intros s _. by rewrite Hreg.
    + split; [by apply (make_holds (methods := methods_c p))|done].
    + split; [by apply (make_holds (methods := methods_e p))|done].
  - split; [done|]. split; try done; cbn; [split; [by apply set_Forall_empty|]|by rewrite Ha].
    apply (ordinary_ids _ _ _ (wired_host _ _ _ endpoints)).
  - split; try done; exists g, [], [].
    + split; [by apply (make_holds (methods := methods_b net d))|done].
    + split; [by apply (make_holds (methods := methods_d fuel d))|]. split; try done.
      * exists []. split; [constructor|done].
      * unfold load. cbn. lia.
      * split; [done|by intros s ?%elem_of_nil].
Qed.

(** What the invariant says of the two queues. *)
Definition queues_here v (coming counting : Z) (away : list Z) (receiving eh ed : Z)
    (h : TileLinkHost.host) (lh : links) (dv : TileLinkDevice.device) (ld : links) : Prop :=
  exists ks bs ds dbs,
    sends (methods := methods_a p) (G := G) ks bs tt (ids_in_use (TileLinkHost.a h)) (TileLinkHost.a h) (link_a lh)
    /\ sends (methods := methods_d fuel d) (G := G) ds dbs (requests (TileLinkDevice.d dv))
         (ids_in_use (TileLinkDevice.d dv)) (TileLinkDevice.d dv) (link_d ld)
    /\ host_queue width (max_size p) level p v coming counting away eh ks bs tt (ids_in_use (TileLinkHost.a h))
    /\ device_queue width (max_size p) level v coming receiving away ed ds dbs (requests (TileLinkDevice.d dv))
         (ids_in_use (TileLinkDevice.d dv)).

Lemma between_here live v coming counting away receiving eh ed h lh dv ld :
  host_between (G := G) p live v coming counting away receiving eh h lh ->
  device_between (G := G) fuel p d live v coming counting away receiving ed dv ld ->
  queues_here v coming counting away receiving eh ed h lh dv ld.
Proof.
  intros Hh Hd. destruct (sending_sends _ _ _ (host_a _ _ _ _ _ _ _ _ Hh)) as (ks & bs & Hs & HA).
  destruct (sending_sends _ _ _ (device_d _ _ _ _ _ _ _ _ Hd)) as (ds & dbs & Hsd & HD).
  destruct (requests (TileLinkHost.a h)). by exists ks, bs, ds, dbs.
Qed.

Lemma here_accounted v coming counting away receiving eh ed h lh dv ld :
  queues_here v coming counting away receiving eh ed h lh dv ld -> accounted h dv.
Proof.
  intros (ks & bs & ds & dbs & [[g Hks] _] & [[g' Hds] _] & HA & HD) id Hid.
  rewrite (host_ids _ _ _ _ _ _ _ _ _ _ _ _ _ HA), elem_of_list_to_set in Hid.
  destruct (device_queued _ _ _ _ _ _ _ _ _ _ _ _ HD) as (ss & Hss & Hp & _). rewrite <- Hp in Hid.
  apply elem_of_app in Hid as [Hid|Hid]; [left|apply elem_of_app in Hid as [Hid|Hid]; right; [right|left]].
  - apply waiting_source in Hid as (k & Hk & <-). destruct (holds_entries _ _ _ _ Hks Hk) as (m & Hm & Hmk).
    exists m. by rewrite Hmk.
  - apply list_elem_of_fmap in Hid as (k & -> & Hk). destruct (holds_entries _ _ _ _ Hds Hk) as (m & Hm & Hmk).
    exists m. by rewrite Hmk.
  - by eapply queued_source.
Qed.

Lemma here_settled v coming counting away receiving eh ed h lh dv ld :
  queues_here v coming counting away receiving eh ed h lh dv ld -> eh + ed <= 0 -> settled h dv.
Proof.
  intros (ks & bs & ds & dbs & Hs & Hsd & HA & HD) Hle.
  destruct (no_effort width (max_size p) level (proj2 (host_width fuel p d endpoints)) (proj2 (host_limit fuel p d endpoints))
    _ _ _ _ _ _ _ _ _ _ _ _ _ _ _ _ HA HD (sends_fewer _ _ _ _ _ _ Hs) (sends_fewer _ _ _ _ _ _ Hsd) Hle)
    as (Hids & -> & -> & Hq).
  destruct Hs as ([g Hs] & _), Hsd as ([g' Hsd] & _). split; [exact Hids| |exact Hq|].
  - exact (holds_finished _ _ Hs).
  - exact (holds_finished _ _ Hsd).
Qed.

Lemma between_bounded clk r live work s : between clk r live work s -> between clk r live (work_bound p) s.
Proof.
  intros (m & lh & ld & c1 & c2 & a & c3 & eh & ed & Hm & _ & Hf & _ & _
    & h & lh' & dv & ld' & Er & Eh & Ed & Elh & Eld & HT & [-> [Hh Hlegal]] & -> & Hd).
  destruct (between_here _ _ _ _ _ _ _ _ _ _ _ _ Hh Hd) as (ks & bs & ds & dbs & Hs & Hsd & HA & HD).
  destruct (effort_bound width (max_size p) level (proj2 (host_width fuel p d endpoints)) (proj2 (host_limit fuel p d endpoints))
    _ _ _ _ _ _ _ _ _ _ _ _ _ _ _ _ HA HD (sends_fewer _ _ _ _ _ _ Hs) (sends_fewer _ _ _ _ _ _ Hsd)) as (ed' & HD' & Hle).
  pose proof (work_bound_pos fuel p d endpoints).
  exists m, lh, ld, c1, c2, a, c3, eh, ed'. split; [exact Hm|]. split; [intros; lia|]. split; [exact Hf|]. split; [intros; lia|].
  split; [change (eh + ed' <= work_bound p) in Hle; lia|]. exists h, lh, dv, ld. repeat (split; [done|]).
  destruct Hd as [De Da Db Dc Dd De']. split; try done. by eapply sends_sending.
Qed.

(** *** A run *)

Lemma mode_between clk r b live work :
  safe (E := exn) False (between clk r live work) (modify (set_randomise b)) (fun _ => between clk b live work).
Proof.
  apply safe_modify. intros s (m & lh & ld & c1 & c2 & a & c3 & eh & ed & Hm & Hn2 & Hf & Hn1 & Hle & h & lh' & dv & ld' & _ & Hs).
  exists m, lh, ld, c1, c2, a, c3, eh, ed. repeat (split; [done|]). by exists h, lh', dv, ld'.
Qed.

(** In the first cycle of a drain the receivers need not be ready. *)
Lemma drain_cycles clk live n :
  safe False (between clk false live (work_bound p)) (cycles fuel n)
    (fun _ s => exists clk' live' work, between clk' false live' work s /\ (n <> 0%nat -> work <= work_bound p + 1 - Z.of_nat n)).
Proof.
  destruct n as [|n].
  - apply safe_ret. intros s Hs. by exists clk, live, (work_bound p).
  - cbn [cycles]. eapply safe_bind with (Q := fun _ s => exists w, w <= work_bound p /\ between 0 false true w s).
    + eapply safe_weaken; [eapply safe_fuel; [apply (cycle_stage clk false live (work_bound p))|done]|done|].
      intros [] s (w & Hw & Hs). exists w. split; [|exact Hs]. rewrite Hw by done. unfold work_after. destruct (_ && _); lia.
    + intros []. apply safe_exists. intros w. apply safe_pure. intros Hw.
      eapply safe_weaken; [apply quiet_cycles|done|]. intros [] s Hs. eexists _, _, _. split; [exact Hs|]. lia.
Qed.

Lemma run_stage clk random duration drain r :
  safe (random = true) (between clk r true 0) (run fuel random duration drain)
    (fun _ s => exists clk live work, between clk false live work s /\ (0 < drain -> work <= work_bound p + 1 - drain)).
Proof.
  eapply safe_then with (Q := fun s => exists clk live work, between clk random live work s).
  { eapply safe_fuel with (o := False); [|done].
    eapply safe_weaken with (Q' := fun _ => between clk random true 0); [apply mode_between|done|]. intros [] s Hs. by eexists _, _, _. }
  intros _. eapply safe_then; [apply random_cycles|]. intros _.
  apply safe_exists. intros clk'. apply safe_exists. intros live. apply safe_exists. intros work.
  eapply safe_fuel with (o := False); [|done]. eapply safe_then with (Q := between clk' false live (work_bound p)).
  { eapply safe_weaken with (Q' := fun _ => between clk' false live work); [apply mode_between|done|]. intros [] s Hs. by eapply between_bounded. }
  intros _. eapply safe_weaken; [apply (drain_cycles clk' live (Z.to_nat drain))|done|].
  intros [] s (c & live' & w & Hs & Hw). exists c, live', w. split; [exact Hs|]. lia.
Qed.

(** The state at the end of a run. *)
Record ended (drain : Z) (s : simulation X G) (h : TileLinkHost.host) (dv : TileLinkDevice.device)
    (clk : Z) (m : Assertions.monitor) : Prop := {
  ended_host : hosts s = [h];
  ended_device : devices s = [dv];
  ended_accounted : accounted h dv;
  ended_settled : work_bound p < drain -> settled h dv;
  ended_tracks : tracks 0 clk m (rtl (under_test s));
  ended_orderly : orderly m;
  ended_idle : work_bound p + 2 < drain -> Assertions.none_outstanding m = true;
}.

Lemma run_ends_well random duration drain clk r g b lh ld x :
  silent_host lh -> silent_device ld -> tracks 0 clk Assertions.reset_monitor x ->
  let '(o, s) := run fuel random duration drain (start lh ld x g r b) in
  (o = OutOfFuel /\ random = true) \/ o = Ok tt /\ exists h dv clk m, ended drain s h dv clk m.
Proof.
  intros Hh Hd Hx. pose proof (run_stage clk random duration drain r _ (start_between clk lh ld x g r b Hh Hd Hx)) as Hrun.
  destruct (run _ _ _ _ _) as [[[]| | | | |] s]; try done; [right|by left]. split; [done|].
  destruct Hrun as (clk' & live & work & (m & lh' & ld' & c1 & c2 & a & c3 & eh & ed & Hm & Hn2 & _ & _ & Hle
    & h & lh2 & dv & ld2 & _ & Eh & Ed & _ & _ & HT & [_ [Hb _]] & [_ Hb']) & Hw).
  pose proof (between_here _ _ _ _ _ _ _ _ _ _ _ _ Hb Hb') as Hq. pose proof (work_bound_pos fuel p d endpoints).
  exists h, dv, clk', m. split; try done.
  - by eapply here_accounted.
  - intros Hdrain. eapply here_settled; [exact Hq|]. lia.
  - intros Hdrain. apply none_pending_outstanding; [exact Hm|]. apply Hn2. lia.
Qed.

End simulation.

(** ** The claims *)

(** C12: A host and a device of any widths and without caches work together. Wire one host
    to one device, and let the simulation run any number of cycles of random traffic and
    then any number of cycles in which the traffic drains. Whatever numbers are drawn,
    no assertion fails, no exception is thrown and nothing undefined happens: the run
    completes, unless a loop that draws numbers for random traffic goes on for too long.
    Responses only come for requests that wait for them, beats are counted alike at both
    ends, and the response to an atomic operation is finished before another one begins.
    At the end, every identifier that is in use is that of a request in the queue of the host, or in that of
    the device, or of a response on its way: none is lost. *)
Theorem wired_run_safe {X G} `{Random G} `{Indeterminate} `{Wired X} `{TraceFormats}
    fuel p d lh ld (x : X) (g : G) randomise b random duration drain :
  wired_endpoints fuel p d -> silent_host lh -> silent_device ld ->
  let '(o, s) := TileLinkSimulation.run fuel random duration drain (start p d lh ld x g randomise b) in
  (o = OutOfFuel /\ random = true)
  \/ o = Ok tt /\ exists h dv, TileLinkSimulation.hosts s = [h] /\ TileLinkSimulation.devices s = [dv] /\ accounted h dv.
Proof.
  intros He Hh Hd.
  pose proof (run_ends_well fuel p d (Watched0 := wired_watched p X) He random duration drain 0 randomise g b lh ld x Hh Hd I) as Hrun.
  destruct (TileLinkSimulation.run _ _ _ _ _) as [o s].
  destruct Hrun as [Hrun|(Ho & h & dv & clk & m & [])]; [by left|right]. split; [exact Ho|]. by exists h, dv.
Qed.


(** ** Witness *)

Module WiredExample.

#[local] Existing Instance MessagesExample.zero_data.

(** The upper bits of a linear congruential generator. *)
#[local] Instance linear : Random Z.
Proof.
  refine {| next_rand g := ((g / 2 ^ 33) mod 2 ^ 31, (g * 6364136223846793005 + 1442695040888963407) mod 2 ^ 64) |}.
  intros g. apply Z.mod_pos_bound. lia.
Defined.

#[local] Instance formats : TraceFormats := { VCD_ENABLE := false; FST_ENABLE := false }.

(** Nothing but wires. *)
#[local] Instance wires_only : Wrapper unit := {
  eval t := match host_ports t, device_ports t with
            | [lh], [ld] => Dut [joined lh ld] [joined lh ld] (rtl t)
            | _, _ => t
            end;
  final t := t; set_clk_i _ t := t; set_rst_ni _ t := t;
}.

#[local] Instance wires_connect : Wired unit.
Proof. split; [intros lh ld x|intros v lh ld x]; by exists x. Qed.

(** Beats of 8 bytes, messages of at most 32; four identifiers. *)
Definition host : endpoint := Endpoint 0 TL_UH 64 0 3 5 false true (RoutingTable.Table [] [] []).
Definition device : endpoint := Endpoint 0 TL_UH 64 4 5 5 false true (RoutingTable.Table [] [] []).

Lemma example_endpoints : wired_endpoints 200 host device.
Proof.
  split; [|by vm_compute..]. split; [lia| |by vm_compute].
  split; [done| |by vm_compute|by vm_compute]. intros e ->%list_elem_of_singleton. by vm_compute.
Qed.

Definition empty_wires {C} (c : C) : wires C := Wires false false c.
Definition no_links : links :=
  Links (empty_wires (BeatA Get 0 0 0 0 0 false 0)) (empty_wires (BeatB ProbePerm 0 0 0 0))
    (empty_wires (BeatC Release 0 0 0 0 false 0)) (empty_wires (BeatD Grant 0 0 0 0 false false 0))
    (empty_wires (BeatE 0)).

Lemma silent_links : silent_host no_links /\ silent_device no_links.
Proof. by split; split. Qed.

Definition settings0 : Simulation.simulation unit := Simulation.make "wires" tt 0 0 0 0.

Definition after_run (duration drain : Z) : outcome exn unit * TileLinkSimulation.simulation unit Z :=
  TileLinkSimulation.run 200 true duration drain (start host device no_links no_links tt 7 true settings0).

Definition in_use (s : TileLinkSimulation.simulation unit Z) : list (list Z) :=
  map (fun h => elements (ids_in_use (TileLinkHost.a h))) (TileLinkSimulation.hosts s).

Lemma example_run : fst (after_run 100 0) = Ok tt /\ in_use (snd (after_run 100 0)) = [[2; 1]].
Proof. by vm_compute. Qed.

(** After a hundred cycles, the identifiers 1 and 2 are in use, for requests that are
    still on their way. *)
Lemma wired_run_safe_witness :
  exists h dv, TileLinkSimulation.hosts (snd (after_run 100 0)) = [h]
    /\ elements (ids_in_use (TileLinkHost.a h)) = [2; 1] /\ accounted h dv.
Proof.
  destruct example_run as [Hok Hids]. destruct silent_links as [Hh Hd].
  pose proof (wired_run_safe 200 host device no_links no_links tt 7 true settings0 true 100 0
    example_endpoints Hh Hd) as Hrun.
  change (TileLinkSimulation.run _ _ _ _ _) with (after_run 100 0) in Hrun.
  destruct (after_run 100 0) as [o s]. cbn [fst snd] in *. subst o.
  destruct Hrun as [[? _]|[_ (h & dv & Eh & Ed & Hacc)]]; [done|]. exists h, dv. split; [exact Eh|].
  unfold in_use in Hids. rewrite Eh in Hids. by injection Hids.
Defined.

(** The longest message has four beats and there are four identifiers: 37 cycles are
    enough. *)
Lemma drained_run : work_bound host = 36 /\ fst (after_run 100 37) = Ok tt.
Proof. by vm_compute. Qed.


End WiredExample.
