(* ===== verification/TlChecked.v ===== *)
(** * A host and a device that are wired together, with checkers at both ports

    A device under test like those of [tl_harness.h] for one host and one device: wires,
    and the checker of [rtl/tl_assert.sv] at each of the two ports. No assertion fails in a
    run of the simulation, and none at its end if the drain is long enough. *)

From S2P Require Import Prelude Exceptions Simulation TileLink TlEndpoint TlMessages TlMessagesTheorems.
From S2P Require Import TlChannels TlHarness TlSender TlWorlds TlTraffic TlAssertions TlWired TlWiredSenders.
From S2P Require Import TlWatched TlWiredCycle TlWiredTheorems.

Open Scope Z_scope.

(** ** The device under test *)

(** The inputs of the checkers besides the ports, the clock at the last evaluation, the
    registers of the checkers at the two ports, and whether an assertion has failed. *)
Record checkers (p d : endpoint) : Type := Checkers {
  clk_i : Z;
  last_clk : Z;
  rst_ni : Z;
  host_checker : Assertions.monitor;
  device_checker : Assertions.monitor;
  failed : bool;
}.
Arguments Checkers {p d}.
Arguments clk_i {p d}.
Arguments last_clk {p d}.
Arguments rst_ni {p d}.
Arguments host_checker {p d}.
Arguments device_checker {p d}.
Arguments failed {p d}.

Section wrapper.

Context {p d : endpoint}.

Implicit Types (x : checkers p d) (l : links).

(** The assertions at the port of the endpoint [e]. *)
Definition port_passes (e : endpoint) (type : Assertions.endpoint_type) (m : Assertions.monitor) : bool :=
  Assertions.width_passes (width_bytes e) && Assertions.monitor_passes (protocol e) (width_bytes e) type m.

(** A low reset sets the registers at once; otherwise they change when the clock rises,
    and the assertions are evaluated when it falls. *)
Definition observe l x : checkers p d :=
  let seen := Checkers (clk_i x) (clk_i x) (rst_ni x) in
  if rst_ni x =? 0 then seen Assertions.reset_monitor Assertions.reset_monitor (failed x)
  else if (last_clk x =? 0) && (clk_i x =? 1) then
    seen (Assertions.clock_edge (width_bytes p) l (host_checker x))
      (Assertions.clock_edge (width_bytes d) l (device_checker x)) (failed x)
  else if (last_clk x =? 1) && (clk_i x =? 0) then
    seen (host_checker x) (device_checker x)
      (failed x || negb (port_passes p Assertions.Host (host_checker x)
                         && port_passes d Assertions.Device (device_checker x)))
  else seen (host_checker x) (device_checker x) (failed x).

(** The assertions at the end of the simulation. *)
Definition conclude x : checkers p d :=
  Checkers (clk_i x) (last_clk x) (rst_ni x) (host_checker x) (device_checker x)
    (failed x || negb (Assertions.none_outstanding (host_checker x) && Assertions.none_outstanding (device_checker x))).

#[export] Instance checked_wires : Wrapper (checkers p d) := {
  eval t := match host_ports t, device_ports t with
            | [lh], [ld] => Dut [joined lh ld] [joined lh ld] (observe (joined lh ld) (rtl t))
            | _, _ => t
            end;
  final t := Dut (host_ports t) (device_ports t) (conclude (rtl t));
  set_clk_i v t := let x := rtl t in
    Dut (host_ports t) (device_ports t)
      (Checkers v (last_clk x) (rst_ni x) (host_checker x) (device_checker x) (failed x));
  set_rst_ni v t := let x := rtl t in
    Dut (host_ports t) (device_ports t)
      (Checkers (clk_i x) (last_clk x) v (host_checker x) (device_checker x) (failed x));
}.

End wrapper.

(** ** Endpoints whose traffic the checkers allow *)

(** The protocol at each port includes that of the host; messages have one beat where it
    is TL-UL; and a beat has at most 8 bytes. *)
Record checked_endpoints (fuel : nat) (p d : endpoint) : Prop := {
  checked_wired : wired_endpoints fuel p d;
  checked_host : observes p (protocol p);
  checked_device : observes p (protocol d);
  checked_width : bit_width p <= 64;
}.

Section run.

Context {G : Type} `{Random G} `{Indeterminate} `{TraceFormats}.
Context (fuel : nat) (p d : endpoint).
Hypothesis endpoints : checked_endpoints fuel p d.

Import TileLinkSimulation.

(** Both checkers have the registers [m], and no assertion has failed. *)
Record follows (seen clk : Z) (m : Assertions.monitor) (x : checkers p d) : Prop := {
  follows_clk : clk_i x = clk;
  follows_seen : last_clk x = seen;
  follows_reset : rst_ni x = 1;
  follows_host : host_checker x = m;
  follows_device : device_checker x = m;
  follows_passes : failed x = false;
}.

Lemma width_allowed : Assertions.width_passes (width_bytes p) = true.
Proof using endpoints.
  destruct (host_width fuel p d (checked_wired _ _ _ endpoints)) as [Hw _]. pose proof (checked_width _ _ _ endpoints).
  apply Z.leb_le. lia.
Qed.

Lemma observe_rising m lh ld x :
  follows 0 1 m x -> follows 1 1 (edge p lh ld m) (observe (joined lh ld) x).
Proof using endpoints.
  intros [Hc Hs Hr Hh Hd Hf]. unfold observe. rewrite Hr, Hs, Hc, Hh, Hd, Hf. cbn [Z.eqb andb].
  destruct (device_width fuel p d (checked_wired _ _ _ endpoints)) as [_ Hw]. by split; cbn; rewrite ?Hw.
Qed.

Lemma observe_falling m lh ld x : follows 1 0 m x -> fine p m -> follows 0 0 m (observe (joined lh ld) x).
Proof using endpoints.
  intros [Hc Hs Hr Hh Hd Hf] [_ Hm]. unfold observe. rewrite Hr, Hs, Hc, Hh, Hd, Hf. cbn [Z.eqb andb orb].
  destruct (device_width fuel p d (checked_wired _ _ _ endpoints)) as [_ Hw].
  split; try done. cbn. unfold port_passes.
  by rewrite Hw, width_allowed, !Hm by apply endpoints.
Qed.

(** The checkers do what the simulation needs of them. *)
Definition checked_watched : Watched p (checkers p d).
Proof using endpoints.
  refine {| tracks := follows |}.
  - intros m lh ld x Hx. exists (observe (joined lh ld) x). split; [done|by apply observe_rising].
  - intros m lh ld x Hx Hm. exists (observe (joined lh ld) x). split; [done|by apply observe_falling].
  - intros seen clk v m lh ld x [Hc Hs Hr Hh Hd Hf]. eexists. split; [done|]. by split.
Defined.

(** While the reset is low, the registers have their first values. *)
Definition after_reset (rst : Z) (failed : bool) : checkers p d :=
  Checkers 0 0 rst Assertions.reset_monitor Assertions.reset_monitor failed.

Lemma toggle_once lh ld (x : checkers p d) :
  rst_ni x = 0 ->
  eval (set_clk_i 0 (eval (set_clk_i 1 (Dut [lh] [ld] x)))) = Dut [joined lh ld] [joined lh ld] (after_reset 0 (failed x)).
Proof using Type. intros Hx. cbn. unfold observe. cbn. by rewrite !Hx. Qed.

Lemma toggle_reset n lh ld (x : checkers p d) :
  rst_ni x = 0 ->
  toggle_clock (S n) (Dut [lh] [ld] x) = Dut [joined lh ld] [joined lh ld] (after_reset 0 (failed x)).
Proof using Type.
  revert lh ld x. induction n as [|n IH]; intros lh ld x Hx.
  - apply (toggle_once lh ld x Hx).
  - transitivity (toggle_clock (S n) (Dut [joined lh ld] [joined lh ld] (after_reset 0 (failed x)))); [|exact (IH (joined lh ld) (joined lh ld) (after_reset 0 (failed x)) eq_refl)].
    by rewrite <- (toggle_once lh ld x Hx).
Qed.

Lemma reset_run lh ld x (g : G) r b :
  reset (start p d lh ld x g r b) = (Ok tt, start p d (joined lh ld) (joined lh ld) (after_reset 1 (failed x)) g r b).
Proof using Type.
  unfold reset. erewrite bind_ok by done. cbv beta. unfold modify at 1, on_dut at 1. cbn [start under_test].
  erewrite bind_ok by (unfold modify, on_dut; cbn -[toggle_clock]; by rewrite toggle_reset). done.
Qed.

Lemma after_reset_follows : follows 0 0 Assertions.reset_monitor (after_reset 1 false).
Proof using Type. by split. Qed.

Lemma follows_final seen clk m (t : dut (checkers p d)) :
  follows seen clk m (rtl t) -> Assertions.none_outstanding m = true -> failed (rtl (final t)) = false.
Proof using Type. intros [_ _ _ Hh Hd Hf] Hm. cbn. by rewrite Hh, Hd, Hf, Hm. Qed.

End run.

(** A run of the tester: the device under test is reset first. *)
Definition session {G} `{Random G} `{Indeterminate} `{TraceFormats} {p d : endpoint} (fuel : nat) (random : bool)
    (duration drain : Z) : M exn (TileLinkSimulation.simulation (checkers p d) G) unit :=
  TileLinkSimulation.reset;; TileLinkSimulation.run fuel random duration drain.


(** ** Witness *)

Module CheckedExample.

#[local] Existing Instance MessagesExample.zero_data.
#[local] Existing Instance WiredExample.linear.
#[local] Existing Instance WiredExample.formats.

Import WiredExample.

Lemma checked_example : checked_endpoints 200 host device.
Proof. split; [apply example_endpoints|by split|by split|by vm_compute]. Qed.

(** The registers of the checkers are unknown before the reset. *)
Definition unknown : checkers host device :=
  Checkers 1 0 1 (Assertions.count_request Assertions.no_a Assertions.reset_monitor) Assertions.reset_monitor false.

Abbreviation checked_run duration drain :=
  (session 200 true duration drain (start host device no_links no_links unknown 7 true settings0)).

Definition verdict (r : outcome exn unit * TileLinkSimulation.simulation (checkers host device) Z) : bool :=
  failed (rtl (final (TileLinkSimulation.under_test (snd r)))).

(** Without a drain, requests are left when the simulation ends. *)
Lemma checked_undrained : fst (checked_run 100 0) = Ok tt /\ verdict (checked_run 100 0) = true.
Proof. by vm_compute. Qed.

Lemma checked_drained : fst (checked_run 100 39) = Ok tt.
Proof. by vm_compute. Qed.


End CheckedExample.
