(* ===== verification/TlMainTheorems.v ===== *)
(** * The TileLink tester keeps to TileLink

    From the command line to the end of a run, however it ends: the requests that
    the tester puts on channel A are legal for the configuration that it has read. *)

From S2P Require Import Prelude Exceptions Text MainMemory ArgumentParser BinaryParser Simulation.
From S2P Require Import TileLink TlEndpoint TlMessages TlMessagesTheorems TlConfig TlConfigTheorems.
From S2P Require Import TlChannels TlHarness TlMain TlTraffic.

Open Scope Z_scope.

(** ** The network of a configuration *)

Fixpoint endpoints_of (position : Z) (l : list tl_endpoint_config_t) : outcome exn (list endpoint) :=
  match l with
  | [] => Ok []
  | c :: l =>
      match endpoint_of position c with
      | Ok e => outcome_map (cons e) (endpoints_of (position + 1) l)
      | o => outcome_cast o Undefined
      end
  end.

Section tester.

Context {X G : Type} `{Random G} `{Seed G} `{Indeterminate} `{InputsKept X}.
Context `{TraceFormats} `{FileSystem}.
Context (fuel : nat) (tests : list (Tester.tl_test X G)).

#[local] Set Default Proof Using "All".

Import Tester.

Implicit Types s : tester X G.

Abbreviation state := (TileLinkSimulation.simulation X G).

(** The file describes the network. *)
Definition configured (f : string) (net : network) : Prop :=
  exists c hosts devices, read_config (file_text f) = Ok c
    /\ endpoints_of 0 (cfg_hosts c) = Ok hosts /\ endpoints_of 0 (cfg_devices c) = Ok devices
    /\ net = Network hosts devices.

(** ** Invariants of the whole program

    One of the simulation and one of the name of the configuration file. *)

Definition holds (F : string -> Prop) (P : state -> Prop) s : Prop := F (config_file s) /\ P (sim s).

Abbreviation kept P k := (always (E := exn) P k (fun _ => True)).

Lemma sim_kept F (P : state -> Prop) (k : Prelude.M exn state unit) :
  kept P k -> kept (holds F P) (on_sim k).
Proof.
  intros Hk. apply (always_zoom _ P); [by intros s []|by intros s x []|exact Hk].
Qed.

(** The base class does not touch hosts, devices and their ports. *)
Definition base_free (P : state -> Prop) : Prop :=
  forall x b, P x -> P (TileLinkSimulation.set_base b x).

Lemma on_base_kept {A} F P (k : M exn (Simulation.simulation unit) A) :
  base_free P -> kept (holds F P) (on_base k).
Proof.
  intros HP. apply (always_zoom _ P); [by intros s []|by intros s x []|].
  apply (always_zoom _ (fun _ => True)); [done|auto|]. by intros b _.
Qed.

Lemma each_kept {A} P (f : A -> Prelude.M exn (tester X G) unit) l :
  (forall a, kept P (f a)) -> kept P (each f l).
Proof.
  intros Hf. induction l as [|a l IH]; [by apply always_ret|].
  cbn [each]. eapply always_then; [apply Hf|]. by intros _.
Qed.

(** ** Arguments: no host is there yet *)

Definition quiet (t : dut X) : Prop :=
  forall i l, host_ports t !! i = Some l -> valid (link_a l) = false.

Record empty (x : state) : Prop := {
  empty_hosts : TileLinkSimulation.hosts x = [];
  empty_devices : TileLinkSimulation.devices x = [];
  empty_quiet : quiet (TileLinkSimulation.under_test x);
}.

Lemma empty_free : base_free empty.
Proof. by intros x b []. Qed.

Abbreviation unconfigured := (holds (fun _ => True) empty).

Lemma found_empty name (k : Prelude.M exn (tester X G) unit) :
  kept unconfigured k -> kept unconfigured (if_found name k).
Proof.
  intros Hk. eapply always_then; [by apply always_gets|]. intros b. by apply always_when.
Qed.

Lemma parse_args_empty argc argv : kept unconfigured (parse_args tests argc argv).
Proof.
  assert (Hb : forall A (k : M exn (Simulation.simulation unit) A), kept unconfigured (on_base k))
    by (intros; apply on_base_kept, empty_free).
  assert (Hset : forall f : tester X G -> tester X G, (forall s, sim (f s) = sim s) -> kept unconfigured (modify f)).
  { intros f Hf. apply always_modify. intros s [_ Hs]. split; [done|]. by rewrite Hf. }
  eapply always_then; [case_match; [apply Hb|by apply always_ret]|]. intros _.
  eapply always_then; [apply Hb|]. intros _.
  eapply always_then.
  { apply found_empty. eapply always_then; [apply Hb|]. intros _. by apply always_fail. }
  intros _. eapply always_then.
  { apply found_empty. eapply always_then; [apply Hb|]. intros v. by apply Hset. }
  intros _. eapply always_then.
  { apply found_empty. eapply always_then; [apply Hb|]. intros v.
    eapply always_then; [by apply always_fail|]. intros n. apply sim_kept.
    apply always_modify. by intros x []. }
  intros _. eapply always_then.
  { apply found_empty. eapply always_then; [apply Hb|]. intros v.
    eapply always_then; [by apply always_fail|]. intros n. by apply Hset. }
  intros _. eapply always_then; [by apply always_gets|]. intros b. apply each_kept. intros a.
  eapply always_then; [by apply always_fail|]. intros n.
  eapply always_then; [apply always_assert|]. intros _. by apply Hset.
Qed.

(** ** Configuration: hosts without messages *)

Record idle (x : state) : Prop := {
  idle_hosts : Forall (fun h => exists e, h = TileLinkHost.make e) (TileLinkSimulation.hosts x);
  idle_quiet : quiet (TileLinkSimulation.under_test x);
}.

Lemma idle_free : base_free idle.
Proof. by intros x b []. Qed.

Lemma push_hosts_idle F i l : kept (holds F idle) (push_hosts i l).
Proof.
  revert i. induction l as [|c l IH]; intros i; [by apply always_ret|].
  eapply always_then; [by apply always_fail|]. intros e.
  eapply always_then; [|intros _; apply IH]. apply sim_kept, always_modify.
  intros x [Hh Hq]. split; [|exact Hq]. apply Forall_app. split; [exact Hh|]. constructor; [by exists e|done].
Qed.

Lemma push_devices_idle F i l : kept (holds F idle) (push_devices i l).
Proof.
  revert i. induction l as [|c l IH]; intros i; [by apply always_ret|].
  eapply always_then; [by apply always_fail|]. intros e.
  eapply always_then; [|intros _; apply IH]. apply sim_kept, always_modify. by intros x [].
Qed.

Lemma dut_idle (f : dut X -> dut X) :
  (forall t, same_requests t (f t)) -> kept idle (modify (TileLinkSimulation.on_dut f)).
Proof.
  intros Hf. apply always_modify. intros x [Hh Hq]. split; [exact Hh|].
  intros i l Hl. destruct (Hf _ i l Hl) as (l' & Hl' & Hv & _). rewrite Hv. by eapply Hq.
Qed.

Lemma init_idle F : kept (holds F idle) init.
Proof.
  eapply always_then; [by apply (always_gets _ id)|]. intros s.
  eapply always_then; [by apply always_fail|]. intros c.
  eapply always_then; [apply push_hosts_idle|]. intros _.
  eapply always_then; [apply push_devices_idle|]. intros _.
  eapply always_then; [apply sim_kept, dut_idle, clk_keeps|]. intros _.
  eapply always_then; [apply sim_kept, dut_idle, rst_keeps|]. intros _.
  apply on_base_kept, idle_free.
Qed.

(** What [init] creates when it ends normally. *)
Definition endpoints_at s : network := TileLinkSimulation.endpoints (sim s).

Lemma push_hosts_created i l s s' :
  push_hosts i l s = (Ok tt, s') ->
  exists new, endpoints_of i l = Ok new /\ config_file s' = config_file s
    /\ endpoints_at s' = Network (TlMessages.hosts (endpoints_at s) ++ new) (TlMessages.devices (endpoints_at s)).
Proof.
  revert i s. induction l as [|c l IH]; intros i s Hp.
  { injection Hp as <-. exists []. by rewrite app_nil_r. }
  apply bind_ok_inv in Hp as (e & s1 & He & Hp). injection He as He <-.
  apply bind_ok_inv in Hp as (u & s1 & Hpush & Hp). injection Hpush as _ <-.
  destruct (IH _ _ Hp) as (new & Hn & Hf & Hnet). exists (e :: new).
  split; [cbn [endpoints_of]; by rewrite He, Hn|]. split; [exact Hf|]. rewrite Hnet.
  unfold endpoints_at, TileLinkSimulation.endpoints. cbn. by rewrite map_app, <- app_assoc.
Qed.

Lemma push_devices_created i l s s' :
  push_devices i l s = (Ok tt, s') ->
  exists new, endpoints_of i l = Ok new /\ config_file s' = config_file s
    /\ endpoints_at s' = Network (TlMessages.hosts (endpoints_at s)) (TlMessages.devices (endpoints_at s) ++ new).
Proof.
  revert i s. induction l as [|c l IH]; intros i s Hp.
  { injection Hp as <-. exists []. by rewrite app_nil_r. }
  apply bind_ok_inv in Hp as (e & s1 & He & Hp). injection He as He <-.
  apply bind_ok_inv in Hp as (u & s1 & Hpush & Hp). injection Hpush as _ <-.
  destruct (IH _ _ Hp) as (new & Hn & Hf & Hnet). exists (e :: new).
  split; [cbn [endpoints_of]; by rewrite He, Hn|]. split; [exact Hf|]. rewrite Hnet.
  unfold endpoints_at, TileLinkSimulation.endpoints. cbn. by rewrite map_app, <- app_assoc.
Qed.

(** The rest of [init] changes neither endpoints nor the name of the file. *)
Lemma traces_same s u s' :
  on_base Simulation.base_trace_init s = (Ok u, s') ->
  config_file s' = config_file s /\ endpoints_at s' = endpoints_at s.
Proof.
  unfold on_base, on_sim, TileLinkSimulation.on_base, zoom.
  destruct (Simulation.base_trace_init _) as [o b]. by intros [= _ <-].
Qed.

Lemma init_configured s s' :
  empty (sim s) -> init s = (Ok tt, s') ->
  config_file s' = config_file s /\ configured (config_file s) (endpoints_at s').
Proof.
  intros [Hh Hd _] Hi. unfold init in Hi.
  apply bind_ok_inv in Hi as (s0 & s1 & Hget & Hi). injection Hget as <- <-.
  apply bind_ok_inv in Hi as (c & s1 & Hc & Hi). injection Hc as Hc <-.
  apply bind_ok_inv in Hi as ([] & s1 & Hhosts & Hi).
  apply bind_ok_inv in Hi as ([] & s2 & Hdevices & Hi).
  apply bind_ok_inv in Hi as (u & s3 & Hclk & Hi). injection Hclk as _ <-.
  apply bind_ok_inv in Hi as (u' & s3 & Hrst & Hi). injection Hrst as _ <-.
  apply traces_same in Hi as [Hf Hnet].
  apply push_hosts_created in Hhosts as (hosts & Hn1 & Hf1 & He1).
  apply push_devices_created in Hdevices as (devices & Hn2 & Hf2 & He2).
  split; [by rewrite Hf; cbn; rewrite Hf2|]. exists c, hosts, devices. repeat split; try done.
  rewrite Hnet. change (endpoints_at s2 = Network hosts devices). rewrite He2, He1. cbn.
  unfold endpoints_at, TileLinkSimulation.endpoints. by rewrite Hh, Hd.
Qed.

(** ** The run *)

Lemma idle_legal net x :
  (forall e, e ∈ TlMessages.hosts net -> ordinary fuel net e) ->
  idle x -> TileLinkSimulation.endpoints x = net -> legal_traffic net x.
Proof.
  intros Hord [Hh Hq] He. split; [exact He|]. intros i h l Hi Hl.
  assert (Hv : valid (link_a l) = false) by by eapply Hq.
  rewrite Forall_forall in Hh.
  destruct (Hh h) as [e ->]; [by apply list_elem_of_In; eapply list_elem_of_lookup_2|].
  split; [done| |done|by rewrite Hv]. split; [by intros id Hid%elem_of_empty|].
  apply (ordinary_ids fuel net e). apply Hord. rewrite <- He.
  apply list_elem_of_In, in_map_iff. exists (TileLinkHost.make e). split; [done|].
  by apply list_elem_of_In; eapply list_elem_of_lookup_2.
Qed.

(** What the run keeps: an invariant [P] of the simulation that its parts keep. *)
Section run.

Context (P : state -> Prop).
Hypothesis base_keeps : base_free P.
Hypothesis tests_keep : forall test, test ∈ tests -> kept P (function test).
Hypothesis cycles_keep : kept P (TileLinkSimulation.cycles fuel 100).
Hypothesis run_keeps : forall n, kept P (TileLinkSimulation.run fuel true n 1000).
Hypothesis end_keeps : kept P TileLinkSimulation.end_simulation.
Hypothesis reset_keeps : kept P TileLinkSimulation.reset.
Hypothesis randomise_keeps : kept P (modify (TileLinkSimulation.set_randomise false)).

Lemma run_test_kept F n : kept (holds F P) (run_test fuel tests n).
Proof.
  unfold run_test. eapply always_bind with (Q := fun test => test ∈ tests).
  { apply always_fail. intros test Ht. case_match eqn:Hn; [|done]. case_match; [done|].
    injection Ht as <-. by eapply list_elem_of_lookup_2. }
  intros test Ht. eapply always_then; [by apply on_base_kept|]. intros _.
  eapply always_then; [by apply sim_kept, tests_keep|]. intros _. by apply sim_kept.
Qed.

Definition reset_and_run : Prelude.M exn (tester X G) Z :=
  on_sim TileLinkSimulation.reset;; run_tests fuel tests;; mret 0.

Lemma reset_and_run_kept F : kept (holds F P) reset_and_run.
Proof.
  eapply always_then; [by apply sim_kept|]. intros _.
  eapply always_then; [|intros _; by apply always_ret].
  eapply always_then; [by apply sim_kept|]. intros _.
  eapply always_then; [by apply (always_gets _ id)|]. intros s.
  eapply always_then; [apply each_kept; intros n; apply run_test_kept|]. intros _.
  eapply always_then; [apply always_when; intros _; by apply sim_kept|]. intros _.
  eapply always_then; [by apply sim_kept|]. intros _.
  eapply always_then; [by apply on_base_kept|]. intros _. by apply on_base_kept.
Qed.

End run.

Lemma reset_and_run_file f : kept (fun s => config_file s = f) reset_and_run.
Proof.
  intros s Hs. split; [|done].
  by destruct (reset_and_run_kept (fun _ => True)
    ltac:(done) ltac:(done) ltac:(done) ltac:(done) ltac:(done) ltac:(done) ltac:(done) (eq f) s) as [[-> _] _].
Qed.

Lemma reset_and_run_legal net F :
  (forall e, e ∈ TlMessages.hosts net -> ordinary fuel net e) ->
  (forall test, test ∈ tests -> kept (legal_traffic net) (function test)) ->
  kept (holds F (legal_traffic net)) reset_and_run.
Proof.
  intros Hord Htests. apply reset_and_run_kept; try done.
  - by intros x b [].
  - by apply cycles_kept.
  - intros n. by apply run_kept.
  - by apply (end_kept fuel).
  - by apply (reset_kept fuel).
  - apply always_modify. by intros x [].
Qed.

(** ** The traffic at the end of the program *)

(** The hosts offer, and have queued, only legal beats. *)
Definition offers_legal (x : state) : Prop :=
  forall i h l,
    TileLinkSimulation.hosts x !! i = Some h -> host_ports (TileLinkSimulation.under_test x) !! i = Some l ->
    (valid (link_a l) = true ->
       legal_beat (TileLinkSimulation.endpoints x) (TileLinkHost.endpoint h) (data (link_a l)))
    /\ Forall (fun m => legal_beat (TileLinkSimulation.endpoints x) (TileLinkHost.endpoint h) (header m))
         (Sender.to_send (TileLinkHost.a h)).

Lemma idle_offers x : idle x -> offers_legal x.
Proof.
  intros [Hh Hq] i h l Hi Hl. rewrite (Hq i l Hl). split; [done|]. rewrite Forall_forall in Hh.
  by destruct (Hh h) as [e ->]; [apply list_elem_of_In; eapply list_elem_of_lookup_2|].
Qed.

Lemma empty_idle x : empty x -> idle x.
Proof. intros [Hh _ Hq]. split; [by rewrite Hh|exact Hq]. Qed.

Lemma legal_offers net x : legal_traffic net x -> offers_legal x.
Proof.
  intros [He Hs] i h l Hi Hl. destruct (Hs i h l Hi Hl) as [_ _ Hq Hb]. rewrite He.
  split; [exact Hb|]. eapply Forall_impl; [|exact Hq]. by intros m [Hm _].
Qed.

(** A network that the file describes has ordinary hosts, on which the tests are legal. *)
Definition tester_ordinary (f : string) : Prop :=
  forall net, configured f net ->
    (forall e, e ∈ TlMessages.hosts net -> ordinary fuel net e)
    /\ (forall test, test ∈ tests -> kept (legal_traffic net) (function test)).

Lemma program_offers argc argv s :
  empty (sim s) ->
  tester_ordinary (config_file (snd (run_program fuel tests argc argv s))) ->
  offers_legal (sim (snd (run_program fuel tests argc argv s))).
Proof.
  intros Hs. destruct (parse_args_empty argc argv s) as [[_ Hempty] _]; [by split|].
  unfold run_program. rewrite bind_run.
  destruct (parse_args tests argc argv s) as [[[]| | | | |] s1]; cbn [fst snd] in *;
    try (intros _; by apply idle_offers, empty_idle).
  destruct (init_idle (fun _ => True) s1) as [[_ Hidle] _]; [split; [done|by apply empty_idle]|].
  pose proof (init_configured s1) as Hconf. rewrite bind_run.
  destruct (init s1) as [[[]| | | | |] s2]; cbn [fst snd] in *; try (intros _; by apply idle_offers).
  destruct (Hconf s2 Hempty eq_refl) as [Hf Hnet]. clear Hconf. rewrite <- Hf in Hnet.
  change (on_sim TileLinkSimulation.reset ≫= _) with reset_and_run.
  destruct (reset_and_run_file (config_file s2) s2 eq_refl) as [-> _].
  intros Hord. destruct (Hord _ Hnet) as [Hhosts Htests].
  destruct (reset_and_run_legal (endpoints_at s2) (fun _ => True) Hhosts Htests s2) as [[_ Hlegal] _].
  - split; [done|]. destruct Hidle. by apply idle_legal.
  - by eapply legal_offers.
Qed.

End tester.


(** ** Witness: a network that never accepts a beat *)

Module TrafficExample.

#[local] Existing Instance MessagesExample.zero_data.

(** The upper bits of a linear congruential generator. *)
#[local] Instance linear : Random Z.
Proof.
  refine {| next_rand g := ((g / 2 ^ 33) mod 2 ^ 31, (g * 6364136223846793005 + 1442695040888963407) mod 2 ^ 64) |}.
  intros g. apply Z.mod_pos_bound. lia.
Defined.

#[local] Instance seed : Seed Z := { srand z := z }.
#[local] Instance formats : TraceFormats := { VCD_ENABLE := false; FST_ENABLE := false }.
#[local] Instance stalled : Wrapper unit :=
  { eval t := t; final t := t; set_clk_i _ t := t; set_rst_ni _ t := t }.

#[local] Instance stalled_keeps : InputsKept unit.
Proof. split; intros; intros i l' Hl'; by exists l'. Qed.

Definition host : parameters := Parameters TL_C 64 0 3 5 false true [] [] [].
Definition device : parameters := Parameters TL_C 64 4 5 5 false true [] [] [].

(** Every file is this configuration. *)
#[local] Instance disk : FileSystem :=
  { file_content _ := Some (BinaryParser.bytes_of_string (print_config [host] [device])) }.

Definition empty_wires {C} (c : C) : wires C := Wires false false c.
Definition empty_links : links :=
  Links (empty_wires (BeatA Get 0 0 0 0 0 false 0)) (empty_wires (BeatB ProbePerm 0 0 0 0))
    (empty_wires (BeatC Release 0 0 0 0 false 0)) (empty_wires (BeatD Grant 0 0 0 0 false false 0))
    (empty_wires (BeatE 0)).
Definition network_ports : dut unit := Dut [empty_links] [empty_links] tt.

Definition no_traffic : Tester.tl_test unit Z :=
  Tester.Test (TileLinkSimulation.run 200 false 5 5) "No requests".

Definition finished : outcome exn Z * Tester.tester unit Z :=
  Tester.main 200 [no_traffic] 6 ["tilelink"; "--random-seed"; "7"; "--run"; "40"; "0"] network_ports 0.

Definition offered (x : TileLinkSimulation.simulation unit Z) : option tl_a :=
  match host_ports (TileLinkSimulation.under_test x) !! 0%nat with
  | Some l => if valid (link_a l) then Some (data (link_a l)) else None
  | None => None
  end.

Definition host_endpoint : endpoint := Endpoint 0 TL_C 64 0 3 5 false true (RoutingTable.Table [] [] []).
Definition device_endpoint : endpoint := Endpoint 0 TL_C 64 4 5 5 false true (RoutingTable.Table [] [] []).
Definition net : network := Network [host_endpoint] [device_endpoint].
Definition acquire_beat : tl_a := BeatA AcquireBlock 2 2 3 1676 0xF0 false 0.

(** What the program has left behind. *)
Definition summary (x : TileLinkSimulation.simulation unit Z) : network * option tl_a :=
  (TileLinkSimulation.endpoints x, offered x).

Lemma finished_run : fst finished = Ok 0 /\ summary (Tester.sim (snd finished)) = (net, Some acquire_beat).
Proof. by vm_compute. Qed.

Definition disk_config : tl_config_t := Config [complete host] [complete device].

Lemma disk_read f : read_config (file_text f) = Ok disk_config.
Proof. by vm_compute. Qed.

Lemma disk_endpoints :
  endpoints_of 0 (cfg_hosts disk_config) = Ok [host_endpoint]
  /\ endpoints_of 0 (cfg_devices disk_config) = Ok [device_endpoint].
Proof. by vm_compute. Qed.

Lemma disk_network f n : configured f n -> n = net.
Proof.
  intros (c & hosts & devices & Hc & Hh & Hd & ->). rewrite disk_read in Hc. injection Hc as <-.
  destruct disk_endpoints as [Hh' Hd']. rewrite Hh in Hh'. rewrite Hd in Hd'. by simplify_eq.
Qed.

Lemma net_ordinary e : e ∈ TlMessages.hosts net -> ordinary 200 net e.
Proof.
  intros ->%list_elem_of_singleton. split; [lia| |by vm_compute].
  split; [done| |by vm_compute|by vm_compute]. intros d ->%list_elem_of_singleton. by vm_compute.
Qed.

Lemma disk_ordinary f : tester_ordinary 200 [no_traffic] f.
Proof.
  intros n ->%disk_network. split; [exact net_ordinary|].
  intros test ->%list_elem_of_singleton. apply run_kept, net_ordinary.
Qed.

Lemma ports_quiet : quiet network_ports.
Proof. intros i l Hl. destruct i as [|[]]; [|done..]. by injection Hl as <-. Qed.

Lemma offered_legal x beat :
  offers_legal x -> summary x = (net, Some beat) -> legal_beat net host_endpoint beat.
Proof.
  intros Hx [= Hnet Hd Hb]. unfold offered in Hb.
  destruct (host_ports (TileLinkSimulation.under_test x) !! 0%nat) as [l|] eqn:Hl; [|done].
  destruct (valid (link_a l)) eqn:Hv; [|done]. injection Hb as <-.
  destruct (TileLinkSimulation.hosts x) as [|h hs] eqn:Hh; [done|]. injection Hnet as Heq Hnone.
  destruct (Hx 0%nat h l) as [Hbeat _]; [by rewrite Hh|done|]. specialize (Hbeat Hv).
  unfold TileLinkSimulation.endpoints in Hbeat. rewrite Hh, Hd in Hbeat. cbn [map] in Hbeat.
  by rewrite Heq, Hnone in Hbeat.
Qed.


End TrafficExample.
