(* ===== verification/TlTestsTheorems.v ===== *)
(** * The directed tests on a crossbar

    A network for the default configuration: every request goes to the device of its
    address and every response to the host of its source, and a checker of
    [TlAssertions] watches each port. The whole program is run on it. *)

From S2P Require Import Prelude Exceptions Text MainMemory ArgumentParser BinaryParser Simulation.
From S2P Require Import TileLink TlEndpoint TlMessages TlChannels TlConfig TlHarness TlMain.
From S2P Require Import TlAssertions TlTests.
From Stdlib Require Import Ascii.

Open Scope Z_scope.

Module Crossbar.

(** A checker: the protocol and the type of its port, and its state. *)
Record checker : Type := Checker {
  port_protocol : tl_protocol_e;
  port_type : Assertions.endpoint_type;
  state : Assertions.monitor;
}.

(** The clock, the identifiers of the hosts, the checkers of the ports of hosts and
    devices, and whether one of their assertions has failed. *)
Record crossbar : Type := State {
  clock : Z;
  identifiers : list (Z * Z);
  checkers : list checker;
  failed : bool;
}.

Abbreviation t := (dut crossbar).

(** *** Routes *)

Definition target (b : tl_a) : nat := Z.to_nat (a_address b / 0x10000000).

(** The index of the first element with a property. *)
Fixpoint find_index {A} (f : A -> bool) (l : list A) : option nat :=
  match l with
  | [] => None
  | a :: l => if f a then Some O else S <$> find_index f l
  end.

(** The host whose request device [j] gets, and the device whose response host [i] gets. *)
Definition requester (hs : list links) (j : nat) : option nat :=
  find_index (fun l => valid (link_a l) && (target (data (link_a l)) =? j)%nat) hs.
Definition owns (ids : Z * Z) (source : Z) : bool := (fst ids <=? source) && (source <=? snd ids).
Definition responder (ds : list links) (ids : Z * Z) : option nat :=
  find_index (fun l => valid (link_d l) && owns ids (d_source (data (link_d l)))) ds.

Definition chosen (o : option nat) (i : nat) : bool := bool_decide (o = Some i).

(** The signals that the network drives at a host and at a device. *)
Definition drive_host (ids : list (Z * Z)) (hs ds : list links) (i : nat) (l : links) : links :=
  let dest := target (data (link_a l)) in
  let accepting := match ds !! dest with
                   | Some dl => chosen (requester hs dest) i && ready (link_a dl)
                   | None => false
                   end in
  let l := set_link_a (set_ready accepting (link_a l)) l in
  let owned := default (0, -1) (ids !! i) in
  match responder ds owned ≫= (fun j => ds !! j) with
  | Some dl => set_link_d (Wires true (ready (link_d l)) (data (link_d dl))) l
  | None => set_link_d (set_valid false (link_d l)) l
  end.

Definition drive_device (ids : list (Z * Z)) (hs ds : list links) (j : nat) (l : links) : links :=
  let l := match requester hs j ≫= (fun i => hs !! i) with
           | Some hl => set_link_a (Wires true (ready (link_a l)) (data (link_a hl))) l
           | None => set_link_a (set_valid false (link_a l)) l
           end in
  let dest := find_index (fun owned => owns owned (d_source (data (link_d l)))) ids in
  let accepting := match dest ≫= (fun i => hs !! i), dest with
                   | Some hl, Some i =>
                       chosen (responder ds (default (0, -1) (ids !! i))) j && ready (link_d hl)
                   | _, _ => false
                   end in
  set_link_d (set_ready accepting (link_d l)) l.

Definition route (x : t) : t :=
  let ids := identifiers (rtl x) in
  Dut (imap (drive_host ids (host_ports x) (device_ports x)) (host_ports x))
    (imap (drive_device ids (host_ports x) (device_ports x)) (device_ports x)) (rtl x).

(** *** The checkers *)

Definition observe (l : links) (c : checker) : checker :=
  Checker (port_protocol c) (port_type c) (Assertions.clock_edge 8 l (state c)).
Definition passes (c : checker) : bool :=
  Assertions.width_passes 8 && Assertions.monitor_passes (port_protocol c) 8 (port_type c) (state c).

(** At a rising edge the checkers see what is accepted. *)
Definition sample (x : t) : t :=
  let r := rtl x in
  if clock r =? 1 then
    let cs := zip_with observe (host_ports x ++ device_ports x) (checkers r) in
    Dut (host_ports x) (device_ports x)
      (State (clock r) (identifiers r) cs (failed r || negb (forallb passes cs)))
  else x.

(** At the end no request must be left. *)
Definition conclude (x : t) : t :=
  let r := rtl x in
  Dut (host_ports x) (device_ports x)
    (State (clock r) (identifiers r) (checkers r)
       (failed r || negb (forallb (fun c => Assertions.none_outstanding (state c)) (checkers r)))).

#[export] Instance crossbar_wrapper : Wrapper crossbar := {
  eval x := route (sample x);
  final := conclude;
  set_clk_i v x := Dut (host_ports x) (device_ports x)
    (State v (identifiers (rtl x)) (checkers (rtl x)) (failed (rtl x)));
  set_rst_ni _ x := x;
}.

(** The network of the default configuration: three hosts and three devices. *)
Definition network_under_test : t :=
  Dut (repeat Assertions.no_links 3) (repeat Assertions.no_links 3)
    (State 0 [(0, 3); (4, 5); (6, 7)]
       (map (fun p => Checker p Assertions.Host Assertions.reset_monitor) [TL_C; TL_C; TL_UL]
        ++ map (fun p => Checker p Assertions.Device Assertions.reset_monitor) [TL_C; TL_UH; TL_UL]) false).

(** *** The default configuration *)

(** [configs/default/config.yaml], without its comments. *)
Definition default_config : string :=
  foldr (fun l s => l +:+ String "010"%char s) EmptyString
  [ "hosts:";
    "  - Protocol:  TL-C"; "    DataWidth: 64"; "    FirstID:   0"; "    LastID:    3";
    "    MaxSize:   5"; "    Fifo:      0"; "    CanDeny:   1"; "";
    "  - Protocol:  TL-C"; "    DataWidth: 64"; "    FirstID:   4"; "    LastID:    5";
    "    MaxSize:   5"; "    Fifo:      0"; "    CanDeny:   1"; "";
    "  - Protocol:  TL-UL"; "    DataWidth: 64"; "    FirstID:   6"; "    LastID:    7";
    "    MaxSize:   5"; "    Fifo:      1"; "    CanDeny:   1"; "";
    "devices:";
    "  - Protocol:  TL-C"; "    DataWidth: 64"; "    FirstID:   0"; "    LastID:    3";
    "    MaxSize:   5"; "    Fifo:      0"; "    CanDeny:   1";
    "    SourceBase: 4 6"; "    SourceMask: 0x1 0x1"; "    SourceTarget: 1 2"; "";
    "  - Protocol:  TL-UH"; "    DataWidth: 64"; "    FirstID:   4"; "    LastID:    5";
    "    MaxSize:   5"; "    Fifo:      0"; "    CanDeny:   1";
    "    SourceBase: 4 6"; "    SourceMask: 0x19 0x19"; "    SourceTarget: 1 2"; "";
    "  - Protocol:  TL-UL"; "    DataWidth: 64"; "    FirstID:   6"; "    LastID:    7";
    "    MaxSize:   5"; "    Fifo:      1"; "    CanDeny:   1";
    "    SourceBase: 4 6"; "    SourceMask: 0x79 0x79"; "    SourceTarget: 1 2" ].

#[export] Instance disk : FileSystem := { file_content _ := Some (BinaryParser.bytes_of_string default_config) }.

Section run.

Context {G : Type} `{Random G} `{Seed G} `{Indeterminate} `{TraceFormats}.

(** The program with the number of a test. *)
Definition run_test (number : string) (g : G) : outcome exn Z * Tester.tester crossbar G :=
  Tester.main 200 (TlTests.tests 200) 2 ["tilelink"; number]%string network_under_test g.

(** How the program ends, and whether an assertion has failed. *)
Definition verdict (number : string) (g : G) : outcome exn Z * bool :=
  let r := run_test number g in
  (fst r, failed (rtl (TileLinkSimulation.under_test (Tester.sim (snd r))))).

(** The verdicts on a list of tests. *)
Definition verdicts (numbers : list string) (g : G) : list (outcome exn Z * bool) :=
  map (fun n => verdict n g) numbers.

End run.

(** A test draws no random numbers, so the verdict is the same for all generators;
    the trace formats are not used without a file name. *)
Ltac run_tests := vm_compute; reflexivity.

(** A build without waveforms. *)
Definition no_traces : TraceFormats := {| VCD_ENABLE := false; FST_ENABLE := false |}.

Lemma passing_verdicts {G} `{Random G} `{Seed G} `{Indeterminate} {formats : TraceFormats} (g : G) :
  verdicts ["1"; "2"; "3"; "4"; "7"]%string g = repeat (Ok 0, false) 5.
Proof. destruct formats as [[] []]; run_tests. Qed.

End Crossbar.


